(** * Ledger and settlement engine of the expense backend

    A shallow embedding of the three pure helpers of the backend,

    - [calculateSplits]   (expense service),
    - [calculateBalances] (balance service),
    - [minimizeCashFlow]  (balance service),

    together with the request validation of the [createExpense] controller,
    and the code around them: the reports of the balance service
    ([getGroupBalances], [getUserBalances]), the balance between two users
    of the balance controller, the update of an expense ([updateExpense] in
    the controller and in the service), and the settlement code
    ([createSettlement], [getSettlementSuggestions]).

    JavaScript numbers are IEEE 754 binary64 values: they are modelled by
    Rocq's primitive [float]s, so every arithmetic operation below rounds
    exactly as it does in the running program. *)

From Stdlib Require Import ZArith List String Bool Lia Uint63 Floats Permutation.
Import ListNotations.

Set Warnings "-inexact-float".
Local Open Scope float_scope.

(** ** JavaScript numbers and the built-ins the helpers call *)

Module JS.

Definition number := float.

(** An array length or index as a number. *)
Definition of_nat (n : nat) : number := of_uint63 (Uint63.of_Z (Z.of_nat n)).

(** A non-negative integer below 2^53 as a number (exact). *)
Definition of_Z63 (n : Z) : number := of_uint63 (Uint63.of_Z n).

(** [a > b], [a < b], [a !== b], [a <= b] on numbers. *)
Definition gt (a b : number) : bool := b <? a.
Definition lt (a b : number) : bool := a <? b.
Definition le (a b : number) : bool := a <=? b.
Definition strict_neq (a b : number) : bool := negb (a =? b).

(** [isNaN(a)]. *)
Definition isNaN (a : number) : bool := is_nan a.

(** [Math.abs]. *)
Definition abs (a : number) : number := PrimFloat.abs a.

(** [Math.min] of two numbers: NaN when either is NaN, and -0 below +0. *)
Definition min (a b : number) : number :=
  if is_nan a || is_nan b then nan
  else if a <? b then a
  else if b <? a then b
  else if get_sign a then a else b.

(** The integer [n] for which [n / 100 - m * 2^e] is closest to zero, the
    larger one when there are two (step 5 of Number.prototype.toFixed). *)
Definition half_up_hundredths (m : positive) (e : Z) : Z :=
  if (0 <=? e)%Z then (100 * Zpos m * 2 ^ e)%Z
  else ((200 * Zpos m + 2 ^ (- e)) / 2 ^ (- e + 1))%Z.

(** [parseFloat(x.toFixed(2))].

    [toFixed] prints NaN and the infinities as themselves and a number of
    magnitude 1e21 or more in exponential notation, which reads back as
    the same number.  Otherwise it prints the sign and the decimal digits
    of [half_up_hundredths]; [parseFloat] reads them back as the nearest
    double, which is the correctly rounded quotient by 100 as long as the
    integer is below 2^53.  From 2^46 on the doubles are at least 1/64
    apart, so the nearest double to the printed decimal is the number
    itself. *)
Definition toFixed2 (x : number) : number :=
  match Prim2SF x with
  | S754_finite s m e =>
      if 0x1p46 <=? PrimFloat.abs x then x
      else
        let r := of_Z63 (half_up_hundredths m e) / 100 in
        if s then - r else r
  | S754_zero _ => 0
  | _ => x
  end.

(** [parseFloat(x)] of a value that is already a number: it is printed and
    read back, which only changes -0 (printed as "0"). *)
Definition parseFloat (x : number) : number :=
  if is_zero x then 0 else x.

End JS.

(** ** Results of fallible calls *)

(** The [AppError]s the helpers and the controller throw, by kind. *)
Inductive AppError : Type :=
| MissingRequiredFields     (* 'Missing required fields', 400 *)
| InvalidAmount             (* 'Amount must be a positive number', 400 *)
| EmptyParticipantSet       (* 'At least one user must be included in the split', 400 *)
| InvalidSplitType          (* 'Invalid split type. Must be EQUAL, EXACT, or PERCENTAGE', 400 *)
| NotAMember                (* 'You are not a member of this group', 403 *)
| NonMemberParticipant      (* 'One or more users are not members of this group', 400 *)
| SplitSumMismatch (total amount : JS.number)
| PercentageSumMismatch (total : JS.number).

Inductive Result (A : Type) : Type :=
| Ok (a : A)
| Throw (e : AppError).
Arguments Ok {A} a.
Arguments Throw {A} e.

(** ** The expense service: [calculateSplits] *)

Module ExpenseService.

(** An element of [splitBetween]: the fields the three policies read. *)
Record Participant : Type := mkParticipant {
  p_userId : string;
  p_amount : JS.number;
  p_percentage : JS.number
}.

(** An element of the returned [splits] array; only the PERCENTAGE policy
    stores a percentage. *)
Record Split : Type := mkSplit {
  s_userId : string;
  s_amount : JS.number;
  s_percentage : option JS.number
}.

(** An element that only names a user; the fields it lacks read as
    [undefined], which arithmetic turns into NaN. *)
Definition participant (u : string) : Participant := mkParticipant u nan nan.

(** The EQUAL case: [forEach((split, index) => splits.push(...))]. *)
Definition equalSplits (amount : JS.number) (splitBetween : list Participant)
  : list Split :=
  let len := List.length splitBetween in
  let splitAmount := JS.toFixed2 (amount / JS.of_nat len) in
  let lastAmount := amount - splitAmount * (JS.of_nat len - 1) in
  fst (fold_left
         (fun (acc : list Split * nat) split =>
            let (splits, index) := acc in
            let isLast := (Z.of_nat index =? Z.of_nat len - 1)%Z in
            (splits ++ [mkSplit (p_userId split)
                          (if isLast then JS.toFixed2 lastAmount else splitAmount)
                          None],
             S index))
         splitBetween ([], 0%nat)).

(** The EXACT case: the loop accumulates [totalAmount] and copies the
    amounts; the check comes after the loop. *)
Definition exactLoop (splitBetween : list Participant)
  : list Split * JS.number :=
  fold_left
    (fun (acc : list Split * JS.number) split =>
       let (splits, totalAmount) := acc in
       (splits ++ [mkSplit (p_userId split) (p_amount split) None],
        totalAmount + p_amount split))
    splitBetween ([], 0).

(** The PERCENTAGE case. *)
Definition percentageLoop (amount : JS.number) (splitBetween : list Participant)
  : list Split * JS.number :=
  fold_left
    (fun (acc : list Split * JS.number) split =>
       let (splits, totalPercentage) := acc in
       let splitAmount := JS.toFixed2 ((amount * p_percentage split) / 100) in
       (splits ++ [mkSplit (p_userId split) splitAmount (Some (p_percentage split))],
        totalPercentage + p_percentage split))
    splitBetween ([], 0).

Definition calculateSplits (amount : JS.number) (splitType : string)
           (splitBetween : list Participant) : Result (list Split) :=
  if String.eqb splitType "EQUAL" then
    Ok (equalSplits amount splitBetween)
  else if String.eqb splitType "EXACT" then
    let (splits, totalAmount) := exactLoop splitBetween in
    if JS.strict_neq totalAmount amount
    then Throw (SplitSumMismatch totalAmount amount)
    else Ok splits
  else if String.eqb splitType "PERCENTAGE" then
    let (splits, totalPercentage) := percentageLoop amount splitBetween in
    if JS.strict_neq totalPercentage 100
    then Throw (PercentageSumMismatch totalPercentage)
    else Ok splits
  else Throw InvalidSplitType.

(** The service's [createExpense] up to the computation of the splits.
    The two membership queries go to the database; their answers are
    parameters here. *)
Definition createExpense (isMember allParticipantsMembers : bool)
           (amount : JS.number) (splitType : string)
           (splitBetween : list Participant) : Result (list Split) :=
  if negb (String.eqb splitType "EQUAL" || String.eqb splitType "EXACT"
           || String.eqb splitType "PERCENTAGE")
  then Throw InvalidSplitType
  else if negb isMember then Throw NotAMember
  else if negb allParticipantsMembers then Throw NonMemberParticipant
  else calculateSplits amount splitType splitBetween.

End ExpenseService.

(** ** The expense controller: validation in front of the service *)

Module ExpenseController.
Import ExpenseService.

(** The fields of the request body the controller reads.  [splitBetween]
    is [None] when the field is absent; an empty string is an absent
    [groupId], [description] or [splitType]. *)
Record Body : Type := mkBody {
  groupId : string;
  description : string;
  amount : JS.number;
  splitType : string;
  splitBetween : option (list Participant)
}.

Definition falsy_string (s : string) : bool := String.eqb s "".
Definition falsy_number (a : JS.number) : bool := is_zero a || is_nan a.

Definition createExpense (isMember allParticipantsMembers : bool) (body : Body)
  : Result (list Split) :=
  match splitBetween body with
  | None => Throw MissingRequiredFields
  | Some participants =>
      if falsy_string (groupId body) || falsy_string (description body)
         || falsy_number (amount body) || falsy_string (splitType body)
      then Throw MissingRequiredFields
      else if JS.isNaN (amount body) || JS.le (amount body) 0
      then Throw InvalidAmount
      else if (List.length participants =? 0)%nat
      then Throw EmptyParticipantSet
      else ExpenseService.createExpense isMember allParticipantsMembers
             (JS.parseFloat (amount body)) (splitType body) participants
  end.

End ExpenseController.

(** ** The balance service: [calculateBalances] and [minimizeCashFlow] *)

Module BalanceService.

(** A JavaScript [Map] from user ids to numbers.  A [Map] iterates in
    insertion order and [set] on a present key keeps the key's place, so
    it is an association list with distinct keys. *)
Definition NumMap := list (string * JS.number).

Fixpoint map_get (k : string) (m : NumMap) : option JS.number :=
  match m with
  | [] => None
  | (k', v) :: m' => if String.eqb k' k then Some v else map_get k m'
  end.

Definition map_has (k : string) (m : NumMap) : bool :=
  match map_get k m with Some _ => true | None => false end.

Fixpoint map_set (k : string) (v : JS.number) (m : NumMap) : NumMap :=
  match m with
  | [] => [(k, v)]
  | (k', v') :: m' =>
      if String.eqb k' k then (k, v) :: m' else (k', v') :: map_set k v m'
  end.

(** [balances.get(k)] where the code uses it as a number: a missing key
    gives [undefined], which arithmetic turns into NaN. *)
Definition map_get_number (k : string) (m : NumMap) : JS.number :=
  match map_get k m with Some v => v | None => nan end.

(** The fields of an expense and of its splits that the fold reads. *)
Record ExpenseSplit : Type := mkExpenseSplit {
  es_userId : string;
  es_amount : JS.number
}.

Record Expense : Type := mkExpense {
  e_paidById : string;
  e_amount : JS.number;
  e_splits : list ExpenseSplit
}.

(** [if (!balances.has(k)) balances.set(k, 0)]. *)
Definition ensure (k : string) (balances : NumMap) : NumMap :=
  if map_has k balances then balances else map_set k 0 balances.

(** The body of the inner [forEach]: debit one participant. *)
Definition debit (balances : NumMap) (split : ExpenseSplit) : NumMap :=
  let userId := es_userId split in
  let amount := JS.parseFloat (es_amount split) in
  let balances := ensure userId balances in
  map_set userId (map_get_number userId balances - amount) balances.

(** The body of the outer [forEach]: credit the payer, debit the splits. *)
Definition addExpense (balances : NumMap) (expense : Expense) : NumMap :=
  let paidBy := e_paidById expense in
  let totalAmount := JS.parseFloat (e_amount expense) in
  let balances := ensure paidBy balances in
  let balances :=
    map_set paidBy (map_get_number paidBy balances + totalAmount) balances in
  fold_left debit (e_splits expense) balances.

Definition calculateBalances (expenses : list Expense) : NumMap :=
  fold_left addExpense expenses [].

(** An element of [balanceList] and of the working array. *)
Record Balance : Type := mkBalance {
  b_userId : string;
  b_amount : JS.number
}.

Record Transaction : Type := mkTransaction {
  t_from : string;
  t_to : string;
  t_amount : JS.number
}.

(** [arr[i]]; the loop only reads indices that [reduce] returned, which
    are in range, so the default is never used there. *)
Definition at_index (arr : list Balance) (i : nat) : Balance :=
  nth i arr (mkBalance "" nan).

Definition indexed (arr : list Balance) : list (nat * Balance) :=
  combine (seq 0 (List.length arr)) arr.

(** [arr.reduce((maxIdx, user, idx, arr) =>
      user.amount > arr[maxIdx].amount ? idx : maxIdx, 0)]. *)
Definition maxCreditIndex (arr : list Balance) : nat :=
  fold_left
    (fun maxIdx (ix : nat * Balance) =>
       if JS.gt (b_amount (snd ix)) (b_amount (at_index arr maxIdx))
       then fst ix else maxIdx)
    (indexed arr) 0%nat.

(** [arr.reduce((minIdx, user, idx, arr) =>
      user.amount < arr[minIdx].amount ? idx : minIdx, 0)]. *)
Definition maxDebitIndex (arr : list Balance) : nat :=
  fold_left
    (fun minIdx (ix : nat * Balance) =>
       if JS.lt (b_amount (snd ix)) (b_amount (at_index arr minIdx))
       then fst ix else minIdx)
    (indexed arr) 0%nat.

(** Assignment to the [amount] field of the object at index [i]. *)
Fixpoint set_amount (i : nat) (v : JS.number) (arr : list Balance) : list Balance :=
  match arr, i with
  | [], _ => []
  | b :: rest, O => mkBalance (b_userId b) v :: rest
  | b :: rest, S j => b :: set_amount j v rest
  end.

(** [arr.splice(i, 1)]: nothing is removed when [i] is out of range. *)
Fixpoint splice1 {A : Type} (i : nat) (arr : list A) : list A :=
  match arr, i with
  | [], _ => []
  | _ :: rest, O => rest
  | b :: rest, S j => b :: splice1 j rest
  end.

(** [Math.min(Math.abs(maxCredit.amount), Math.abs(maxDebit.amount))]. *)
Definition minAmountOf (arr : list Balance) : JS.number :=
  JS.min (JS.abs (b_amount (at_index arr (maxCreditIndex arr))))
         (JS.abs (b_amount (at_index arr (maxDebitIndex arr)))).

(** The object pushed on [transactions]. *)
Definition recordedTransaction (arr : list Balance) : Transaction :=
  mkTransaction (b_userId (at_index arr (maxDebitIndex arr)))
                (b_userId (at_index arr (maxCreditIndex arr)))
                (JS.toFixed2 (minAmountOf arr)).

(** [maxCredit.amount -= minAmount; maxDebit.amount += minAmount;]
    [maxCredit] and [maxDebit] are references to elements of the array:
    when both indices are equal they are the same object, so the second
    assignment reads what the first one wrote. *)
Definition updateBalances (arr : list Balance) : list Balance :=
  let maxCreditIdx := maxCreditIndex arr in
  let maxDebitIdx := maxDebitIndex arr in
  let minAmount := minAmountOf arr in
  let arr1 :=
    set_amount maxCreditIdx (b_amount (at_index arr maxCreditIdx) - minAmount) arr in
  set_amount maxDebitIdx (b_amount (at_index arr1 maxDebitIdx) + minAmount) arr1.

(** The two conditional [splice] calls; both tests read the amounts
    after both assignments. *)
Definition removeSettled (maxCreditIdx maxDebitIdx : nat) (arr : list Balance)
  : list Balance :=
  let creditSettled := JS.lt (JS.abs (b_amount (at_index arr maxCreditIdx))) 0.01 in
  let debitSettled := JS.lt (JS.abs (b_amount (at_index arr maxDebitIdx))) 0.01 in
  let arr' := if creditSettled then splice1 maxCreditIdx arr else arr in
  if debitSettled then
    let removalIdx :=
      if (maxCreditIdx <? maxDebitIdx)%nat && creditSettled
      then (maxDebitIdx - 1)%nat else maxDebitIdx in
    splice1 removalIdx arr'
  else arr'.

(** One pass through the body of the [while] loop. *)
Definition iteration (st : list Balance * list Transaction)
  : list Balance * list Transaction :=
  let (nonZeroBalances, transactions) := st in
  (removeSettled (maxCreditIndex nonZeroBalances) (maxDebitIndex nonZeroBalances)
     (updateBalances nonZeroBalances),
   transactions ++ [recordedTransaction nonZeroBalances]).

(** [while (nonZeroBalances.length > 1) { ... }] with a bound on the
    number of passes: [None] when the bound is reached with the loop
    still running. *)
Fixpoint while_loop (fuel : nat) (st : list Balance * list Transaction)
  : option (list Transaction) :=
  if (List.length (fst st) <=? 1)%nat then Some (snd st)
  else match fuel with
       | O => None
       | S fuel' => while_loop fuel' (iteration st)
       end.

(** The state before the loop: every balance rounded to two decimals,
    then those with [Math.abs(amount) > 0.01] kept. *)
Definition initialState (balances : NumMap) : list Balance * list Transaction :=
  let balanceList :=
    map (fun (entry : string * JS.number) =>
           mkBalance (fst entry) (JS.toFixed2 (snd entry))) balances in
  let nonZeroBalances :=
    filter (fun user => JS.gt (JS.abs (b_amount user)) 0.01) balanceList in
  (nonZeroBalances, []).

Definition minimizeCashFlow (fuel : nat) (balances : NumMap)
  : option (list Transaction) :=
  while_loop fuel (initialState balances).

(** The state after [n] passes through the loop body, for as long as the
    loop condition holds. *)
Fixpoint run (n : nat) (st : list Balance * list Transaction)
  : list Balance * list Transaction :=
  match n with
  | O => st
  | S n' =>
      if (List.length (fst st) <=? 1)%nat then st else run n' (iteration st)
  end.

(** The pass on [arr] pairs a credit with a debt: the amount of the
    selected creditor is finite and above zero, that of the selected debtor
    is finite and below zero. *)
Definition opposed (arr : list Balance) : Prop :=
  JS.gt (b_amount (at_index arr (maxCreditIndex arr))) 0 = true
  /\ JS.lt (b_amount (at_index arr (maxDebitIndex arr))) 0 = true
  /\ is_finite (b_amount (at_index arr (maxCreditIndex arr))) = true
  /\ is_finite (b_amount (at_index arr (maxDebitIndex arr))) = true.

(** The call never returns: the loop is still running after any number
    of passes. *)
Definition diverges (balances : NumMap) : Prop :=
  forall fuel, minimizeCashFlow fuel balances = None.

(** Left-to-right sums, as [reduce((s, x) => s + x, 0)] computes them. *)
Definition sum (l : list JS.number) : JS.number := fold_left PrimFloat.add l 0.

(** What the transfers of a list bring to, and take from, one user. *)
Definition received (u : string) (txs : list Transaction) : JS.number :=
  sum (map t_amount (filter (fun t => String.eqb (t_to t) u) txs)).

Definition sent (u : string) (txs : list Transaction) : JS.number :=
  sum (map t_amount (filter (fun t => String.eqb (t_from t) u) txs)).

(** The sum of the balances of a map, and of the working array. *)
Definition total (balances : NumMap) : JS.number := sum (map snd balances).

Definition workingTotal (arr : list Balance) : JS.number := sum (map b_amount arr).

(** How the splits of the expense service reach the balance service:
    the expense is stored with its payer, amount and splits. *)
Definition storedExpense (paidBy : string) (amount : JS.number)
           (splits : list ExpenseService.Split) : Expense :=
  mkExpense paidBy amount
    (map (fun s => mkExpenseSplit (ExpenseService.s_userId s)
                                  (ExpenseService.s_amount s)) splits).

End BalanceService.

(** ** The words of the specification *)

Module Spec.

(** "truncating each of the first N-1 shares to 2 decimal places": the
    largest multiple of 0.01 that does not exceed a non-negative [x], as
    the double nearest to it. *)
Definition truncate2 (x : JS.number) : JS.number :=
  match Prim2SF x with
  | S754_finite false m e =>
      let n := if (0 <=? e)%Z then (100 * Zpos m * 2 ^ e)%Z
               else ((100 * Zpos m) / 2 ^ (- e))%Z in
      JS.of_Z63 n / 100
  | _ => x
  end.

(** The number a decimal literal with two decimals denotes. *)
Definition decimal2 (cents : Z) : JS.number := JS.of_Z63 cents / 100.

End Spec.

(** ** Whole-number amounts

    Doubles represent the integers below 2^53 exactly, and sums and
    differences of such integers are computed without rounding.  The
    definitions below name these doubles and the integer-side quantities
    the theorems compare the program with. *)

Module Units.
Import BalanceService.

(** The double of an integer. *)
Definition units (z : Z) : JS.number :=
  if (z <? 0)%Z then - JS.of_Z63 (- z) else JS.of_Z63 z.

(** A map of balances, a working array and a transfer list whose amounts
    are whole numbers. *)
Definition balances (zs : list (string * Z)) : NumMap :=
  map (fun e => (fst e, units (snd e))) zs.

Definition working (zs : list (string * Z)) : list Balance :=
  map (fun e => mkBalance (fst e) (units (snd e))) zs.

Definition transfer (t : string * string * Z) : Transaction :=
  mkTransaction (fst (fst t)) (snd (fst t)) (units (snd t)).

(** An expense with whole-number amounts: payer, amount, splits. *)
Definition expense (e : string * Z * list (string * Z)) : Expense :=
  mkExpense (fst (fst e)) (units (snd (fst e)))
    (map (fun s => mkExpenseSplit (fst s) (units (snd s))) (snd e)).

Definition sumZ (l : list Z) : Z := fold_right Z.add 0%Z l.

(** The total of the absolute values. *)
Definition magnitude (zs : list (string * Z)) : Z :=
  sumZ (map (fun e => Z.abs (snd e)) zs).

(** What one user is owed, and owes, in a list of balances. *)
Definition owed (u : string) (zs : list (string * Z)) : Z :=
  sumZ (map (fun e => if String.eqb (fst e) u then Z.max (snd e) 0 else 0%Z) zs).

Definition owes (u : string) (zs : list (string * Z)) : Z :=
  sumZ (map (fun e => if String.eqb (fst e) u then Z.max (- snd e) 0 else 0%Z) zs).

(** What a list of transfers brings to, and takes from, one user. *)
Definition receivedZ (u : string) (ts : list (string * string * Z)) : Z :=
  sumZ (map (fun t => if String.eqb (snd (fst t)) u then snd t else 0%Z) ts).

Definition sentZ (u : string) (ts : list (string * string * Z)) : Z :=
  sumZ (map (fun t => if String.eqb (fst (fst t)) u then snd t else 0%Z) ts).

(** The amounts an expense moves. *)
Definition expenseMagnitude (e : string * Z * list (string * Z)) : Z :=
  (Z.abs (snd (fst e)) + magnitude (snd e))%Z.

(** A working array of the loop on a zero-sum input: no amount is 0, the
    amounts sum to 0, and their absolute values add up to less than 2^53. *)
Definition settling (zs : list (string * Z)) : Prop :=
  Forall (fun e => snd e <> 0%Z) zs
  /\ sumZ (map snd zs) = 0%Z
  /\ (magnitude zs < 2 ^ 53)%Z.

(** Every amount is below 2^53 in absolute value. *)
Definition bounded (zs : list (string * Z)) : Prop :=
  Forall (fun e => (Z.abs (snd e) < 2 ^ 53)%Z) zs.

(** The default entry when a position of an integer list is read. *)
Definition nobody : string * Z := (EmptyString, 0%Z).

(** The entries a pass keeps: [keep e] is empty when the amount is 0. *)
Definition keep (e : string * Z) : list (string * Z) :=
  if (snd e =? 0)%Z then [] else [e].

(** Adding [d] to the balance of [k] in an integer map. *)
Fixpoint addZ (k : string) (d : Z) (zs : list (string * Z)) : list (string * Z) :=
  match zs with
  | [] => [(k, d)]
  | (k', v) :: zs' =>
      if String.eqb k' k then (k, (v + d)%Z) :: zs' else (k', v) :: addZ k d zs'
  end.

(** [calculateBalances] on integers: the fold the program is compared with
    on whole-number amounts. *)
Definition debitZ (zs : list (string * Z)) (s : string * Z) : list (string * Z) :=
  addZ (fst s) (- snd s)%Z zs.

Definition addExpenseZ (zs : list (string * Z)) (e : string * Z * list (string * Z))
  : list (string * Z) :=
  fold_left debitZ (snd e) (addZ (fst (fst e)) (snd (fst e)) zs).

Definition calculateBalancesZ (es : list (string * Z * list (string * Z)))
  : list (string * Z) :=
  fold_left addExpenseZ es [].

(** The number of binary digits of a positive integer, and the
    specification-level double of a non-zero integer below 2^53: a
    53-bit mantissa and the matching exponent. *)
Definition digits (z : Z) : Z := (Z.log2 z + 1)%Z.

Definition canon (s : bool) (z : Z) : spec_float :=
  S754_finite s (Z.to_pos (z * 2 ^ (53 - digits z))) (digits z - 53).

Definition SFunits (z : Z) : spec_float :=
  if (z =? 0)%Z then S754_zero false else canon (z <? 0)%Z (Z.abs z).

End Units.
(** ** The balance service: [getGroupBalances] and [getUserBalances] *)

Module BalanceReports.
Import BalanceService.

(** [a >= b] on numbers. *)
Definition ge (a b : JS.number) : bool := JS.le b a.

(** A row of the user table as the queries select it; only [id] is read. *)
Record User : Type := mkUser {
  u_id : string;
  u_name : string
}.

(** [users.find((u) => u.id === userId)]; [None] is [undefined]. *)
Definition findUser (users : list User) (userId : string) : option User :=
  find (fun u => String.eqb (u_id u) userId) users.

(** An element of [formattedBalances]. *)
Record FormattedBalance : Type := mkFormattedBalance {
  fb_user : option User;
  fb_amount : JS.number;
  fb_type : string
}.

(** The three variables the formatting loop updates. *)
Record Formatting : Type := mkFormatting {
  formattedBalances : list FormattedBalance;
  totalOwed : JS.number;
  totalOwe : JS.number
}.

(** The body of [for (const [userId, amount] of balances.entries())]. *)
Definition formatEntry (users : list User) (st : Formatting)
           (entry : string * JS.number) : Formatting :=
  let user := findUser users (fst entry) in
  let balance := JS.toFixed2 (snd entry) in
  if ge (JS.abs balance) 0.01 then
    mkFormatting
      (formattedBalances st
         ++ [mkFormattedBalance user balance
               (if JS.gt balance 0 then "owed" else "owes")%string])
      (if JS.gt balance 0 then totalOwed st + balance else totalOwed st)
      (if JS.gt balance 0 then totalOwe st else totalOwe st + JS.abs balance)
  else st.

Definition formatBalances (users : list User) (balances : NumMap) : Formatting :=
  fold_left (formatEntry users) balances (mkFormatting [] 0 0).

(** An element of [formattedTransactions]. *)
Record FormattedTransaction : Type := mkFormattedTransaction {
  ft_from : option User;
  ft_to : option User;
  ft_amount : JS.number
}.

Definition formatTransaction (transactionUsers : list User) (txn : Transaction)
  : FormattedTransaction :=
  mkFormattedTransaction (findUser transactionUsers (t_from txn))
                         (findUser transactionUsers (t_to txn))
                         (t_amount txn).

(** The object [getGroupBalances] returns. *)
Record GroupBalances : Type := mkGroupBalances {
  gb_balances : list FormattedBalance;
  gb_transactions : list FormattedTransaction;
  gb_totalOwed : JS.number;
  gb_totalOwe : JS.number
}.

(** [getGroupBalances].  The answers of the four queries are parameters:
    the membership row, the expenses of the group and the two user
    lists.  [None]: the call to [minimizeCashFlow] is still running when
    the fuel is used up. *)
Definition getGroupBalances (fuel : nat) (isMember : bool)
           (expenses : list Expense) (users transactionUsers : list User)
  : option (Result GroupBalances) :=
  if negb isMember then Some (Throw NotAMember)
  else
    let balances := calculateBalances expenses in
    let formatted := formatBalances users balances in
    match minimizeCashFlow fuel balances with
    | None => None
    | Some transactions =>
        Some (Ok (mkGroupBalances
                    (formattedBalances formatted)
                    (map (formatTransaction transactionUsers) transactions)
                    (JS.toFixed2 (totalOwed formatted))
                    (JS.toFixed2 (totalOwe formatted))))
    end.

(** A membership row with its group, and the expenses the query of the
    loop body returns for that group. *)
Record Membership : Type := mkMembership {
  m_groupId : string;
  m_groupName : string;
  m_expenses : list Expense
}.

(** An element of [groupBalances]. *)
Record GroupBalance : Type := mkGroupBalance {
  g_groupId : string;
  g_groupName : string;
  g_amount : JS.number;
  g_type : string
}.

Record UserTotals : Type := mkUserTotals {
  groupBalances : list GroupBalance;
  ut_totalOwed : JS.number;
  ut_totalOwe : JS.number
}.

(** [balances.get(userId) || 0]: a missing key, NaN and the two zeros
    give 0. *)
Definition userBalanceIn (userId : string) (expenses : list Expense) : JS.number :=
  match map_get userId (calculateBalances expenses) with
  | Some v => if is_zero v || is_nan v then 0 else v
  | None => 0
  end.

(** The body of [for (const membership of groupMemberships)]. *)
Definition addMembership (userId : string) (st : UserTotals) (membership : Membership)
  : UserTotals :=
  let userBalance := userBalanceIn userId (m_expenses membership) in
  if ge (JS.abs userBalance) 0.01 then
    mkUserTotals
      (groupBalances st
         ++ [mkGroupBalance (m_groupId membership) (m_groupName membership)
               (JS.toFixed2 userBalance)
               (if JS.gt userBalance 0 then "owed" else "owes")%string])
      (if JS.gt userBalance 0 then ut_totalOwed st + userBalance else ut_totalOwed st)
      (if JS.gt userBalance 0 then ut_totalOwe st else ut_totalOwe st + JS.abs userBalance)
  else st.

(** The object [getUserBalances] returns. *)
Record UserBalances : Type := mkUserBalances {
  ub_balances : list GroupBalance;
  ub_totalOwed : JS.number;
  ub_totalOwe : JS.number;
  ub_netBalance : JS.number
}.

Definition getUserBalances (userId : string) (groupMemberships : list Membership)
  : UserBalances :=
  let st := fold_left (addMembership userId) groupMemberships (mkUserTotals [] 0 0) in
  mkUserBalances (groupBalances st)
                 (JS.toFixed2 (ut_totalOwed st))
                 (JS.toFixed2 (ut_totalOwe st))
                 (JS.toFixed2 (ut_totalOwed st - ut_totalOwe st)).

End BalanceReports.

(** ** The balance controller: [getUserBalanceInGroup] *)

Module BalanceController.
Import BalanceService.
Local Open Scope string_scope.

(** A row of the user table as the handler selects it. *)
Record UserDetails : Type := mkUserDetails {
  ud_id : string;
  ud_name : string;
  ud_email : string
}.

(** What the handler reads of a Prisma client: whether
    [groupMember.findFirst] finds a row for a group and a user, the rows
    [expense.findMany] returns for a group, and the row
    [user.findUnique] returns for an id ([None] is [null]). *)
Record PrismaClient : Type := mkPrismaClient {
  groupMember_findFirst : string -> string -> bool;
  expense_findMany : string -> list Expense;
  user_findUnique : string -> option UserDetails
}.

(** What the [catch] block passes to [next]: an [AppError] with its
    message and status code, or the [ReferenceError] the runtime throws
    when an identifier has no binding. *)
Inductive Thrown : Type :=
| ThrownAppError (message : string) (statusCode : Z)
| ThrownReferenceError (identifier : string).

Inductive Handled (A : Type) : Type :=
| Sent (a : A)
| Next (error : Thrown).
Arguments Sent {A} a.
Arguments Next {A} error.

(** [expense.splits.some((split) => split.userId === u)] and
    [expense.splits.find((split) => split.userId === u)]. *)
Definition someSplit (u : string) (expense : Expense) : bool :=
  existsb (fun split => String.eqb (es_userId split) u) (e_splits expense).

Definition findSplit (u : string) (expense : Expense) : option ExpenseSplit :=
  find (fun split => String.eqb (es_userId split) u) (e_splits expense).

(** The callback of [expenses.forEach] in [getUserBalanceInGroup]; the
    state is the pair [(currentUserOwes, otherUserOwes)]. *)
Definition countExpense (currentUserId otherUserId : string)
           (st : JS.number * JS.number) (expense : Expense) : JS.number * JS.number :=
  let (currentUserOwes, otherUserOwes) := st in
  let paidByCurrentUser := String.eqb (e_paidById expense) currentUserId in
  let paidByOtherUser := String.eqb (e_paidById expense) otherUserId in
  if negb paidByCurrentUser && negb paidByOtherUser
     && (negb (someSplit currentUserId expense) || negb (someSplit otherUserId expense))
  then st
  else
    let currentUserSplit := findSplit currentUserId expense in
    let otherUserSplit := findSplit otherUserId expense in
    if paidByCurrentUser then
      match otherUserSplit with
      | Some split => (currentUserOwes, otherUserOwes + JS.parseFloat (es_amount split))
      | None => st
      end
    else if paidByOtherUser then
      match currentUserSplit with
      | Some split => (currentUserOwes + JS.parseFloat (es_amount split), otherUserOwes)
      | None => st
      end
    else st.

(** The [balance] object of the response, and the response data. *)
Record PairBalance : Type := mkPairBalance {
  pb_currentUserOwes : JS.number;
  pb_otherUserOwes : JS.number;
  pb_netBalance : JS.number;
  pb_direction : string;
  pb_amount : JS.number
}.

Record PairData : Type := mkPairData {
  pd_currentUser : option UserDetails;
  pd_otherUser : UserDetails;
  pd_balance : PairBalance
}.

(** The handler.  balance.controller.js requires the balance service and
    [AppError] only: it declares no [prisma], so the identifier is looked
    up in the global scope each time the handler reaches it.  [prisma] is
    that binding: [None] when the global object has no such property, as
    in the program as it is shipped, where no module that is loaded
    creates one; the first use then throws a [ReferenceError], which the
    [catch] block passes to [next] like any other error. *)
Definition getUserBalanceInGroup (prisma : option PrismaClient)
           (groupId otherUserId currentUserId : string) : Handled PairData :=
  if String.eqb groupId "" || String.eqb otherUserId "" then
    Next (ThrownAppError "Group ID and User ID are required" 400)
  else
    match prisma with
    | None => Next (ThrownReferenceError "prisma")
    | Some client =>
        if negb (groupMember_findFirst client groupId currentUserId) then
          Next (ThrownAppError "You are not a member of this group" 403)
        else
          let expenses := expense_findMany client groupId in
          let (currentUserOwes, otherUserOwes) :=
            fold_left (countExpense currentUserId otherUserId) expenses (0, 0) in
          let netBalance := JS.toFixed2 (otherUserOwes - currentUserOwes) in
          let currentUser := user_findUnique client currentUserId in
          match user_findUnique client otherUserId with
          | None => Next (ThrownAppError "User not found" 404)
          | Some otherUser =>
              Sent (mkPairData currentUser otherUser
                      (mkPairBalance
                         (JS.toFixed2 currentUserOwes) (JS.toFixed2 otherUserOwes)
                         netBalance
                         (if JS.gt netBalance 0 then "theyOweYou"
                          else if JS.lt netBalance 0 then "youOweThem" else "settled")
                         (JS.abs netBalance)))
          end
    end.

End BalanceController.

(** ** Quantities the statements about the reports use *)

Module Reports.
Import BalanceService.

(** The users an expense list names, payers and participants. *)
Definition namedUsers (expenses : list Expense) : list string :=
  flat_map (fun e => e_paidById e :: map es_userId (e_splits e)) expenses.

(** The direction of a pair balance seen from the other user. *)
Definition reversed (direction : string) : string :=
  if String.eqb direction "theyOweYou" then "youOweThem"
  else if String.eqb direction "youOweThem" then "theyOweYou"
  else direction.

(** Whether an expense list names a user. *)
Definition names (u : string) (expenses : list Expense) : bool :=
  existsb (String.eqb u) (namedUsers expenses).

(** A pair of totals with the two users exchanged. *)
Definition swapped (st : JS.number * JS.number) : JS.number * JS.number :=
  (snd st, fst st).

End Reports.

(** ** Whole-number ledgers *)

Module WholeLedger.
Import BalanceService Units.

(** The total of the positive balances, and of the negative ones. *)
Definition owedTotal (zs : list (string * Z)) : Z :=
  sumZ (map (fun e => Z.max (snd e) 0) zs).

Definition oweTotal (zs : list (string * Z)) : Z :=
  sumZ (map (fun e => Z.max (- snd e) 0) zs).

(** The balance of one user in an integer map, 0 when the user has none. *)
Definition balanceOf (u : string) (zs : list (string * Z)) : Z :=
  match find (fun e => String.eqb (fst e) u) zs with
  | Some e => snd e
  | None => 0%Z
  end.

(** The line of the group report for one entry of an integer map. *)
Definition reportLine (users : list BalanceReports.User) (e : string * Z)
  : BalanceReports.FormattedBalance :=
  BalanceReports.mkFormattedBalance (BalanceReports.findUser users (fst e))
    (units (snd e)) (if (0 <? snd e)%Z then "owed" else "owes")%string.

(** A membership whose expenses have whole-number amounts: group id,
    group name, expenses. *)
Definition membership (g : string * string * list (string * Z * list (string * Z)))
  : BalanceReports.Membership :=
  BalanceReports.mkMembership (fst (fst g)) (snd (fst g)) (map expense (snd g)).

(** The balance of a user in the group of a membership. *)
Definition balanceIn (u : string) (g : string * string * list (string * Z * list (string * Z)))
  : Z :=
  balanceOf u (calculateBalancesZ (snd g)).

(** The line of the user report for one membership. *)
Definition groupLine (u : string) (g : string * string * list (string * Z * list (string * Z)))
  : BalanceReports.GroupBalance :=
  BalanceReports.mkGroupBalance (fst (fst g)) (snd (fst g)) (units (balanceIn u g))
    (if (0 <? balanceIn u g)%Z then "owed" else "owes")%string.

(** The amounts all the expenses of a membership move. *)
Definition membershipMagnitude (g : string * string * list (string * Z * list (string * Z)))
  : Z :=
  sumZ (map expenseMagnitude (snd g)).

(** What a user is owed, and owes, across memberships. *)
Definition owedAcross (u : string)
           (gs : list (string * string * list (string * Z * list (string * Z)))) : Z :=
  sumZ (map (fun g => Z.max (balanceIn u g) 0) gs).

Definition oweAcross (u : string)
           (gs : list (string * string * list (string * Z * list (string * Z)))) : Z :=
  sumZ (map (fun g => Z.max (- balanceIn u g) 0) gs).

(** Every balance of an integer map is a credit, or every balance is a
    debt. *)
Definition oneSided (zs : list (string * Z)) : Prop :=
  Forall (fun e => (0 < snd e)%Z) zs \/ Forall (fun e => (snd e < 0)%Z) zs.

End WholeLedger.

(** ** Failures of the settlement code *)

(** [new AppError(message, statusCode)]. *)
Record Failure : Type := mkFailure {
  f_message : string;
  f_statusCode : Z
}.

Inductive Outcome (A : Type) : Type :=
| Returns (a : A)
| Throws (e : Failure).
Arguments Returns {A} a.
Arguments Throws {A} e.

(** ** The settlement service: [createSettlement] *)

Module SettlementService.

(** The [data] object the service passes to [prisma.settlement.create]. *)
Record Settlement : Type := mkSettlement {
  st_amount : JS.number;
  st_description : string;
  st_method : string;
  st_paidById : string;
  st_paidToId : string;
  st_groupId : string
}.

(** [createSettlement(userId, { groupId, paidToId, amount, description,
    method })].  The two membership queries are parameters; an absent
    [description] or [method] is the empty string. *)
Definition createSettlement (payerIsMember receiverIsMember : bool)
           (userId groupId paidToId : string) (amount : JS.number)
           (description method : string) : Outcome Settlement :=
  if JS.le amount 0 then
    Throws (mkFailure "Amount must be greater than 0" 400)
  else if negb payerIsMember || negb receiverIsMember then
    Throws (mkFailure "Both users must be members of the group" 400)
  else
    Returns (mkSettlement amount
               (if String.eqb description ""
                then "Settlement from " ++ userId ++ " to " ++ paidToId
                else description)
               (if String.eqb method "" then "CASH" else method)
               userId paidToId groupId).

End SettlementService.

(** ** A field of a JSON request body *)

Module JSON.
Local Open Scope string_scope.

(** The value of a field of [req.body] after the JSON body parser.  An
    object or an array is kept by the text its [toString()] returns, which
    is all the coercions below read of it. *)
Inductive value : Type :=
| JUndefined                      (* the field is absent *)
| JNull
| JBoolean (b : bool)
| JNumber (x : JS.number)
| JString (s : string)
| JObject (toString : string).

(** The two readers of numeric text of the language, taken as parameters:
    [StringToNumber], which [isNaN], [<=] and the other numeric coercions
    apply to a string (the whole text must be a numeric literal; hex, and
    the empty text as 0, are accepted), and [parseFloat] on a string (the
    longest decimal prefix). *)
Record Readers : Type := mkReaders {
  stringToNumber : string -> JS.number;
  parseFloatText : string -> JS.number
}.

(** [!!v]. *)
Definition truthy (v : value) : bool :=
  match v with
  | JUndefined | JNull => false
  | JBoolean b => b
  | JNumber x => negb (is_zero x || is_nan x)
  | JString s => negb (String.eqb s "")
  | JObject _ => true
  end.

(** [ToNumber(v)], which [isNaN(v)] and [v <= 0] apply to [v]. *)
Definition toNumber (r : Readers) (v : value) : JS.number :=
  match v with
  | JUndefined => nan
  | JNull => 0
  | JBoolean b => if b then 1 else 0
  | JNumber x => x
  | JString s => stringToNumber r s
  | JObject s => stringToNumber r s
  end.

(** [parseFloat(v)]: [v] is turned into a string first, and "undefined",
    "null", "true" and "false" have no numeric prefix. *)
Definition parseFloat (r : Readers) (v : value) : JS.number :=
  match v with
  | JUndefined | JNull | JBoolean _ => nan
  | JNumber x => JS.parseFloat x
  | JString s => parseFloatText r s
  | JObject s => parseFloatText r s
  end.

End JSON.

(** ** The settlement controller: [createSettlement] and
    [getSettlementSuggestions] *)

Module SettlementController.
Import BalanceService BalanceReports.

(** The fields of the request body [createSettlement] reads.  The ids, the
    description and the method are strings, absent when empty; [amount] is
    any JSON value. *)
Record Body : Type := mkBody {
  groupId : string;
  paidToId : string;
  amount : JSON.value;
  description : string;
  method : string
}.

Definition createSettlement (readers : JSON.Readers)
           (payerIsMember receiverIsMember : bool)
           (userId : string) (body : Body) : Outcome SettlementService.Settlement :=
  if String.eqb (groupId body) "" || String.eqb (paidToId body) ""
     || negb (JSON.truthy (amount body))
  then Throws (mkFailure "Group ID, paid to user ID, and amount are required" 400)
  else if JS.isNaN (JSON.toNumber readers (amount body))
          || JS.le (JSON.toNumber readers (amount body)) 0
  then Throws (mkFailure "Amount must be a positive number" 400)
  else if String.eqb userId (paidToId body)
  then Throws (mkFailure "You cannot settle with yourself" 400)
  else SettlementService.createSettlement payerIsMember receiverIsMember
         userId (groupId body) (paidToId body) (JSON.parseFloat readers (amount body))
         (description body) (if String.eqb (method body) "" then "CASH" else method body).

(** An expense and its splits as [getSettlementSuggestions] reads them:
    with the [user] objects the query includes. *)
Record SplitRow : Type := mkSplitRow {
  sr_userId : string;
  sr_user : User;
  sr_amount : JS.number
}.

Record ExpenseRow : Type := mkExpenseRow {
  er_paidById : string;
  er_paidBy : User;
  er_amount : JS.number;
  er_splits : list SplitRow
}.

(** A value of the [balances] map: [{ user, amount }]. *)
Record Account : Type := mkAccount {
  a_user : User;
  a_amount : JS.number
}.

Definition AccountMap := list (string * Account).

Fixpoint account_has (k : string) (m : AccountMap) : bool :=
  match m with
  | [] => false
  | (k', _) :: m' => if String.eqb k' k then true else account_has k m'
  end.

(** [if (!balances.has(k)) balances.set(k, { user, amount: 0 })]. *)
Definition openAccount (k : string) (user : User) (m : AccountMap) : AccountMap :=
  if account_has k m then m else m ++ [(k, mkAccount user 0)].

(** [balances.get(k).amount = f(balances.get(k).amount)]: the object the
    map holds is updated in place. *)
Fixpoint adjustAccount (k : string) (f : JS.number -> JS.number) (m : AccountMap)
  : AccountMap :=
  match m with
  | [] => []
  | (k', a) :: m' =>
      if String.eqb k' k then (k', mkAccount (a_user a) (f (a_amount a))) :: m'
      else (k', a) :: adjustAccount k f m'
  end.

Definition debitRow (m : AccountMap) (split : SplitRow) : AccountMap :=
  let amount := JS.parseFloat (sr_amount split) in
  adjustAccount (sr_userId split) (fun a => a - amount)
    (openAccount (sr_userId split) (sr_user split) m).

Definition addRow (m : AccountMap) (expense : ExpenseRow) : AccountMap :=
  let totalAmount := JS.parseFloat (er_amount expense) in
  fold_left debitRow (er_splits expense)
    (adjustAccount (er_paidById expense) (fun a => a + totalAmount)
       (openAccount (er_paidById expense) (er_paidBy expense) m)).

Definition accounts (expenses : list ExpenseRow) : AccountMap :=
  fold_left addRow expenses [].

(** An element of [balanceList]. *)
Record Entry : Type := mkEntry {
  en_user : User;
  en_amount : JS.number;
  en_type : string
}.

(** [Array.from(balances.values()).filter(...).map(...)]. *)
Definition balanceListOf (m : AccountMap) : list Entry :=
  map (fun b => mkEntry (a_user b) (JS.toFixed2 (a_amount b))
                  (if JS.gt (a_amount b) 0 then "owed" else "owes")%string)
      (filter (fun b => ge (JS.abs (a_amount b)) 0.01) (map snd m)).

(** [positiveBalances] and [negativeBalances] hold the objects of
    [balanceList] themselves, not copies: an element of these arrays is
    modelled by the position of the object in [balanceList], and the
    objects by the list [store]. *)
Definition entryAt (store : list Entry) (r : nat) : Entry :=
  nth r store (mkEntry (mkUser "" "") nan "").

Definition references (test : Entry -> bool) (store : list Entry) : list nat :=
  map fst (filter (fun ix => test (snd ix)) (combine (seq 0 (List.length store)) store)).

(** [Array.prototype.sort(compare)], which is stable: an element goes
    behind the elements of the sorted rest it compares greater than. *)
Fixpoint insertSorted (compare : Entry -> Entry -> JS.number) (store : list Entry)
         (r : nat) (sorted : list nat) : list nat :=
  match sorted with
  | [] => [r]
  | r' :: rest =>
      if JS.gt (compare (entryAt store r) (entryAt store r')) 0
      then r' :: insertSorted compare store r rest
      else r :: sorted
  end.

Definition sortRefs (compare : Entry -> Entry -> JS.number) (store : list Entry)
           (refs : list nat) : list nat :=
  fold_right (insertSorted compare store) [] refs.

(** [balanceList.filter(b => b.amount > 0).sort((a, b) => b.amount - a.amount)]
    and [balanceList.filter(b => b.amount < 0).sort((a, b) => a.amount - b.amount)]. *)
Definition positiveRefs (store : list Entry) : list nat :=
  sortRefs (fun a b => en_amount b - en_amount a) store
    (references (fun b => JS.gt (en_amount b) 0) store).

Definition negativeRefs (store : list Entry) : list nat :=
  sortRefs (fun a b => en_amount a - en_amount b) store
    (references (fun b => JS.lt (en_amount b) 0) store).

(** Assignment to the [amount] field of the object at a position. *)
Fixpoint setAmount (r : nat) (v : JS.number) (store : list Entry) : list Entry :=
  match store, r with
  | [], _ => []
  | b :: rest, O => mkEntry (en_user b) v (en_type b) :: rest
  | b :: rest, S r' => b :: setAmount r' v rest
  end.

Record Suggestion : Type := mkSuggestion {
  sg_from : User;
  sg_to : User;
  sg_amount : JS.number
}.

(** The variables of the pairing loop. *)
Record Pairing : Type := mkPairing {
  store : list Entry;
  i : nat;
  j : nat;
  suggestions : list Suggestion
}.

(** One pass through the body of
    [while (i < positiveBalances.length && j < negativeBalances.length)]. *)
Definition pairingStep (positiveBalances negativeBalances : list nat) (st : Pairing)
  : Pairing :=
  let posRef := nth (i st) positiveBalances 0%nat in
  let negRef := nth (j st) negativeBalances 0%nat in
  let pos := entryAt (store st) posRef in
  let neg := entryAt (store st) negRef in
  let amount := JS.min (en_amount pos) (JS.abs (en_amount neg)) in
  let suggestion := mkSuggestion (en_user neg) (en_user pos) (JS.toFixed2 amount) in
  let store1 := setAmount posRef (en_amount pos - amount) (store st) in
  let store2 := setAmount negRef (en_amount (entryAt store1 negRef) + amount) store1 in
  mkPairing store2
    (if JS.lt (JS.abs (en_amount (entryAt store2 posRef))) 0.01 then S (i st) else i st)
    (if JS.lt (JS.abs (en_amount (entryAt store2 negRef))) 0.01 then S (j st) else j st)
    (suggestions st ++ [suggestion]).

Definition pairingContinues (positiveBalances negativeBalances : list nat) (st : Pairing)
  : bool :=
  (i st <? List.length positiveBalances)%nat && (j st <? List.length negativeBalances)%nat.

(** The loop with a bound on the number of passes: [None] when the bound
    is reached with the loop still running. *)
Fixpoint pairingLoop (fuel : nat) (positiveBalances negativeBalances : list nat)
         (st : Pairing) : option Pairing :=
  if pairingContinues positiveBalances negativeBalances st then
    match fuel with
    | O => None
    | S fuel' =>
        pairingLoop fuel' positiveBalances negativeBalances
          (pairingStep positiveBalances negativeBalances st)
    end
  else Some st.

(** The [data] of the response. *)
Record Suggestions : Type := mkSuggestions {
  sr_balances : list Entry;
  sr_suggestions : list Suggestion
}.

(** The part of [getSettlementSuggestions] after the queries: from the
    expenses of the group to the response.  [balances: balanceList] is
    serialized after the loop has run. *)
Definition suggest (fuel : nat) (expenses : list ExpenseRow) : option Suggestions :=
  let balanceList := balanceListOf (accounts expenses) in
  match pairingLoop fuel (positiveRefs balanceList) (negativeRefs balanceList)
          (mkPairing balanceList 0 0 []) with
  | None => None
  | Some st => Some (mkSuggestions (store st) (suggestions st))
  end.

Definition getSettlementSuggestions (fuel : nat) (groupId : string) (isMember : bool)
           (expenses : list ExpenseRow) : option (Outcome Suggestions) :=
  if String.eqb groupId "" then Some (Throws (mkFailure "Group ID is required" 400))
  else if negb isMember
  then Some (Throws (mkFailure "You are not a member of this group" 403))
  else option_map Returns (suggest fuel expenses).

End SettlementController.

(** ** The pairing loop seen on the two queues

    The loop only reads the objects [positiveBalances[i]] and
    [negativeBalances[j]]: its run is described by the entries already
    passed and the entries still waiting on either side. *)

Module Queues.
Import SettlementController.

Record Queues : Type := mkQueues {
  passedPos : list Entry;
  waitingPos : list Entry;
  passedNeg : list Entry;
  waitingNeg : list Entry;
  suggested : list Suggestion
}.

Definition withAmount (e : Entry) (v : JS.number) : Entry :=
  mkEntry (en_user e) v (en_type e).

Definition queueStep (q : Queues) : Queues :=
  match waitingPos q, waitingNeg q with
  | pos :: ps, neg :: ns =>
      let amount := JS.min (en_amount pos) (JS.abs (en_amount neg)) in
      let pos' := withAmount pos (en_amount pos - amount) in
      let neg' := withAmount neg (en_amount neg + amount) in
      let posDone := JS.lt (JS.abs (en_amount pos')) 0.01 in
      let negDone := JS.lt (JS.abs (en_amount neg')) 0.01 in
      mkQueues (if posDone then passedPos q ++ [pos'] else passedPos q)
               (if posDone then ps else pos' :: ps)
               (if negDone then passedNeg q ++ [neg'] else passedNeg q)
               (if negDone then ns else neg' :: ns)
               (suggested q
                  ++ [mkSuggestion (en_user neg) (en_user pos) (JS.toFixed2 amount)])
  | _, _ => q
  end.

Definition queueContinues (q : Queues) : bool :=
  match waitingPos q, waitingNeg q with
  | _ :: _, _ :: _ => true
  | _, _ => false
  end.

Fixpoint queueLoop (fuel : nat) (q : Queues) : option Queues :=
  if queueContinues q then
    match fuel with
    | O => None
    | S fuel' => queueLoop fuel' (queueStep q)
    end
  else Some q.

(** The queues of a state of the loop. *)
Definition view (positiveBalances negativeBalances : list nat) (st : Pairing) : Queues :=
  mkQueues (map (entryAt (store st)) (firstn (i st) positiveBalances))
           (map (entryAt (store st)) (skipn (i st) positiveBalances))
           (map (entryAt (store st)) (firstn (j st) negativeBalances))
           (map (entryAt (store st)) (skipn (j st) negativeBalances))
           (suggestions st).

(** The two reference arrays name different objects of the store, each
    once. *)
Definition wellReferenced (store : list Entry) (positiveBalances negativeBalances : list nat)
  : Prop :=
  NoDup (positiveBalances ++ negativeBalances)
  /\ Forall (fun r => (r < List.length store)%nat) (positiveBalances ++ negativeBalances).

(** An expense row without its [user] objects, and the amounts of the
    accounts. *)
Definition toExpense (row : ExpenseRow) : BalanceService.Expense :=
  BalanceService.mkExpense (er_paidById row) (er_amount row)
    (map (fun s => BalanceService.mkExpenseSplit (sr_userId s) (sr_amount s))
         (er_splits row)).

Definition amountsOf (m : AccountMap) : BalanceService.NumMap :=
  map (fun ka => (fst ka, a_amount (snd ka))) m.

(** The [user] object of a row is the user the id of the row names. *)
Definition consistentRow (row : ExpenseRow) : Prop :=
  BalanceReports.u_id (er_paidBy row) = er_paidById row
  /\ Forall (fun s => BalanceReports.u_id (sr_user s) = sr_userId s) (er_splits row).

(** An account whose [user] object is the user of its key. *)
Definition named (ka : string * Account) : Prop :=
  BalanceReports.u_id (a_user (snd ka)) = fst ka.

(** The users on the two sides of the queues, whether passed or waiting. *)
Definition creditors (q : Queues) : list BalanceReports.User :=
  map en_user (passedPos q ++ waitingPos q).

Definition debtors (q : Queues) : list BalanceReports.User :=
  map en_user (passedNeg q ++ waitingNeg q).

(** The queues before the first pass. *)
Definition initialQueues (balanceList : list Entry) : Queues :=
  mkQueues [] (map (entryAt balanceList) (positiveRefs balanceList))
           [] (map (entryAt balanceList) (negativeRefs balanceList)) [].

(** A waiting credit is a finite number above zero, a waiting debt a
    finite number below zero. *)
Definition credit (e : Entry) : Prop :=
  exists m x, Prim2SF (en_amount e) = S754_finite false m x.

Definition debt (e : Entry) : Prop :=
  exists m x, Prim2SF (en_amount e) = S754_finite true m x.

Definition waiting (q : Queues) : nat :=
  (List.length (waitingPos q) + List.length (waitingNeg q))%nat.

End Queues.

(** ** The pairing loop on whole-number balances *)

Module WholeQueues.
Import BalanceReports SettlementController Queues Units.

(** An expense row with whole-number amounts: the payer, the amount and
    the splits, each with its user object. *)
Definition wholeRow (e : User * Z * list (User * Z)) : ExpenseRow :=
  mkExpenseRow (u_id (fst (fst e))) (fst (fst e)) (units (snd (fst e)))
    (map (fun s => mkSplitRow (u_id (fst s)) (fst s) (units (snd s))) (snd e)).

(** The same expense with the ids in place of the user objects. *)
Definition idExpense (e : User * Z * list (User * Z)) : string * Z * list (string * Z) :=
  (u_id (fst (fst e)), snd (fst e), map (fun s => (u_id (fst s), snd s)) (snd e)).

(** An entry of [balanceList] and a suggestion with whole-number amounts. *)
Definition WEntry : Type := User * string * Z.

Definition wentry (w : WEntry) : Entry :=
  mkEntry (fst (fst w)) (units (snd w)) (snd (fst w)).

Definition wsuggestion (s : User * User * Z) : Suggestion :=
  mkSuggestion (fst (fst s)) (snd (fst s)) (units (snd s)).

(** The queues of the loop on integers. *)
Record QueuesZ : Type := mkQueuesZ {
  passedPosZ : list WEntry;
  waitingPosZ : list WEntry;
  passedNegZ : list WEntry;
  waitingNegZ : list WEntry;
  suggestedZ : list (User * User * Z)
}.

Definition image (q : QueuesZ) : Queues :=
  mkQueues (map wentry (passedPosZ q)) (map wentry (waitingPosZ q))
           (map wentry (passedNegZ q)) (map wentry (waitingNegZ q))
           (map wsuggestion (suggestedZ q)).

Definition queueStepZ (q : QueuesZ) : QueuesZ :=
  match waitingPosZ q, waitingNegZ q with
  | pos :: ps, neg :: ns =>
      let a := Z.min (snd pos) (Z.abs (snd neg)) in
      let pos' := (fst pos, (snd pos - a)%Z) in
      let neg' := (fst neg, (snd neg + a)%Z) in
      mkQueuesZ (if (snd pos - a =? 0)%Z then passedPosZ q ++ [pos'] else passedPosZ q)
                (if (snd pos - a =? 0)%Z then ps else pos' :: ps)
                (if (snd neg + a =? 0)%Z then passedNegZ q ++ [neg'] else passedNegZ q)
                (if (snd neg + a =? 0)%Z then ns else neg' :: ns)
                (suggestedZ q ++ [(fst (fst neg), fst (fst pos), a)])
  | _, _ => q
  end.

(** All the entries of the queues. *)
Definition entriesZ (q : QueuesZ) : list WEntry :=
  passedPosZ q ++ waitingPosZ q ++ passedNegZ q ++ waitingNegZ q.

(** What a user is owed and owes in a list of entries, and what a list
    of suggestions brings to and takes from a user. *)
Definition creditOf (u : string) (ws : list WEntry) : Z :=
  sumZ (map (fun w => if String.eqb (u_id (fst (fst w))) u then Z.max (snd w) 0 else 0%Z) ws).

Definition debtOf (u : string) (ws : list WEntry) : Z :=
  sumZ (map (fun w => if String.eqb (u_id (fst (fst w))) u then Z.max (- snd w) 0 else 0%Z) ws).

Definition receivedByZ (u : string) (sg : list (User * User * Z)) : Z :=
  sumZ (map (fun s => if String.eqb (u_id (snd (fst s))) u then snd s else 0%Z) sg).

Definition sentByZ (u : string) (sg : list (User * User * Z)) : Z :=
  sumZ (map (fun s => if String.eqb (u_id (fst (fst s))) u then snd s else 0%Z) sg).

(** The sums of the suggested amounts a user receives and sends. *)
Definition receivedBy (u : string) (suggestions : list Suggestion) : JS.number :=
  BalanceService.sum
    (map sg_amount (filter (fun s => String.eqb (u_id (sg_to s)) u) suggestions)).

Definition sentBy (u : string) (suggestions : list Suggestion) : JS.number :=
  BalanceService.sum
    (map sg_amount (filter (fun s => String.eqb (u_id (sg_from s)) u) suggestions)).

(** The states of the loop on a zero-sum input: passed entries are 0,
    waiting credits are above 0 and waiting debts below, the amounts sum
    to 0 and their absolute values to less than 2^53. *)
Definition settlingZ (q : QueuesZ) : Prop :=
  Forall (fun w => snd w = 0%Z) (passedPosZ q ++ passedNegZ q)
  /\ Forall (fun w => (0 < snd w)%Z) (waitingPosZ q)
  /\ Forall (fun w => (snd w < 0)%Z) (waitingNegZ q)
  /\ sumZ (map snd (entriesZ q)) = 0%Z
  /\ (sumZ (map (fun w => Z.abs (snd w)) (entriesZ q)) < 2 ^ 53)%Z.

(** The entries of [balanceList] for accounts whose amounts are the whole
    numbers of an integer map. *)
Definition wholeEntries (m : AccountMap) (zs : list (string * Z)) : list WEntry :=
  map (fun az => (a_user (snd (fst az)),
                  (if (0 <? snd (snd az))%Z then "owed" else "owes")%string,
                  snd (snd az)))
      (filter (fun az => negb (snd (snd az) =? 0)%Z) (combine m zs)).

Definition nobodyW : WEntry := (mkUser "" "", ""%string, 0%Z).

(** The queues before the first pass on whole-number entries. *)
Definition initialQueuesZ (wl : list WEntry) : QueuesZ :=
  mkQueuesZ [] (map (fun r => nth r wl nobodyW) (positiveRefs (map wentry wl)))
            [] (map (fun r => nth r wl nobodyW) (negativeRefs (map wentry wl))) [].

End WholeQueues.

(** ** Updating an expense: [updateExpense] in the controller and in the
    service *)

(** The errors of [updateExpense]. *)
Inductive UpdateError : Type :=
| NothingToUpdate           (* 'At least one field must be updated', 400 *)
| ExpenseNotFound           (* 'Expense not found', 404 *)
| NotAuthorizedToUpdate     (* 'You are not authorized to update this expense', 403 *)
| Invalid (e : AppError).   (* the errors [createExpense] throws as well *)

Inductive UpdateResult (A : Type) : Type :=
| Updated (a : A)
| Rejected (e : UpdateError).
Arguments Updated {A} a.
Arguments Rejected {A} e.

Module ExpenseUpdateService.
Import ExpenseService BalanceService.
Local Open Scope string_scope.

(** The expense row with its splits, as [findUnique] and [update] return
    it. *)
Record StoredExpense : Type := mkStoredExpense {
  e_paidById : string;
  e_description : string;
  e_amount : JS.number;
  e_category : string;
  e_splitType : string;
  e_splits : list Split
}.

(** The fields of the request body, and of [updateData]: an absent string
    field is the empty string, an absent [amount] or [splitBetween] is
    [None]. *)
Record UpdateData : Type := mkUpdateData {
  description : string;
  amount : option JS.number;
  category : string;
  splitType : string;
  splitBetween : option (list Participant)
}.

(** The truth value of [amount]: an absent amount, 0 and NaN are falsy. *)
Definition truthy_number (a : option JS.number) : bool :=
  match a with
  | Some x => negb (is_zero x || is_nan x)
  | None => false
  end.

Definition truthy_string (s : string) : bool := negb (String.eqb s "").

(** [amount || expense.amount]. *)
Definition amountOr (a : option JS.number) (stored : JS.number) : JS.number :=
  match a with
  | Some x => if truthy_number a then x else stored
  | None => stored
  end.

(** [splits], when [splitType && splitBetween] holds: [Ok None] stands for
    a variable left [undefined]. *)
Definition recomputedSplits (expense : StoredExpense) (updateData : UpdateData)
  : Result (option (list Split)) :=
  match splitBetween updateData with
  | Some participants =>
      if truthy_string (splitType updateData) then
        match calculateSplits (amountOr (amount updateData) (e_amount expense))
                (splitType updateData) participants with
        | Ok s => Ok (Some s)
        | Throw e => Throw e
        end
      else Ok None
  | None => Ok None
  end.

(** The service.  The row [findUnique] returns and whether the user is a
    member of its group are parameters; the result is the row after the
    update: a field whose new value is [undefined] is left as it is, and
    the splits are replaced when they were recomputed. *)
Definition updateExpense (expense : option StoredExpense) (isMember : bool)
           (updateData : UpdateData) : UpdateResult StoredExpense :=
  match expense with
  | None => Rejected ExpenseNotFound
  | Some expense =>
      if negb isMember then Rejected NotAuthorizedToUpdate
      else
        match recomputedSplits expense updateData with
        | Throw e => Rejected (Invalid e)
        | Ok splits =>
            Updated
              (mkStoredExpense
                 (e_paidById expense)
                 (if truthy_string (description updateData)
                  then description updateData else e_description expense)
                 (match amount updateData with
                  | Some x => if truthy_number (amount updateData)
                              then JS.parseFloat x else e_amount expense
                  | None => e_amount expense
                  end)
                 (if truthy_string (category updateData)
                  then category updateData else e_category expense)
                 (if truthy_string (splitType updateData)
                  then splitType updateData else e_splitType expense)
                 (match splits with
                  | Some s => s
                  | None => e_splits expense
                  end))
        end
  end.

(** The stored row as the balance service reads it. *)
Definition ledgerEntry (expense : StoredExpense) : Expense :=
  storedExpense (e_paidById expense) (e_amount expense) (e_splits expense).

End ExpenseUpdateService.

Module ExpenseUpdateController.
Import ExpenseService ExpenseUpdateService.

(** The controller: the checks on the body, then [updateData] with the
    fields that are set, then the service. *)
Definition updateExpense (expense : option StoredExpense) (isMember : bool)
           (body : UpdateData) : UpdateResult StoredExpense :=
  if negb (truthy_string (description body)) && negb (truthy_number (amount body))
     && negb (truthy_string (category body)) && negb (truthy_string (splitType body))
     && match splitBetween body with Some _ => false | None => true end
  then Rejected NothingToUpdate
  else if match amount body with
          | Some x => truthy_number (amount body) && (JS.isNaN x || JS.le x 0)
          | None => false
          end
  then Rejected (Invalid InvalidAmount)
  else if match splitBetween body with
          | Some participants => (List.length participants =? 0)%nat
          | None => false
          end
  then Rejected (Invalid EmptyParticipantSet)
  else ExpenseUpdateService.updateExpense expense isMember
         (mkUpdateData
            (description body)
            (match amount body with
             | Some x => if truthy_number (amount body) then Some (JS.parseFloat x) else None
             | None => None
             end)
            (category body) (splitType body) (splitBetween body)).

End ExpenseUpdateController.

(** * The built-ins on known values *)

Section BuiltinChecks.
Local Open Scope float_scope.

(** [(0.125).toFixed(2)] is "0.13": the tie goes up. *)
Example toFixed2_tie : JS.toFixed2 0.125 = 0.13.
Proof. reflexivity. Qed.

(** [(1.005).toFixed(2)] is "1.00": the double 1.005 is below 1.005. *)
Example toFixed2_below_tie : JS.toFixed2 1.005 = 1.
Proof. reflexivity. Qed.

(** [(-0.125).toFixed(2)] is "-0.13", and [(-0.001).toFixed(2)] is "-0.00",
    which reads back as -0. *)
Example toFixed2_negative :
  JS.toFixed2 (-0.125) = -0.13 /\ JS.toFixed2 (-0.001) = -0.
Proof. split; reflexivity. Qed.

(** NaN, the infinities and large numbers print and read back as
    themselves. *)
Example toFixed2_not_rounded :
  JS.toFixed2 nan = nan /\ JS.toFixed2 infinity = infinity /\ JS.toFixed2 1e21 = 1e21.
Proof. repeat split. Qed.

(** [0.1 + 0.2] is not [0.3], and [0.3 - 0.2] is below [0.1]. *)
Example binary64_sums :
  0.1 + 0.2 = 0.30000000000000004 /\ 0.3 - 0.2 = 0.09999999999999998.
Proof. split; reflexivity. Qed.

(** [Math.min] with NaN and with the two zeros. *)
Example min_special_values :
  JS.min nan 1 = nan /\ JS.min 0 (-0) = -0 /\ JS.min (-0) 0 = -0 /\ JS.min 2 1 = 1.
Proof. repeat split. Qed.

End BuiltinChecks.

(** * Doubles of whole numbers

    The facts below are derived from the specification of the primitive
    operations ([FloatAxioms]) and the reference implementation of
    binary64 arithmetic ([SpecFloat]). *)

Section WholeNumbers.
Import Units.
Local Open Scope Z_scope.

Lemma digits2_pos_log2 p : Zpos (digits2_pos p) = digits (Zpos p).
Proof.
  unfold digits.
  induction p as [p IH | p IH |]; simpl digits2_pos; try reflexivity.
  - rewrite Pos2Z.inj_succ, IH.
    change (Z.pos p~1) with (2 * Z.pos p + 1).
    rewrite Z.log2_succ_double by lia. lia.
  - rewrite Pos2Z.inj_succ, IH.
    change (Z.pos p~0) with (2 * Z.pos p).
    rewrite Z.log2_double by lia. lia.
Qed.

Lemma digits_pos z : 0 < z -> 1 <= digits z.
Proof. intros. unfold digits. pose proof (Z.log2_nonneg z). lia. Qed.

Lemma digits_bounds z : 0 < z -> 2 ^ (digits z - 1) <= z < 2 ^ digits z.
Proof.
  intros H. unfold digits. replace (Z.log2 z + 1 - 1) with (Z.log2 z) by lia.
  replace (Z.log2 z + 1) with (Z.succ (Z.log2 z)) by lia.
  apply Z.log2_spec; assumption.
Qed.

Lemma digits_mul_pow2 z k : 0 < z -> 0 <= k -> digits (z * 2 ^ k) = digits z + k.
Proof. intros. unfold digits. rewrite Z.log2_mul_pow2 by lia. lia. Qed.

Lemma digits_le_53 z : 0 < z < 2 ^ 53 -> digits z <= 53.
Proof.
  intros [H0 H]. unfold digits.
  assert (Z.log2 z < 53) by (apply Z.log2_lt_pow2; lia). lia.
Qed.

Lemma digits_mono a b : 0 < a -> a <= b -> digits a <= digits b.
Proof. intros. unfold digits. pose proof (Z.log2_le_mono a b). lia. Qed.

(** iter_pos of SpecFloat as a Nat.iter *)
Lemma iter_pos_nat {A} (f : A -> A) p x :
  iter_pos f p x = Nat.iter (Pos.to_nat p) f x.
Proof.
  revert x. induction p as [p IH | p IH |]; intros x; simpl iter_pos.
  - rewrite !IH. rewrite Pos2Nat.inj_xI.
    replace (S (2 * Pos.to_nat p))%nat with (Pos.to_nat p + (Pos.to_nat p + 1))%nat by lia.
    rewrite !Nat.iter_add. simpl. reflexivity.
  - rewrite !IH. rewrite Pos2Nat.inj_xO.
    replace (2 * Pos.to_nat p)%nat with (Pos.to_nat p + Pos.to_nat p)%nat by lia.
    rewrite Nat.iter_add. reflexivity.
  - reflexivity.
Qed.

Lemma shr_1_even m :
  0 <= m -> shr_1 (Build_shr_record (2 * m) false false) = Build_shr_record m false false.
Proof. intros H. destruct m as [|p|p]; reflexivity || lia. Qed.

Lemma shr_iter_exact n : forall m,
  0 <= m ->
  Nat.iter n shr_1 (Build_shr_record (m * 2 ^ Z.of_nat n) false false)
  = Build_shr_record m false false.
Proof.
  induction n as [|n IH]; intros m Hm.
  - simpl. f_equal. lia.
  - rewrite Nat.iter_succ_r.
    replace (m * 2 ^ Z.of_nat (S n)) with (2 * (m * 2 ^ Z.of_nat n))
      by (rewrite Nat2Z.inj_succ, Z.pow_succ_r by lia; ring).
    rewrite shr_1_even by (apply Z.mul_nonneg_nonneg; [lia| apply Z.pow_nonneg; lia]).
    apply IH; assumption.
Qed.

Lemma shr_exact m e k :
  0 <= m -> 0 <= k ->
  shr (Build_shr_record (m * 2 ^ k) false false) e k
  = (Build_shr_record m false false, e + k).
Proof.
  intros Hm Hk. unfold shr. destruct k as [|p|p]; try lia.
  - rewrite Z.mul_1_r, Z.add_0_r. reflexivity.
  - rewrite iter_pos_nat. f_equal.
    rewrite <- (positive_nat_Z p) at 1. apply shr_iter_exact; assumption.
Qed.

Lemma Zdigits2_digits m : 0 < m -> Zdigits2 m = digits m.
Proof.
  intros H. destruct m as [|p|p]; try lia. simpl. apply digits2_pos_log2.
Qed.

Lemma fexp_normal x : -1021 <= x -> fexp prec emax x = x - 53.
Proof. intros H. unfold fexp, SpecFloat.emin, prec, emax. lia. Qed.

Lemma binary_round_aux_exact s m e z :
  0 < z < 2 ^ 53 -> e <= digits z - 53 ->
  m = z * 2 ^ (- e) ->
  binary_round_aux prec emax s m e loc_Exact = canon s z.
Proof.
  intros Hz He Hm.
  pose proof (digits_pos z ltac:(lia)) as Hd1.
  pose proof (digits_le_53 z Hz) as Hd2.
  set (f := digits z - 53) in *.
  assert (Hf : m = (z * 2 ^ (- f)) * 2 ^ (f - e)).
  { rewrite Hm, <- Z.mul_assoc, <- Z.pow_add_r by lia. f_equal. f_equal. lia. }
  assert (HM : 0 < z * 2 ^ (- f)) by (apply Z.mul_pos_pos; [lia | apply Z.pow_pos_nonneg; lia]).
  assert (Hmpos : 0 < m).
  { rewrite Hm. apply Z.mul_pos_pos; [lia | apply Z.pow_pos_nonneg; lia]. }
  unfold binary_round_aux, shr_fexp.
  rewrite (Zdigits2_digits m Hmpos).
  assert (Hdm : digits m = digits z - e) by (rewrite Hm, digits_mul_pow2 by lia; lia).
  rewrite Hdm.
  rewrite fexp_normal by lia.
  replace (digits z - e + e - 53 - e) with (f - e) by (unfold f; lia).
  simpl shr_record_of_loc. rewrite Hf. rewrite shr_exact by lia.
  simpl loc_of_shr_record. simpl round_nearest_even. simpl shr_m at 1.
  rewrite (Zdigits2_digits _ HM), digits_mul_pow2 by lia.
  rewrite fexp_normal by lia.
  replace (digits z + - f + (e + (f - e)) - 53 - (e + (f - e))) with 0 by (unfold f; lia).
  simpl shr_record_of_loc. unfold shr. simpl shr_m.
  unfold canon. fold f.
  replace (53 - digits z) with (- f) by (unfold f; lia).
  replace (e + (f - e)) with f by lia.
  destruct (z * 2 ^ (- f)) as [|p|p] eqn:E; try lia.
  replace (f <=? emax - prec) with true by (symmetry; apply Z.leb_le; unfold emax, prec; lia).
  reflexivity.
Qed.

Lemma binary_round_exact s m e z :
  0 < z < 2 ^ 53 -> e <= 0 ->
  Zpos m = z * 2 ^ (- e) ->
  binary_round prec emax s m e = canon s z.
Proof.
  intros Hz He Hm.
  pose proof (digits_pos z ltac:(lia)) as Hd1.
  pose proof (digits_le_53 z Hz) as Hd2.
  unfold binary_round, shl_align.
  assert (Hdm : digits (Zpos m) = digits z - e) by (rewrite Hm, digits_mul_pow2 by lia; lia).
  rewrite digits2_pos_log2, Hdm.
  rewrite fexp_normal by lia.
  destruct (digits z - e + e - 53 - e) as [|p|p] eqn:E.
  - apply binary_round_aux_exact with (z := z); try assumption; lia.
  - apply binary_round_aux_exact with (z := z); try assumption; lia.
  - fold (shift_pos p m). 
    apply binary_round_aux_exact with (z := z); try assumption; try lia.
    rewrite shift_pos_correct, Hm.
    change (Zpower_pos 2 p) with (2 ^ Z.pos p).
    replace (- (digits z - e + e - 53)) with (Z.pos p + - e) by lia.
    rewrite Z.pow_add_r by lia. ring.
Qed.

(** ** Whole numbers as doubles *)

Lemma binary_normalize_exact z e w :
  e <= 0 -> z = w * 2 ^ (- e) -> Z.abs w < 2 ^ 53 ->
  binary_normalize prec emax z e false = SFunits w.
Proof.
  intros He Hz Hw. unfold binary_normalize, SFunits.
  assert (Hp : 0 < 2 ^ (- e)) by (apply Z.pow_pos_nonneg; lia).
  destruct (Z.eqb_spec w 0) as [-> | Hw0].
  - rewrite Hz. reflexivity.
  - destruct z as [|p|p].
    + symmetry in Hz. apply Z.mul_eq_0 in Hz. lia.
    + assert (0 < w) by nia.
      replace (w <? 0) with false by (symmetry; apply Z.ltb_ge; lia).
      apply binary_round_exact; lia.
    + assert (w < 0) by nia.
      replace (w <? 0) with true by (symmetry; apply Z.ltb_lt; lia).
      apply binary_round_exact; lia.
Qed.

Lemma Prim2SF_units z : Z.abs z < 2 ^ 53 -> Prim2SF (units z) = SFunits z.
Proof.
  intros Hz. unfold units, JS.of_Z63.
  destruct (Z.ltb_spec z 0) as [Hneg | Hpos].
  - rewrite opp_spec, of_uint63_spec, of_Z_spec.
    rewrite Z.mod_small by (unfold wB; simpl; lia).
    rewrite (binary_normalize_exact (- z) 0 (- z)) by (simpl; lia).
    unfold SFunits.
    replace (- z =? 0) with false by (symmetry; apply Z.eqb_neq; lia).
    replace (z =? 0) with false by (symmetry; apply Z.eqb_neq; lia).
    replace (- z <? 0) with false by (symmetry; apply Z.ltb_ge; lia).
    replace (z <? 0) with true by (symmetry; apply Z.ltb_lt; lia).
    rewrite Z.abs_opp. reflexivity.
  - rewrite of_uint63_spec, of_Z_spec.
    rewrite Z.mod_small by (unfold wB; simpl; lia).
    apply binary_normalize_exact; simpl; lia.
Qed.


Lemma canon_mantissa_pos z : 0 < z < 2 ^ 53 ->
  Zpos (Z.to_pos (z * 2 ^ (53 - digits z))) = z * 2 ^ (53 - digits z).
Proof.
  intros Hz. pose proof (digits_le_53 z Hz).
  apply Z2Pos.id. apply Z.mul_pos_pos; [lia | apply Z.pow_pos_nonneg; lia].
Qed.

Lemma shl_align_canon z ez :
  0 < z < 2 ^ 53 -> ez <= digits z - 53 ->
  Zpos (fst (shl_align (Z.to_pos (z * 2 ^ (53 - digits z))) (digits z - 53) ez))
  = z * 2 ^ (- ez).
Proof.
  intros Hz He. pose proof (digits_le_53 z Hz).
  unfold shl_align.
  destruct (ez - (digits z - 53)) as [|p|p] eqn:E; cbn [fst]; try lia.
  - rewrite canon_mantissa_pos by assumption. do 2 f_equal. lia.
  - fold (shift_pos p (Z.to_pos (z * 2 ^ (53 - digits z)))).
    rewrite shift_pos_correct, canon_mantissa_pos by assumption.
    change (Zpower_pos 2 p) with (2 ^ Z.pos p).
    replace (- ez) with (Z.pos p + (53 - digits z)) by lia.
    rewrite Z.pow_add_r by lia. ring.
Qed.

Lemma cond_Zopp_abs z x : cond_Zopp (z <? 0) (Z.abs z * x) = z * x.
Proof.
  unfold cond_Zopp. destruct (Z.ltb_spec z 0).
  - rewrite Z.abs_neq by lia. ring.
  - rewrite Z.abs_eq by lia. ring.
Qed.

Lemma SFadd_units a b :
  Z.abs a < 2 ^ 53 -> Z.abs b < 2 ^ 53 -> Z.abs (a + b) < 2 ^ 53 ->
  SFadd prec emax (SFunits a) (SFunits b) = SFunits (a + b).
Proof.
  intros Ha Hb Hab. unfold SFunits at 1 2.
  destruct (Z.eqb_spec a 0) as [-> | Ha0]; destruct (Z.eqb_spec b 0) as [-> | Hb0].
  - reflexivity.
  - simpl. unfold SFunits. 
    replace (b =? 0) with false by (symmetry; apply Z.eqb_neq; lia). reflexivity.
  - rewrite Z.add_0_r. simpl. unfold SFunits.
    replace (a =? 0) with false by (symmetry; apply Z.eqb_neq; lia). reflexivity.
  - unfold canon, SFadd.
    set (ez := Z.min (digits (Z.abs a) - 53) (digits (Z.abs b) - 53)).
    pose proof (digits_le_53 (Z.abs a) ltac:(lia)).
    pose proof (digits_le_53 (Z.abs b) ltac:(lia)).
    rewrite !shl_align_canon by (unfold ez; lia).
    rewrite !cond_Zopp_abs.
    apply binary_normalize_exact; try assumption; [unfold ez; lia | ring].
Qed.

Lemma SFsub_units a b :
  Z.abs a < 2 ^ 53 -> Z.abs b < 2 ^ 53 -> Z.abs (a - b) < 2 ^ 53 ->
  SFsub prec emax (SFunits a) (SFunits b) = SFunits (a - b).
Proof.
  intros Ha Hb Hab. unfold SFunits at 1 2.
  destruct (Z.eqb_spec a 0) as [-> | Ha0]; destruct (Z.eqb_spec b 0) as [-> | Hb0].
  - reflexivity.
  - simpl. unfold SFunits.
    replace (- b =? 0) with false by (symmetry; apply Z.eqb_neq; lia).
    rewrite Z.abs_opp.
    destruct (Z.ltb_spec b 0); destruct (Z.ltb_spec (- b) 0); try lia; reflexivity.
  - rewrite Z.sub_0_r. simpl. unfold SFunits.
    replace (a =? 0) with false by (symmetry; apply Z.eqb_neq; lia). reflexivity.
  - unfold canon, SFsub.
    set (ez := Z.min (digits (Z.abs a) - 53) (digits (Z.abs b) - 53)).
    pose proof (digits_le_53 (Z.abs a) ltac:(lia)).
    pose proof (digits_le_53 (Z.abs b) ltac:(lia)).
    rewrite !shl_align_canon by (unfold ez; lia).
    rewrite !cond_Zopp_abs.
    apply binary_normalize_exact; try assumption; [unfold ez; lia | ring].
Qed.

Lemma SFabs_units z : SFabs (SFunits z) = SFunits (Z.abs z).
Proof.
  unfold SFunits. destruct (Z.eqb_spec z 0) as [-> | Hz]; [reflexivity|].
  replace (Z.abs z =? 0) with false by (symmetry; apply Z.eqb_neq; lia).
  replace (Z.abs z <? 0) with false by (symmetry; apply Z.ltb_ge; lia).
  rewrite Z.abs_idemp. reflexivity.
Qed.

Lemma digits_lt_lt a b : 0 < a -> 0 < b -> digits a < digits b -> a < b.
Proof.
  intros Ha Hb H.
  pose proof (digits_bounds a Ha) as [_ Ha2].
  pose proof (digits_bounds b Hb) as [Hb1 _].
  assert (2 ^ digits a <= 2 ^ (digits b - 1)).
  { apply Z.pow_le_mono_r; [lia|]. lia. }
  lia.
Qed.

Lemma mul_compare_pos a b k : 0 < k -> (a * k ?= b * k) = (a ?= b).
Proof.
  intros Hk. destruct (Z.compare_spec a b) as [-> | H | H].
  - apply Z.compare_refl.
  - apply Z.compare_lt_iff. nia.
  - apply Z.compare_gt_iff. nia.
Qed.

Lemma compare_canon a b :
  0 < a < 2 ^ 53 -> 0 < b < 2 ^ 53 ->
  match digits a - 53 ?= digits b - 53 with
  | Lt => Lt
  | Gt => Gt
  | Eq => Pos.compare_cont Eq (Z.to_pos (a * 2 ^ (53 - digits a)))
                              (Z.to_pos (b * 2 ^ (53 - digits b)))
  end = (a ?= b).
Proof.
  intros Ha Hb.
  destruct (Z.compare_spec (digits a - 53) (digits b - 53)) as [E | L | G].
  - match goal with
    | |- Pos.compare_cont Eq ?x ?y = _ => change ((Z.pos x ?= Z.pos y) = (a ?= b))
    end.
    rewrite !canon_mantissa_pos by assumption.
    replace (digits b) with (digits a) by lia.
    pose proof (digits_le_53 a Ha).
    apply mul_compare_pos. apply Z.pow_pos_nonneg; lia.
  - symmetry. apply Z.compare_lt_iff. apply digits_lt_lt; lia.
  - symmetry. apply Z.compare_gt_iff. apply digits_lt_lt; lia.
Qed.

Lemma SFcompare_units a b :
  Z.abs a < 2 ^ 53 -> Z.abs b < 2 ^ 53 ->
  SFcompare (SFunits a) (SFunits b) = Some (a ?= b).
Proof.
  intros Ha Hb. unfold SFunits.
  destruct (Z.eqb_spec a 0) as [-> | Ha0]; destruct (Z.eqb_spec b 0) as [-> | Hb0].
  - reflexivity.
  - unfold canon, SFcompare. f_equal.
    destruct (Z.ltb_spec b 0); symmetry;
      [apply Z.compare_gt_iff | apply Z.compare_lt_iff]; lia.
  - unfold canon, SFcompare. f_equal.
    destruct (Z.ltb_spec a 0); symmetry;
      [apply Z.compare_lt_iff | apply Z.compare_gt_iff]; lia.
  - unfold canon, SFcompare. f_equal.
    destruct (Z.ltb_spec a 0) as [Hna | Hpa]; destruct (Z.ltb_spec b 0) as [Hnb | Hpb].
    + assert (E : (a ?= b) = CompOpp (Z.abs a ?= Z.abs b)).
      { rewrite !Z.abs_neq by lia. rewrite Z.compare_opp, Z.compare_antisym. reflexivity. }
      rewrite E, <- (compare_canon (Z.abs a) (Z.abs b)) by lia.
      destruct (digits (Z.abs a) - 53 ?= digits (Z.abs b) - 53); reflexivity.
    + symmetry. apply Z.compare_lt_iff. lia.
    + symmetry. apply Z.compare_gt_iff. lia.
    + rewrite compare_canon by lia. rewrite !Z.abs_eq by lia. reflexivity.
Qed.

(** *** The same facts on primitive floats *)

Local Open Scope float_scope.

Lemma units_add a b :
  (Z.abs a < 2 ^ 53)%Z -> (Z.abs b < 2 ^ 53)%Z -> (Z.abs (a + b) < 2 ^ 53)%Z ->
  units a + units b = units (a + b).
Proof.
  intros Ha Hb Hab. apply Prim2SF_inj.
  rewrite add_spec, !Prim2SF_units by assumption.
  apply SFadd_units; assumption.
Qed.

Lemma units_sub a b :
  (Z.abs a < 2 ^ 53)%Z -> (Z.abs b < 2 ^ 53)%Z -> (Z.abs (a - b) < 2 ^ 53)%Z ->
  units a - units b = units (a - b).
Proof.
  intros Ha Hb Hab. apply Prim2SF_inj.
  rewrite sub_spec, !Prim2SF_units by assumption.
  apply SFsub_units; assumption.
Qed.

Lemma units_abs z : (Z.abs z < 2 ^ 53)%Z -> abs (units z) = units (Z.abs z).
Proof.
  intros Hz. apply Prim2SF_inj.
  rewrite abs_spec, !Prim2SF_units by lia.
  apply SFabs_units.
Qed.

Lemma units_ltb a b :
  (Z.abs a < 2 ^ 53)%Z -> (Z.abs b < 2 ^ 53)%Z ->
  (units a <? units b) = (a <? b)%Z.
Proof.
  intros Ha Hb. rewrite ltb_spec, !Prim2SF_units by assumption.
  unfold SFltb. rewrite SFcompare_units by assumption.
  unfold Z.ltb. destruct (a ?= b)%Z; reflexivity.
Qed.

Lemma units_leb a b :
  (Z.abs a < 2 ^ 53)%Z -> (Z.abs b < 2 ^ 53)%Z ->
  (units a <=? units b) = (a <=? b)%Z.
Proof.
  intros Ha Hb. rewrite leb_spec, !Prim2SF_units by assumption.
  unfold SFleb. rewrite SFcompare_units by assumption.
  unfold Z.leb. destruct (a ?= b)%Z; reflexivity.
Qed.

Lemma units_eqb a b :
  (Z.abs a < 2 ^ 53)%Z -> (Z.abs b < 2 ^ 53)%Z ->
  (units a =? units b) = (a =? b)%Z.
Proof.
  intros Ha Hb. rewrite eqb_spec, !Prim2SF_units by assumption.
  unfold SFeqb. rewrite SFcompare_units by assumption.
  destruct (Z.compare_spec a b) as [-> | H | H].
  - rewrite Z.eqb_refl. reflexivity.
  - symmetry. apply Z.eqb_neq. lia.
  - symmetry. apply Z.eqb_neq. lia.
Qed.

Lemma units_is_nan z : (Z.abs z < 2 ^ 53)%Z -> is_nan (units z) = false.
Proof.
  intros Hz. unfold is_nan. rewrite units_eqb, Z.eqb_refl by assumption. reflexivity.
Qed.

Lemma units_min a b :
  (Z.abs a < 2 ^ 53)%Z -> (Z.abs b < 2 ^ 53)%Z ->
  JS.min (units a) (units b) = units (Z.min a b).
Proof.
  intros Ha Hb. unfold JS.min.
  rewrite !units_is_nan, !units_ltb by assumption. simpl.
  destruct (Z.ltb_spec a b) as [L | G].
  - rewrite Z.min_l by lia. reflexivity.
  - destruct (Z.ltb_spec b a) as [L' | G'].
    + rewrite Z.min_r by lia. reflexivity.
    + assert (a = b) by lia. subst. rewrite Z.min_id. destruct (get_sign (units b)); reflexivity.
Qed.

(** 0.01 against a whole number *)
Lemma Prim2SF_eps : Prim2SF 0.01 = S754_finite false 5764607523034235 (-59).
Proof. reflexivity. Qed.

Lemma units_gt_eps z : (0 <= z < 2 ^ 53)%Z -> (0.01 <? units z) = negb (z =? 0)%Z.
Proof.
  intros Hz. rewrite ltb_spec, Prim2SF_units, Prim2SF_eps by lia.
  unfold SFunits. destruct (Z.eqb_spec z 0) as [-> | Hz0]; [reflexivity|].
  replace (z <? 0)%Z with false by (symmetry; apply Z.ltb_ge; lia).
  unfold canon, SFltb, SFcompare.
  pose proof (digits_pos (Z.abs z) ltac:(lia)).
  destruct (Z.compare_spec (-59) (digits (Z.abs z) - 53)); reflexivity || lia.
Qed.

Lemma units_lt_eps z : (0 <= z < 2 ^ 53)%Z -> (units z <? 0.01) = (z =? 0)%Z.
Proof.
  intros Hz. rewrite ltb_spec, Prim2SF_units, Prim2SF_eps by lia.
  unfold SFunits. destruct (Z.eqb_spec z 0) as [-> | Hz0]; [reflexivity|].
  replace (z <? 0)%Z with false by (symmetry; apply Z.ltb_ge; lia).
  unfold canon, SFltb, SFcompare.
  pose proof (digits_pos (Z.abs z) ltac:(lia)).
  destruct (Z.compare_spec (digits (Z.abs z) - 53) (-59)); reflexivity || lia.
Qed.

Local Open Scope Z_scope.

Lemma div_eucl_exact q b : 0 < b -> Z.div_eucl (q * b) b = (q, 0).
Proof.
  intros Hb.
  assert (E : Z.div_eucl (q * b) b = (q * b / b, (q * b) mod b)).
  { unfold Z.div, Z.modulo. destruct (Z.div_eucl (q * b) b). reflexivity. }
  rewrite E, Z.div_mul, Z.mod_mul by lia. reflexivity.
Qed.

Lemma digits_canon_mantissa z : 0 < z < 2 ^ 53 ->
  Zdigits2 (Zpos (Z.to_pos (z * 2 ^ (53 - digits z)))) = 53.
Proof.
  intros Hz. pose proof (digits_le_53 z Hz).
  rewrite canon_mantissa_pos by assumption.
  rewrite Zdigits2_digits by (apply Z.mul_pos_pos; [lia | apply Z.pow_pos_nonneg; lia]).
  rewrite digits_mul_pow2 by lia. lia.
Qed.

Lemma SFunits_100 : SFunits 100 = S754_finite false 7036874417766400 (-46).
Proof. reflexivity. Qed.

Lemma SFdiv_units_100 w :
  0 < w < 2 ^ 46 ->
  SFdiv prec emax (SFunits (100 * w)) (SFunits 100) = SFunits w.
Proof.
  intros Hw.
  assert (H100 : 0 < 100 * w < 2 ^ 53) by lia.
  assert (Hw53 : 0 < w < 2 ^ 53) by lia.
  rewrite SFunits_100. unfold SFunits.
  replace (100 * w =? 0) with false by (symmetry; apply Z.eqb_neq; lia).
  replace (w =? 0) with false by (symmetry; apply Z.eqb_neq; lia).
  replace (100 * w <? 0) with false by (symmetry; apply Z.ltb_ge; lia).
  replace (w <? 0) with false by (symmetry; apply Z.ltb_ge; lia).
  rewrite !Z.abs_eq by lia.
  set (d1 := digits (100 * w)).
  assert (Hd1 : 1 <= d1 <= 53) by (unfold d1; split; [apply digits_pos | apply digits_le_53]; lia).
  assert (Hdw : d1 <= digits w + 7).
  { unfold d1. rewrite <- (digits_mul_pow2 w 7) by lia. apply digits_mono; lia. }
  unfold canon at 1. fold d1. unfold SFdiv, SFdiv_core_binary.
  pose proof (digits_canon_mantissa (100 * w) H100) as Hdm. fold d1 in Hdm.
  rewrite Hdm.
  change (Zdigits2 7036874417766400) with 53.
  rewrite fexp_normal by lia.
  replace (Z.min (53 + (d1 - 53) - (53 + -46) - 53) (d1 - 53 - -46)) with (d1 - 60) by lia.
  replace (d1 - 53 - -46 - (d1 - 60)) with 53 by lia.
  rewrite Z.shiftl_mul_pow2 by lia.
  pose proof (canon_mantissa_pos (100 * w) H100) as Hcm. fold d1 in Hcm.
  rewrite Hcm.
  replace (100 * w * 2 ^ (53 - d1) * 2 ^ 53) with ((w * 2 ^ (60 - d1)) * 7036874417766400).
  2:{ replace (60 - d1) with (7 + (53 - d1)) by lia. rewrite Z.pow_add_r by lia.
      change 7036874417766400 with (100 * 2 ^ 46). change (2 ^ 53) with (2 ^ 7 * 2 ^ 46). ring. }
  rewrite div_eucl_exact by lia.
  change (new_location 7036874417766400 0) with loc_Exact.
  simpl xorb.
  apply binary_round_aux_exact; try assumption; try lia.
  f_equal. f_equal. lia.
Qed.

Local Open Scope float_scope.

Lemma units_opp z : (z < 0)%Z -> units z = - units (- z).
Proof.
  intros Hz. unfold units.
  replace (z <? 0)%Z with true by (symmetry; apply Z.ltb_lt; lia).
  replace (- z <? 0)%Z with false by (symmetry; apply Z.ltb_ge; lia).
  reflexivity.
Qed.

Lemma units_div_100 w : (0 < w < 2 ^ 46)%Z -> units (100 * w) / 100 = units w.
Proof.
  intros Hw. apply Prim2SF_inj.
  rewrite div_spec, !Prim2SF_units by lia.
  change (Prim2SF 100) with (SFunits 100).
  apply SFdiv_units_100. assumption.
Qed.

Lemma units_of_Z63 n : (0 <= n)%Z -> JS.of_Z63 n = units n.
Proof.
  intros Hn. unfold units.
  replace (n <? 0)%Z with false by (symmetry; apply Z.ltb_ge; lia). reflexivity.
Qed.

Lemma digits_le z k : (0 < z < 2 ^ k)%Z -> (digits z <= k)%Z.
Proof.
  intros [H0 H]. unfold digits.
  assert (0 <= k)%Z.
  { destruct (Z.leb_spec 0 k) as [L | G]; [assumption|].
    rewrite Z.pow_neg_r in H by lia. lia. }
  assert (Z.log2 z < k)%Z by (apply Z.log2_lt_pow2; lia). lia.
Qed.

Lemma half_up_hundredths_units w :
  (0 < w < 2 ^ 46)%Z ->
  JS.half_up_hundredths (Z.to_pos (w * 2 ^ (53 - digits w))) (digits w - 53)
  = (100 * w)%Z.
Proof.
  intros Hw. pose proof (digits_le w 46 Hw) as Hd.
  pose proof (digits_pos w ltac:(lia)) as Hd1.
  unfold JS.half_up_hundredths.
  replace (0 <=? digits w - 53)%Z with false by (symmetry; apply Z.leb_gt; lia).
  rewrite canon_mantissa_pos by lia.
  replace (- (digits w - 53))%Z with (53 - digits w)%Z by lia.
  set (k := (53 - digits w)%Z).
  assert (Hk : (0 < 2 ^ k)%Z) by (apply Z.pow_pos_nonneg; unfold k; lia).
  replace (200 * (w * 2 ^ k) + 2 ^ k)%Z with ((200 * w + 1) * 2 ^ k)%Z by ring.
  replace (2 ^ (k + 1))%Z with (2 * 2 ^ k)%Z
    by (rewrite Z.pow_add_r by (unfold k; lia); ring).
  rewrite Z.div_mul_cancel_r by lia.
  symmetry. apply (Z.div_unique _ _ _ 1); lia.
Qed.

Lemma units_toFixed2 z : (Z.abs z < 2 ^ 53)%Z -> JS.toFixed2 (units z) = units z.
Proof.
  intros Hz. unfold JS.toFixed2.
  rewrite Prim2SF_units by assumption. unfold SFunits.
  destruct (Z.eqb_spec z 0) as [-> | Hz0]; [reflexivity|].
  unfold canon.
  rewrite units_abs by assumption.
  change 0x1p46 with (units (2 ^ 46)).
  rewrite units_leb by (rewrite ?Z.abs_idemp; simpl; lia).
  destruct (Z.leb_spec (2 ^ 46) (Z.abs z)) as [Hbig | Hsmall]; [reflexivity|].
  rewrite half_up_hundredths_units by lia.
  rewrite units_of_Z63 by lia.
  rewrite units_div_100 by lia.
  destruct (Z.ltb_spec z 0) as [Hneg | Hpos].
  - rewrite (units_opp z) by assumption. rewrite Z.abs_neq by lia. reflexivity.
  - rewrite Z.abs_eq by lia. reflexivity.
Qed.

Lemma units_parseFloat z : (Z.abs z < 2 ^ 53)%Z -> JS.parseFloat (units z) = units z.
Proof.
  intros Hz. unfold JS.parseFloat, is_zero.
  change zero with (units 0).
  rewrite units_eqb by (simpl; lia).
  destruct (Z.eqb_spec z 0) as [-> | Hz0]; reflexivity.
Qed.

Lemma units_above_eps z :
  (Z.abs z < 2 ^ 53)%Z -> JS.gt (JS.abs (units z)) 0.01 = negb (z =? 0)%Z.
Proof.
  intros Hz. unfold JS.gt, JS.abs. rewrite units_abs by assumption.
  rewrite units_gt_eps by lia.
  destruct (Z.eqb_spec z 0) as [-> | Hz0]; [reflexivity|].
  replace (Z.abs z =? 0)%Z with false by (symmetry; apply Z.eqb_neq; lia). reflexivity.
Qed.

Lemma units_below_eps z :
  (Z.abs z < 2 ^ 53)%Z -> JS.lt (JS.abs (units z)) 0.01 = (z =? 0)%Z.
Proof.
  intros Hz. unfold JS.lt, JS.abs. rewrite units_abs by assumption.
  rewrite units_lt_eps by lia.
  destruct (Z.eqb_spec z 0) as [-> | Hz0]; [reflexivity|].
  apply Z.eqb_neq. lia.
Qed.

Lemma units_inj a b :
  (Z.abs a < 2 ^ 53)%Z -> (Z.abs b < 2 ^ 53)%Z -> units a = units b -> a = b.
Proof.
  intros Ha Hb E. apply Z.eqb_eq. rewrite <- units_eqb by assumption.
  rewrite E, units_eqb, Z.eqb_refl by assumption. reflexivity.
Qed.

(** Left-to-right sums of whole numbers are exact as long as the absolute
    values add up to less than 2^53. *)
Lemma sum_units_from l : forall acc,
  (Z.abs acc + sumZ (map Z.abs l) < 2 ^ 53)%Z ->
  fold_left PrimFloat.add (map units l) (units acc) = units (acc + sumZ l).
Proof.
  induction l as [|z l IH]; intros acc H; simpl in *.
  - rewrite Z.add_0_r. reflexivity.
  - assert (0 <= sumZ (map Z.abs l))%Z.
    { clear. induction l; simpl; lia. }
    rewrite units_add by lia.
    rewrite IH by lia. f_equal. lia.
Qed.

Lemma sum_units l :
  (sumZ (map Z.abs l) < 2 ^ 53)%Z ->
  BalanceService.sum (map units l) = units (sumZ l).
Proof.
  intros H. unfold BalanceService.sum. change 0 with (units 0).
  rewrite sum_units_from by (simpl; lia). reflexivity.
Qed.

End WholeNumbers.

(** * The expense service *)

Section SplitFacts.
Import ExpenseService BalanceService.
Local Open Scope string_scope.

Lemma exactLoop_from splitBetween : forall splits totalAmount,
  fold_left
    (fun (acc : list Split * JS.number) split =>
       let (splits, totalAmount) := acc in
       ((splits ++ [mkSplit (p_userId split) (p_amount split) None])%list,
        totalAmount + p_amount split))
    splitBetween (splits, totalAmount)
  = ((splits ++ map (fun p => mkSplit (p_userId p) (p_amount p) None) splitBetween)%list,
     fold_left PrimFloat.add (map p_amount splitBetween) totalAmount).
Proof.
  induction splitBetween as [|p l IH]; intros splits totalAmount; simpl.
  - rewrite app_nil_r. reflexivity.
  - rewrite IH, <- app_assoc. reflexivity.
Qed.

Lemma exactLoop_closed splitBetween :
  exactLoop splitBetween
  = (map (fun p => mkSplit (p_userId p) (p_amount p) None) splitBetween,
     sum (map p_amount splitBetween)).
Proof. unfold exactLoop. rewrite exactLoop_from. reflexivity. Qed.

Lemma percentageLoop_from amount splitBetween : forall splits totalPercentage,
  fold_left
    (fun (acc : list Split * JS.number) split =>
       let (splits, totalPercentage) := acc in
       let splitAmount := JS.toFixed2 ((amount * p_percentage split) / 100) in
       ((splits ++ [mkSplit (p_userId split) splitAmount (Some (p_percentage split))])%list,
        totalPercentage + p_percentage split))
    splitBetween (splits, totalPercentage)
  = ((splits ++ map (fun p => mkSplit (p_userId p)
                               (JS.toFixed2 ((amount * p_percentage p) / 100))
                               (Some (p_percentage p))) splitBetween)%list,
     fold_left PrimFloat.add (map p_percentage splitBetween) totalPercentage).
Proof.
  induction splitBetween as [|p l IH]; intros splits totalPercentage; simpl.
  - rewrite app_nil_r. reflexivity.
  - rewrite IH, <- app_assoc. reflexivity.
Qed.

Lemma percentageLoop_closed amount splitBetween :
  percentageLoop amount splitBetween
  = (map (fun p => mkSplit (p_userId p)
                     (JS.toFixed2 ((amount * p_percentage p) / 100))
                     (Some (p_percentage p))) splitBetween,
     sum (map p_percentage splitBetween)).
Proof. unfold percentageLoop. rewrite percentageLoop_from. reflexivity. Qed.

(** The indices below the last one get the common share. *)
Lemma equalLoop_front (len : nat) (share lastShare : JS.number) front :
  forall splits index,
  (index + List.length front < len)%nat ->
  fold_left
    (fun (acc : list Split * nat) split =>
       let (splits, index) := acc in
       let isLast := (Z.of_nat index =? Z.of_nat len - 1)%Z in
       ((splits ++ [mkSplit (p_userId split) (if isLast then lastShare else share) None])%list,
        S index))
    front (splits, index)
  = ((splits ++ map (fun p => mkSplit (p_userId p) share None) front)%list,
     (index + List.length front)%nat).
Proof.
  induction front as [|p l IH]; intros splits index H; simpl in *.
  - rewrite app_nil_r, Nat.add_0_r. reflexivity.
  - replace (Z.of_nat index =? Z.of_nat len - 1)%Z with false
      by (symmetry; apply Z.eqb_neq; lia).
    rewrite IH by lia. rewrite <- app_assoc. simpl. f_equal. lia.
Qed.

Lemma equalSplits_closed amount front lastP :
  let n := JS.of_nat (List.length (front ++ [lastP])) in
  let share := JS.toFixed2 (amount / n) in
  equalSplits amount (front ++ [lastP])
  = (map (fun p => mkSplit (p_userId p) share None) front
     ++ [mkSplit (p_userId lastP) (JS.toFixed2 (amount - share * (n - 1))) None])%list.
Proof.
  intros n share. unfold equalSplits. fold n. fold share.
  rewrite fold_left_app.
  rewrite equalLoop_front by (rewrite length_app; simpl; lia).
  simpl.
  replace (Z.of_nat (List.length front) =? Z.of_nat (List.length (front ++ [lastP])) - 1)%Z
    with true by (symmetry; apply Z.eqb_eq; rewrite length_app; simpl; lia).
  reflexivity.
Qed.

End SplitFacts.

(** ** Numbers above zero *)

Section PositiveNumbers.
Local Open Scope float_scope.

Lemma SFcompare_refl_finite s m e :
  SFcompare (S754_finite s m e) (S754_finite s m e) = Some Eq.
Proof.
  unfold SFcompare. rewrite Z.compare_refl.
  change (Pos.compare_cont Eq m m) with (Pos.compare m m).
  rewrite Pos.compare_refl. destruct s; reflexivity.
Qed.

(** A number above zero is not NaN, not zero, and not at most zero. *)
Lemma positive_number a :
  JS.gt a 0 = true ->
  is_nan a = false /\ is_zero a = false /\ JS.le a 0 = false.
Proof.
  unfold JS.gt, JS.le, is_nan, is_zero. intros H.
  rewrite ltb_spec in H. rewrite !eqb_spec, leb_spec.
  change (Prim2SF 0) with (S754_zero false) in *.
  change (Prim2SF zero) with (S754_zero false).
  unfold SFltb, SFeqb, SFleb in *.
  destruct (Prim2SF a) as [s | s | | s m e].
  - destruct s; discriminate H.
  - destruct s; [discriminate H | repeat split; reflexivity].
  - discriminate H.
  - rewrite SFcompare_refl_finite.
    destruct s; [discriminate H | repeat split; reflexivity].
Qed.

End PositiveNumbers.

(** * Claims about the expense service *)

Section SplitClaims.
Import ExpenseService BalanceService.
Local Open Scope string_scope.

(** C4, as amended.  With the EQUAL policy [calculateSplits] returns one
    share per participant, in the given order.  Each share but the last is
    [amount / N] rounded to two decimals by [toFixed] (to the nearest
    hundredth, a tie going up), and the last one is
    [amount - share * (N - 1)] rounded the same way. *)
Theorem equal_split_shares amount front lastP :
  let n := JS.of_nat (List.length (front ++ [lastP])) in
  let share := JS.toFixed2 (amount / n) in
  calculateSplits amount "EQUAL" (front ++ [lastP])
  = Ok (map (fun p => mkSplit (p_userId p) share None) front
        ++ [mkSplit (p_userId lastP) (JS.toFixed2 (amount - share * (n - 1))) None])%list.
Proof.
  intros n share. unfold calculateSplits. simpl String.eqb. cbv iota.
  f_equal. apply equalSplits_closed.
Qed.

(** C4 as stated fails: 200 split over three participants gives two shares
    of 66.67, which is above 200/3 and is not its truncation 66.66; and a
    single participant of an amount of 0.125 gets 0.13, so the shares do
    not sum to the amount. *)
Lemma equal_split_is_not_truncation :
  (exists shares,
      calculateSplits 200 "EQUAL" [participant "A"; participant "B"; participant "C"]
      = Ok shares
      /\ map s_amount shares = [66.67; 66.67; 66.66]
      /\ Spec.truncate2 (200 / 3) = 66.66
      /\ JS.gt 66.67 (200 / 3) = true
      /\ JS.strict_neq 66.67 (Spec.truncate2 (200 / 3)) = true)
  /\ (exists shares,
      calculateSplits 0.125 "EQUAL" [participant "A"] = Ok shares
      /\ map s_amount shares = [0.13]
      /\ JS.strict_neq (sum (map s_amount shares)) 0.125 = true).
Proof.
  split; eexists; (split; [vm_compute; reflexivity |]); repeat split; vm_compute; reflexivity.
Qed.




(** C7, as amended.  [calculateSplits], and the service's [createExpense]
    in front of it, throw the invalid-split-type error for every policy
    outside the three, whatever the participants.  [calculateSplits] never
    throws the empty-participant error: the empty list is refused by the
    [createExpense] controller, before the service is called and whatever
    the policy, once the required fields are present and the amount is
    above zero.  On an empty list [calculateSplits] itself returns no share
    under EQUAL. *)
Theorem invalid_split_type_and_empty_participants :
  (forall amount splitType splitBetween,
      splitType <> "EQUAL" -> splitType <> "EXACT" -> splitType <> "PERCENTAGE" ->
      calculateSplits amount splitType splitBetween = Throw InvalidSplitType
      /\ forall isMember allMembers,
         ExpenseService.createExpense isMember allMembers amount splitType splitBetween
         = Throw InvalidSplitType)
  /\ (forall amount splitType splitBetween,
         calculateSplits amount splitType splitBetween <> Throw EmptyParticipantSet)
  /\ (forall amount, calculateSplits amount "EQUAL" [] = Ok [])
  /\ (forall isMember allMembers body,
         ExpenseController.splitBetween body = Some [] ->
         ExpenseController.groupId body <> "" ->
         ExpenseController.description body <> "" ->
         ExpenseController.splitType body <> "" ->
         JS.gt (ExpenseController.amount body) 0 = true ->
         ExpenseController.createExpense isMember allMembers body
         = Throw EmptyParticipantSet).
Proof.
  repeat split.
  - unfold calculateSplits.
    apply String.eqb_neq in H, H0, H1. rewrite H, H0, H1. reflexivity.
  - intros. unfold ExpenseService.createExpense.
    apply String.eqb_neq in H, H0, H1. rewrite H, H0, H1. reflexivity.
  - intros amount splitType splitBetween. unfold calculateSplits.
    destruct (String.eqb splitType "EQUAL"); [discriminate|].
    destruct (String.eqb splitType "EXACT").
    { destruct (exactLoop splitBetween) as [splits totalAmount].
      destruct (JS.strict_neq totalAmount amount); discriminate. }
    destruct (String.eqb splitType "PERCENTAGE").
    { destruct (percentageLoop amount splitBetween) as [splits totalPercentage].
      destruct (JS.strict_neq totalPercentage 100); discriminate. }
    discriminate.
  - intros isMember allMembers body Hl Hg Hd Ht Ha.
    destruct (positive_number _ Ha) as (Hnan & Hzero & Hle).
    unfold ExpenseController.createExpense, ExpenseController.falsy_string,
      ExpenseController.falsy_number, JS.isNaN.
    rewrite Hl.
    apply String.eqb_neq in Hg, Hd, Ht. rewrite Hg, Hd, Ht, Hnan, Hzero, Hle.
    reflexivity.
Qed.

(** The policy "FOO" with any participants, and a complete request with an
    empty participant list. *)
Lemma invalid_split_type_and_empty_participants_witness :
  calculateSplits 90 "FOO" [participant "A"] = Throw InvalidSplitType
  /\ ExpenseController.createExpense true true
       (ExpenseController.mkBody "g1" "dinner" 90 "FOO" (Some []))
     = Throw EmptyParticipantSet.
Proof.
  split.
  - apply (proj1 invalid_split_type_and_empty_participants 90 "FOO" [participant "A"]);
      discriminate.
  - apply (proj2 (proj2 (proj2 invalid_split_type_and_empty_participants)) true true
             (ExpenseController.mkBody "g1" "dinner" 90 "FOO" (Some []))).
    + reflexivity.
    + discriminate.
    + discriminate.
    + discriminate.
    + reflexivity.
Defined.

(** C7 as stated fails: [calculateSplits] accepts an empty participant
    list under EQUAL and reports a sum mismatch, not an empty participant
    set, under the two other policies. *)
Lemma empty_participants_pass_calculateSplits :
  calculateSplits 90 "EQUAL" [] = Ok []
  /\ calculateSplits 90 "EXACT" [] = Throw (SplitSumMismatch 0 90)
  /\ calculateSplits 90 "PERCENTAGE" [] = Throw (PercentageSumMismatch 0).
Proof. repeat split. Qed.

(** C10.  With the EXACT policy [calculateSplits] compares the
    left-to-right floating-point sum of the amounts with the expense
    amount by [!==]: the amounts 0.1 and 0.2 against the total 0.3 are
    refused, although 10 + 20 = 30 hundredths. *)
Theorem exact_split_compares_floating_point_sum :
  (forall amount splitBetween,
      calculateSplits amount "EXACT" splitBetween
      = if JS.strict_neq (sum (map p_amount splitBetween)) amount
        then Throw (SplitSumMismatch (sum (map p_amount splitBetween)) amount)
        else Ok (map (fun p => mkSplit (p_userId p) (p_amount p) None) splitBetween))
  /\ calculateSplits (Spec.decimal2 30) "EXACT"
       [mkParticipant "A" (Spec.decimal2 10) nan; mkParticipant "B" (Spec.decimal2 20) nan]
     = Throw (SplitSumMismatch 0.30000000000000004 0.3)
  /\ (10 + 20 = 30)%Z
  /\ Spec.decimal2 10 = 0.1 /\ Spec.decimal2 20 = 0.2 /\ Spec.decimal2 30 = 0.3.
Proof.
  split.
  - intros amount splitBetween. unfold calculateSplits. simpl String.eqb. cbv iota.
    rewrite exactLoop_closed. reflexivity.
  - repeat split.
Qed.

End SplitClaims.

(** * The settlement loop *)

Section LoopFacts.
Import BalanceService.
Local Open Scope string_scope.

Lemma while_loop_done fuel st :
  (List.length (fst st) <= 1)%nat -> while_loop fuel st = Some (snd st).
Proof.
  intros H. apply Nat.leb_le in H. destruct fuel; simpl; rewrite H; reflexivity.
Qed.

Lemma while_loop_step fuel st :
  (1 < List.length (fst st))%nat ->
  while_loop (S fuel) st = while_loop fuel (iteration st).
Proof.
  intros H. apply Nat.leb_gt in H. simpl. rewrite H. reflexivity.
Qed.

Lemma while_loop_out_of_fuel st :
  (1 < List.length (fst st))%nat -> while_loop 0 st = None.
Proof.
  intros H. apply Nat.leb_gt in H. simpl. rewrite H. reflexivity.
Qed.

(** More fuel does not change a result. *)
Lemma while_loop_more fuel : forall st txs extra,
  while_loop fuel st = Some txs -> while_loop (fuel + extra) st = Some txs.
Proof.
  induction fuel as [|fuel IH]; intros st txs extra H.
  - simpl in H. destruct (List.length (fst st) <=? 1)%nat eqn:E; [|discriminate].
    rewrite while_loop_done by (apply Nat.leb_le; assumption). assumption.
  - simpl in *. destruct (List.length (fst st) <=? 1)%nat; [assumption|].
    apply IH. assumption.
Qed.

Lemma run_step n st :
  (1 < List.length (fst st))%nat -> run (S n) st = run n (iteration st).
Proof.
  intros H. apply Nat.leb_gt in H. simpl. rewrite H. reflexivity.
Qed.

(** A state that a pass leaves unchanged, but for the transfer it records,
    keeps the loop running for ever. *)
Lemma stuck_state_runs arr tx :
  (1 < List.length arr)%nat ->
  (forall txs, iteration (arr, txs) = (arr, (txs ++ [tx])%list)) ->
  forall n txs, run n (arr, txs) = (arr, (txs ++ repeat tx n)%list).
Proof.
  intros Hlen Hit. induction n as [|n IH]; intros txs.
  - simpl. rewrite app_nil_r. reflexivity.
  - rewrite run_step by assumption. rewrite Hit, IH, <- app_assoc. reflexivity.
Qed.

Lemma stuck_state_diverges arr tx :
  (1 < List.length arr)%nat ->
  (forall txs, iteration (arr, txs) = (arr, (txs ++ [tx])%list)) ->
  forall fuel txs, while_loop fuel (arr, txs) = None.
Proof.
  intros Hlen Hit. induction fuel as [|fuel IH]; intros txs.
  - apply while_loop_out_of_fuel. assumption.
  - rewrite while_loop_step by assumption. rewrite Hit. apply IH.
Qed.

End LoopFacts.


(** * Arrays split around one or two positions *)

Section ArrayFacts.
Import BalanceService.

Lemma at_index_app_here (l1 : list Balance) b r :
  at_index (l1 ++ b :: r) (List.length l1) = b.
Proof. unfold at_index. rewrite nth_middle. reflexivity. Qed.

Lemma at_index_app_there (l1 : list Balance) b l2 b' r :
  at_index (l1 ++ b :: l2 ++ b' :: r) (List.length l1 + S (List.length l2)) = b'.
Proof.
  unfold at_index. rewrite app_nth2 by lia.
  replace (List.length l1 + S (List.length l2) - List.length l1)%nat
    with (S (List.length l2)) by lia.
  simpl. rewrite nth_middle. reflexivity.
Qed.

Lemma set_amount_app (l1 : list Balance) : forall k v r,
  set_amount (List.length l1 + k) v (l1 ++ r) = l1 ++ set_amount k v r.
Proof.
  induction l1 as [|a l1 IH]; intros k v r; simpl.
  - reflexivity.
  - rewrite IH. reflexivity.
Qed.

Lemma set_amount_app_here (l1 : list Balance) b v r :
  set_amount (List.length l1) v (l1 ++ b :: r) = l1 ++ mkBalance (b_userId b) v :: r.
Proof.
  rewrite <- (Nat.add_0_r (List.length l1)), set_amount_app. reflexivity.
Qed.

Lemma set_amount_app_there (l1 : list Balance) b l2 b' v r :
  set_amount (List.length l1 + S (List.length l2)) v (l1 ++ b :: l2 ++ b' :: r)
  = l1 ++ b :: l2 ++ mkBalance (b_userId b') v :: r.
Proof.
  rewrite set_amount_app. simpl. rewrite set_amount_app_here. reflexivity.
Qed.

Lemma splice1_app {A : Type} (l1 : list A) : forall k r,
  splice1 (List.length l1 + k) (l1 ++ r) = l1 ++ splice1 k r.
Proof.
  induction l1 as [|a l1 IH]; intros k r; simpl.
  - reflexivity.
  - rewrite IH. reflexivity.
Qed.

Lemma splice1_app_here {A : Type} (l1 : list A) b r :
  splice1 (List.length l1) (l1 ++ b :: r) = l1 ++ r.
Proof.
  rewrite <- (Nat.add_0_r (List.length l1)), splice1_app. reflexivity.
Qed.

Lemma splice1_app_there {A : Type} (l1 : list A) b l2 b' r :
  splice1 (List.length l1 + S (List.length l2)) (l1 ++ b :: l2 ++ b' :: r)
  = l1 ++ b :: l2 ++ r.
Proof.
  rewrite splice1_app. simpl. rewrite splice1_app_here. reflexivity.
Qed.

Lemma splice1_app_after {A : Type} (l1 l2 : list A) b' r :
  splice1 (List.length l1 + List.length l2) (l1 ++ l2 ++ b' :: r) = l1 ++ l2 ++ r.
Proof.
  rewrite splice1_app, splice1_app_here. reflexivity.
Qed.

(** Two positions of a list, the first one before the second. *)
Lemma split_at_two {A : Type} (d : A) (l : list A) i j :
  (i < j)%nat -> (j < List.length l)%nat ->
  exists l1 l2 l3,
    l = l1 ++ nth i l d :: l2 ++ nth j l d :: l3
    /\ List.length l1 = i /\ (List.length l1 + S (List.length l2))%nat = j.
Proof.
  intros Hij Hj.
  destruct (nth_split l d Hj) as (la & l3 & El & Hla).
  assert (Hi : (i < List.length la)%nat) by lia.
  destruct (nth_split la d Hi) as (l1 & l2 & Ela & Hl1).
  exists l1, l2, l3. repeat split.
  - rewrite El at 1. rewrite Ela at 1. rewrite <- app_assoc. simpl.
    f_equal. f_equal. rewrite El at 1. rewrite app_nth1 by lia. reflexivity.
  - assumption.
  - rewrite <- Hla. apply (f_equal (@List.length A)) in Ela.
    rewrite length_app in Ela. simpl in Ela. lia.
Qed.

End ArrayFacts.

(** * The settlement loop on whole-number balances *)

Section WholePass.
Import BalanceService Units.
Local Open Scope Z_scope.

Local Abbreviation d0 := Units.nobody.

Lemma working_length zs : List.length (working zs) = List.length zs.
Proof. apply length_map. Qed.

Lemma at_index_working zs i :
  (i < List.length zs)%nat ->
  at_index (working zs) i = mkBalance (fst (nth i zs d0)) (units (snd (nth i zs d0))).
Proof.
  intros Hi. unfold at_index, working.
  rewrite (nth_indep _ _ (mkBalance (fst d0) (units (snd d0))))
    by (rewrite length_map; assumption).
  rewrite (map_nth (fun e => mkBalance (fst e) (units (snd e)))). reflexivity.
Qed.

Lemma bounded_nth zs i : bounded zs -> Z.abs (snd (nth i zs d0)) < 2 ^ 53.
Proof.
  intros Hb. destruct (Nat.lt_ge_cases i (List.length zs)) as [Hi | Hi].
  - unfold bounded in Hb. rewrite Forall_forall in Hb. apply Hb. apply nth_In. assumption.
  - rewrite nth_overflow by assumption. simpl. lia.
Qed.

(** The index a [reduce] that keeps the better of two entries returns. *)
Lemma best_index_from (test : JS.number -> JS.number -> bool) (key : Z -> Z) zs :
  (forall a b, Z.abs a < 2 ^ 53 -> Z.abs b < 2 ^ 53 ->
               test (units a) (units b) = (key b <? key a)) ->
  bounded zs ->
  forall suf pre acc,
    zs = (pre ++ suf)%list -> (acc < List.length zs)%nat ->
    (forall j, (j < List.length pre)%nat ->
               key (snd (nth j zs d0)) <= key (snd (nth acc zs d0))) ->
    let r := fold_left
               (fun idx (ix : nat * Balance) =>
                  if test (b_amount (snd ix)) (b_amount (at_index (working zs) idx))
                  then fst ix else idx)
               (combine (seq (List.length pre) (List.length suf)) (working suf)) acc in
    (r < List.length zs)%nat
    /\ forall j, (j < List.length zs)%nat ->
                 key (snd (nth j zs d0)) <= key (snd (nth r zs d0)).
Proof.
  intros Htest Hb. induction suf as [|x suf IH]; intros pre acc Hz Hacc Hpre.
  - simpl. split; [assumption|]. intros j Hj. apply Hpre.
    rewrite Hz, app_nil_r in Hj. assumption.
  - simpl seq. simpl working. simpl combine. simpl fold_left.
    rewrite at_index_working by assumption. simpl b_amount.
    assert (Hx : nth (List.length pre) zs d0 = x) by (rewrite Hz; apply nth_middle).
    assert (Hbx : Z.abs (snd x) < 2 ^ 53) by (rewrite <- Hx; apply bounded_nth; assumption).
    rewrite Htest by (try assumption; apply bounded_nth; assumption).
    assert (Hlen : (List.length pre < List.length zs)%nat)
      by (rewrite Hz, length_app; simpl; lia).
    replace (S (List.length pre)) with (List.length (pre ++ [x]))
      by (rewrite length_app; simpl; lia).
    apply IH.
    + rewrite <- app_assoc. assumption.
    + destruct (key (snd (nth acc zs d0)) <? key (snd x)); assumption.
    + intros j Hj. rewrite length_app in Hj. simpl in Hj.
      destruct (Z.ltb_spec (key (snd (nth acc zs d0))) (key (snd x))) as [L | G].
      * rewrite Hx. destruct (Nat.eq_dec j (List.length pre)) as [-> | Hne].
        -- rewrite Hx. lia.
        -- specialize (Hpre j ltac:(lia)). lia.
      * destruct (Nat.eq_dec j (List.length pre)) as [-> | Hne].
        -- rewrite Hx. lia.
        -- apply Hpre. lia.
Qed.

Lemma maxCreditIndex_whole zs :
  zs <> [] -> bounded zs ->
  (maxCreditIndex (working zs) < List.length zs)%nat
  /\ forall j, (j < List.length zs)%nat ->
               snd (nth j zs d0) <= snd (nth (maxCreditIndex (working zs)) zs d0).
Proof.
  intros Hne Hb. unfold maxCreditIndex, indexed. rewrite working_length.
  apply (best_index_from JS.gt (fun z => z) zs) with (pre := []); try assumption.
  - intros a b Ha Hb'. unfold JS.gt. apply units_ltb; assumption.
  - reflexivity.
  - destruct zs; [contradiction | simpl; lia].
  - simpl. intros j Hj. lia.
Qed.

Lemma maxDebitIndex_whole zs :
  zs <> [] -> bounded zs ->
  (maxDebitIndex (working zs) < List.length zs)%nat
  /\ forall j, (j < List.length zs)%nat ->
               snd (nth (maxDebitIndex (working zs)) zs d0) <= snd (nth j zs d0).
Proof.
  intros Hne Hb. unfold maxDebitIndex, indexed. rewrite working_length.
  destruct (best_index_from JS.lt Z.opp zs) with (pre := @nil (string * Z)) (suf := zs) (acc := 0%nat)
    as [H1 H2]; try assumption.
  - intros a b Ha Hb'. unfold JS.lt. rewrite units_ltb by assumption.
    destruct (Z.ltb_spec a b); destruct (Z.ltb_spec (- b) (- a)); try reflexivity; lia.
  - reflexivity.
  - destruct zs; [contradiction | simpl; lia].
  - simpl. intros j Hj. lia.
  - split; [exact H1|]. intros j Hj. specialize (H2 j Hj). simpl in H2. lia.
Qed.

(** The working entry of a whole amount, unless the amount is 0. *)
Local Abbreviation keptBalance u z :=
  (if z =? 0 then [] else [mkBalance u (units z)]).

(** One pass when the creditor stands before the debtor. *)
Lemma pass_credit_first (W1 W2 W3 : list Balance) uc ud c d txs :
  let arr := (W1 ++ mkBalance uc (units c) :: W2 ++ mkBalance ud (units d) :: W3)%list in
  let m := Z.min (Z.abs c) (Z.abs d) in
  Z.abs c < 2 ^ 53 -> Z.abs d < 2 ^ 53 ->
  Z.abs (c - m) < 2 ^ 53 -> Z.abs (d + m) < 2 ^ 53 ->
  maxCreditIndex arr = List.length W1 ->
  maxDebitIndex arr = (List.length W1 + S (List.length W2))%nat ->
  iteration (arr, txs)
  = ((W1 ++ keptBalance uc (c - m) ++ W2 ++ keptBalance ud (d + m) ++ W3)%list,
     (txs ++ [mkTransaction ud uc (units m)])%list).
Proof.
  intros arr m Hc Hd Hc' Hd' Hci Hdi.
  assert (Hm : Z.abs m < 2 ^ 53) by (unfold m; lia).
  unfold iteration, recordedTransaction, removeSettled, updateBalances, minAmountOf.
  rewrite Hci, Hdi. unfold arr.
  rewrite !at_index_app_here, !at_index_app_there. simpl b_amount. simpl b_userId.
  unfold JS.abs at 1 2 3 4. rewrite !units_abs by assumption.
  rewrite !units_min by (rewrite Z.abs_idemp; assumption). fold m.
  rewrite units_toFixed2 by assumption.
  rewrite units_sub by assumption.
  rewrite set_amount_app_here. simpl b_userId.
  rewrite at_index_app_there. simpl b_amount.
  rewrite units_add by assumption.
  rewrite set_amount_app_there. simpl b_userId.
  rewrite at_index_app_here, at_index_app_there. simpl b_amount.
  rewrite !units_below_eps by assumption.
  replace (List.length W1 <? List.length W1 + S (List.length W2))%nat with true
    by (symmetry; apply Nat.ltb_lt; lia).
  f_equal.
  destruct (c - m =? 0); destruct (d + m =? 0); simpl andb; cbv iota.
  - rewrite splice1_app_here.
    replace (List.length W1 + S (List.length W2) - 1)%nat
      with (List.length W1 + List.length W2)%nat by lia.
    rewrite splice1_app_after. reflexivity.
  - rewrite splice1_app_here. reflexivity.
  - rewrite splice1_app_there. reflexivity.
  - reflexivity.
Qed.

(** One pass when the debtor stands before the creditor. *)
Lemma pass_debit_first (W1 W2 W3 : list Balance) uc ud c d txs :
  let arr := (W1 ++ mkBalance ud (units d) :: W2 ++ mkBalance uc (units c) :: W3)%list in
  let m := Z.min (Z.abs c) (Z.abs d) in
  Z.abs c < 2 ^ 53 -> Z.abs d < 2 ^ 53 ->
  Z.abs (c - m) < 2 ^ 53 -> Z.abs (d + m) < 2 ^ 53 ->
  maxCreditIndex arr = (List.length W1 + S (List.length W2))%nat ->
  maxDebitIndex arr = List.length W1 ->
  iteration (arr, txs)
  = ((W1 ++ keptBalance ud (d + m) ++ W2 ++ keptBalance uc (c - m) ++ W3)%list,
     (txs ++ [mkTransaction ud uc (units m)])%list).
Proof.
  intros arr m Hc Hd Hc' Hd' Hci Hdi.
  assert (Hm : Z.abs m < 2 ^ 53) by (unfold m; lia).
  unfold iteration, recordedTransaction, removeSettled, updateBalances, minAmountOf.
  rewrite Hci, Hdi. unfold arr.
  rewrite !at_index_app_here, !at_index_app_there. simpl b_amount. simpl b_userId.
  unfold JS.abs at 1 2 3 4. rewrite !units_abs by assumption.
  rewrite !units_min by (rewrite Z.abs_idemp; assumption). fold m.
  rewrite units_toFixed2 by assumption.
  rewrite units_sub by assumption.
  rewrite set_amount_app_there. simpl b_userId.
  rewrite at_index_app_here. simpl b_amount.
  rewrite units_add by assumption.
  rewrite set_amount_app_here. simpl b_userId.
  rewrite at_index_app_here, at_index_app_there. simpl b_amount.
  rewrite !units_below_eps by assumption.
  replace (List.length W1 + S (List.length W2) <? List.length W1)%nat with false
    by (symmetry; apply Nat.ltb_ge; lia).
  f_equal.
  destruct (c - m =? 0); destruct (d + m =? 0); simpl andb; cbv iota.
  - rewrite splice1_app_there, splice1_app_here. reflexivity.
  - rewrite splice1_app_there. reflexivity.
  - rewrite splice1_app_here. reflexivity.
  - reflexivity.
Qed.

(** ** Sums over integer lists *)

Lemma sumZ_app l1 l2 : sumZ (l1 ++ l2) = sumZ l1 + sumZ l2.
Proof. induction l1 as [|a l1 IH]; simpl; [reflexivity | rewrite IH; lia]. Qed.

Lemma sum_map_app (g : string * Z -> Z) l1 l2 :
  sumZ (map g (l1 ++ l2)) = sumZ (map g l1) + sumZ (map g l2).
Proof. rewrite map_app. apply sumZ_app. Qed.

Lemma sum_map_keep (g : string * Z -> Z) u z :
  g (u, 0) = 0 -> sumZ (map g (keep (u, z))) = g (u, z).
Proof.
  intros Hg. unfold keep. simpl snd.
  destruct (Z.eqb_spec z 0) as [-> | Hz]; simpl; lia.
Qed.

(** The sum of [g] before and after a pass that turns the amounts [x] and
    [y] of two entries into [x'] and [y']. *)
Lemma sum_map_pass (g : string * Z -> Z) l1 ux x x' l2 uy y y' l3 :
  (forall u, g (u, 0) = 0) ->
  sumZ (map g (l1 ++ keep (ux, x') ++ l2 ++ keep (uy, y') ++ l3))
  = sumZ (map g (l1 ++ (ux, x) :: l2 ++ (uy, y) :: l3))
    - g (ux, x) - g (uy, y) + g (ux, x') + g (uy, y').
Proof.
  intros Hg.
  rewrite !sum_map_app, !sum_map_keep by apply Hg.
  simpl. rewrite sum_map_app. simpl. lia.
Qed.

Lemma magnitude_nonneg zs : 0 <= magnitude zs.
Proof. unfold magnitude. induction zs as [|e zs IH]; simpl; lia. Qed.

Lemma magnitude_bounded zs : magnitude zs < 2 ^ 53 -> bounded zs.
Proof.
  unfold bounded. induction zs as [|e zs IH]; intros H; constructor.
  - unfold magnitude in H. simpl in H. pose proof (magnitude_nonneg zs).
    unfold magnitude in *. lia.
  - apply IH. unfold magnitude in *. simpl in H. lia.
Qed.

Lemma all_nonpositive_sum (zs : list (string * Z)) :
  Forall (fun e => snd e <= 0 /\ snd e <> 0) zs -> zs <> [] -> sumZ (map snd zs) < 0.
Proof.
  induction 1 as [|e zs [He1 He2] Hzs IH]; intros Hne; [contradiction|].
  simpl. destruct zs as [|e' zs'].
  - simpl. lia.
  - specialize (IH ltac:(discriminate)). lia.
Qed.

Lemma all_nonnegative_sum (zs : list (string * Z)) :
  Forall (fun e => 0 <= snd e /\ snd e <> 0) zs -> zs <> [] -> 0 < sumZ (map snd zs).
Proof.
  induction 1 as [|e zs [He1 He2] Hzs IH]; intros Hne; [contradiction|].
  simpl. destruct zs as [|e' zs'].
  - simpl. lia.
  - specialize (IH ltac:(discriminate)). lia.
Qed.

Lemma forall_of_nth (P : string * Z -> Prop) zs :
  (forall j, (j < List.length zs)%nat -> P (nth j zs d0)) -> Forall P zs.
Proof.
  intros H. apply Forall_forall. intros e He.
  destruct (In_nth _ _ d0 He) as (j & Hj & <-). apply H. assumption.
Qed.

(** A settling array that is not empty holds a credit and a debt. *)
Lemma settling_extremes zs ci di :
  settling zs -> zs <> [] ->
  (forall j, (j < List.length zs)%nat -> snd (nth j zs d0) <= snd (nth ci zs d0)) ->
  (forall j, (j < List.length zs)%nat -> snd (nth di zs d0) <= snd (nth j zs d0)) ->
  snd (nth di zs d0) < 0 < snd (nth ci zs d0).
Proof.
  intros (Hnz & Hsum & _) Hne Hmax Hmin. rewrite Forall_forall in Hnz. split.
  - destruct (Z.lt_ge_cases (snd (nth di zs d0)) 0) as [L | G]; [assumption|].
    assert (0 < sumZ (map snd zs)); [|lia].
    apply all_nonnegative_sum; [|assumption].
    apply forall_of_nth. intros j Hj. specialize (Hmin j Hj).
    split; [lia | apply Hnz, nth_In; assumption].
  - destruct (Z.lt_ge_cases 0 (snd (nth ci zs d0))) as [L | G]; [assumption|].
    assert (sumZ (map snd zs) < 0); [|lia].
    apply all_nonpositive_sum; [|assumption].
    apply forall_of_nth. intros j Hj. specialize (Hmax j Hj).
    split; [lia | apply Hnz, nth_In; assumption].
Qed.

Lemma working_pass l1 ux x' l2 uy y' l3 :
  working (l1 ++ keep (ux, x') ++ l2 ++ keep (uy, y') ++ l3)
  = (working l1 ++ keptBalance ux x' ++ working l2 ++ keptBalance uy y' ++ working l3)%list.
Proof.
  unfold working, keep. simpl snd. rewrite !map_app.
  destruct (x' =? 0); destruct (y' =? 0); reflexivity.
Qed.

Lemma working_split l1 ux x l2 uy y l3 :
  working (l1 ++ (ux, x) :: l2 ++ (uy, y) :: l3)
  = (working l1 ++ mkBalance ux (units x) :: working l2
       ++ mkBalance uy (units y) :: working l3)%list.
Proof. unfold working. rewrite map_app. simpl. rewrite map_app. reflexivity. Qed.

Lemma keep_length e : (List.length (keep e) <= 1)%nat.
Proof. unfold keep. destruct (snd e =? 0); simpl; lia. Qed.

Lemma keep_zero u : keep (u, 0) = [].
Proof. reflexivity. Qed.

Lemma keep_nonzero e : Forall (fun e => snd e <> 0) (keep e).
Proof.
  unfold keep. destruct (Z.eqb_spec (snd e) 0); constructor; [assumption | constructor].
Qed.

Lemma keep_keys_NoDup (A B C : list string) ux uy x' y' :
  NoDup (A ++ ux :: B ++ uy :: C) ->
  NoDup (A ++ map fst (keep (ux, x')) ++ B ++ map fst (keep (uy, y')) ++ C).
Proof.
  intros H.
  assert (H1 : NoDup (A ++ B ++ uy :: C)) by (apply NoDup_remove_1 in H; assumption).
  assert (H2 : NoDup (A ++ ux :: B ++ C)).
  { rewrite app_comm_cons, app_assoc in H. apply NoDup_remove_1 in H.
    rewrite <- app_assoc, <- app_comm_cons in H. assumption. }
  assert (H3 : NoDup (A ++ B ++ C)).
  { rewrite app_assoc in H1. apply NoDup_remove_1 in H1.
    rewrite <- app_assoc in H1. assumption. }
  unfold keep. simpl snd.
  destruct (x' =? 0); destruct (y' =? 0); simpl; assumption.
Qed.

(** What a pass keeps of a settling array is a shorter settling array. *)
Lemma settling_after_pass l1 ux x x' l2 uy y y' l3 :
  settling (l1 ++ (ux, x) :: l2 ++ (uy, y) :: l3) ->
  x' + y' = x + y -> Z.abs x' + Z.abs y' <= Z.abs x + Z.abs y ->
  x' = 0 \/ y' = 0 ->
  let zs' := (l1 ++ keep (ux, x') ++ l2 ++ keep (uy, y') ++ l3)%list in
  settling zs'
  /\ (List.length zs' < List.length (l1 ++ (ux, x) :: l2 ++ (uy, y) :: l3))%nat
  /\ (NoDup (map fst (l1 ++ (ux, x) :: l2 ++ (uy, y) :: l3)) ->
      NoDup (map fst zs') /\ ux <> uy).
Proof.
  intros (Hnz & Hsum & Hmag) Hs Ha Hz zs'. repeat split.
  - unfold zs'. apply Forall_app in Hnz as [H1 Hx].
    inversion Hx as [|? ? _ Hx']; subst.
    apply Forall_app in Hx' as [H2 Hy]. inversion Hy as [|? ? _ H3]; subst.
    repeat (apply Forall_app; split); try assumption; apply keep_nonzero.
  - unfold zs'. rewrite (sum_map_pass snd l1 ux x x' l2 uy y y' l3) by reflexivity.
    simpl. lia.
  - unfold zs', magnitude in *.
    rewrite (sum_map_pass (fun e => Z.abs (snd e)) l1 ux x x' l2 uy y y' l3) by reflexivity.
    simpl. lia.
  - unfold zs'. rewrite !length_app. simpl. rewrite !length_app. simpl.
    destruct Hz as [-> | ->]; rewrite keep_zero; simpl.
    + pose proof (keep_length (uy, y')). lia.
    + pose proof (keep_length (ux, x')). lia.
  - unfold zs'. rewrite !map_app. apply (keep_keys_NoDup _ _ _ ux uy).
    rewrite map_app in H. simpl in H. rewrite map_app in H. simpl in H. assumption.
  - intros E. subst uy.
    rewrite map_app in H. simpl in H. rewrite map_app in H. simpl in H.
    apply NoDup_remove_2 in H. apply H.
    apply in_or_app. right. apply in_or_app. right. left. reflexivity.
Qed.

(** One pass of the loop on a settling array. *)
Lemma pass_settling zs txs :
  settling zs -> zs <> [] ->
  exists zs' ud uc m,
    iteration (working zs, txs) = (working zs', (txs ++ [transfer (ud, uc, m)])%list)
    /\ settling zs' /\ (List.length zs' < List.length zs)%nat /\ 0 < m
    /\ (forall u, owed u zs' + (if String.eqb uc u then m else 0) = owed u zs)
    /\ (forall u, owes u zs' + (if String.eqb ud u then m else 0) = owes u zs)
    /\ (NoDup (map fst zs) -> NoDup (map fst zs') /\ ud <> uc).
Proof.
  intros Hs Hne.
  assert (Hb : bounded zs) by (apply magnitude_bounded, Hs).
  destruct (maxCreditIndex_whole zs Hne Hb) as [Hci Hmax].
  destruct (maxDebitIndex_whole zs Hne Hb) as [Hdi Hmin].
  set (ci := maxCreditIndex (working zs)) in *.
  set (di := maxDebitIndex (working zs)) in *.
  pose proof (settling_extremes zs ci di Hs Hne Hmax Hmin) as [Hd Hc].
  pose proof (bounded_nth zs ci Hb) as Hbc.
  pose proof (bounded_nth zs di Hb) as Hbd.
  destruct (nth ci zs d0) as [uc c] eqn:Ec.
  destruct (nth di zs d0) as [ud d] eqn:Ed.
  simpl in Hd, Hc, Hbc, Hbd.
  set (m := Z.min (Z.abs c) (Z.abs d)).
  assert (Hm : 0 < m) by (unfold m; lia).
  destruct (Nat.lt_total ci di) as [Hlt | [Heq | Hgt]].
  - destruct (split_at_two d0 zs ci di Hlt Hdi) as (l1 & l2 & l3 & Ez & Hl1 & Hl2).
    rewrite Ec, Ed in Ez.
    destruct (settling_after_pass l1 uc c (c - m) l2 ud d (d + m) l3) as (Hs' & Hlen & Hnd);
      try (unfold m; lia).
    { rewrite <- Ez. assumption. }
    exists (l1 ++ keep (uc, c - m) ++ l2 ++ keep (ud, d + m) ++ l3)%list, ud, uc, m.
    split; [|split; [exact Hs' | split; [|split; [exact Hm | split; [|split]]]]].
    + rewrite working_pass. rewrite Ez at 1. rewrite working_split.
      apply pass_credit_first; try (fold m; unfold m; lia).
      * rewrite <- working_split, <- Ez. fold ci. rewrite working_length. lia.
      * rewrite <- working_split, <- Ez. fold di. rewrite !working_length. lia.
    + rewrite Ez. assumption.
    + intros u. unfold owed. rewrite Ez.
      rewrite (sum_map_pass _ l1 uc c (c - m) l2 ud d (d + m) l3)
        by (intros; simpl; destruct (String.eqb _ _); reflexivity).
      simpl fst. simpl snd. unfold m.
      destruct (String.eqb uc u); destruct (String.eqb ud u); lia.
    + intros u. unfold owes. rewrite Ez.
      rewrite (sum_map_pass _ l1 uc c (c - m) l2 ud d (d + m) l3)
        by (intros; simpl; destruct (String.eqb _ _); reflexivity).
      simpl fst. simpl snd. unfold m.
      destruct (String.eqb uc u); destruct (String.eqb ud u); lia.
    + intros Hnd0. rewrite Ez in Hnd0. destruct (Hnd Hnd0) as [Hn1 Hn2].
      split; [assumption | intros E; apply Hn2; symmetry; assumption].
  - exfalso. rewrite Heq, Ed in Ec. injection Ec as _ E. lia.
  - destruct (split_at_two d0 zs di ci Hgt Hci) as (l1 & l2 & l3 & Ez & Hl1 & Hl2).
    rewrite Ec, Ed in Ez.
    destruct (settling_after_pass l1 ud d (d + m) l2 uc c (c - m) l3) as (Hs' & Hlen & Hnd);
      try (unfold m; lia).
    { rewrite <- Ez. assumption. }
    exists (l1 ++ keep (ud, d + m) ++ l2 ++ keep (uc, c - m) ++ l3)%list, ud, uc, m.
    split; [|split; [exact Hs' | split; [|split; [exact Hm | split; [|split]]]]].
    + rewrite working_pass. rewrite Ez at 1. rewrite working_split.
      apply pass_debit_first; try (fold m; unfold m; lia).
      * rewrite <- working_split, <- Ez. fold ci. rewrite !working_length. lia.
      * rewrite <- working_split, <- Ez. fold di. rewrite working_length. lia.
    + rewrite Ez. assumption.
    + intros u. unfold owed. rewrite Ez.
      rewrite (sum_map_pass _ l1 ud d (d + m) l2 uc c (c - m) l3)
        by (intros; simpl; destruct (String.eqb _ _); reflexivity).
      simpl fst. simpl snd. unfold m.
      destruct (String.eqb uc u); destruct (String.eqb ud u); lia.
    + intros u. unfold owes. rewrite Ez.
      rewrite (sum_map_pass _ l1 ud d (d + m) l2 uc c (c - m) l3)
        by (intros; simpl; destruct (String.eqb _ _); reflexivity).
      simpl fst. simpl snd. unfold m.
      destruct (String.eqb uc u); destruct (String.eqb ud u); lia.
    + intros Hnd0. rewrite Ez in Hnd0. exact (Hnd Hnd0).
Qed.

(** ** The whole loop *)

Lemma settling_short zs : settling zs -> (List.length zs <= 1)%nat -> zs = [].
Proof.
  intros (Hnz & Hsum & _) Hlen. destruct zs as [|e [|e' zs]]; [reflexivity | | simpl in Hlen; lia].
  inversion Hnz; subst. simpl in Hsum. lia.
Qed.

Lemma loop_settling n : forall zs ts,
  settling zs -> (List.length zs <= S n)%nat ->
  exists ts',
    while_loop n (working zs, map transfer ts) = Some (map transfer (ts ++ ts'))
    /\ (forall u, receivedZ u ts' = owed u zs)
    /\ (forall u, sentZ u ts' = owes u zs)
    /\ Forall (fun t => 0 < snd t) ts'
    /\ (List.length ts' <= n)%nat
    /\ (NoDup (map fst zs) -> Forall (fun t => fst (fst t) <> snd (fst t)) ts').
Proof.
  induction n as [|n IH]; intros zs ts Hs Hlen.
  - rewrite (settling_short zs Hs Hlen). exists []. rewrite app_nil_r.
    repeat split; constructor.
  - destruct (Nat.le_gt_cases (List.length zs) 1) as [Hshort | Hlong].
    + rewrite (settling_short zs Hs Hshort). exists []. rewrite app_nil_r.
      repeat split; try constructor. simpl. lia.
    + assert (Hne : zs <> []) by (intros ->; simpl in Hlong; lia).
      destruct (pass_settling zs (map transfer ts) Hs Hne)
        as (zs' & ud & uc & m & Hit & Hs' & Hlen' & Hm & Howed & Howes & Hnd).
      destruct (IH zs' (ts ++ [(ud, uc, m)])%list Hs' ltac:(lia))
        as (ts' & Hloop & Hrec & Hsent & Hpos & Hcount & Hself).
      exists ((ud, uc, m) :: ts').
      split; [|split; [|split; [|split; [|split]]]].
      * rewrite while_loop_step by (simpl; rewrite working_length; lia).
        rewrite Hit. change [transfer (ud, uc, m)] with (map transfer [(ud, uc, m)]).
        rewrite <- map_app, Hloop, <- app_assoc. reflexivity.
      * intros u. unfold receivedZ in *. simpl. rewrite Hrec, <- Howed. lia.
      * intros u. unfold sentZ in *. simpl. rewrite Hsent, <- Howes. lia.
      * constructor; assumption.
      * simpl. lia.
      * intros Hnd0. destruct (Hnd Hnd0) as [Hnd1 Hne1]. constructor; [exact Hne1 | auto].
Qed.

(** ** The state before the loop *)

Local Abbreviation nonzero := (fun e : string * Z => negb (snd e =? 0)).

Lemma initialState_whole zs :
  bounded zs -> initialState (balances zs) = (working (filter nonzero zs), []).
Proof.
  intros Hb. unfold initialState. f_equal.
  unfold balances, working. rewrite map_map. simpl.
  induction Hb as [|e zs He Hb IH]; simpl; [reflexivity|].
  rewrite units_toFixed2, units_above_eps by assumption.
  destruct (snd e =? 0); simpl; rewrite IH; reflexivity.
Qed.

Lemma sum_map_filter_nonzero (g : string * Z -> Z) zs :
  (forall u, g (u, 0) = 0) ->
  sumZ (map g (filter nonzero zs)) = sumZ (map g zs).
Proof.
  intros Hg. induction zs as [|[u z] zs IH]; simpl; [reflexivity|].
  destruct (Z.eqb_spec z 0) as [-> | Hz]; simpl; rewrite IH, ?Hg; reflexivity.
Qed.

Lemma settling_filter zs :
  sumZ (map snd zs) = 0 -> magnitude zs < 2 ^ 53 -> settling (filter nonzero zs).
Proof.
  intros Hsum Hmag. repeat split.
  - apply Forall_forall. intros e He. apply filter_In in He as [_ He].
    destruct (Z.eqb_spec (snd e) 0); [discriminate | assumption].
  - rewrite (sum_map_filter_nonzero snd) by reflexivity. assumption.
  - unfold magnitude in *.
    rewrite (sum_map_filter_nonzero (fun e => Z.abs (snd e))) by reflexivity. assumption.
Qed.

Lemma owed_filter u zs : owed u (filter nonzero zs) = owed u zs.
Proof.
  unfold owed. apply sum_map_filter_nonzero.
  intros v. simpl. destruct (String.eqb v u); reflexivity.
Qed.

Lemma owes_filter u zs : owes u (filter nonzero zs) = owes u zs.
Proof.
  unfold owes. apply sum_map_filter_nonzero.
  intros v. simpl. destruct (String.eqb v u); reflexivity.
Qed.

Lemma filter_NoDup_keys zs : NoDup (map fst zs) -> NoDup (map fst (filter nonzero zs)).
Proof.
  induction zs as [|e zs IH]; simpl; intros H; [constructor|].
  inversion H as [|? ? Hnin Hnd]; subst.
  destruct (nonzero e); simpl; [constructor|]; auto.
  intros Hin. apply Hnin. apply in_map_iff in Hin as (e' & E & Hin).
  apply in_map_iff. exists e'. split; [assumption|].
  apply filter_In in Hin. apply Hin.
Qed.

Lemma filter_length_le {A} (f : A -> bool) l : (List.length (filter f l) <= List.length l)%nat.
Proof. induction l as [|a l IH]; simpl; [lia|]. destruct (f a); simpl; lia. Qed.

(** ** What the transfers bring and take *)

Lemma owed_absent u zs : ~ In u (map fst zs) -> owed u zs = 0 /\ owes u zs = 0.
Proof.
  unfold owed, owes. induction zs as [|[v z] zs IH]; simpl; intros H; [split; reflexivity|].
  destruct (String.eqb_spec v u) as [-> | Hne]; [exfalso; apply H; left; reflexivity|].
  destruct IH as [IH1 IH2]; [intros Hin; apply H; right; assumption|].
  rewrite IH1, IH2. split; reflexivity.
Qed.

Lemma owed_of_entry u z zs :
  NoDup (map fst zs) -> In (u, z) zs ->
  owed u zs = Z.max z 0 /\ owes u zs = Z.max (- z) 0.
Proof.
  induction zs as [|[v w] zs IH]; simpl; intros Hnd Hin; [contradiction|].
  inversion Hnd as [|? ? Hnin Hnd']; subst.
  destruct Hin as [E | Hin].
  - injection E as -> ->. destruct (owed_absent u zs Hnin) as [H1 H2].
    unfold owed, owes in *. simpl. rewrite String.eqb_refl, H1, H2. lia.
  - destruct (String.eqb_spec v u) as [-> | Hne].
    + exfalso. apply Hnin. apply in_map_iff. exists (u, z). split; [reflexivity | assumption].
    + destruct (IH Hnd' Hin) as [H1 H2].
      unfold owed, owes in *. simpl.
      replace (String.eqb v u) with false by (symmetry; apply String.eqb_neq; assumption).
      rewrite H1, H2. lia.
Qed.

Lemma filter_transfers (pf : Transaction -> bool) (pz : string * string * Z -> bool) ts :
  (forall t, pf (transfer t) = pz t) ->
  map t_amount (filter pf (map transfer ts)) = map units (map snd (filter pz ts)).
Proof.
  intros Hp. induction ts as [|t ts IH]; simpl; [reflexivity|].
  rewrite Hp. destruct (pz t); simpl; rewrite IH; reflexivity.
Qed.

Lemma sum_filtered_amounts (pz : string * string * Z -> bool) ts :
  Forall (fun t => 0 < snd t) ts ->
  sumZ (map Z.abs (map snd (filter pz ts)))
  = sumZ (map (fun t => if pz t then snd t else 0) ts)
  /\ sumZ (map snd (filter pz ts))
     = sumZ (map (fun t => if pz t then snd t else 0) ts).
Proof.
  induction 1 as [|t ts Ht Hts [IH1 IH2]]; simpl; [split; reflexivity|].
  destruct (pz t); simpl; rewrite ?IH1, ?IH2; split; lia.
Qed.

Lemma received_whole u ts :
  Forall (fun t => 0 < snd t) ts -> receivedZ u ts < 2 ^ 53 ->
  received u (map transfer ts) = units (receivedZ u ts).
Proof.
  intros Hpos Hb. unfold received, receivedZ in *.
  rewrite (filter_transfers _ (fun t => String.eqb (snd (fst t)) u)) by reflexivity.
  destruct (sum_filtered_amounts (fun t => String.eqb (snd (fst t)) u) ts Hpos) as [H1 H2].
  rewrite sum_units by (rewrite H1; assumption).
  rewrite H2. reflexivity.
Qed.

Lemma sent_whole u ts :
  Forall (fun t => 0 < snd t) ts -> sentZ u ts < 2 ^ 53 ->
  sent u (map transfer ts) = units (sentZ u ts).
Proof.
  intros Hpos Hb. unfold sent, sentZ in *.
  rewrite (filter_transfers _ (fun t => String.eqb (fst (fst t)) u)) by reflexivity.
  destruct (sum_filtered_amounts (fun t => String.eqb (fst (fst t)) u) ts Hpos) as [H1 H2].
  rewrite sum_units by (rewrite H1; assumption).
  rewrite H2. reflexivity.
Qed.

Lemma owed_le_magnitude u zs : owed u zs <= magnitude zs /\ owes u zs <= magnitude zs.
Proof.
  unfold owed, owes, magnitude. induction zs as [|[v z] zs [IH1 IH2]]; simpl; [lia|].
  destruct (String.eqb v u); lia.
Qed.

(** The run of [minimizeCashFlow] on zero-sum whole-number balances. *)
Lemma minimizeCashFlow_whole zs fuel :
  sumZ (map snd zs) = 0 -> magnitude zs < 2 ^ 53 -> (List.length zs <= S fuel)%nat ->
  exists ts,
    minimizeCashFlow fuel (balances zs) = Some (map transfer ts)
    /\ (forall u, received u (map transfer ts) = units (owed u zs))
    /\ (forall u, sent u (map transfer ts) = units (owes u zs))
    /\ Forall (fun t => 0 < snd t) ts
    /\ (List.length ts <= fuel)%nat
    /\ (NoDup (map fst zs) -> Forall (fun t => fst (fst t) <> snd (fst t)) ts).
Proof.
  intros Hsum Hmag Hlen.
  pose proof (settling_filter zs Hsum Hmag) as Hs.
  pose proof (filter_length_le nonzero zs) as Hfl.
  destruct (loop_settling fuel (filter nonzero zs) [] Hs ltac:(lia))
    as (ts & Hloop & Hrec & Hsent & Hpos & Hcount & Hself).
  exists ts. simpl in Hloop.
  split; [|split; [|split; [|split; [|split]]]]; try assumption.
  - unfold minimizeCashFlow. rewrite initialState_whole by (apply magnitude_bounded; assumption).
    exact Hloop.
  - intros u. pose proof (owed_le_magnitude u zs).
    rewrite received_whole; rewrite ?Hrec, ?owed_filter; [reflexivity | assumption | lia].
  - intros u. pose proof (owed_le_magnitude u zs).
    rewrite sent_whole; rewrite ?Hsent, ?owes_filter; [reflexivity | assumption | lia].
  - intros Hnd. apply Hself. apply filter_NoDup_keys. assumption.
Qed.

End WholePass.


(** * The balances of whole-number expenses *)

Section WholeBalances.
Import BalanceService Units.
Local Open Scope Z_scope.

Lemma ensure_cons_other k k' v B :
  String.eqb k' k = false -> ensure k ((k', v) :: B) = (k', v) :: ensure k B.
Proof.
  intros H. unfold ensure, map_has. simpl. rewrite H.
  destruct (map_get k B); reflexivity.
Qed.

Lemma ensure_cons_same k v B : ensure k ((k, v) :: B) = (k, v) :: B.
Proof. unfold ensure, map_has. simpl. rewrite String.eqb_refl. reflexivity. Qed.

(** Reading a balance, changing it by [d] and writing it back. *)
Lemma adjust_whole (f : JS.number -> JS.number) d k zs :
  (forall v, Z.abs v < 2 ^ 53 -> Z.abs (v + d) < 2 ^ 53 -> f (units v) = units (v + d)) ->
  Z.abs d < 2 ^ 53 ->
  Forall (fun e => Z.abs (snd e) < 2 ^ 53 /\ Z.abs (snd e + d) < 2 ^ 53) zs ->
  map_set k (f (map_get_number k (ensure k (balances zs)))) (ensure k (balances zs))
  = balances (addZ k d zs).
Proof.
  intros Hf Hd. induction 1 as [|[k' v] zs [Hv Hvd] Hzs IH].
  - simpl. unfold ensure, map_has, map_get_number. simpl.
    rewrite String.eqb_refl. simpl.
    change 0%float with (units 0). rewrite Hf by (simpl; lia). reflexivity.
  - simpl balances. simpl addZ. destruct (String.eqb k' k) eqn:E.
    + apply String.eqb_eq in E. subst k'. simpl fst. simpl snd.
      rewrite ensure_cons_same. unfold map_get_number. simpl.
      rewrite String.eqb_refl. simpl in Hv, Hvd. rewrite Hf by assumption. reflexivity.
    + simpl fst. simpl snd. rewrite ensure_cons_other by assumption.
      unfold map_get_number in *. simpl. rewrite E. simpl.
      f_equal. apply IH.
Qed.

Lemma addZ_sum k d zs : sumZ (map snd (addZ k d zs)) = sumZ (map snd zs) + d.
Proof.
  induction zs as [|[k' v] zs IH]; simpl; [lia|].
  destruct (String.eqb k' k); simpl; lia.
Qed.

Lemma addZ_magnitude k d zs : magnitude (addZ k d zs) <= magnitude zs + Z.abs d.
Proof.
  unfold magnitude. induction zs as [|[k' v] zs IH]; simpl; [lia|].
  destruct (String.eqb k' k); simpl; lia.
Qed.

Lemma magnitude_entries d zs :
  magnitude zs + Z.abs d < 2 ^ 53 ->
  Forall (fun e => Z.abs (snd e) < 2 ^ 53 /\ Z.abs (snd e + d) < 2 ^ 53) zs.
Proof.
  unfold magnitude. induction zs as [|e zs IH]; simpl; intros H; constructor.
  - pose proof (magnitude_nonneg zs). unfold magnitude in *. lia.
  - apply IH. lia.
Qed.

Lemma debit_whole zs s :
  magnitude zs + Z.abs (snd s) < 2 ^ 53 ->
  debit (balances zs) (mkExpenseSplit (fst s) (units (snd s))) = balances (debitZ zs s).
Proof.
  intros H. pose proof (magnitude_nonneg zs).
  unfold debit, debitZ. simpl es_userId. simpl es_amount.
  rewrite units_parseFloat by lia.
  apply (adjust_whole (fun x => (x - units (snd s))%float)).
  - intros v Hv Hvd. rewrite units_sub by lia. f_equal.
  - lia.
  - apply magnitude_entries. rewrite Z.abs_opp. assumption.
Qed.

Lemma debits_whole splits : forall zs,
  magnitude zs + magnitude splits < 2 ^ 53 ->
  fold_left debit (map (fun s => mkExpenseSplit (fst s) (units (snd s))) splits) (balances zs)
  = balances (fold_left debitZ splits zs)
  /\ magnitude (fold_left debitZ splits zs) <= magnitude zs + magnitude splits
  /\ sumZ (map snd (fold_left debitZ splits zs)) = sumZ (map snd zs) - sumZ (map snd splits).
Proof.
  induction splits as [|s splits IH]; intros zs H.
  - simpl. unfold magnitude at 3. simpl. repeat split; lia.
  - assert (Hs : magnitude (s :: splits) = Z.abs (snd s) + magnitude splits) by reflexivity.
    pose proof (magnitude_nonneg splits) as Hp1. pose proof (magnitude_nonneg zs) as Hp2.
    pose proof (addZ_magnitude (fst s) (- snd s) zs) as Hm. rewrite Z.abs_opp in Hm.
    simpl fold_left. rewrite debit_whole by lia.
    destruct (IH (debitZ zs s)) as (H1 & H2 & H3); [unfold debitZ; lia|].
    split; [exact H1|]. split.
    + unfold debitZ in *. lia.
    + rewrite H3. unfold debitZ. rewrite addZ_sum. simpl. lia.
Qed.

Lemma addExpense_whole zs e :
  magnitude zs + expenseMagnitude e < 2 ^ 53 ->
  addExpense (balances zs) (expense e) = balances (addExpenseZ zs e)
  /\ magnitude (addExpenseZ zs e) <= magnitude zs + expenseMagnitude e
  /\ sumZ (map snd (addExpenseZ zs e))
     = sumZ (map snd zs) + snd (fst e) - sumZ (map snd (snd e)).
Proof.
  destruct e as [[payer amount] splits]. unfold expenseMagnitude. simpl fst. simpl snd.
  intros H. pose proof (magnitude_nonneg splits) as Hp1. pose proof (magnitude_nonneg zs) as Hp2.
  pose proof (addZ_magnitude payer amount zs) as Hm.
  unfold addExpense, addExpenseZ, expense. simpl.
  rewrite units_parseFloat by lia.
  rewrite (adjust_whole (fun x => (x + units amount)%float) amount payer zs).
  - destruct (debits_whole splits (addZ payer amount zs)) as (H1 & H2 & H3); [lia|].
    split; [exact H1|]. split; [lia|]. rewrite H3, addZ_sum. lia.
  - intros v Hv Hvd. apply units_add; lia.
  - lia.
  - apply magnitude_entries. lia.
Qed.

Lemma calculateBalances_whole_from es : forall zs,
  Forall (fun e => sumZ (map snd (snd e)) = snd (fst e)) es ->
  magnitude zs + sumZ (map expenseMagnitude es) < 2 ^ 53 ->
  fold_left addExpense (map expense es) (balances zs)
  = balances (fold_left addExpenseZ es zs)
  /\ magnitude (fold_left addExpenseZ es zs) < 2 ^ 53
  /\ sumZ (map snd (fold_left addExpenseZ es zs)) = sumZ (map snd zs).
Proof.
  induction es as [|e es IH]; intros zs Hsplit H.
  - simpl in *. repeat split; lia.
  - inversion Hsplit as [|? ? He Hes]; subst. simpl in H.
    assert (Hp : 0 <= sumZ (map expenseMagnitude es)).
    { clear. induction es as [|e es IH]; simpl; [lia|].
      unfold expenseMagnitude at 1. pose proof (magnitude_nonneg (snd e)). lia. }
    destruct (addExpense_whole zs e) as (H1 & H2 & H3); [lia|].
    simpl. rewrite H1.
    destruct (IH (addExpenseZ zs e) Hes) as (H4 & H5 & H6); [lia|].
    split; [exact H4|]. split; [exact H5|]. rewrite H6, H3. lia.
Qed.

Lemma total_whole zs :
  magnitude zs < 2 ^ 53 -> total (balances zs) = units (sumZ (map snd zs)).
Proof.
  intros H. unfold total, balances. rewrite map_map. simpl.
  rewrite <- (map_map snd units). apply sum_units.
  unfold magnitude in H. rewrite map_map. assumption.
Qed.

End WholeBalances.

(** * Claims about the balances *)

Section BalanceClaims.
Import BalanceService Units.
Local Open Scope string_scope.

(** C5, as amended.  For every list of expenses with whole-number amounts,
    in which the split amounts of each expense sum to its amount and the
    absolute values of all amounts add up to less than 2^53 (so that every
    addition and subtraction is exact), the balances [calculateBalances]
    returns sum to zero. *)
Theorem calculateBalances_whole_amounts_sum_to_zero es :
  Forall (fun e => sumZ (map snd (snd e)) = snd (fst e)) es ->
  (sumZ (map expenseMagnitude es) < 2 ^ 53)%Z ->
  calculateBalances (map expense es) = balances (calculateBalancesZ es)
  /\ total (calculateBalances (map expense es)) = 0.
Proof.
  intros Hsplit Hmag.
  destruct (calculateBalances_whole_from es [] Hsplit) as (H1 & H2 & H3);
    [unfold magnitude; simpl; lia|].
  unfold calculateBalances, calculateBalancesZ.
  change (@nil (string * JS.number)) with (balances []).
  rewrite H1. split; [reflexivity|].
  rewrite total_whole by assumption. rewrite H3. reflexivity.
Qed.

(** Scenario 1 and a second expense: A pays 90 for A, B and C, then B pays
    40 for A and B. *)
Lemma calculateBalances_whole_amounts_sum_to_zero_witness :
  calculateBalances
    (map expense [("A", 90%Z, [("A", 30%Z); ("B", 30%Z); ("C", 30%Z)]);
                  ("B", 40%Z, [("A", 20%Z); ("B", 20%Z)])])
  = balances (calculateBalancesZ
                [("A", 90%Z, [("A", 30%Z); ("B", 30%Z); ("C", 30%Z)]);
                 ("B", 40%Z, [("A", 20%Z); ("B", 20%Z)])])
  /\ total (calculateBalances
              (map expense [("A", 90%Z, [("A", 30%Z); ("B", 30%Z); ("C", 30%Z)]);
                            ("B", 40%Z, [("A", 20%Z); ("B", 20%Z)])])) = 0.
Proof.
  apply (calculateBalances_whole_amounts_sum_to_zero
           [("A", 90%Z, [("A", 30%Z); ("B", 30%Z); ("C", 30%Z)]);
            ("B", 40%Z, [("A", 20%Z); ("B", 20%Z)])]).
  - repeat constructor.
  - reflexivity.
Defined.

(** C5 as stated fails: A pays 0.1 for B, then A pays 0.2 for C.  Each
    expense has one split, equal to its amount.  The balance of A is
    0.1 + 0.2 = 0.30000000000000004, and the three balances sum to
    2.7755575615628914e-17. *)
Lemma calculateBalances_sum_is_not_zero :
  calculateBalances
    [mkExpense "A" 0.1 [mkExpenseSplit "B" 0.1]; mkExpense "A" 0.2 [mkExpenseSplit "C" 0.2]]
  = [("A", 0.30000000000000004); ("B", -0.1); ("C", -0.2)]
  /\ total [("A", 0.30000000000000004); ("B", -0.1); ("C", -0.2)] = 2.7755575615628914e-17
  /\ JS.strict_neq (total [("A", 0.30000000000000004); ("B", -0.1); ("C", -0.2)]) 0 = true
  /\ sum [0.1] = 0.1 /\ sum [0.2] = 0.2.
Proof. repeat split. Qed.

End BalanceClaims.

(** * One pass on any working array *)

Section AnyPass.
Import BalanceService.
Local Open Scope string_scope.

(** A [reduce] that keeps an index or takes the current one returns an
    index of the array. *)
Lemma reduce_index_in_range (test : nat -> Balance -> bool) (bound : nat) l :
  forall a acc,
    (acc < bound)%nat -> (a + List.length l <= bound)%nat ->
    (fold_left (fun idx (ix : nat * Balance) => if test idx (snd ix) then fst ix else idx)
               (combine (seq a (List.length l)) l) acc < bound)%nat.
Proof.
  induction l as [|b l IH]; intros a acc Hacc Ha; simpl in *; [assumption|].
  apply IH; [|lia]. destruct (test acc b); lia.
Qed.

Lemma maxCreditIndex_in_range arr :
  (0 < List.length arr)%nat -> (maxCreditIndex arr < List.length arr)%nat.
Proof.
  intros H. unfold maxCreditIndex, indexed.
  apply (reduce_index_in_range
           (fun idx b => JS.gt (b_amount b) (b_amount (at_index arr idx)))); lia.
Qed.

Lemma maxDebitIndex_in_range arr :
  (0 < List.length arr)%nat -> (maxDebitIndex arr < List.length arr)%nat.
Proof.
  intros H. unfold maxDebitIndex, indexed.
  apply (reduce_index_in_range
           (fun idx b => JS.lt (b_amount b) (b_amount (at_index arr idx)))); lia.
Qed.

Lemma at_index_set_amount_same arr : forall i v,
  (i < List.length arr)%nat ->
  at_index (set_amount i v arr) i = mkBalance (b_userId (at_index arr i)) v.
Proof.
  unfold at_index. induction arr as [|b arr IH]; intros i v Hi; simpl in *; [lia|].
  destruct i as [|i]; simpl; [reflexivity|]. apply IH. lia.
Qed.

Lemma at_index_set_amount_other arr : forall i j v,
  i <> j -> at_index (set_amount i v arr) j = at_index arr j.
Proof.
  unfold at_index. induction arr as [|b arr IH]; intros i j v Hij.
  - destruct i; reflexivity.
  - destruct i as [|i]; destruct j as [|j]; simpl; try reflexivity; try lia.
    apply IH. lia.
Qed.

Lemma set_amount_length arr : forall i v,
  List.length (set_amount i v arr) = List.length arr.
Proof.
  induction arr as [|b arr IH]; intros i v.
  - destruct i; reflexivity.
  - destruct i; simpl; [reflexivity|]. rewrite IH. reflexivity.
Qed.

End AnyPass.

Section FinitePass.
Import BalanceService.
Local Open Scope float_scope.

(** A finite number that is not zero, by sign. *)
Lemma finite_cases x :
  is_finite x = true ->
  (exists s, Prim2SF x = S754_zero s) \/ (exists s m e, Prim2SF x = S754_finite s m e).
Proof.
  unfold is_finite, is_nan, is_infinity. rewrite !eqb_spec, abs_spec.
  destruct (Prim2SF x) as [s | s | | s m e] eqn:E; intros H.
  - left. exists s. reflexivity.
  - exfalso. destruct s; discriminate H.
  - discriminate H.
  - right. exists s, m, e. reflexivity.
Qed.

Lemma positive_finite x :
  JS.gt x 0 = true -> is_finite x = true -> exists m e, Prim2SF x = S754_finite false m e.
Proof.
  unfold JS.gt. rewrite ltb_spec. change (Prim2SF 0) with (S754_zero false).
  intros Hgt Hfin. destruct (finite_cases x Hfin) as [[s E] | (s & m & e & E)]; rewrite E in Hgt.
  - discriminate Hgt.
  - destruct s; [discriminate Hgt|]. exists m, e. assumption.
Qed.

Lemma negative_finite x :
  JS.lt x 0 = true -> is_finite x = true -> exists m e, Prim2SF x = S754_finite true m e.
Proof.
  unfold JS.lt. rewrite ltb_spec. change (Prim2SF 0) with (S754_zero false).
  intros Hlt Hfin. destruct (finite_cases x Hfin) as [[s E] | (s & m & e & E)]; rewrite E in Hlt.
  - discriminate Hlt.
  - destruct s; [|discriminate Hlt]. exists m, e. assumption.
Qed.

Lemma finite_sub_self x s m e : Prim2SF x = S754_finite s m e -> x - x = 0.
Proof.
  intros E. apply Prim2SF_inj. rewrite sub_spec, E.
  unfold SF64sub, SFsub. rewrite Z.sub_diag. reflexivity.
Qed.

Lemma negative_add_abs x m e : Prim2SF x = S754_finite true m e -> x + abs x = 0.
Proof.
  intros E. apply Prim2SF_inj. rewrite add_spec, abs_spec, E.
  unfold SF64add, SFadd, SFabs, cond_Zopp. rewrite Z.add_opp_diag_l. reflexivity.
Qed.

Lemma positive_abs x m e : Prim2SF x = S754_finite false m e -> abs x = x.
Proof. intros E. apply Prim2SF_inj. rewrite abs_spec, E. reflexivity. Qed.

Lemma finite_abs_not_nan x s m e : Prim2SF x = S754_finite s m e -> is_nan (abs x) = false.
Proof.
  intros E. unfold is_nan. rewrite eqb_spec, abs_spec, E. unfold SFabs, SFeqb.
  rewrite SFcompare_refl_finite. reflexivity.
Qed.

Lemma min_is_one_of x y :
  is_nan x = false -> is_nan y = false -> JS.min x y = x \/ JS.min x y = y.
Proof.
  intros Hx Hy. unfold JS.min. rewrite Hx, Hy. simpl.
  destruct (x <? y); [left; reflexivity|].
  destruct (y <? x); [right; reflexivity|].
  destruct (get_sign x); [left | right]; reflexivity.
Qed.

Lemma splice1_length {A : Type} (l : list A) : forall i,
  (i < List.length l)%nat -> List.length (splice1 i l) = (List.length l - 1)%nat.
Proof.
  induction l as [|a l IH]; intros i Hi; simpl in *; [lia|].
  destruct i as [|i]; simpl; [lia|]. rewrite IH by lia. lia.
Qed.

Lemma removeSettled_shrinks ci di arr :
  (ci < List.length arr)%nat -> (di < List.length arr)%nat -> ci <> di ->
  JS.lt (JS.abs (b_amount (at_index arr ci))) 0.01 = true
  \/ JS.lt (JS.abs (b_amount (at_index arr di))) 0.01 = true ->
  (List.length (removeSettled ci di arr) < List.length arr)%nat.
Proof.
  intros Hci Hdi Hne Hsettled. unfold removeSettled.
  destruct (JS.lt (JS.abs (b_amount (at_index arr ci))) 0.01) eqn:Ec;
    destruct (JS.lt (JS.abs (b_amount (at_index arr di))) 0.01) eqn:Ed.
  - rewrite Bool.andb_true_r. destruct (Nat.ltb_spec ci di).
    + rewrite !splice1_length; rewrite ?splice1_length; lia.
    + rewrite !splice1_length; rewrite ?splice1_length; lia.
  - rewrite splice1_length; lia.
  - rewrite Bool.andb_false_r. rewrite splice1_length; lia.
  - destruct Hsettled; discriminate.
Qed.

(** A pass that pairs a credit with a debt settles one of the two, and
    the array gets shorter. *)
Lemma pass_shrinks arr txs :
  (1 < List.length arr)%nat -> opposed arr ->
  (List.length (fst (iteration (arr, txs))) < List.length arr)%nat.
Proof.
  intros Hlen (Hc & Hd & Hfc & Hfd).
  destruct (positive_finite _ Hc Hfc) as (mc & ec & Ec).
  destruct (negative_finite _ Hd Hfd) as (md & ed & Ed).
  pose proof (maxCreditIndex_in_range arr ltac:(lia)) as Hci.
  pose proof (maxDebitIndex_in_range arr ltac:(lia)) as Hdi.
  assert (Hne : maxCreditIndex arr <> maxDebitIndex arr).
  { intros E. rewrite E in Ec. rewrite Ec in Ed. discriminate Ed. }
  assert (Hul : List.length (updateBalances arr) = List.length arr)
    by (unfold updateBalances; rewrite !set_amount_length; reflexivity).
  simpl fst. rewrite <- Hul.
  apply removeSettled_shrinks; try assumption.
  - rewrite Hul. assumption.
  - rewrite Hul. assumption.
  - unfold updateBalances.
    rewrite (at_index_set_amount_other _ (maxDebitIndex arr) (maxCreditIndex arr))
      by (intros E; apply Hne; symmetry; exact E).
    rewrite at_index_set_amount_same by assumption.
    rewrite at_index_set_amount_same by (rewrite set_amount_length; assumption).
    rewrite at_index_set_amount_other by assumption.
    simpl b_amount.
    destruct (min_is_one_of (JS.abs (b_amount (at_index arr (maxCreditIndex arr))))
                (JS.abs (b_amount (at_index arr (maxDebitIndex arr)))))
      as [Hm | Hm].
    + apply (finite_abs_not_nan _ _ _ _ Ec).
    + apply (finite_abs_not_nan _ _ _ _ Ed).
    + left. unfold minAmountOf. rewrite Hm. unfold JS.abs at 2.
      rewrite (positive_abs _ _ _ Ec), (finite_sub_self _ _ _ _ Ec). reflexivity.
    + right. unfold minAmountOf. rewrite Hm. unfold JS.abs at 2.
      rewrite (negative_add_abs _ _ _ Ed). reflexivity.
Qed.

(** As long as every pass pairs a credit with a debt, the loop returns
    after fewer passes than the array has entries. *)
Lemma loop_returns_while_opposed n : forall st,
  (List.length (fst st) <= S n)%nat ->
  (forall k, (1 < List.length (fst (run k st)))%nat -> opposed (fst (run k st))) ->
  exists txs, while_loop n st = Some txs.
Proof.
  induction n as [|n IH]; intros st Hlen Hop.
  - exists (snd st). apply while_loop_done. assumption.
  - destruct (Nat.le_gt_cases (List.length (fst st)) 1) as [Hshort | Hlong].
    + exists (snd st). apply while_loop_done. assumption.
    + rewrite while_loop_step by assumption. apply IH.
      * pose proof (pass_shrinks (fst st) (snd st) Hlong (Hop 0%nat Hlong)) as Hs.
        rewrite <- surjective_pairing in Hs. lia.
      * intros k Hk. rewrite <- run_step in * by assumption. apply Hop. assumption.
Qed.

Lemma initialState_length balances :
  (List.length (fst (initialState balances)) <= List.length balances)%nat.
Proof.
  unfold initialState. simpl fst.
  set (f := fun user => JS.gt (JS.abs (b_amount user)) 0.01).
  set (l := map _ balances).
  replace (List.length balances) with (List.length l) by (unfold l; apply length_map).
  clearbody l. induction l as [|b l IH]; simpl; [lia|].
  destruct (f b); simpl; lia.
Qed.

End FinitePass.


(** * Claims settled by running the program *)

Section Scenarios.
Import ExpenseService BalanceService.
Local Open Scope string_scope.

(** C8.  Scenario 1: A pays 90, split EQUAL over A, B and C in this order.
    The shares are 30 each, the balances are A: +60, B: -30, C: -30, and
    [minimizeCashFlow] returns the transfers B to A of 30 and C to A of 30,
    in this order, after two passes of its loop. *)
Theorem scenario_equal_split_three_users :
  let shares := [mkSplit "A" 30 None; mkSplit "B" 30 None; mkSplit "C" 30 None] in
  let balances := [("A", 60); ("B", -30); ("C", -30)] in
  calculateSplits 90 "EQUAL" [participant "A"; participant "B"; participant "C"]
  = Ok shares
  /\ calculateBalances [storedExpense "A" 90 shares] = balances
  /\ (forall fuel,
        minimizeCashFlow (2 + fuel) balances
        = Some [mkTransaction "B" "A" 30; mkTransaction "C" "A" 30])
  /\ minimizeCashFlow 1 balances = None.
Proof.
  intros shares balances. repeat split.
  intros fuel. unfold minimizeCashFlow. apply while_loop_more. reflexivity.
Qed.

(** C3 fails on the program.  The balances below sum to zero, in the order
    of the map and as exact numbers (0.02 is twice 0.01).  The four debts
    of 0.01 are dropped before the loop, the working array is left with
    the two credits of 0.02, and every pass then picks A as creditor and
    as debtor: it records a transfer from A to A and changes nothing, so
    the call never returns. *)
Theorem self_transfer_on_zero_sum_balances :
  let balances :=
    [("A", 0.02); ("C", -0.01); ("D", -0.01); ("B", 0.02); ("E", -0.01); ("F", -0.01)] in
  total balances = 0
  /\ fst (initialState balances) = [mkBalance "A" 0.02; mkBalance "B" 0.02]
  /\ (forall n, snd (run n (initialState balances))
                = repeat (mkTransaction "A" "A" 0.02) n)
  /\ diverges balances.
Proof.
  intros balances.
  assert (Hst : initialState balances = ([mkBalance "A" 0.02; mkBalance "B" 0.02], []))
    by reflexivity.
  assert (Hit : forall txs,
             iteration ([mkBalance "A" 0.02; mkBalance "B" 0.02], txs)
             = ([mkBalance "A" 0.02; mkBalance "B" 0.02],
                (txs ++ [mkTransaction "A" "A" 0.02])%list)).
  { intros txs. unfold iteration. f_equal. }
  assert (Hlen : Nat.lt 1 (List.length [mkBalance "A" 0.02; mkBalance "B" 0.02]))
    by (simpl; unfold Nat.lt; lia).
  repeat split.
  - intros n. rewrite Hst.
    rewrite (stuck_state_runs _ _ Hlen Hit). reflexivity.
  - intros fuel. unfold minimizeCashFlow. rewrite Hst.
    apply (stuck_state_diverges _ _ Hlen Hit).
Qed.

End Scenarios.

(** * Claims about the settlement loop *)

Section LoopClaims.
Import BalanceService Units.
Local Open Scope string_scope.

(** C1, as amended.  For every zero-sum map of whole-number balances whose
    absolute values add up to less than 2^53 (so that every operation of
    the loop is exact), [minimizeCashFlow] returns, and in the transfer
    list it returns the amounts directed to each user sum to that user's
    positive balance and the amounts sent by each user sum to the absolute
    value of that user's negative balance.  [fuel] bounds the passes of the
    loop: one less than the number of balances is enough. *)
Theorem minimizeCashFlow_settles_whole_balances zs fuel :
  NoDup (map fst zs) ->
  sumZ (map snd zs) = 0%Z ->
  (magnitude zs < 2 ^ 53)%Z ->
  (List.length zs <= S fuel)%nat ->
  exists txs,
    minimizeCashFlow fuel (balances zs) = Some txs
    /\ forall u z, In (u, z) zs ->
         received u txs = units (Z.max z 0) /\ sent u txs = units (Z.max (- z) 0).
Proof.
  intros Hnd Hsum Hmag Hlen.
  destruct (minimizeCashFlow_whole zs fuel Hsum Hmag Hlen)
    as (ts & Hrun & Hrec & Hsent & _).
  exists (map transfer ts). split; [assumption|].
  intros u z Hin. destruct (owed_of_entry u z zs Hnd Hin) as [H1 H2].
  rewrite Hrec, Hsent, H1, H2. split; reflexivity.
Qed.

(** The balances of scenario 1: A is owed 60, B and C owe 30 each. *)
Lemma minimizeCashFlow_settles_whole_balances_witness :
  exists txs,
    minimizeCashFlow 2 (balances [("A", 60%Z); ("B", (-30)%Z); ("C", (-30)%Z)]) = Some txs
    /\ forall u z, In (u, z) [("A", 60%Z); ("B", (-30)%Z); ("C", (-30)%Z)] ->
         received u txs = units (Z.max z 0) /\ sent u txs = units (Z.max (- z) 0).
Proof.
  apply (minimizeCashFlow_settles_whole_balances
           [("A", 60%Z); ("B", (-30)%Z); ("C", (-30)%Z)] 2).
  - repeat constructor; simpl; intuition discriminate.
  - reflexivity.
  - reflexivity.
  - simpl. lia.
Defined.

(** C1 as stated fails.  The balances A: 0.125, B: -0.125 sum to zero and
    are settled by a transfer of 0.13.  The balances A: -0.02, B: 0.03,
    C: 0.04, D: -0.05 have two decimals and sum to zero, left to right in
    floating point and as decimal numbers; the call returns D to C of 0.04
    and A to B of 0.02, so B receives 0.02 of its 0.03 and D sends 0.04 of
    its 0.05: after the second pass B is left with 0.03 - 0.02, which is
    below 0.01 in floating point and is dropped. *)
Lemma minimizeCashFlow_misses_balances :
  (total [("A", 0.125); ("B", -0.125)] = 0
   /\ minimizeCashFlow 1 [("A", 0.125); ("B", -0.125)]
      = Some [mkTransaction "B" "A" 0.13]
   /\ JS.strict_neq (received "A" [mkTransaction "B" "A" 0.13]) 0.125 = true)
  /\ (total [("A", -0.02); ("B", 0.03); ("C", 0.04); ("D", -0.05)] = 0
      /\ (-2 + 3 + 4 - 5 = 0)%Z
      /\ minimizeCashFlow 2 [("A", -0.02); ("B", 0.03); ("C", 0.04); ("D", -0.05)]
         = Some [mkTransaction "D" "C" 0.04; mkTransaction "A" "B" 0.02]
      /\ received "B" [mkTransaction "D" "C" 0.04; mkTransaction "A" "B" 0.02] = 0.02
      /\ JS.strict_neq 0.02 0.03 = true
      /\ sent "D" [mkTransaction "D" "C" 0.04; mkTransaction "A" "B" 0.02] = 0.04
      /\ JS.strict_neq 0.04 0.05 = true).
Proof. repeat split. Qed.

(** C2, as amended.  The loop of [minimizeCashFlow] has no bound on its
    passes and no error for a broken invariant.  On a list of N balances it
    returns after at most N - 1 passes whenever every pass it makes pairs a
    finite credit above zero with a finite debt below zero.  For every
    zero-sum map of N whole-number balances whose absolute values add up
    to less than 2^53 it returns after at most N - 1 passes, with at most
    N - 1 transfers. *)
Theorem minimizeCashFlow_returns_within_bound :
  (forall balances,
      (forall k, (1 < List.length (fst (run k (initialState balances))))%nat ->
                 opposed (fst (run k (initialState balances)))) ->
      exists txs, minimizeCashFlow (List.length balances - 1) balances = Some txs)
  /\ (forall zs,
        sumZ (map snd zs) = 0%Z ->
        (magnitude zs < 2 ^ 53)%Z ->
        exists txs,
          minimizeCashFlow (List.length zs - 1) (balances zs) = Some txs
          /\ (List.length txs <= List.length zs - 1)%nat
          /\ forall extra,
               minimizeCashFlow (List.length zs - 1 + extra) (balances zs) = Some txs).
Proof.
  split.
  - intros bs Hop. unfold minimizeCashFlow.
    apply loop_returns_while_opposed; [|assumption].
    pose proof (initialState_length bs). lia.
  - intros zs Hsum Hmag.
    destruct (minimizeCashFlow_whole zs (List.length zs - 1) Hsum Hmag ltac:(lia))
      as (ts & Hrun & _ & _ & _ & Hcount & _).
    exists (map transfer ts). split; [assumption|]. split.
    + rewrite length_map. assumption.
    + intros extra. unfold minimizeCashFlow in *. apply while_loop_more. assumption.
Qed.

Lemma minimizeCashFlow_returns_within_bound_witness :
  exists txs,
    minimizeCashFlow 2 (balances [("A", 60%Z); ("B", (-30)%Z); ("C", (-30)%Z)]) = Some txs
    /\ (List.length txs <= 2)%nat
    /\ forall extra,
         minimizeCashFlow (2 + extra) (balances [("A", 60%Z); ("B", (-30)%Z); ("C", (-30)%Z)])
         = Some txs.
Proof.
  apply (proj2 minimizeCashFlow_returns_within_bound
           [("A", 60%Z); ("B", (-30)%Z); ("C", (-30)%Z)]).
  - reflexivity.
  - reflexivity.
Defined.

(** C2 as stated fails: on two equal credits every pass picks the first
    entry as creditor and as debtor and leaves the array as it was; the
    loop is still running after any number of passes, and nothing is
    thrown. *)
Lemma minimizeCashFlow_loops_on_equal_credits :
  diverges [("A", 1); ("B", 1)]
  /\ fst (run 3 (initialState [("A", 1); ("B", 1)])) = [mkBalance "A" 1; mkBalance "B" 1].
Proof.
  split; [|reflexivity].
  intros fuel. unfold minimizeCashFlow.
  change (initialState [("A", 1); ("B", 1)])
    with ([mkBalance "A" 1; mkBalance "B" 1], @nil Transaction).
  apply (stuck_state_diverges _ (mkTransaction "A" "A" 1)).
  - simpl. lia.
  - intros txs. unfold iteration. f_equal.
Qed.

End LoopClaims.

Section PassClaims.
Import BalanceService.
Local Open Scope string_scope.

(** C9, as amended.  In every pass of the loop in which the creditor and
    the debtor are different entries, the creditor's working amount becomes
    its amount minus the unrounded [minAmount], the debtor's becomes its
    amount plus the same [minAmount] (both in floating point), no other
    entry changes before the settled ones are removed, and the transfer
    pushed records [minAmount] rounded to two decimals.  The recorded
    amount can differ from the amount moved: after the first pass on
    A: 0.3, B: -0.1, C: -0.2 the loop moves 0.09999999999999998 and
    records 0.1. *)
Theorem pass_moves_minAmount_and_records_it_rounded :
  (forall arr txs,
      (1 < List.length arr)%nat ->
      maxCreditIndex arr <> maxDebitIndex arr ->
      let maxCredit := at_index arr (maxCreditIndex arr) in
      let maxDebit := at_index arr (maxDebitIndex arr) in
      let minAmount := minAmountOf arr in
      at_index (updateBalances arr) (maxCreditIndex arr)
      = mkBalance (b_userId maxCredit) (b_amount maxCredit - minAmount)
      /\ at_index (updateBalances arr) (maxDebitIndex arr)
         = mkBalance (b_userId maxDebit) (b_amount maxDebit + minAmount)
      /\ (forall j, j <> maxCreditIndex arr -> j <> maxDebitIndex arr ->
                    at_index (updateBalances arr) j = at_index arr j)
      /\ iteration (arr, txs)
         = (removeSettled (maxCreditIndex arr) (maxDebitIndex arr) (updateBalances arr),
            (txs ++ [mkTransaction (b_userId maxDebit) (b_userId maxCredit)
                       (JS.toFixed2 minAmount)])%list))
  /\ (fst (run 1 (initialState [("A", 0.3); ("B", -0.1); ("C", -0.2)]))
      = [mkBalance "A" 0.09999999999999998; mkBalance "B" (-0.1)]
      /\ minAmountOf [mkBalance "A" 0.09999999999999998; mkBalance "B" (-0.1)]
         = 0.09999999999999998
      /\ t_amount (recordedTransaction [mkBalance "A" 0.09999999999999998; mkBalance "B" (-0.1)])
         = 0.1
      /\ JS.strict_neq 0.1 0.09999999999999998 = true).
Proof.
  split; [|repeat split].
  intros arr txs Hlen Hne maxCredit maxDebit minAmount.
  pose proof (maxCreditIndex_in_range arr ltac:(lia)) as Hci.
  pose proof (maxDebitIndex_in_range arr ltac:(lia)) as Hdi.
  unfold updateBalances. fold minAmount.
  split; [|split; [|split]].
  - rewrite at_index_set_amount_other by (intros E; apply Hne; symmetry; exact E).
    rewrite at_index_set_amount_same by assumption. reflexivity.
  - rewrite at_index_set_amount_same by (rewrite set_amount_length; assumption).
    rewrite !at_index_set_amount_other by assumption. reflexivity.
  - intros j Hj1 Hj2.
    rewrite !at_index_set_amount_other by (intros E; symmetry in E; contradiction).
    reflexivity.
  - reflexivity.
Qed.

(** The first pass on the balances of scenario 1. *)
Lemma pass_moves_minAmount_and_records_it_rounded_witness :
  at_index (updateBalances [mkBalance "A" 60; mkBalance "B" (-30); mkBalance "C" (-30)]) 0
  = mkBalance "A" (60 - 30)
  /\ at_index (updateBalances [mkBalance "A" 60; mkBalance "B" (-30); mkBalance "C" (-30)]) 1
     = mkBalance "B" (-30 + 30).
Proof.
  pose proof (proj1 pass_moves_minAmount_and_records_it_rounded
                [mkBalance "A" 60; mkBalance "B" (-30); mkBalance "C" (-30)] []) as H.
  destruct H as (H1 & H2 & _).
  - simpl. lia.
  - discriminate.
  - split; [exact H1 | exact H2].
Defined.

(** C9 as stated fails: a pass changes the sum of the working set.  After
    the first pass on A: -0.02, B: 0.03, C: 0.04, D: -0.05 the working
    amounts sum to -3.4694469519536142e-18; the second pass moves 0.02 from
    A to B, removes A and removes B with the 0.009999999999999998 it is
    left with, so the working set then sums to -0.010000000000000002. *)
Lemma pass_changes_working_total :
  fst (run 1 (initialState [("A", -0.02); ("B", 0.03); ("C", 0.04); ("D", -0.05)]))
  = [mkBalance "A" (-0.02); mkBalance "B" 0.03; mkBalance "D" (-0.010000000000000002)]
  /\ workingTotal
       [mkBalance "A" (-0.02); mkBalance "B" 0.03; mkBalance "D" (-0.010000000000000002)]
     = -3.4694469519536142e-18
  /\ updateBalances
       [mkBalance "A" (-0.02); mkBalance "B" 0.03; mkBalance "D" (-0.010000000000000002)]
     = [mkBalance "A" 0; mkBalance "B" 0.009999999999999998;
        mkBalance "D" (-0.010000000000000002)]
  /\ fst (iteration
            ([mkBalance "A" (-0.02); mkBalance "B" 0.03;
              mkBalance "D" (-0.010000000000000002)], []))
     = [mkBalance "D" (-0.010000000000000002)]
  /\ workingTotal [mkBalance "D" (-0.010000000000000002)] = -0.010000000000000002
  /\ JS.strict_neq (-3.4694469519536142e-18) (-0.010000000000000002) = true.
Proof. repeat split. Qed.

End PassClaims.

(** * The keys of the balance map *)

Section BalanceKeys.
Import BalanceService Reports.

Lemma map_set_keys k v m :
  map fst (map_set k v m)
  = if map_has k m then map fst m else (map fst m ++ [k])%list.
Proof.
  unfold map_has. induction m as [|[k' v'] m IH]; simpl.
  - reflexivity.
  - destruct (String.eqb k' k) eqn:E; simpl.
    + apply String.eqb_eq in E. subst. reflexivity.
    + rewrite IH. destruct (map_get k m); reflexivity.
Qed.

Lemma map_has_In k m : map_has k m = true <-> In k (map fst m).
Proof.
  unfold map_has. induction m as [|[k' v'] m IH]; simpl.
  - split; [discriminate | tauto].
  - destruct (String.eqb k' k) eqn:E.
    + apply String.eqb_eq in E. subst. tauto.
    + apply String.eqb_neq in E. rewrite IH. split; [tauto|]. intros [H|H]; [congruence | assumption].
Qed.

Lemma map_has_set_same k v m : map_has k (map_set k v m) = true.
Proof.
  unfold map_has. induction m as [|[k' v'] m IH]; simpl.
  - rewrite String.eqb_refl. reflexivity.
  - destruct (String.eqb k' k) eqn:E; simpl.
    + rewrite String.eqb_refl. reflexivity.
    + rewrite E. assumption.
Qed.

(** What one credit or debit does to the keys: the user is appended when
    new, and the keys are as they were otherwise. *)
Lemma adjust_keys k v m :
  map fst (map_set k v (ensure k m))
  = if map_has k m then map fst m else (map fst m ++ [k])%list.
Proof.
  unfold ensure. destruct (map_has k m) eqn:E.
  - rewrite map_set_keys, E. reflexivity.
  - rewrite map_set_keys, map_has_set_same, map_set_keys, E. reflexivity.
Qed.

Lemma adjust_keys_spec k v m :
  NoDup (map fst m) ->
  NoDup (map fst (map_set k v (ensure k m)))
  /\ forall u, In u (map fst (map_set k v (ensure k m))) <-> In u (map fst m) \/ u = k.
Proof.
  intros Hnd. rewrite adjust_keys. destruct (map_has k m) eqn:E.
  - split; [assumption|]. intros u. apply map_has_In in E.
    split; [tauto|]. intros [H|H]; [assumption | subst; assumption].
  - assert (~ In k (map fst m)) as Hn.
    { intros H. apply map_has_In in H. congruence. }
    split.
    + apply NoDup_app; [assumption | constructor; [intros [] | constructor] |].
      intros a Ha [Hb|[]]. subst. contradiction.
    + intros u. rewrite in_app_iff. simpl. intuition congruence.
Qed.

Lemma debits_keys splits : forall m,
  NoDup (map fst m) ->
  NoDup (map fst (fold_left debit splits m))
  /\ forall u, In u (map fst (fold_left debit splits m))
               <-> In u (map fst m) \/ In u (map es_userId splits).
Proof.
  induction splits as [|s splits IH]; intros m Hnd; simpl.
  - split; [assumption | intros; tauto].
  - unfold debit at 2 4.
    destruct (adjust_keys_spec (es_userId s)
                (map_get_number (es_userId s) (ensure (es_userId s) m)
                 - JS.parseFloat (es_amount s)) m Hnd) as [Hnd' Hin].
    destruct (IH _ Hnd') as [H1 H2]. split; [assumption|].
    intros u. rewrite H2, Hin. intuition congruence.
Qed.

Lemma calculateBalances_keys_from expenses : forall m,
  NoDup (map fst m) ->
  NoDup (map fst (fold_left addExpense expenses m))
  /\ forall u, In u (map fst (fold_left addExpense expenses m))
               <-> In u (map fst m) \/ In u (namedUsers expenses).
Proof.
  induction expenses as [|e expenses IH]; intros m Hnd; simpl.
  - split; [assumption | intros; tauto].
  - unfold addExpense at 2 4.
    destruct (adjust_keys_spec (e_paidById e)
                (map_get_number (e_paidById e) (ensure (e_paidById e) m)
                 + JS.parseFloat (e_amount e)) m Hnd) as [Hnd' Hin].
    destruct (debits_keys (e_splits e) _ Hnd') as [Hnd'' Hin'].
    destruct (IH _ Hnd'') as [H1 H2]. split; [assumption|].
    intros u. rewrite H2, Hin', Hin, in_app_iff. simpl. intuition congruence.
Qed.

End BalanceKeys.

Section BalanceKeysResults.
Import BalanceService Reports.

(** X1.  The map [calculateBalances] returns has exactly one entry for
    every user the expenses name, as payer or as participant, and no entry
    for anyone else; this holds for all amounts. *)
Theorem calculateBalances_has_one_entry_per_named_user expenses :
  NoDup (map fst (calculateBalances expenses))
  /\ forall u, map_has u (calculateBalances expenses) = true <-> In u (namedUsers expenses).
Proof.
  destruct (calculateBalances_keys_from expenses [] (NoDup_nil _)) as [Hnd Hin].
  split; [exact Hnd|].
  intros u. rewrite map_has_In. unfold calculateBalances. rewrite Hin. simpl. tauto.
Qed.

End BalanceKeysResults.

(** * Signs of differences *)

Section Signs.

Lemma opp_involutive x : - - x = x.
Proof.
  apply Prim2SF_inj. rewrite !opp_spec. destruct (Prim2SF x); simpl; try reflexivity;
    rewrite negb_involutive; reflexivity.
Qed.

Lemma abs_opp x : abs (- x) = abs x.
Proof.
  apply Prim2SF_inj. rewrite !abs_spec, opp_spec. destruct (Prim2SF x); reflexivity.
Qed.

Lemma binary_round_aux_opp s m e l :
  binary_round_aux prec emax (negb s) m e l = SFopp (binary_round_aux prec emax s m e l).
Proof.
  unfold binary_round_aux.
  destruct (shr_fexp prec emax m e l) as [mrs' e'].
  destruct (shr_fexp prec emax _ e' loc_Exact) as [mrs'' e''].
  destruct (shr_m mrs''); try reflexivity.
  destruct (e'' <=? emax - prec)%Z; reflexivity.
Qed.

Lemma binary_round_opp s m e :
  binary_round prec emax (negb s) m e = SFopp (binary_round prec emax s m e).
Proof.
  unfold binary_round. destruct (shl_align m e _) as [mz ez]. apply binary_round_aux_opp.
Qed.

(** Rounding a difference and the opposite difference: opposite results,
    or +0 twice. *)
Lemma binary_normalize_opp z e :
  binary_normalize prec emax (- z) e false
  = if (z =? 0)%Z then S754_zero false
    else SFopp (binary_normalize prec emax z e false).
Proof.
  destruct z as [|p|p]; simpl; try reflexivity.
  - apply (binary_round_opp false).
  - rewrite <- (binary_round_opp true). reflexivity.
Qed.

Lemma SFsub_swap X Y :
  SFsub prec emax Y X = SFopp (SFsub prec emax X Y)
  \/ (exists s s', SFsub prec emax X Y = S754_zero s /\ SFsub prec emax Y X = S754_zero s').
Proof.
  destruct X as [sx|sx| |sx mx ex], Y as [sy|sy| |sy my ey]; simpl;
    try (left; reflexivity);
    try (destruct sx, sy; simpl;
         (left; reflexivity) || (right; eexists; eexists; split; reflexivity)).
  rewrite (Z.min_comm ey ex).
  set (A := cond_Zopp sx (Zpos (fst (shl_align mx ex (Z.min ex ey))))).
  set (B := cond_Zopp sy (Zpos (fst (shl_align my ey (Z.min ex ey))))).
  replace (B - A)%Z with (- (A - B))%Z by ring.
  rewrite binary_normalize_opp.
  destruct (A - B =? 0)%Z eqn:E.
  - apply Z.eqb_eq in E. rewrite E. right. exists false, false. split; reflexivity.
  - left. reflexivity.
Qed.

(** [b - a] is the opposite of [a - b], or both are zero. *)
Lemma sub_swap a b :
  b - a = - (a - b) \/ (is_zero (a - b) = true /\ is_zero (b - a) = true).
Proof.
  destruct (SFsub_swap (Prim2SF a) (Prim2SF b)) as [H | (s & s' & H1 & H2)].
  - left. apply Prim2SF_inj. rewrite opp_spec, !sub_spec. exact H.
  - right. unfold is_zero. rewrite !eqb_spec, !sub_spec. unfold SF64sub. rewrite H1, H2.
    split; destruct s; try destruct s'; reflexivity.
Qed.

Lemma toFixed2_zero x : is_zero x = true -> JS.toFixed2 x = 0.
Proof.
  unfold is_zero, JS.toFixed2. rewrite eqb_spec.
  destruct (Prim2SF x) as [s|s| |s m e]; try reflexivity; try discriminate.
  - destruct s; discriminate.
  - destruct s; discriminate.
Qed.

Lemma toFixed2_opp x : is_zero x = false -> JS.toFixed2 (- x) = - JS.toFixed2 x.
Proof.
  unfold is_zero, JS.toFixed2. rewrite eqb_spec, abs_opp, opp_spec.
  destruct (Prim2SF x) as [s|s| |s m e]; simpl; try reflexivity.
  - destruct s; discriminate.
  - intros _. destruct (0x1p46 <=? abs x); [reflexivity|].
    destruct s; simpl; [rewrite opp_involutive|]; reflexivity.
Qed.

Lemma gt_opp_zero x : JS.gt (- x) 0 = JS.lt x 0.
Proof.
  unfold JS.gt, JS.lt. rewrite !ltb_spec, opp_spec.
  destruct (Prim2SF x) as [s|s| |s m e]; try destruct s; reflexivity.
Qed.

Lemma lt_opp_zero x : JS.lt (- x) 0 = JS.gt x 0.
Proof.
  unfold JS.gt, JS.lt. rewrite !ltb_spec, opp_spec.
  destruct (Prim2SF x) as [s|s| |s m e]; try destruct s; reflexivity.
Qed.

Lemma gt_lt_zero x : JS.gt x 0 = true -> JS.lt x 0 = false.
Proof.
  unfold JS.gt, JS.lt. rewrite !ltb_spec.
  destruct (Prim2SF x) as [s|s| |s m e]; try destruct s; vm_compute; congruence.
Qed.

End Signs.

(** * The balance between two users *)

Section PairBalances.
Import BalanceService BalanceController Reports.
Local Open Scope string_scope.

Lemma countExpense_swap c o st e :
  c <> o -> countExpense o c (swapped st) e = swapped (countExpense c o st e).
Proof.
  intros Hne. unfold countExpense, swapped. destruct st as [a b]. simpl.
  destruct (String.eqb (e_paidById e) c) eqn:Ec, (String.eqb (e_paidById e) o) eqn:Eo; simpl.
  - apply String.eqb_eq in Ec, Eo. congruence.
  - destruct (findSplit o e); reflexivity.
  - destruct (findSplit c e); reflexivity.
  - rewrite (orb_comm (negb (someSplit o e))).
    destruct (negb (someSplit c e) || negb (someSplit o e)); reflexivity.
Qed.

Lemma pairTotals_swap c o es : c <> o -> forall st,
  fold_left (countExpense o c) es (swapped st) = swapped (fold_left (countExpense c o) es st).
Proof.
  intros Hne. induction es as [|e es IH]; intros st; cbn [fold_left]; [reflexivity|].
  rewrite countExpense_swap by assumption. apply IH.
Qed.

(** The rounded difference of two totals, seen from each side. *)
Lemma netBalance_swap a b :
  JS.toFixed2 (a - b) = - JS.toFixed2 (b - a)
  \/ (JS.toFixed2 (b - a) = 0 /\ JS.toFixed2 (a - b) = 0).
Proof.
  destruct (sub_swap b a) as [H | [H1 H2]].
  - destruct (is_zero (b - a)) eqn:Ez.
    + right. split; [apply toFixed2_zero; assumption|].
      apply toFixed2_zero. rewrite H. unfold is_zero in *.
      rewrite eqb_spec, opp_spec in *.
      destruct (Prim2SF (b - a)) as [s|s| |s m e]; try destruct s; vm_compute in *; congruence.
    + left. rewrite H. apply toFixed2_opp. assumption.
  - right. split; apply toFixed2_zero; assumption.
Qed.

(** What the handler sends when it sends. *)
Lemma getUserBalanceInGroup_sent client groupId otherUserId currentUserId data :
  getUserBalanceInGroup (Some client) groupId otherUserId currentUserId = Sent data ->
  exists otherUser,
    user_findUnique client otherUserId = Some otherUser
    /\ groupMember_findFirst client groupId currentUserId = true
    /\ data
       = let totals :=
           fold_left (countExpense currentUserId otherUserId)
             (expense_findMany client groupId) (0, 0) in
         let netBalance := JS.toFixed2 (snd totals - fst totals) in
         mkPairData (user_findUnique client currentUserId) otherUser
           (mkPairBalance (JS.toFixed2 (fst totals)) (JS.toFixed2 (snd totals)) netBalance
              (if JS.gt netBalance 0 then "theyOweYou"
               else if JS.lt netBalance 0 then "youOweThem" else "settled")
              (JS.abs netBalance)).
Proof.
  unfold getUserBalanceInGroup.
  destruct (String.eqb groupId "" || String.eqb otherUserId ""); [discriminate|].
  destruct (groupMember_findFirst client groupId currentUserId); cbn [negb]; [|discriminate].
  destruct (fold_left (countExpense currentUserId otherUserId)
              (expense_findMany client groupId) (0, 0)) as [x y].
  destruct (user_findUnique client otherUserId) as [otherUser|]; [|discriminate].
  intros [= <-]. exists otherUser. repeat split.
Qed.

End PairBalances.

Section PairBalanceResults.
Import BalanceService BalanceController Reports.
Local Open Scope string_scope.




End PairBalanceResults.

(** * The reports on whole-number ledgers *)

Section WholeReports.
Import BalanceService BalanceReports Units WholeLedger.
Local Open Scope Z_scope.

Local Abbreviation nonzero := (fun e : string * Z => negb (snd e =? 0)).

Lemma units_ge_eps z : 0 <= z < 2 ^ 53 -> (0.01 <=? units z)%float = negb (z =? 0).
Proof.
  intros Hz. rewrite leb_spec, Prim2SF_units, Prim2SF_eps by lia.
  unfold SFunits. destruct (Z.eqb_spec z 0) as [-> | Hz0]; [reflexivity|].
  replace (z <? 0) with false by (symmetry; apply Z.ltb_ge; lia).
  unfold canon, SFleb, SFcompare.
  pose proof (digits_pos (Z.abs z) ltac:(lia)).
  destruct (Z.compare_spec (-59) (digits (Z.abs z) - 53)); reflexivity || lia.
Qed.

Lemma units_at_least_eps z :
  Z.abs z < 2 ^ 53 -> ge (JS.abs (units z)) 0.01%float = negb (z =? 0).
Proof.
  intros Hz. unfold ge, JS.le, JS.abs. rewrite units_abs by assumption.
  rewrite units_ge_eps by lia.
  destruct (Z.eqb_spec z 0) as [-> | Hz0]; [reflexivity|].
  replace (Z.abs z =? 0) with false by (symmetry; apply Z.eqb_neq; lia). reflexivity.
Qed.

Lemma units_positive z : Z.abs z < 2 ^ 53 -> JS.gt (units z) 0%float = (0 <? z).
Proof.
  intros Hz. unfold JS.gt. change 0%float with (units 0).
  apply units_ltb; simpl; lia.
Qed.

Lemma owedTotal_nonneg zs : 0 <= owedTotal zs /\ 0 <= oweTotal zs.
Proof.
  unfold owedTotal, oweTotal. induction zs as [|e zs [IH1 IH2]]; simpl; lia.
Qed.

Lemma owedTotal_magnitude zs : owedTotal zs + oweTotal zs = magnitude zs.
Proof.
  unfold owedTotal, oweTotal, magnitude. induction zs as [|e zs IH]; simpl; lia.
Qed.

Lemma owedTotal_difference zs : owedTotal zs - oweTotal zs = sumZ (map snd zs).
Proof.
  unfold owedTotal, oweTotal. induction zs as [|e zs IH]; simpl; lia.
Qed.

Lemma formatBalances_whole_from users zs : forall lines owedAcc oweAcc,
  0 <= owedAcc -> 0 <= oweAcc ->
  owedAcc + oweAcc + magnitude zs < 2 ^ 53 ->
  fold_left (formatEntry users) (balances zs)
    (mkFormatting lines (units owedAcc) (units oweAcc))
  = mkFormatting (lines ++ map (reportLine users) (filter nonzero zs))
      (units (owedAcc + owedTotal zs)) (units (oweAcc + oweTotal zs)).
Proof.
  induction zs as [|[u z] zs IH]; intros lines owedAcc oweAcc H1 H2 Hm.
  - simpl. unfold owedTotal, oweTotal. simpl. rewrite app_nil_r, !Z.add_0_r. reflexivity.
  - pose proof (magnitude_nonneg zs) as Hn.
    change (magnitude ((u, z) :: zs)) with (Z.abs z + magnitude zs) in Hm.
    change (balances ((u, z) :: zs)) with ((u, units z) :: balances zs).
    cbn [fold_left]. unfold formatEntry at 2. cbn [fst snd].
    rewrite units_toFixed2, units_at_least_eps, units_positive by lia.
    cbn [formattedBalances totalOwed totalOwe filter snd].
    destruct (Z.eqb_spec z 0) as [-> | Hz0]; cbn [negb].
    + rewrite (IH lines owedAcc oweAcc) by lia.
      unfold owedTotal, oweTotal. simpl. reflexivity.
    + destruct (Z.ltb_spec 0 z) as [Hp | Hp].
      * rewrite units_add by lia.
        rewrite (IH _ (owedAcc + z) oweAcc) by lia.
        rewrite <- app_assoc. unfold owedTotal, oweTotal, reportLine. cbn [map sumZ fold_right fst snd app].
        replace (0 <? z) with true by (symmetry; apply Z.ltb_lt; lia).
        unfold sumZ. f_equal; f_equal; lia.
      * rewrite units_abs, units_add by lia.
        rewrite (IH _ owedAcc (oweAcc + Z.abs z)) by lia.
        rewrite <- app_assoc. unfold owedTotal, oweTotal, reportLine. cbn [map sumZ fold_right fst snd app].
        replace (0 <? z) with false by (symmetry; apply Z.ltb_ge; lia).
        unfold sumZ. f_equal; f_equal; lia.
Qed.

Lemma formatBalances_whole users zs :
  magnitude zs < 2 ^ 53 ->
  formatBalances users (balances zs)
  = mkFormatting (map (reportLine users) (filter nonzero zs))
      (units (owedTotal zs)) (units (oweTotal zs)).
Proof.
  intros Hm. unfold formatBalances. change 0%float with (units 0).
  rewrite formatBalances_whole_from by lia. reflexivity.
Qed.

End WholeReports.

Section GroupReport.
Import BalanceService BalanceReports Units WholeLedger.
Local Open Scope string_scope.
Local Open Scope Z_scope.

Local Abbreviation nonzero := (fun e : string * Z => negb (snd e =? 0)).

(** X4.  On a ledger of whole-number expenses whose splits add up to the
    amounts, [getGroupBalances] returns (given a pass of the settlement
    loop for every user but one); its report lists exactly the users with
    a non-zero balance, each with that balance, and the two totals of its
    summary are equal. *)
Theorem getGroupBalances_on_whole_ledger es users transactionUsers fuel :
  Forall (fun e => sumZ (map snd (snd e)) = snd (fst e)) es ->
  sumZ (map expenseMagnitude es) < 2 ^ 53 ->
  (List.length (calculateBalancesZ es) <= S fuel)%nat ->
  exists report,
    getGroupBalances fuel true (map expense es) users transactionUsers = Some (Ok report)
    /\ gb_balances report
       = map (reportLine users) (filter nonzero (calculateBalancesZ es))
    /\ gb_totalOwed report = units (owedTotal (calculateBalancesZ es))
    /\ gb_totalOwe report = gb_totalOwed report
    /\ (List.length (gb_transactions report) <= fuel)%nat.
Proof.
  intros Hsplit Hmag Hfuel.
  destruct (calculateBalances_whole_from es [] Hsplit) as (Hbal & Hm & Hsum).
  { change (magnitude []) with 0. lia. }
  change (fold_left addExpenseZ es []) with (calculateBalancesZ es) in *.
  change (fold_left addExpense (map expense es) (balances []))
    with (calculateBalances (map expense es)) in Hbal.
  change (sumZ (map snd [])) with 0 in Hsum.
  set (zs := calculateBalancesZ es) in *.
  destruct (minimizeCashFlow_whole zs fuel Hsum Hm Hfuel) as (ts & Hts & _ & _ & _ & Hlen & _).
  unfold getGroupBalances. cbn [negb]. rewrite Hbal, Hts.
  rewrite formatBalances_whole by assumption.
  cbn [formattedBalances totalOwed totalOwe].
  pose proof (owedTotal_nonneg zs) as [Hn1 Hn2].
  pose proof (owedTotal_magnitude zs) as Hom.
  pose proof (owedTotal_difference zs) as Hod.
  eexists. split; [reflexivity|]. cbn [gb_balances gb_totalOwed gb_totalOwe gb_transactions].
  rewrite !units_toFixed2 by lia.
  split; [reflexivity|]. split; [reflexivity|]. split.
  - f_equal. lia.
  - rewrite !length_map. exact Hlen.
Qed.

(** A dinner A pays for three and a taxi B pays for two. *)
Lemma getGroupBalances_on_whole_ledger_witness :
  exists report,
    getGroupBalances 2 true
      (map expense [("A", 90, [("A", 30); ("B", 30); ("C", 30)]);
                    ("B", 40, [("A", 20); ("B", 20)])])
      [mkUser "A" "Ann"; mkUser "B" "Bob"; mkUser "C" "Cy"] [] = Some (Ok report)
    /\ gb_balances report
       = map (reportLine [mkUser "A" "Ann"; mkUser "B" "Bob"; mkUser "C" "Cy"])
           (filter nonzero
              (calculateBalancesZ [("A", 90, [("A", 30); ("B", 30); ("C", 30)]);
                                   ("B", 40, [("A", 20); ("B", 20)])]))
    /\ gb_totalOwed report
       = units (owedTotal
                  (calculateBalancesZ [("A", 90, [("A", 30); ("B", 30); ("C", 30)]);
                                       ("B", 40, [("A", 20); ("B", 20)])]))
    /\ gb_totalOwe report = gb_totalOwed report
    /\ (List.length (gb_transactions report) <= 2)%nat.
Proof.
  apply (getGroupBalances_on_whole_ledger
           [("A", 90, [("A", 30); ("B", 30); ("C", 30)]); ("B", 40, [("A", 20); ("B", 20)])]
           [mkUser "A" "Ann"; mkUser "B" "Bob"; mkUser "C" "Cy"] [] 2%nat).
  - repeat constructor.
  - reflexivity.
  - simpl. lia.
Defined.

End GroupReport.

(** * The balances of one user across groups *)

Section UserReport.
Import BalanceService BalanceReports Reports Units WholeLedger.
Local Open Scope string_scope.
Local Open Scope Z_scope.

Lemma map_get_absent k m : ~ In k (map fst m) -> map_get k m = None.
Proof.
  intros H. pose proof (map_has_In k m) as Hi. unfold map_has in Hi.
  destruct (map_get k m); [|reflexivity]. exfalso. apply H, Hi. reflexivity.
Qed.

Lemma names_In u expenses : names u expenses = true <-> In u (namedUsers expenses).
Proof.
  unfold names. rewrite existsb_exists. split.
  - intros (x & Hx & E). apply String.eqb_eq in E. subst. assumption.
  - intros H. exists u. split; [assumption | apply String.eqb_refl].
Qed.

Lemma addMembership_unnamed u st m :
  names u (m_expenses m) = false -> addMembership u st m = st.
Proof.
  intros H. unfold addMembership, userBalanceIn.
  rewrite map_get_absent; [reflexivity|].
  intros Hin.
  destruct (calculateBalances_keys_from (m_expenses m) [] (NoDup_nil _)) as [_ Hk].
  apply Hk in Hin. destruct Hin as [[] | Hin].
  apply names_In in Hin. congruence.
Qed.

Lemma getUserBalances_filter u ms : forall st,
  fold_left (addMembership u) (filter (fun m => names u (m_expenses m)) ms) st
  = fold_left (addMembership u) ms st.
Proof.
  induction ms as [|m ms IH]; intros st; simpl; [reflexivity|].
  destruct (names u (m_expenses m)) eqn:E; simpl.
  - apply IH.
  - rewrite (addMembership_unnamed _ _ _ E). apply IH.
Qed.

(** The balances of a whole-number expense list, whatever the splits add
    up to. *)
Lemma calculateBalances_whole_any es : forall zs,
  magnitude zs + sumZ (map expenseMagnitude es) < 2 ^ 53 ->
  fold_left addExpense (map expense es) (balances zs)
  = balances (fold_left addExpenseZ es zs)
  /\ magnitude (fold_left addExpenseZ es zs) <= magnitude zs + sumZ (map expenseMagnitude es).
Proof.
  induction es as [|e es IH]; intros zs Hm.
  - simpl. split; [reflexivity | lia].
  - change (sumZ (map expenseMagnitude (e :: es)))
      with (expenseMagnitude e + sumZ (map expenseMagnitude es)) in *.
    assert (0 <= sumZ (map expenseMagnitude es)) as Hn.
    { clear. induction es as [|e es IH]; simpl; [lia|].
      unfold expenseMagnitude at 1. pose proof (magnitude_nonneg (snd e)). lia. }
    assert (0 <= expenseMagnitude e) as Hn'.
    { unfold expenseMagnitude. pose proof (magnitude_nonneg (snd e)). lia. }
    destruct (addExpense_whole zs e) as (H1 & H2 & _); [lia|].
    cbn [map fold_left]. rewrite H1.
    destruct (IH (addExpenseZ zs e)) as [H3 H4]; [lia|].
    split; [exact H3 | lia].
Qed.

Lemma map_get_whole u zs :
  map_get u (balances zs)
  = option_map (fun e => units (snd e)) (find (fun e => String.eqb (fst e) u) zs).
Proof.
  induction zs as [|[k z] zs IH]; simpl; [reflexivity|].
  destruct (String.eqb k u); [reflexivity | exact IH].
Qed.

Lemma balanceOf_magnitude u zs : Z.abs (balanceOf u zs) <= magnitude zs.
Proof.
  unfold balanceOf. induction zs as [|[k z] zs IH]; simpl.
  - unfold magnitude. simpl. lia.
  - change (magnitude ((k, z) :: zs)) with (Z.abs z + magnitude zs).
    pose proof (magnitude_nonneg zs).
    destruct (String.eqb k u); simpl; lia.
Qed.

Lemma userBalanceIn_whole u g :
  membershipMagnitude g < 2 ^ 53 ->
  userBalanceIn u (m_expenses (membership g)) = units (balanceIn u g)
  /\ Z.abs (balanceIn u g) <= membershipMagnitude g.
Proof.
  intros Hm. unfold membershipMagnitude in *.
  destruct (calculateBalances_whole_any (snd g) []) as [H1 H2].
  { change (magnitude []) with 0. lia. }
  change (magnitude []) with 0 in H2.
  unfold userBalanceIn, balanceIn, membership. cbn [m_expenses].
  unfold calculateBalances. change (@nil (string * JS.number)) with (balances []).
  rewrite H1. change (fold_left addExpenseZ (snd g) []) with (calculateBalancesZ (snd g)) in *.
  pose proof (balanceOf_magnitude u (calculateBalancesZ (snd g))) as Hb.
  split; [|lia].
  rewrite map_get_whole. unfold balanceOf in *.
  destruct (find _ (calculateBalancesZ (snd g))) as [e|]; simpl; [|reflexivity].
  simpl in Hb.
  unfold is_zero. change zero with (units 0).
  rewrite units_eqb, units_is_nan by (simpl; lia).
  destruct (Z.eqb_spec (snd e) 0) as [-> | Hz]; reflexivity.
Qed.

End UserReport.

Section UserReportWhole.
Import BalanceService BalanceReports Reports Units WholeLedger.
Local Open Scope string_scope.
Local Open Scope Z_scope.

Local Abbreviation involved u :=
  (fun g : string * string * list (string * Z * list (string * Z)) =>
     negb (balanceIn u g =? 0)).

Lemma membershipMagnitude_nonneg g : 0 <= membershipMagnitude g.
Proof.
  unfold membershipMagnitude. induction (snd g) as [|e es IH]; simpl; [lia|].
  unfold expenseMagnitude at 1. pose proof (magnitude_nonneg (snd e)). lia.
Qed.

Lemma memberships_magnitude_nonneg gs : 0 <= sumZ (map membershipMagnitude gs).
Proof.
  induction gs as [|g gs IH]; simpl; [lia|].
  pose proof (membershipMagnitude_nonneg g). lia.
Qed.

Lemma addMemberships_whole u gs : forall lines owedAcc oweAcc,
  0 <= owedAcc -> 0 <= oweAcc ->
  owedAcc + oweAcc + sumZ (map membershipMagnitude gs) < 2 ^ 53 ->
  fold_left (addMembership u) (map membership gs)
    (mkUserTotals lines (units owedAcc) (units oweAcc))
  = mkUserTotals (lines ++ map (groupLine u) (filter (involved u) gs))
      (units (owedAcc + owedAcross u gs)) (units (oweAcc + oweAcross u gs)).
Proof.
  induction gs as [|g gs IH]; intros lines owedAcc oweAcc H1 H2 Hm.
  - simpl. unfold owedAcross, oweAcross. simpl. rewrite app_nil_r, !Z.add_0_r. reflexivity.
  - change (sumZ (map membershipMagnitude (g :: gs)))
      with (membershipMagnitude g + sumZ (map membershipMagnitude gs)) in Hm.
    pose proof (memberships_magnitude_nonneg gs) as Hn.
    pose proof (membershipMagnitude_nonneg g) as Hg.
    destruct (userBalanceIn_whole u g) as [Hb Hbound]; [lia|].
    cbn [map fold_left]. unfold addMembership at 2. rewrite Hb.
    rewrite units_toFixed2, units_at_least_eps, units_positive by lia.
    cbn [groupBalances ut_totalOwed ut_totalOwe filter].
    unfold owedAcross, oweAcross. cbn [map]. unfold sumZ. cbn [fold_right].
    fold (sumZ (map (fun g => Z.max (balanceIn u g) 0) gs)).
    fold (sumZ (map (fun g => Z.max (- balanceIn u g) 0) gs)).
    fold (owedAcross u gs). fold (oweAcross u gs).
    destruct (Z.eqb_spec (balanceIn u g) 0) as [E | Hz0]; cbn [negb].
    + rewrite (IH lines owedAcc oweAcc) by lia. rewrite E. reflexivity.
    + destruct (Z.ltb_spec 0 (balanceIn u g)) as [Hp | Hp].
      * rewrite units_add by lia.
        rewrite (IH _ (owedAcc + balanceIn u g) oweAcc) by lia.
        rewrite <- app_assoc. unfold groupLine at 2. cbn [membership m_groupId m_groupName app map].
        replace (0 <? balanceIn u g) with true by (symmetry; apply Z.ltb_lt; lia).
        f_equal; f_equal; lia.
      * rewrite units_abs, units_add by lia.
        rewrite (IH _ owedAcc (oweAcc + Z.abs (balanceIn u g))) by lia.
        rewrite <- app_assoc. unfold groupLine at 2. cbn [membership m_groupId m_groupName app map].
        replace (0 <? balanceIn u g) with false by (symmetry; apply Z.ltb_ge; lia).
        f_equal; f_equal; lia.
Qed.

Lemma across_bounds u gs :
  0 <= owedAcross u gs /\ 0 <= oweAcross u gs
  /\ owedAcross u gs - oweAcross u gs = sumZ (map (balanceIn u) gs).
Proof.
  unfold owedAcross, oweAcross. induction gs as [|g gs IH]; simpl; lia.
Qed.

Lemma across_magnitude u gs :
  Forall (fun g => membershipMagnitude g < 2 ^ 53) gs ->
  owedAcross u gs + oweAcross u gs <= sumZ (map membershipMagnitude gs).
Proof.
  unfold owedAcross, oweAcross. induction 1 as [|g gs Hg Hgs IH]; simpl; [lia|].
  destruct (userBalanceIn_whole u g Hg) as [_ Hb]. lia.
Qed.

End UserReportWhole.

Section UserReportResults.
Import BalanceService BalanceReports Reports Units WholeLedger.
Local Open Scope string_scope.
Local Open Scope Z_scope.

Local Abbreviation involved u :=
  (fun g : string * string * list (string * Z * list (string * Z)) =>
     negb (balanceIn u g =? 0)).

(** X5.  A group none of whose expenses names the user, as payer or as
    participant, changes nothing in the report of [getUserBalances]: no line,
    and no contribution to the totals. *)
Theorem getUserBalances_skips_groups_without_the_user userId groupMemberships :
  getUserBalances userId groupMemberships
  = getUserBalances userId
      (filter (fun m => names userId (m_expenses m)) groupMemberships).
Proof.
  unfold getUserBalances. rewrite getUserBalances_filter. reflexivity.
Qed.

Lemma each_membership_bounded gs :
  sumZ (map membershipMagnitude gs) < 2 ^ 53 ->
  Forall (fun g => membershipMagnitude g < 2 ^ 53) gs.
Proof.
  induction gs as [|g gs IH]; intros H; constructor.
  - simpl in H. pose proof (memberships_magnitude_nonneg gs). lia.
  - apply IH. simpl in H. pose proof (membershipMagnitude_nonneg g). lia.
Qed.

(** X6.  On whole-number expenses (all amounts of all groups adding up to
    less than 2^53), [getUserBalances] lists exactly the groups in which the
    user's balance is not 0, each with that balance; its totals are the sums
    of the positive and of the negative balances, and its net balance is
    the sum of the user's balances over the groups. *)
Theorem getUserBalances_on_whole_ledgers userId gs :
  sumZ (map membershipMagnitude gs) < 2 ^ 53 ->
  let report := getUserBalances userId (map membership gs) in
  ub_balances report = map (groupLine userId) (filter (involved userId) gs)
  /\ ub_totalOwed report = units (owedAcross userId gs)
  /\ ub_totalOwe report = units (oweAcross userId gs)
  /\ ub_netBalance report = units (sumZ (map (balanceIn userId) gs)).
Proof.
  intros Hm. unfold getUserBalances. change 0%float with (units 0).
  rewrite addMemberships_whole by lia.
  cbn [groupBalances ut_totalOwed ut_totalOwe ub_balances ub_totalOwed ub_totalOwe
       ub_netBalance app Z.add].
  pose proof (across_bounds userId gs) as (H1 & H2 & H3).
  pose proof (across_magnitude userId gs (each_membership_bounded gs Hm)) as H4.
  rewrite units_sub by lia. rewrite !units_toFixed2 by lia.
  rewrite H3. repeat split; reflexivity.
Qed.

(** Two groups: in the first the user is owed 60, in the second the user
    owes 20. *)
Lemma getUserBalances_on_whole_ledgers_witness :
  ub_balances
    (getUserBalances "A"
       (map membership
          [("g1", "Flat", [("A", 90, [("A", 30); ("B", 30); ("C", 30)])]);
           ("g2", "Trip", [("B", 40, [("A", 20); ("B", 20)])])]))
  = map (groupLine "A")
      (filter (involved "A")
         [("g1", "Flat", [("A", 90, [("A", 30); ("B", 30); ("C", 30)])]);
          ("g2", "Trip", [("B", 40, [("A", 20); ("B", 20)])])])
  /\ ub_totalOwed
       (getUserBalances "A"
          (map membership
             [("g1", "Flat", [("A", 90, [("A", 30); ("B", 30); ("C", 30)])]);
              ("g2", "Trip", [("B", 40, [("A", 20); ("B", 20)])])]))
     = units (owedAcross "A"
                [("g1", "Flat", [("A", 90, [("A", 30); ("B", 30); ("C", 30)])]);
                 ("g2", "Trip", [("B", 40, [("A", 20); ("B", 20)])])])
  /\ ub_totalOwe
       (getUserBalances "A"
          (map membership
             [("g1", "Flat", [("A", 90, [("A", 30); ("B", 30); ("C", 30)])]);
              ("g2", "Trip", [("B", 40, [("A", 20); ("B", 20)])])]))
     = units (oweAcross "A"
                [("g1", "Flat", [("A", 90, [("A", 30); ("B", 30); ("C", 30)])]);
                 ("g2", "Trip", [("B", 40, [("A", 20); ("B", 20)])])])
  /\ ub_netBalance
       (getUserBalances "A"
          (map membership
             [("g1", "Flat", [("A", 90, [("A", 30); ("B", 30); ("C", 30)])]);
              ("g2", "Trip", [("B", 40, [("A", 20); ("B", 20)])])]))
     = units (sumZ (map (balanceIn "A")
                      [("g1", "Flat", [("A", 90, [("A", 30); ("B", 30); ("C", 30)])]);
                       ("g2", "Trip", [("B", 40, [("A", 20); ("B", 20)])])])).
Proof.
  apply (getUserBalances_on_whole_ledgers "A"
           [("g1", "Flat", [("A", 90, [("A", 30); ("B", 30); ("C", 30)])]);
            ("g2", "Trip", [("B", 40, [("A", 20); ("B", 20)])])]).
  reflexivity.
Defined.

End UserReportResults.

(** * The pairing loop of the settlement suggestions *)

Section PairingStore.
Import BalanceReports SettlementController Queues.

Lemma setAmount_length s : forall r v, List.length (setAmount r v s) = List.length s.
Proof.
  induction s as [|b s IH]; intros [|r] v; simpl; try reflexivity.
  rewrite IH. reflexivity.
Qed.

Lemma entryAt_setAmount_same s : forall r v,
  (r < List.length s)%nat ->
  entryAt (setAmount r v s) r = withAmount (entryAt s r) v.
Proof.
  induction s as [|b s IH]; intros [|r] v H; simpl in *; try lia.
  - reflexivity.
  - apply IH. lia.
Qed.

Lemma entryAt_setAmount_other s : forall r r' v,
  r <> r' -> entryAt (setAmount r v s) r' = entryAt s r'.
Proof.
  unfold entryAt.
  induction s as [|b s IH]; intros [|r] [|r'] v H; simpl; try reflexivity; try congruence.
  apply IH. congruence.
Qed.

Lemma map_entryAt_setAmount_other s r v refs :
  ~ In r refs -> map (entryAt (setAmount r v s)) refs = map (entryAt s) refs.
Proof.
  intros H. apply map_ext_in. intros r' Hr'. apply entryAt_setAmount_other.
  intros E. subst. contradiction.
Qed.

Lemma split_at (l : list nat) k :
  (k < List.length l)%nat ->
  l = (firstn k l ++ nth k l 0%nat :: skipn (S k) l)%list
  /\ firstn (S k) l = (firstn k l ++ [nth k l 0%nat])%list
  /\ skipn k l = nth k l 0%nat :: skipn (S k) l.
Proof.
  revert k. induction l as [|x l IH]; intros k H; simpl in H; [lia|].
  destruct k as [|k].
  - simpl. repeat split.
  - destruct (IH k ltac:(lia)) as (H1 & H2 & H3).
    rewrite !firstn_cons, !skipn_cons, <- !app_comm_cons.
    change (nth (S k) (x :: l) 0%nat) with (nth k l 0%nat).
    split; [f_equal; exact H1|]. split; [rewrite H2; reflexivity | exact H3].
Qed.

End PairingStore.

Section PairingView.
Import BalanceReports SettlementController Queues.

Lemma NoDup_app_parts {A : Type} (l1 l2 : list A) :
  NoDup (l1 ++ l2) -> NoDup l1 /\ NoDup l2 /\ forall x, In x l1 -> ~ In x l2.
Proof.
  induction l1 as [|a l1 IH]; simpl; intros H.
  - repeat split; [constructor | assumption | intros x []].
  - inversion H as [|? ? Ha Hnd]; subst. destruct (IH Hnd) as (H1 & H2 & H3).
    repeat split.
    + constructor; [|assumption]. intros Hin. apply Ha, in_or_app. left. assumption.
    + assumption.
    + intros x [-> | Hx]; [|apply H3; assumption].
      intros Hin. apply Ha, in_or_app. right. assumption.
Qed.

Lemma referenced_here (l : list nat) k :
  NoDup l -> (k < List.length l)%nat ->
  ~ In (nth k l 0%nat) (firstn k l) /\ ~ In (nth k l 0%nat) (skipn (S k) l).
Proof.
  intros Hnd Hk. destruct (split_at l k Hk) as (E & _ & _).
  rewrite E in Hnd. apply NoDup_remove_2 in Hnd.
  split; intros H; apply Hnd, in_or_app; [left | right]; assumption.
Qed.

Lemma In_firstn_skipn (l : list nat) k x :
  In x (firstn k l) \/ In x (skipn k l) -> In x l.
Proof.
  rewrite <- (firstn_skipn k l) at 3. rewrite in_app_iff. tauto.
Qed.

Lemma map_entryAt_two s p n vp vn refs :
  ~ In p refs -> ~ In n refs ->
  map (entryAt (setAmount n vn (setAmount p vp s))) refs = map (entryAt s) refs.
Proof.
  intros Hp Hn. rewrite map_entryAt_setAmount_other by assumption.
  apply map_entryAt_setAmount_other. assumption.
Qed.

(** One pass of the loop on the store is one step on the queues. *)
Lemma pairingStep_view P N st :
  wellReferenced (store st) P N ->
  pairingContinues P N st = true ->
  view P N (pairingStep P N st) = queueStep (view P N st)
  /\ wellReferenced (store (pairingStep P N st)) P N
  /\ List.length (store (pairingStep P N st)) = List.length (store st)
  /\ map en_user (store (pairingStep P N st)) = map en_user (store st)
  /\ map en_type (store (pairingStep P N st)) = map en_type (store st).
Proof.
  intros [Hnd Hin] Hc. unfold pairingContinues in Hc.
  apply andb_true_iff in Hc as [Hi Hj]. apply Nat.ltb_lt in Hi, Hj.
  destruct (NoDup_app_parts _ _ Hnd) as (HndP & HndN & Hdis).
  destruct (split_at P (i st) Hi) as (EP & EP1 & EP2).
  destruct (split_at N (j st) Hj) as (EN & EN1 & EN2).
  destruct (referenced_here P (i st) HndP Hi) as [Hp1 Hp2].
  destruct (referenced_here N (j st) HndN Hj) as [Hn1 Hn2].
  set (p := nth (i st) P 0%nat) in *. set (n := nth (j st) N 0%nat) in *.
  assert (In p P) as HpP by (apply nth_In; assumption).
  assert (In n N) as HnN by (apply nth_In; assumption).
  assert (p <> n) as Hpn by (intros E; apply (Hdis p HpP); rewrite E; assumption).
  assert (p < List.length (store st))%nat as Hpl.
  { rewrite Forall_forall in Hin. apply Hin, in_or_app. left. assumption. }
  assert (n < List.length (store st))%nat as Hnl.
  { rewrite Forall_forall in Hin. apply Hin, in_or_app. right. assumption. }
  assert (forall k, ~ In p (firstn k N) /\ ~ In p (skipn k N)) as HpN.
  { intros k. split; intros H; apply (Hdis p HpP); apply (In_firstn_skipn N k); tauto. }
  assert (forall k, ~ In n (firstn k P) /\ ~ In n (skipn k P)) as HnP.
  { intros k. split; intros H; apply (Hdis n); [| assumption | | assumption];
      apply (In_firstn_skipn P k); tauto. }
  unfold pairingStep. fold p. fold n.
  set (pos := entryAt (store st) p). set (neg := entryAt (store st) n).
  set (amount := JS.min (en_amount pos) (JS.abs (en_amount neg))).
  set (store1 := setAmount p (en_amount pos - amount) (store st)).
  assert (entryAt store1 n = neg) as E1.
  { apply entryAt_setAmount_other. assumption. }
  rewrite E1.
  set (store2 := setAmount n (en_amount neg + amount) store1).
  assert (entryAt store2 p = withAmount pos (en_amount pos - amount)) as E2.
  { unfold store2. rewrite entryAt_setAmount_other by congruence.
    apply entryAt_setAmount_same. assumption. }
  assert (entryAt store2 n = withAmount neg (en_amount neg + amount)) as E3.
  { unfold store2. rewrite entryAt_setAmount_same.
    - rewrite E1. reflexivity.
    - unfold store1. rewrite setAmount_length. assumption. }
  rewrite E2, E3.
  assert (forall refs, ~ In p refs -> ~ In n refs ->
                       map (entryAt store2) refs = map (entryAt (store st)) refs) as Hsame.
  { intros refs H1 H2. apply map_entryAt_two; assumption. }
  split; [|split; [|split; [|split]]].
  - unfold view, queueStep. cbn [store i j suggestions passedPos waitingPos passedNeg
                                 waitingNeg suggested].
    rewrite EP2, EN2. cbn [map]. fold pos. fold neg. fold amount.
    cbn [withAmount en_amount].
    destruct (JS.lt (JS.abs (en_amount pos - amount)) 0.01),
             (JS.lt (JS.abs (en_amount neg + amount)) 0.01);
      rewrite ?EP1, ?EN1, ?EP2, ?EN2, ?map_app; cbn [map]; rewrite ?E2, ?E3;
      rewrite !Hsame by (try apply HpN; try apply HnP; assumption);
      reflexivity.
  - split; [assumption|]. cbn [store]. unfold store2, store1.
    rewrite !setAmount_length. assumption.
  - cbn [store]. unfold store2, store1. rewrite !setAmount_length. reflexivity.
  - cbn [store]. unfold store2, store1. clear.
    assert (forall s r v, map en_user (setAmount r v s) = map en_user s) as H.
    { induction s as [|b s IH]; intros [|r] v; simpl; try reflexivity.
      rewrite IH. reflexivity. }
    rewrite !H. reflexivity.
  - cbn [store]. unfold store2, store1. clear.
    assert (forall s r v, map en_type (setAmount r v s) = map en_type s) as H.
    { induction s as [|b s IH]; intros [|r] v; simpl; try reflexivity.
      rewrite IH. reflexivity. }
    rewrite !H. reflexivity.
Qed.

End PairingView.

Section PairingLoop.
Import BalanceReports SettlementController Queues.

Lemma pairingContinues_view P N st :
  pairingContinues P N st = queueContinues (view P N st).
Proof.
  unfold pairingContinues, queueContinues, view. cbn [waitingPos waitingNeg].
  destruct (Nat.ltb_spec (i st) (List.length P)) as [Hi | Hi].
  - destruct (split_at P (i st) Hi) as (_ & _ & ->). cbn [map andb].
    destruct (Nat.ltb_spec (j st) (List.length N)) as [Hj | Hj].
    + destruct (split_at N (j st) Hj) as (_ & _ & ->). reflexivity.
    + rewrite skipn_all2 by assumption. reflexivity.
  - rewrite skipn_all2 by assumption. reflexivity.
Qed.

(** The loop on the store and the loop on the queues run alike; the
    store keeps its users and types. *)
Lemma pairingLoop_view P N fuel : forall st,
  wellReferenced (store st) P N ->
  match pairingLoop fuel P N st with
  | Some st' =>
      queueLoop fuel (view P N st) = Some (view P N st')
      /\ wellReferenced (store st') P N
      /\ List.length (store st') = List.length (store st)
      /\ map en_user (store st') = map en_user (store st)
      /\ map en_type (store st') = map en_type (store st)
  | None => queueLoop fuel (view P N st) = None
  end.
Proof.
  induction fuel as [|fuel IH]; intros st Hw; cbn [pairingLoop queueLoop];
    rewrite <- pairingContinues_view; destruct (pairingContinues P N st) eqn:Ec.
  - reflexivity.
  - repeat split; assumption || apply Hw.
  - destruct (pairingStep_view P N st Hw Ec) as (Hv & Hw' & Hl & Hu & Ht).
    specialize (IH _ Hw'). rewrite <- Hv.
    destruct (pairingLoop fuel P N (pairingStep P N st)) as [st'|]; [|assumption].
    destruct IH as (H1 & H2 & H3 & H4 & H5).
    repeat split; try assumption; try apply H2; congruence.
  - repeat split; assumption || apply Hw.
Qed.

Lemma references_spec test s r :
  In r (references test s) <-> (r < List.length s)%nat /\ test (entryAt s r) = true.
Proof.
  unfold references, entryAt.
  set (d := mkEntry (mkUser "" "") nan "").
  assert (forall l a, In r (map fst (filter (fun ix => test (snd ix))
                                       (combine (seq a (List.length l)) l)))
                      <-> (a <= r < a + List.length l)%nat /\ test (nth (r - a) l d) = true) as H.
  { induction l as [|b l IH]; intros a; simpl.
    - split; [intros [] | intros [H _]; lia].
    - destruct (test b) eqn:Eb; simpl; rewrite IH.
      + split.
        * intros [<- | [H1 H2]].
          -- rewrite Nat.sub_diag. split; [lia | assumption].
          -- split; [lia|]. destruct (r - a)%nat as [|k] eqn:E; [lia|].
             replace (r - S a)%nat with k in H2 by lia. assumption.
        * intros [H1 H2]. destruct (r - a)%nat as [|k] eqn:E.
          -- left. lia.
          -- right. split; [lia|]. replace (r - S a)%nat with k by lia. assumption.
      + split.
        * intros [H1 H2]. split; [lia|]. destruct (r - a)%nat as [|k] eqn:E; [lia|].
          replace (r - S a)%nat with k in H2 by lia. assumption.
        * intros [H1 H2]. destruct (r - a)%nat as [|k] eqn:E.
          -- congruence.
          -- split; [lia|]. replace (r - S a)%nat with k by lia. assumption. }
  rewrite H. rewrite Nat.sub_0_r. split; intros [H1 H2]; (split; [lia | assumption]).
Qed.

Lemma references_NoDup test s : NoDup (references test s).
Proof.
  unfold references.
  assert (forall l a, NoDup (map fst (filter (fun ix => test (snd ix))
                                        (combine (seq a (List.length l)) l)))
                      /\ forall r, In r (map fst (filter (fun ix => test (snd ix))
                                                    (combine (seq a (List.length l)) l)))
                                   -> (a <= r)%nat) as H.
  { induction l as [|b l IH]; intros a; simpl.
    - split; [constructor | intros r []].
    - destruct (IH (S a)) as [H1 H2]. destruct (test b); simpl.
      + split.
        * constructor; [|assumption]. intros Hin. apply H2 in Hin. lia.
        * intros r [<- | Hr]; [lia|]. apply H2 in Hr. lia.
      + split; [assumption|]. intros r Hr. apply H2 in Hr. lia. }
  apply H.
Qed.

Lemma insertSorted_perm compare s r sorted :
  Permutation (insertSorted compare s r sorted) (r :: sorted).
Proof.
  induction sorted as [|r' rest IH]; simpl.
  - apply Permutation_refl.
  - destruct (JS.gt _ 0).
    + eapply perm_trans; [apply perm_skip, IH|].
      apply perm_swap.
    + apply Permutation_refl.
Qed.

Lemma sortRefs_perm compare s refs :
  Permutation (sortRefs compare s refs) refs.
Proof.
  unfold sortRefs. induction refs as [|r refs IH]; simpl.
  - apply Permutation_refl.
  - eapply perm_trans; [apply insertSorted_perm|].
    apply perm_skip, IH.
Qed.

Lemma positiveRefs_spec s r :
  In r (positiveRefs s) <-> (r < List.length s)%nat /\ JS.gt (en_amount (entryAt s r)) 0 = true.
Proof.
  unfold positiveRefs. rewrite <- (references_spec (fun b => JS.gt (en_amount b) 0)).
  split; apply Permutation_in;
    [| apply Permutation_sym]; apply sortRefs_perm.
Qed.

Lemma negativeRefs_spec s r :
  In r (negativeRefs s) <-> (r < List.length s)%nat /\ JS.lt (en_amount (entryAt s r)) 0 = true.
Proof.
  unfold negativeRefs. rewrite <- (references_spec (fun b => JS.lt (en_amount b) 0)).
  split; apply Permutation_in;
    [| apply Permutation_sym]; apply sortRefs_perm.
Qed.

Lemma refs_wellReferenced s : wellReferenced s (positiveRefs s) (negativeRefs s).
Proof.
  split.
  - apply NoDup_app.
    + unfold positiveRefs. eapply Permutation_NoDup;
        [apply Permutation_sym, sortRefs_perm | apply references_NoDup].
    + unfold negativeRefs. eapply Permutation_NoDup;
        [apply Permutation_sym, sortRefs_perm | apply references_NoDup].
    + intros r Hp Hn. apply positiveRefs_spec in Hp as [_ Hp].
      apply negativeRefs_spec in Hn as [_ Hn].
      rewrite (gt_lt_zero _ Hp) in Hn. discriminate.
  - apply Forall_forall. intros r Hr. apply in_app_or in Hr as [Hr | Hr].
    + apply positiveRefs_spec in Hr. tauto.
    + apply negativeRefs_spec in Hr. tauto.
Qed.

End PairingLoop.

Section Accounts.
Import BalanceService BalanceReports SettlementController Queues.

Lemma account_has_amounts k m : account_has k m = map_has k (amountsOf m).
Proof.
  unfold map_has. induction m as [|[k' a] m IH]; simpl; [reflexivity|].
  destruct (String.eqb k' k); [reflexivity | exact IH].
Qed.

Lemma map_set_append k v m :
  map_has k m = false -> map_set k v m = (m ++ [(k, v)])%list.
Proof.
  unfold map_has. induction m as [|[k' v'] m IH]; simpl; [reflexivity|].
  destruct (String.eqb k' k); [discriminate|]. intros H. rewrite IH by assumption. reflexivity.
Qed.

Lemma openAccount_amounts k u m :
  amountsOf (openAccount k u m) = ensure k (amountsOf m).
Proof.
  unfold openAccount, ensure. rewrite account_has_amounts.
  destruct (map_has k (amountsOf m)) eqn:E; [reflexivity|].
  rewrite map_set_append by assumption. unfold amountsOf. rewrite map_app. reflexivity.
Qed.

Lemma adjustAccount_amounts k f m :
  map_has k (amountsOf m) = true ->
  amountsOf (adjustAccount k f m)
  = map_set k (f (map_get_number k (amountsOf m))) (amountsOf m).
Proof.
  unfold map_has, map_get_number. induction m as [|[k' a] m IH]; simpl; [discriminate|].
  destruct (String.eqb k' k) eqn:E; simpl.
  - apply String.eqb_eq in E. subst. reflexivity.
  - intros H. rewrite IH by assumption. reflexivity.
Qed.

Lemma ensure_has k m : map_has k (ensure k m) = true.
Proof.
  unfold ensure. destruct (map_has k m) eqn:E; [assumption | apply map_has_set_same].
Qed.

Lemma debitRow_amounts m split :
  amountsOf (debitRow m split)
  = debit (amountsOf m) (mkExpenseSplit (sr_userId split) (sr_amount split)).
Proof.
  unfold debitRow, debit. cbn [es_userId es_amount].
  rewrite adjustAccount_amounts; rewrite openAccount_amounts; [reflexivity | apply ensure_has].
Qed.

Lemma debitRows_amounts splits : forall m,
  amountsOf (fold_left debitRow splits m)
  = fold_left debit (map (fun s => mkExpenseSplit (sr_userId s) (sr_amount s)) splits)
      (amountsOf m).
Proof.
  induction splits as [|s splits IH]; intros m; simpl; [reflexivity|].
  rewrite IH, debitRow_amounts. reflexivity.
Qed.

Lemma addRow_amounts m row :
  amountsOf (addRow m row) = addExpense (amountsOf m) (toExpense row).
Proof.
  unfold addRow, addExpense, toExpense. cbn [e_paidById e_amount e_splits].
  rewrite debitRows_amounts.
  rewrite adjustAccount_amounts; rewrite openAccount_amounts; [reflexivity | apply ensure_has].
Qed.

Lemma accounts_amounts_from rows : forall m,
  amountsOf (fold_left addRow rows m)
  = fold_left addExpense (map toExpense rows) (amountsOf m).
Proof.
  induction rows as [|row rows IH]; intros m; simpl; [reflexivity|].
  rewrite IH, addRow_amounts. reflexivity.
Qed.

(** The accounts keep the user object of the row that opened them. *)
Lemma adjustAccount_users k f m :
  map (fun ka => (fst ka, a_user (snd ka))) (adjustAccount k f m)
  = map (fun ka => (fst ka, a_user (snd ka))) m.
Proof.
  induction m as [|[k' a] m IH]; simpl; [reflexivity|].
  destruct (String.eqb k' k); simpl; [reflexivity | rewrite IH; reflexivity].
Qed.

Lemma named_adjust k f u m :
  u_id u = k -> Forall named m -> Forall named (adjustAccount k f (openAccount k u m)).
Proof.
  intros Hu Hm.
  assert (Forall named (openAccount k u m)) as Ho.
  { unfold openAccount. destruct (account_has k m); [assumption|].
    apply Forall_app. split; [assumption|]. constructor; [exact Hu | constructor]. }
  clear Hm. induction Ho as [|[k' a] m' Ha Hm' IH]; simpl; [constructor|].
  destruct (String.eqb k' k); constructor; assumption.
Qed.

Lemma named_accounts_from rows : forall m,
  Forall consistentRow rows -> Forall named m -> Forall named (fold_left addRow rows m).
Proof.
  induction rows as [|row rows IH]; intros m Hc Hm; simpl; [assumption|].
  inversion Hc as [|? ? [Hp Hs] Hc']; subst. apply IH; [assumption|].
  unfold addRow.
  assert (forall splits m', Forall (fun s => u_id (sr_user s) = sr_userId s) splits ->
                            Forall named m' -> Forall named (fold_left debitRow splits m')) as Hd.
  { induction splits as [|s splits IHs]; intros m' Hs' Hm'; simpl; [assumption|].
    inversion Hs' as [|? ? Hs1 Hs2]; subst. apply IHs; [assumption|].
    unfold debitRow. apply named_adjust; assumption. }
  apply Hd; [assumption|]. apply named_adjust; assumption.
Qed.

End Accounts.

Section AccountsResults.
Import BalanceService BalanceReports SettlementController Queues.

(** X7.  The balances [getSettlementSuggestions] accumulates in its own
    loop are the balances of [calculateBalances] on the same expenses: the
    same users in the same order with the same amounts, for all amounts. *)
Theorem suggestion_accounts_are_calculateBalances rows :
  amountsOf (accounts rows) = calculateBalances (map toExpense rows).
Proof.
  unfold accounts, calculateBalances. rewrite accounts_amounts_from. reflexivity.
Qed.

End AccountsResults.

Section PairingParties.
Import BalanceService BalanceReports SettlementController Queues.

Lemma queueStep_parties q :
  creditors (queueStep q) = creditors q /\ debtors (queueStep q) = debtors q.
Proof.
  unfold queueStep, creditors, debtors.
  destruct (waitingPos q) as [|pos ps] eqn:Ep, (waitingNeg q) as [|neg ns] eqn:En;
    rewrite ?Ep, ?En; try (split; reflexivity).
  cbn [passedPos waitingPos passedNeg waitingNeg].
  destruct (JS.lt _ 0.01), (JS.lt _ 0.01);
    rewrite ?map_app, <- ?app_assoc; cbn [map app withAmount en_user];
    rewrite ?map_app; split; reflexivity.
Qed.

Lemma queueStep_suggested q :
  queueContinues q = true ->
  exists s, suggested (queueStep q) = (suggested q ++ [s])%list
            /\ In (sg_to s) (creditors q) /\ In (sg_from s) (debtors q).
Proof.
  unfold queueContinues, queueStep, creditors, debtors.
  destruct (waitingPos q) as [|pos ps], (waitingNeg q) as [|neg ns]; try discriminate.
  intros _. eexists. split; [reflexivity|]. cbn [sg_to sg_from].
  rewrite !map_app, !in_app_iff. split; right; left; reflexivity.
Qed.

Lemma queueLoop_suggested fuel : forall q q',
  queueLoop fuel q = Some q' ->
  creditors q' = creditors q /\ debtors q' = debtors q
  /\ exists new, suggested q' = (suggested q ++ new)%list
                 /\ Forall (fun s => In (sg_to s) (creditors q)
                                     /\ In (sg_from s) (debtors q)) new.
Proof.
  induction fuel as [|fuel IH]; intros q q'; cbn [queueLoop];
    destruct (queueContinues q) eqn:Ec; try discriminate.
  - intros [= <-]. repeat split. exists []. rewrite app_nil_r. split; [reflexivity | constructor].
  - intros H. apply IH in H as (H1 & H2 & new & H3 & H4).
    destruct (queueStep_parties q) as [Hc Hd].
    destruct (queueStep_suggested q Ec) as (s & Hs & Hto & Hfrom).
    rewrite Hc in *. rewrite Hd in *. repeat split; try assumption.
    exists (s :: new). rewrite H3, Hs, <- app_assoc. split; [reflexivity|].
    constructor; [split; assumption | assumption].
  - intros [= <-]. repeat split. exists []. rewrite app_nil_r. split; [reflexivity | constructor].
Qed.

Lemma filter_keys_NoDup {A : Type} (f : string * A -> bool) (m : list (string * A)) :
  NoDup (map fst m) -> NoDup (map fst (filter f m)).
Proof.
  induction m as [|ka m IH]; simpl; intros H; [constructor|].
  inversion H as [|? ? Hn Hnd]; subst.
  destruct (f ka); simpl; [|apply IH; assumption].
  constructor; [|apply IH; assumption].
  intros Hin. apply Hn. apply in_map_iff in Hin as (x & Hx & Hin).
  apply filter_In in Hin as [Hin _]. apply in_map_iff. exists x. tauto.
Qed.

Lemma balanceList_ids m :
  Forall named m ->
  map (fun e => u_id (en_user e)) (balanceListOf m)
  = map fst (filter (fun ka => ge (JS.abs (a_amount (snd ka))) 0.01) m).
Proof.
  unfold balanceListOf. induction 1 as [|ka m Hka Hm IH]; simpl; [reflexivity|].
  destruct (ge (JS.abs (a_amount (snd ka))) 0.01); simpl; rewrite IH; [|reflexivity].
  f_equal. exact Hka.
Qed.

Lemma NoDup_map_refs {A B : Type} (f : A -> B) (d : A) (l : list A) (refs : list nat) :
  NoDup (map f l) -> NoDup refs -> Forall (fun r => (r < List.length l)%nat) refs ->
  NoDup (map (fun r => f (nth r l d)) refs).
Proof.
  intros Hl Hrefs Hin. induction Hrefs as [|r refs Hr Hnd IH]; simpl; [constructor|].
  inversion Hin as [|? ? Hrl Hin']; subst.
  constructor; [|apply IH; assumption].
  intros H. apply in_map_iff in H as (r' & E & Hr').
  rewrite Forall_forall in Hin'. pose proof (Hin' _ Hr') as Hr'l.
  assert (r' = r); [|subst; contradiction].
  rewrite NoDup_nth in Hl. apply (Hl r' r).
  - rewrite length_map. assumption.
  - rewrite length_map. assumption.
  - rewrite (nth_indep _ _ (f d)) by (rewrite length_map; assumption).
    rewrite (nth_indep _ (f (nth 0 l d)) (f d)) by (rewrite length_map; assumption).
    rewrite !map_nth. exact E.
Qed.

End PairingParties.

Section SuggestionParties.
Import BalanceService BalanceReports SettlementController Queues.
Local Open Scope string_scope.

Lemma suggest_queues fuel rows :
  let balanceList := balanceListOf (accounts rows) in
  match suggest fuel rows with
  | Some report =>
      exists q, queueLoop fuel (initialQueues balanceList) = Some q
                /\ sr_suggestions report = suggested q
                /\ List.length (sr_balances report) = List.length balanceList
                /\ map en_user (sr_balances report) = map en_user balanceList
                /\ map en_type (sr_balances report) = map en_type balanceList
                /\ passedPos q ++ waitingPos q
                   = map (entryAt (sr_balances report)) (positiveRefs balanceList)
                /\ passedNeg q ++ waitingNeg q
                   = map (entryAt (sr_balances report)) (negativeRefs balanceList)
  | None => queueLoop fuel (initialQueues balanceList) = None
  end%list.
Proof.
  intros bl. unfold suggest. fold bl.
  pose proof (pairingLoop_view (positiveRefs bl) (negativeRefs bl) fuel
                (mkPairing bl 0 0 []) (refs_wellReferenced bl)) as H.
  change (view (positiveRefs bl) (negativeRefs bl) (mkPairing bl 0 0 []))
    with (initialQueues bl) in H.
  destruct (pairingLoop fuel (positiveRefs bl) (negativeRefs bl) (mkPairing bl 0 0 []))
    as [st|]; [|assumption].
  destruct H as (H1 & H2 & H3 & H4 & H5).
  exists (view (positiveRefs bl) (negativeRefs bl) st).
  cbn [sr_suggestions sr_balances store view suggested passedPos waitingPos passedNeg waitingNeg].
  repeat split; try assumption.
  - rewrite <- map_app, firstn_skipn. reflexivity.
  - rewrite <- map_app, firstn_skipn. reflexivity.
Qed.

Lemma accounts_named rows : Forall consistentRow rows -> Forall named (accounts rows).
Proof. intros H. apply named_accounts_from; [assumption | constructor]. Qed.

Lemma balanceList_ids_NoDup rows :
  Forall consistentRow rows ->
  NoDup (map (fun e => u_id (en_user e)) (balanceListOf (accounts rows))).
Proof.
  intros Hc. rewrite balanceList_ids by (apply accounts_named; assumption).
  apply filter_keys_NoDup.
  assert (map fst (accounts rows) = map fst (calculateBalances (map toExpense rows))) as ->.
  { unfold accounts, calculateBalances.
    change (@nil (string * JS.number)) with (amountsOf []).
    rewrite <- accounts_amounts_from. unfold amountsOf. rewrite map_map. reflexivity. }
  apply (calculateBalances_keys_from (map toExpense rows) [] (NoDup_nil _)).
Qed.

(** The two sides of the initial queues are different users. *)
Lemma initial_parties_differ rows creditor debtor :
  Forall consistentRow rows ->
  In creditor (creditors (initialQueues (balanceListOf (accounts rows)))) ->
  In debtor (debtors (initialQueues (balanceListOf (accounts rows)))) ->
  u_id debtor <> u_id creditor
  /\ (exists e, In e (balanceListOf (accounts rows)) /\ en_user e = creditor
                /\ JS.gt (en_amount e) 0 = true)
  /\ (exists e, In e (balanceListOf (accounts rows)) /\ en_user e = debtor
                /\ JS.lt (en_amount e) 0 = true).
Proof.
  intros Hc. set (bl := balanceListOf (accounts rows)).
  unfold creditors, debtors, initialQueues. cbn [passedPos waitingPos passedNeg waitingNeg app].
  rewrite !map_map. intros Hcr Hdb.
  apply in_map_iff in Hcr as (p & Ep & Hp). apply in_map_iff in Hdb as (n & En & Hn).
  destruct (refs_wellReferenced bl) as [Hnd Hin].
  pose proof (NoDup_map_refs (fun e => u_id (en_user e)) (mkEntry (mkUser "" "") nan "")
                bl _ (balanceList_ids_NoDup rows Hc) Hnd Hin) as Hids.
  rewrite map_app in Hids. apply NoDup_app_parts in Hids as (_ & _ & Hdis).
  split; [|split].
  - intros E. apply (Hdis (u_id creditor)).
    + apply in_map_iff. exists p. split; [|assumption]. rewrite <- Ep. reflexivity.
    + apply in_map_iff. exists n. split; [|assumption]. rewrite <- E, <- En. reflexivity.
  - apply positiveRefs_spec in Hp as [Hl Hg]. exists (entryAt bl p).
    split; [apply nth_In; assumption | tauto].
  - apply negativeRefs_spec in Hn as [Hl Hg]. exists (entryAt bl n).
    split; [apply nth_In; assumption | tauto].
Qed.

End SuggestionParties.

Section SuggestionPartiesResults.
Import BalanceService BalanceReports SettlementController Queues.
Local Open Scope string_scope.

(** X8.  When the expense rows carry the user objects of their ids, no
    suggestion [getSettlementSuggestions] returns pairs a user with itself:
    every suggestion goes from a user whose rounded balance is below zero to
    a different user whose rounded balance is above zero. *)
Theorem suggestions_go_from_a_debtor_to_another_user fuel rows report :
  Forall consistentRow rows ->
  suggest fuel rows = Some report ->
  Forall (fun s =>
            u_id (sg_from s) <> u_id (sg_to s)
            /\ (exists e, In e (balanceListOf (accounts rows)) /\ en_user e = sg_to s
                          /\ JS.gt (en_amount e) 0 = true)
            /\ (exists e, In e (balanceListOf (accounts rows)) /\ en_user e = sg_from s
                          /\ JS.lt (en_amount e) 0 = true))
         (sr_suggestions report).
Proof.
  intros Hc Hs. pose proof (suggest_queues fuel rows) as H. cbv zeta in H.
  rewrite Hs in H. destruct H as (q & Hq & -> & _).
  apply queueLoop_suggested in Hq as (_ & _ & new & -> & Hnew).
  cbn [initialQueues suggested app].
  eapply Forall_impl; [|exact Hnew]. intros s [Hto Hfrom].
  apply initial_parties_differ; assumption.
Qed.

(** A dinner A pays for A, B and C. *)
Lemma suggestions_go_from_a_debtor_to_another_user_witness :
  Forall (fun s =>
            u_id (sg_from s) <> u_id (sg_to s)
            /\ (exists e,
                   In e (balanceListOf
                           (accounts [mkExpenseRow "A" (mkUser "A" "Ann") 90
                                        [mkSplitRow "A" (mkUser "A" "Ann") 30;
                                         mkSplitRow "B" (mkUser "B" "Bob") 30;
                                         mkSplitRow "C" (mkUser "C" "Cy") 30]]))
                   /\ en_user e = sg_to s /\ JS.gt (en_amount e) 0 = true)
            /\ (exists e,
                   In e (balanceListOf
                           (accounts [mkExpenseRow "A" (mkUser "A" "Ann") 90
                                        [mkSplitRow "A" (mkUser "A" "Ann") 30;
                                         mkSplitRow "B" (mkUser "B" "Bob") 30;
                                         mkSplitRow "C" (mkUser "C" "Cy") 30]]))
                   /\ en_user e = sg_from s /\ JS.lt (en_amount e) 0 = true))
         [mkSuggestion (mkUser "B" "Bob") (mkUser "A" "Ann") 30;
          mkSuggestion (mkUser "C" "Cy") (mkUser "A" "Ann") 30].
Proof.
  apply (suggestions_go_from_a_debtor_to_another_user 2
           [mkExpenseRow "A" (mkUser "A" "Ann") 90
              [mkSplitRow "A" (mkUser "A" "Ann") 30;
               mkSplitRow "B" (mkUser "B" "Bob") 30;
               mkSplitRow "C" (mkUser "C" "Cy") 30]]
           (mkSuggestions
              [mkEntry (mkUser "A" "Ann") 0 "owed"; mkEntry (mkUser "B" "Bob") 0 "owes";
               mkEntry (mkUser "C" "Cy") 0 "owes"]
              [mkSuggestion (mkUser "B" "Bob") (mkUser "A" "Ann") 30;
               mkSuggestion (mkUser "C" "Cy") (mkUser "A" "Ann") 30])).
  - repeat constructor.
  - vm_compute. reflexivity.
Defined.

End SuggestionPartiesResults.

(** * Rounding without overflow

    A sum of two doubles of opposite signs is not larger than the larger
    of the two: rounding it gives a double or a zero with the sign of the
    exact sum, never an infinity. *)

Section RoundingFinite.
Import Units.
Local Open Scope Z_scope.

Lemma shr_1_m r : 0 <= shr_m r -> shr_m (shr_1 r) = shr_m r / 2.
Proof.
  destruct r as [m r s]. cbn [shr_m]. intros Hm.
  destruct m as [|[p|p|]|p]; cbn [shr_1 shr_m]; try lia; try reflexivity.
  - apply Z.div_unique with (r := 1); lia.
  - apply Z.div_unique with (r := 0); lia.
Qed.

Lemma shr_m_iter n : forall r,
  0 <= shr_m r -> shr_m (Nat.iter n shr_1 r) = shr_m r / 2 ^ Z.of_nat n.
Proof.
  induction n as [|n IH]; intros r Hr.
  - simpl. rewrite Z.div_1_r. reflexivity.
  - rewrite Nat.iter_succ. rewrite shr_1_m.
    + rewrite IH by assumption. rewrite Z.div_div by lia.
      f_equal. rewrite Nat2Z.inj_succ, Z.pow_succ_r by lia. ring.
    + rewrite IH by assumption. apply Z.div_pos; lia.
Qed.

Lemma shr_m_shr r e n :
  0 <= shr_m r ->
  shr_m (fst (shr r e n)) = shr_m r / 2 ^ (Z.max n 0)
  /\ snd (shr r e n) = e + Z.max n 0.
Proof.
  intros Hr. unfold shr. destruct n as [|p|p]; simpl fst; simpl snd.
  - rewrite Z.div_1_r. split; [reflexivity | simpl; lia].
  - rewrite iter_pos_nat, shr_m_iter by assumption.
    rewrite positive_nat_Z. split; [f_equal; f_equal; lia | lia].
  - rewrite Z.div_1_r. split; [reflexivity | simpl; lia].
Qed.

Lemma shr_nonpos r e n : n <= 0 -> shr r e n = (r, e).
Proof. intros H. destruct n; try reflexivity. lia. Qed.

Lemma round_nearest_even_bounds m l :
  m <= round_nearest_even m l <= m + 1.
Proof.
  unfold round_nearest_even. destruct l as [|[| |]]; try lia.
  destruct (Z.even m); lia.
Qed.

Lemma fexp_eq x : fexp prec emax x = Z.max (x - 53) (-1074).
Proof. reflexivity. Qed.

Lemma digits_lt_pow z k : 0 < z -> digits z <= k -> z < 2 ^ k.
Proof.
  intros Hz Hd. pose proof (digits_bounds z Hz) as [_ H].
  pose proof (digits_pos z Hz).
  eapply Z.lt_le_trans; [exact H|]. apply Z.pow_le_mono_r; lia.
Qed.

Lemma digits_ge_pow z k : 0 <= k -> 2 ^ k <= z -> k < digits z.
Proof.
  intros Hk H. assert (0 < z) as Hz by (pose proof (Z.pow_pos_nonneg 2 k); lia).
  pose proof (digits_bounds z Hz) as [_ Hu].
  destruct (Z.lt_ge_cases k (digits z)) as [|Hge]; [assumption|].
  pose proof (digits_pos z Hz).
  assert (2 ^ digits z <= 2 ^ k) by (apply Z.pow_le_mono_r; lia). lia.
Qed.

(** The result of [binary_round_aux] when the exponent it rounds at
    leaves room. *)
Lemma binary_round_aux_finite s mx ex lx :
  0 < mx ->
  Z.max ex (fexp prec emax (digits mx + ex)) <= 971 ->
  (Z.max ex (fexp prec emax (digits mx + ex)) = 971 ->
   mx / 2 ^ (971 - ex) + 1 < 2 ^ 53) ->
  binary_round_aux prec emax s mx ex lx = S754_zero s
  \/ exists m e, binary_round_aux prec emax s mx ex lx = S754_finite s m e.
Proof.
  intros Hmx He Htop. rewrite fexp_eq in He, Htop.
  set (e' := Z.max ex (Z.max (digits mx + ex - 53) (-1074))) in *.
  unfold binary_round_aux, shr_fexp.
  rewrite (Zdigits2_digits mx Hmx), fexp_eq.
  set (n1 := Z.max (digits mx + ex - 53) (-1074) - ex).
  assert (0 <= shr_m (shr_record_of_loc mx lx)) as H0.
  { destruct lx as [|[| |]]; simpl; lia. }
  assert (shr_m (shr_record_of_loc mx lx) = mx) as Hm0.
  { destruct lx as [|[| |]]; reflexivity. }
  destruct (shr_m_shr (shr_record_of_loc mx lx) ex n1 H0) as [Hm1 He1].
  destruct (shr (shr_record_of_loc mx lx) ex n1) as [mrs' e1]. simpl fst in *. simpl snd in *.
  rewrite Hm0 in Hm1.
  assert (e1 = e') as -> by (unfold e', n1 in *; lia).
  assert (Z.max n1 0 = e' - ex) as Hn1 by (unfold e', n1; lia).
  rewrite Hn1 in Hm1.
  assert (0 <= e' - ex) as Hsh by (unfold e'; lia).
  assert (0 <= shr_m mrs' < 2 ^ 53) as Hb.
  { rewrite Hm1. split; [apply Z.div_pos; [lia | apply Z.pow_pos_nonneg; lia]|].
    apply Z.div_lt_upper_bound; [apply Z.pow_pos_nonneg; lia|].
    rewrite <- Z.pow_add_r by lia. apply digits_lt_pow; [assumption|].
    unfold e'. lia. }
  pose proof (round_nearest_even_bounds (shr_m mrs') (loc_of_shr_record mrs')) as Hr.
  set (m1 := round_nearest_even (shr_m mrs') (loc_of_shr_record mrs')) in *.
  assert (-1074 <= e') as Hemin by (unfold e'; lia).
  destruct (Z.eq_dec m1 0) as [Hz | Hnz].
  - rewrite Hz. change (Zdigits2 0) with 0. rewrite fexp_eq.
    rewrite shr_nonpos by lia. left. reflexivity.
  - assert (0 < m1) as Hm1pos by lia.
    rewrite (Zdigits2_digits m1 Hm1pos), fexp_eq.
    destruct (Z.eq_dec m1 (2 ^ 53)) as [Htop' | Hlow].
    + assert (e' <> 971) as Hne.
      { intros E. specialize (Htop E). rewrite E in Hm1. lia. }
      assert (digits m1 = 54) as Hd.
      { rewrite Htop'. unfold digits. rewrite Z.log2_pow2 by lia. reflexivity. }
      rewrite Hd.
      replace (Z.max (54 + e' - 53) (-1074) - e') with 1 by lia.
      rewrite Htop'. right. cbn [shr_record_of_loc shr iter_pos shr_1 shr_m Z.pow Z.pow_pos Pos.iter Z.mul Pos.mul].
      replace (e' + 1 <=? emax - prec) with true
        by (symmetry; apply Z.leb_le; unfold emax, prec; lia).
      eexists. eexists. reflexivity.
    + assert (digits m1 <= 53) as Hd.
      { destruct (Z.le_gt_cases (digits m1) 53) as [|Hgt]; [assumption|].
        pose proof (digits_bounds m1 Hm1pos) as [Hl _].
        assert (2 ^ 53 <= 2 ^ (digits m1 - 1)) by (apply Z.pow_le_mono_r; lia). lia. }
      pose proof (digits_pos m1 Hm1pos).
      rewrite shr_nonpos by lia. cbn [shr_record_of_loc shr_m].
      destruct m1 as [|q|q]; try lia.
      replace (e' <=? emax - prec) with true
        by (symmetry; apply Z.leb_le; unfold emax, prec; lia).
      right. eexists. eexists. reflexivity.
Qed.

Lemma binary_round_finite s m e M E :
  0 < M < 2 ^ 53 -> E <= 971 -> fexp prec emax (digits M + E) = E ->
  e <= E -> Zpos m < M * 2 ^ (E - e) ->
  binary_round prec emax s m e = S754_zero s
  \/ exists m' e', binary_round prec emax s m e = S754_finite s m' e'.
Proof.
  intros HM HE Hcanon He Hlt. rewrite fexp_eq in Hcanon.
  assert (digits (Zpos m) + e <= digits M + E) as Hmag.
  { pose proof (digits_mono (Zpos m) (M * 2 ^ (E - e)) ltac:(lia) ltac:(lia)) as H.
    rewrite digits_mul_pow2 in H by lia. lia. }
  unfold binary_round, shl_align. rewrite digits2_pos_log2, fexp_eq.
  set (f := Z.max (digits (Zpos m) + e - 53) (-1074)).
  assert (f <= E) as HfE by (unfold f; lia).
  destruct (f - e) as [|p|p] eqn:Ef.
  - apply binary_round_aux_finite; rewrite ?fexp_eq; fold f; try lia.
    intros Htop. assert (E = 971) as -> by lia.
    assert (Zpos m / 2 ^ (971 - e) < M); [|lia].
    apply Z.div_lt_upper_bound; [apply Z.pow_pos_nonneg; lia | lia].
  - apply binary_round_aux_finite; rewrite ?fexp_eq; fold f; try lia.
    intros Htop. assert (E = 971) as -> by lia.
    assert (Zpos m / 2 ^ (971 - e) < M); [|lia].
    apply Z.div_lt_upper_bound; [apply Z.pow_pos_nonneg; lia | lia].
  - fold (shift_pos p m).
    assert (Zpos (shift_pos p m) = Zpos m * 2 ^ Zpos p) as Hs.
    { rewrite shift_pos_correct. change (Zpower_pos 2 p) with (2 ^ Zpos p). ring. }
    assert (digits (Zpos (shift_pos p m)) + f = digits (Zpos m) + e) as Hd.
    { rewrite Hs, digits_mul_pow2 by lia. lia. }
    apply binary_round_aux_finite; rewrite ?fexp_eq, ?Hd; fold f; try lia.
Qed.

(** [bounded] mantissas and exponents. *)
Lemma bounded_spec m e :
  SpecFloat.bounded prec emax m e = true ->
  fexp prec emax (digits (Zpos m) + e) = e /\ e <= 971 /\ 0 < Zpos m < 2 ^ 53.
Proof.
  unfold SpecFloat.bounded, canonical_mantissa. intros H. apply andb_true_iff in H as [H1 H2].
  apply Z.eqb_eq in H1. apply Z.leb_le in H2. rewrite digits2_pos_log2 in H1.
  split; [assumption|]. split; [unfold emax, prec in H2; lia|]. split; [lia|].
  rewrite fexp_eq in H1. apply digits_lt_pow; lia.
Qed.

Lemma shl_align_value m e ez :
  ez <= e -> Zpos (fst (shl_align m e ez)) = Zpos m * 2 ^ (e - ez).
Proof.
  intros H. unfold shl_align. destruct (ez - e) as [|p|p] eqn:E; try lia.
  - replace (e - ez) with 0 by lia. simpl. lia.
  - fold (shift_pos p m). simpl fst. rewrite shift_pos_correct.
    change (Zpower_pos 2 p) with (2 ^ Zpos p). replace (e - ez) with (Zpos p) by lia. ring.
Qed.

(** The order of two positive doubles on their aligned mantissas. *)
Lemma SFltb_aligned mx ex my ey :
  SpecFloat.bounded prec emax mx ex = true -> SpecFloat.bounded prec emax my ey = true ->
  SFltb (S754_finite false my ey) (S754_finite false mx ex) = true ->
  Zpos my * 2 ^ (ey - Z.min ex ey) < Zpos mx * 2 ^ (ex - Z.min ex ey).
Proof.
  intros Hx Hy. apply bounded_spec in Hx as (Hcx & Hex & Hmx).
  apply bounded_spec in Hy as (Hcy & Hey & Hmy).
  rewrite fexp_eq in Hcx, Hcy.
  unfold SFltb, SFcompare.
  destruct (Z.compare_spec ey ex) as [E | E | E].
  - subst. rewrite Z.min_id, Z.sub_diag. simpl.
    change (Pos.compare_cont Eq my mx) with (Pos.compare my mx).
    destruct (Pos.compare_spec my mx); try discriminate. lia.
  - intros _. rewrite Z.min_r by lia. rewrite Z.sub_diag, Z.mul_1_r.
    assert (digits (Zpos mx) = 53) as Hd by lia.
    pose proof (digits_bounds (Zpos mx) ltac:(lia)) as [Hl _]. rewrite Hd in Hl.
    assert (2 <= 2 ^ (ex - ey)).
    { change 2 with (2 ^ 1) at 1. apply Z.pow_le_mono_r; lia. }
    simpl in Hl. nia.
  - discriminate.
Qed.

End RoundingFinite.

Section OppositeSigns.
Import Units.
Local Open Scope Z_scope.

Lemma SFsub_of_smaller mx ex my ey :
  SpecFloat.bounded prec emax mx ex = true -> SpecFloat.bounded prec emax my ey = true ->
  SFltb (S754_finite false my ey) (S754_finite false mx ex) = true ->
  SFsub prec emax (S754_finite false mx ex) (S754_finite false my ey) = S754_zero false
  \/ exists m e,
       SFsub prec emax (S754_finite false mx ex) (S754_finite false my ey)
       = S754_finite false m e.
Proof.
  intros Hx Hy Hlt. pose proof (SFltb_aligned mx ex my ey Hx Hy Hlt) as Hal.
  apply bounded_spec in Hx as (Hcx & Hex & Hmx).
  unfold SFsub, cond_Zopp.
  rewrite !shl_align_value by lia.
  set (ez := Z.min ex ey) in *.
  assert (0 < Zpos my * 2 ^ (ey - ez)) by (apply Z.mul_pos_pos; [lia | apply Z.pow_pos_nonneg; lia]).
  destruct (Zpos mx * 2 ^ (ex - ez) - Zpos my * 2 ^ (ey - ez)) as [|d|d] eqn:E; try lia.
  unfold binary_normalize.
  apply (binary_round_finite false d ez (Zpos mx) ex); try assumption; lia.
Qed.

Lemma SFadd_of_smaller mn en mp ep :
  SpecFloat.bounded prec emax mn en = true -> SpecFloat.bounded prec emax mp ep = true ->
  SFltb (S754_finite false mp ep) (S754_finite false mn en) = true ->
  SFadd prec emax (S754_finite true mn en) (S754_finite false mp ep) = S754_zero true
  \/ exists m e,
       SFadd prec emax (S754_finite true mn en) (S754_finite false mp ep)
       = S754_finite true m e.
Proof.
  intros Hn Hp Hlt. pose proof (SFltb_aligned mn en mp ep Hn Hp Hlt) as Hal.
  apply bounded_spec in Hn as (Hcn & Hen & Hmn).
  unfold SFadd, cond_Zopp.
  rewrite !shl_align_value by lia.
  set (ez := Z.min en ep) in *.
  assert (0 < Zpos mp * 2 ^ (ep - ez)) by (apply Z.mul_pos_pos; [lia | apply Z.pow_pos_nonneg; lia]).
  destruct (- (Zpos mn * 2 ^ (en - ez)) + Zpos mp * 2 ^ (ep - ez)) as [|d|d] eqn:E; try lia.
  unfold binary_normalize.
  apply (binary_round_finite true d ez (Zpos mn) en); try assumption; lia.
Qed.

Lemma SFltb_neither mx ex my ey :
  SFltb (S754_finite false mx ex) (S754_finite false my ey) = false ->
  SFltb (S754_finite false my ey) (S754_finite false mx ex) = false ->
  mx = my /\ ex = ey.
Proof.
  unfold SFltb, SFcompare. rewrite (Z.compare_antisym ex ey).
  destruct (Z.compare_spec ex ey) as [E | E | E]; simpl; try discriminate.
  subst. change (Pos.compare_cont Eq mx my) with (Pos.compare mx my).
  change (Pos.compare_cont Eq my mx) with (Pos.compare my mx).
  rewrite (Pos.compare_antisym mx my).
  destruct (Pos.compare_spec mx my); simpl; try discriminate. intros _ _. tauto.
Qed.

End OppositeSigns.

Section PairingAmounts.
Import Units.
Local Open Scope float_scope.

Lemma Prim2SF_bounded x s m e :
  Prim2SF x = S754_finite s m e -> SpecFloat.bounded prec emax m e = true.
Proof. intros E. pose proof (Prim2SF_valid x) as H. rewrite E in H. exact H. Qed.

Lemma zero_below_eps x s : Prim2SF x = S754_zero s -> JS.lt (JS.abs x) 0.01%float = true.
Proof.
  intros E. unfold JS.lt, JS.abs. rewrite ltb_spec, abs_spec, E, Prim2SF_eps. reflexivity.
Qed.

Lemma positive_get_sign x m e : Prim2SF x = S754_finite false m e -> get_sign x = false.
Proof.
  intros E. unfold get_sign, is_zero. rewrite eqb_spec, E.
  change (Prim2SF zero) with (S754_zero false). cbn [SFeqb SFcompare].
  rewrite ltb_spec, E. reflexivity.
Qed.

(** One pass of a pairing loop on a credit [p] and a debt [n]: what is
    left of either is below 0.01 in absolute value or has kept its sign,
    and one of the two is below 0.01. *)
Lemma pairing_amounts p n mp ep mn en :
  Prim2SF p = S754_finite false mp ep -> Prim2SF n = S754_finite true mn en ->
  let a := JS.min p (JS.abs n) in
  (JS.lt (JS.abs (p - a)) 0.01%float = true
   \/ exists m e, Prim2SF (p - a)%float = S754_finite false m e)
  /\ (JS.lt (JS.abs (n + a)) 0.01%float = true
      \/ exists m e, Prim2SF (n + a)%float = S754_finite true m e)
  /\ (JS.lt (JS.abs (p - a)) 0.01%float = true \/ JS.lt (JS.abs (n + a)) 0.01%float = true).
Proof.
  intros Ep En a.
  pose proof (Prim2SF_bounded _ _ _ _ Ep) as Hbp.
  pose proof (Prim2SF_bounded _ _ _ _ En) as Hbn.
  assert (Prim2SF (JS.abs n) = S754_finite false mn en) as Ea.
  { unfold JS.abs. rewrite abs_spec, En. reflexivity. }
  assert (is_nan p = false) as Hnp.
  { unfold is_nan. rewrite eqb_spec, Ep. unfold SFeqb. rewrite SFcompare_refl_finite. reflexivity. }
  assert (is_nan (JS.abs n) = false) as Hnn by (apply (finite_abs_not_nan n true mn en En)).
  assert ((p - p)%float = 0%float) as Hpp by (apply (finite_sub_self p false mp ep Ep)).
  assert ((n + JS.abs n)%float = 0%float) as Hnn0 by (apply (negative_add_abs n mn en En)).
  assert (JS.lt (JS.abs 0%float) 0.01%float = true) as Hz by reflexivity.
  unfold a, JS.min. rewrite Hnp, Hnn. cbn [orb].
  destruct (p <? JS.abs n)%float eqn:E1.
  - (* the credit is the smaller one *)
    rewrite Hpp, Hz. split; [left; reflexivity|]. split; [|left; reflexivity].
    rewrite ltb_spec, Ep, Ea in E1.
    destruct (SFadd_of_smaller mn en mp ep Hbn Hbp E1) as [H | (m & e & H)].
    + left. apply (zero_below_eps _ true). rewrite add_spec, En, Ep. exact H.
    + right. exists m, e. rewrite add_spec, En, Ep. exact H.
  - destruct (JS.abs n <? p)%float eqn:E2.
    + rewrite Hnn0, Hz. split; [|split; [left; reflexivity | right; reflexivity]].
      rewrite ltb_spec, Ep, Ea in E2.
      destruct (SFsub_of_smaller mp ep mn en Hbp Hbn E2) as [H | (m & e & H)].
      * left. apply (zero_below_eps _ false). rewrite sub_spec, Ep, Ea. exact H.
      * right. exists m, e. rewrite sub_spec, Ep, Ea. exact H.
    + rewrite (positive_get_sign p mp ep Ep).
      rewrite ltb_spec, Ep, Ea in E1. rewrite ltb_spec, Ep, Ea in E2.
      destruct (SFltb_neither _ _ _ _ E1 E2) as [-> ->].
      assert (JS.abs n = p) as -> by (apply Prim2SF_inj; congruence).
      rewrite Hpp, Hz. split; [left; reflexivity|].
      assert ((n + p)%float = 0%float) as ->.
      { apply Prim2SF_inj. rewrite add_spec, En, Ep.
        unfold SF64add, SFadd, cond_Zopp. rewrite Z.add_opp_diag_l. reflexivity. }
      rewrite Hz. split; left; reflexivity.
Qed.

End PairingAmounts.

(** * The pairing loop returns *)

Section PairingReturns.
Import BalanceService BalanceReports SettlementController Queues.

Lemma queueStep_finite q :
  queueContinues q = true ->
  Forall credit (waitingPos q) -> Forall debt (waitingNeg q) ->
  Forall credit (waitingPos (queueStep q)) /\ Forall debt (waitingNeg (queueStep q))
  /\ (waiting (queueStep q) < waiting q)%nat.
Proof.
  unfold queueContinues, queueStep, waiting.
  destruct (waitingPos q) as [|pos ps], (waitingNeg q) as [|neg ns]; try discriminate.
  intros _ Hp Hn.
  inversion Hp as [|? ? [mp [ep Ep]] Hps]; subst.
  inversion Hn as [|? ? [mn [en En]] Hns]; subst.
  destruct (pairing_amounts (en_amount pos) (en_amount neg) mp ep mn en Ep En)
    as (H1 & H2 & H3).
  cbn [waitingPos waitingNeg withAmount en_amount].
  set (a := JS.min (en_amount pos) (JS.abs (en_amount neg))) in *.
  destruct (JS.lt (JS.abs (en_amount pos - a)) 0.01) eqn:E1,
           (JS.lt (JS.abs (en_amount neg + a)) 0.01) eqn:E2; cbn [List.length].
  - repeat split; try assumption; lia.
  - destruct H2 as [H2 | H2]; [discriminate|].
    repeat split; try assumption; [constructor; assumption | lia].
  - destruct H1 as [H1 | H1]; [discriminate|].
    repeat split; try assumption; [constructor; assumption | lia].
  - destruct H3; discriminate.
Qed.

Lemma queueStep_count q :
  queueContinues q = true ->
  List.length (suggested (queueStep q)) = S (List.length (suggested q)).
Proof.
  unfold queueContinues, queueStep.
  destruct (waitingPos q) as [|pos ps], (waitingNeg q) as [|neg ns]; try discriminate.
  intros _. cbn [suggested]. rewrite length_app. simpl. lia.
Qed.

Lemma queueLoop_returns fuel : forall q,
  Forall credit (waitingPos q) -> Forall debt (waitingNeg q) ->
  (waiting q <= S fuel)%nat ->
  exists q', queueLoop fuel q = Some q'
             /\ (List.length (suggested q') <= List.length (suggested q) + fuel)%nat.
Proof.
  induction fuel as [|fuel IH]; intros q Hp Hn Hw; cbn [queueLoop];
    destruct (queueContinues q) eqn:Ec.
  - exfalso. unfold queueContinues, waiting in *.
    destruct (waitingPos q) as [|pos ps], (waitingNeg q) as [|neg ns]; try discriminate.
    simpl in Hw. lia.
  - exists q. split; [reflexivity | lia].
  - destruct (queueStep_finite q Ec Hp Hn) as (Hp' & Hn' & Hlt).
    destruct (IH (queueStep q) Hp' Hn' ltac:(lia)) as (q' & Hq' & Hlen).
    exists q'. split; [assumption|]. rewrite queueStep_count in Hlen by assumption. lia.
  - exists q. split; [reflexivity | lia].
Qed.

Lemma queueLoop_more fuel : forall q q' extra,
  queueLoop fuel q = Some q' -> queueLoop (fuel + extra) q = Some q'.
Proof.
  induction fuel as [|fuel IH]; intros q q' extra; cbn [queueLoop].
  - destruct (queueContinues q) eqn:Ec; [discriminate|].
    intros H. destruct extra; cbn [queueLoop Nat.add]; rewrite Ec; assumption.
  - cbn [Nat.add queueLoop]. destruct (queueContinues q); [apply IH | tauto].
Qed.

Lemma refs_length s :
  (List.length (positiveRefs s) + List.length (negativeRefs s) <= List.length s)%nat.
Proof.
  destruct (refs_wellReferenced s) as [Hnd Hin].
  assert (List.length (positiveRefs s ++ negativeRefs s)
          <= List.length (seq 0 (List.length s)))%nat as H.
  { apply NoDup_incl_length; [assumption|].
    intros r Hr. rewrite Forall_forall in Hin. apply in_seq. specialize (Hin r Hr). lia. }
  rewrite length_seq, length_app in H. exact H.
Qed.

Lemma initialQueues_finite s :
  Forall (fun e => is_finite (en_amount e) = true) s ->
  Forall credit (waitingPos (initialQueues s)) /\ Forall debt (waitingNeg (initialQueues s)).
Proof.
  intros Hf. rewrite Forall_forall in Hf. unfold initialQueues. cbn [waitingPos waitingNeg].
  split; apply Forall_forall; intros e He; apply in_map_iff in He as (r & <- & Hr).
  - apply positiveRefs_spec in Hr as [Hl Hg].
    apply positive_finite; [assumption|]. apply Hf, nth_In. assumption.
  - apply negativeRefs_spec in Hr as [Hl Hg].
    apply negative_finite; [assumption|]. apply Hf, nth_In. assumption.
Qed.

End PairingReturns.

(** * Rounding to two decimals keeps a number finite *)

Section RoundedFinite.
Import Units.
Local Open Scope Z_scope.

Lemma SFdiv_100_finite n :
  0 < n < 2 ^ 53 ->
  SFdiv prec emax (SFunits n) (SFunits 100) = S754_zero false
  \/ exists m e, SFdiv prec emax (SFunits n) (SFunits 100) = S754_finite false m e.
Proof.
  intros Hn. rewrite SFunits_100. unfold SFunits.
  replace (n =? 0) with false by (symmetry; apply Z.eqb_neq; lia).
  replace (n <? 0) with false by (symmetry; apply Z.ltb_ge; lia).
  rewrite Z.abs_eq by lia.
  set (d1 := digits n).
  assert (Hd1 : 1 <= d1 <= 53) by (unfold d1; split; [apply digits_pos | apply digits_le_53]; lia).
  unfold canon. fold d1. unfold SFdiv, SFdiv_core_binary.
  pose proof (digits_canon_mantissa n Hn) as Hdm. fold d1 in Hdm. rewrite Hdm.
  change (Zdigits2 7036874417766400) with 53.
  rewrite fexp_normal by lia.
  replace (Z.min (53 + (d1 - 53) - (53 + -46) - 53) (d1 - 53 - -46)) with (d1 - 60) by lia.
  replace (d1 - 53 - -46 - (d1 - 60)) with 53 by lia.
  rewrite Z.shiftl_mul_pow2 by lia.
  pose proof (canon_mantissa_pos n Hn) as Hcm. fold d1 in Hcm. rewrite Hcm.
  pose proof (digits_bounds n ltac:(lia)) as [Hlo Hhi]. fold d1 in Hlo, Hhi.
  set (M := n * 2 ^ (53 - d1)).
  assert (2 ^ 52 <= M < 2 ^ 53) as HM.
  { unfold M.
    assert (2 ^ 52 = 2 ^ (d1 - 1) * 2 ^ (53 - d1)) as E52
      by (rewrite <- Z.pow_add_r by lia; f_equal; lia).
    assert (2 ^ 53 = 2 ^ d1 * 2 ^ (53 - d1)) as E53
      by (rewrite <- Z.pow_add_r by lia; f_equal; lia).
    assert (0 < 2 ^ (53 - d1)) by (apply Z.pow_pos_nonneg; lia).
    rewrite E52, E53. split.
    - apply Z.mul_le_mono_nonneg_r; lia.
    - apply Z.mul_lt_mono_pos_r; lia. }
  assert (E : Z.div_eucl (M * 2 ^ 53) 7036874417766400
              = (M * 2 ^ 53 / 7036874417766400, (M * 2 ^ 53) mod 7036874417766400)).
  { unfold Z.div, Z.modulo. destruct (Z.div_eucl (M * 2 ^ 53) 7036874417766400). reflexivity. }
  rewrite E. set (q := M * 2 ^ 53 / 7036874417766400).
  assert (1 <= q) as Hq1.
  { unfold q. apply Z.div_le_lower_bound; lia. }
  assert (q < 2 ^ 54) as Hq2.
  { unfold q. apply Z.div_lt_upper_bound; lia. }
  assert (digits q <= 54) as Hdq.
  { destruct (Z.le_gt_cases (digits q) 54) as [|Hgt]; [assumption|].
    pose proof (digits_bounds q ltac:(lia)) as [Hl _].
    assert (2 ^ 54 <= 2 ^ (digits q - 1)) by (apply Z.pow_le_mono_r; lia). lia. }
  cbn [xorb].
  apply binary_round_aux_finite; rewrite ?fexp_eq; lia.
Qed.

Lemma below_2p46 x s m e :
  Prim2SF x = S754_finite s m e ->
  (0x1p46 <=? abs x)%float = false ->
  e <= -7 /\ 0 < Zpos m < 2 ^ 53.
Proof.
  intros E H. pose proof (Prim2SF_bounded x s m e E) as Hb.
  apply bounded_spec in Hb as (Hc & He & Hm). rewrite fexp_eq in Hc.
  rewrite leb_spec, abs_spec, E in H.
  change (Prim2SF 0x1p46) with (S754_finite false 4503599627370496 (-6)) in H.
  unfold SFleb, SFabs, SFcompare in H.
  split; [|assumption].
  destruct (Z.compare_spec (-6) e) as [E6 | E6 | E6]; try discriminate; [|lia].
  exfalso. subst e.
  assert (digits (Zpos m) = 53) as Hd by lia.
  pose proof (digits_bounds (Zpos m) ltac:(lia)) as [Hl _]. rewrite Hd in Hl.
  change (Pos.compare_cont Eq 4503599627370496 m) with (Pos.compare 4503599627370496 m) in H.
  destruct (Pos.compare_spec 4503599627370496 m) as [E' | E' | E']; try discriminate.
  change (2 ^ (53 - 1)) with 4503599627370496 in Hl.
  apply (Z.lt_irrefl (Zpos m)).
  eapply Z.lt_le_trans; [apply Pos2Z.pos_lt_pos; exact E' | exact Hl].
Qed.

Lemma half_up_hundredths_bound m e :
  e <= -7 -> 0 < Zpos m < 2 ^ 53 -> 0 <= JS.half_up_hundredths m e < 2 ^ 53.
Proof.
  intros He Hm. unfold JS.half_up_hundredths.
  replace (0 <=? e) with false by (symmetry; apply Z.leb_gt; lia).
  assert (2 ^ 7 <= 2 ^ (- e)) as Hk by (apply Z.pow_le_mono_r; lia).
  set (k := 2 ^ (- e)) in *.
  replace (2 ^ (- e + 1)) with (2 * k) by (unfold k; rewrite Z.pow_add_r by lia; ring).
  simpl in Hk. split.
  - apply Z.div_pos; lia.
  - apply Z.div_lt_upper_bound; lia.
Qed.

End RoundedFinite.

Section RoundedFinitePrim.
Import Units.
Local Open Scope float_scope.

Lemma finite_shape y :
  (exists s, Prim2SF y = S754_zero s) \/ (exists s m e, Prim2SF y = S754_finite s m e) ->
  is_finite y = true.
Proof.
  unfold is_finite, is_nan, is_infinity. rewrite !eqb_spec, abs_spec.
  intros [[s E] | (s & m & e & E)]; rewrite E.
  - destruct s; reflexivity.
  - unfold SFeqb. rewrite SFcompare_refl_finite. reflexivity.
Qed.

Lemma opp_finite y : is_finite y = true -> is_finite (- y) = true.
Proof.
  intros H. apply finite_shape.
  destruct (finite_cases y H) as [[s E] | (s & m & e & E)]; rewrite opp_spec, E; simpl.
  - left. eexists. reflexivity.
  - right. eexists. eexists. eexists. reflexivity.
Qed.

(** [parseFloat(x.toFixed(2))] of a finite number is a finite number. *)
Lemma toFixed2_finite x : is_finite x = true -> is_finite (JS.toFixed2 x) = true.
Proof.
  intros H. destruct (finite_cases x H) as [[s E] | (s & m & e & E)];
    unfold JS.toFixed2; rewrite E; [reflexivity|].
  destruct (0x1p46 <=? abs x) eqn:T; [assumption|].
  destruct (below_2p46 x s m e E T) as [He Hm].
  pose proof (half_up_hundredths_bound m e He Hm) as Hn.
  set (n := JS.half_up_hundredths m e) in *.
  assert (is_finite (JS.of_Z63 n / 100) = true) as Hr.
  { apply finite_shape. rewrite div_spec, units_of_Z63, Prim2SF_units by lia.
    change (Prim2SF 100) with (SFunits 100).
    destruct (Z.eq_dec n 0) as [-> | Hn0].
    - left. exists false. reflexivity.
    - destruct (SFdiv_100_finite n ltac:(lia)) as [Hz | (m' & e' & Hf)].
      + left. exists false. exact Hz.
      + right. exists false, m', e'. exact Hf. }
  destruct s; [apply opp_finite|]; assumption.
Qed.

End RoundedFinitePrim.

Section SuggestionsReturn.
Import BalanceService BalanceReports SettlementController Queues.
Local Open Scope string_scope.

Lemma pairingLoop_more P N fuel : forall st st' extra,
  pairingLoop fuel P N st = Some st' -> pairingLoop (fuel + extra) P N st = Some st'.
Proof.
  induction fuel as [|fuel IH]; intros st st' extra; cbn [pairingLoop].
  - destruct (pairingContinues P N st) eqn:Ec; [discriminate|].
    intros H. destruct extra; cbn [pairingLoop Nat.add]; rewrite Ec; assumption.
  - cbn [Nat.add pairingLoop]. destruct (pairingContinues P N st); [apply IH | tauto].
Qed.

Lemma balanceList_finite m :
  Forall (fun ka => is_finite (a_amount (snd ka)) = true) m ->
  Forall (fun e => is_finite (en_amount e) = true) (balanceListOf m).
Proof.
  unfold balanceListOf. induction 1 as [|ka m Hka Hm IH]; simpl; [constructor|].
  destruct (ge (JS.abs (a_amount (snd ka))) 0.01); simpl; [|assumption].
  constructor; [|assumption]. cbn [en_amount]. apply toFixed2_finite. assumption.
Qed.

(** X9.  Whenever the balances of the group are finite numbers, the
    pairing loop of [getSettlementSuggestions] returns: with L entries in
    [balanceList] it makes at most L - 1 passes, and so at most L - 1
    suggestions. *)
Theorem suggestions_return_for_finite_balances rows :
  Forall (fun ka => is_finite (a_amount (snd ka)) = true) (accounts rows) ->
  let bound := (List.length (balanceListOf (accounts rows)) - 1)%nat in
  exists report,
    suggest bound rows = Some report
    /\ (List.length (sr_suggestions report) <= bound)%nat
    /\ forall extra, suggest (bound + extra) rows = Some report.
Proof.
  intros Hf bound. set (bl := balanceListOf (accounts rows)) in *.
  destruct (initialQueues_finite bl (balanceList_finite _ Hf)) as [Hp Hn].
  destruct (queueLoop_returns bound (initialQueues bl) Hp Hn) as (q' & Hq' & Hlen).
  { unfold waiting, initialQueues. cbn [waitingPos waitingNeg]. rewrite !length_map.
    pose proof (refs_length bl). unfold bound. lia. }
  pose proof (suggest_queues bound rows) as Hs. cbv zeta in Hs. fold bl in Hs.
  unfold suggest in *. fold bl in Hs |- *.
  destruct (pairingLoop bound (positiveRefs bl) (negativeRefs bl) (mkPairing bl 0 0 []))
    as [st|] eqn:El.
  - destruct Hs as (q & Hq & Hsg & _). rewrite Hq' in Hq. injection Hq as <-.
    eexists. split; [reflexivity|]. split.
    + rewrite Hsg. cbn [initialQueues suggested List.length] in Hlen. exact Hlen.
    + intros extra. rewrite (pairingLoop_more _ _ _ _ _ extra El). reflexivity.
  - congruence.
Qed.

(** A dinner A pays for A, B and C: three balances, two passes. *)
Lemma suggestions_return_for_finite_balances_witness :
  exists report,
    suggest 2 [mkExpenseRow "A" (mkUser "A" "Ann") 90
                 [mkSplitRow "A" (mkUser "A" "Ann") 30;
                  mkSplitRow "B" (mkUser "B" "Bob") 30;
                  mkSplitRow "C" (mkUser "C" "Cy") 30]] = Some report
    /\ (List.length (sr_suggestions report) <= 2)%nat
    /\ forall extra,
         suggest (2 + extra)
           [mkExpenseRow "A" (mkUser "A" "Ann") 90
              [mkSplitRow "A" (mkUser "A" "Ann") 30;
               mkSplitRow "B" (mkUser "B" "Bob") 30;
               mkSplitRow "C" (mkUser "C" "Cy") 30]] = Some report.
Proof.
  apply (suggestions_return_for_finite_balances
           [mkExpenseRow "A" (mkUser "A" "Ann") 90
              [mkSplitRow "A" (mkUser "A" "Ann") 30;
               mkSplitRow "B" (mkUser "B" "Bob") 30;
               mkSplitRow "C" (mkUser "C" "Cy") 30]]).
  repeat constructor.
Defined.

End SuggestionsReturn.

(** * The pairing loop on whole-number balances *)

Section WholePairing.
Import BalanceService BalanceReports SettlementController Queues Units WholeQueues.
Local Open Scope Z_scope.

Lemma sumZ_abs_bound {A : Type} (f : A -> Z) (l : list A) x :
  In x l -> Z.abs (f x) <= sumZ (map (fun y => Z.abs (f y)) l).
Proof.
  induction l as [|y l IH]; simpl; intros H; [contradiction|].
  assert (0 <= sumZ (map (fun y => Z.abs (f y)) l)).
  { clear. induction l; simpl; lia. }
  destruct H as [-> | H]; [lia|]. specialize (IH H). lia.
Qed.

(** One step on the integer queues is one step of the loop. *)
Lemma queueStep_image q :
  settlingZ q -> queueStep (image q) = image (queueStepZ q).
Proof.
  intros (Hpassed & Hpos & Hneg & Hsum & Hmag).
  unfold queueStep, queueStepZ, image.
  cbn [passedPos waitingPos passedNeg waitingNeg suggested].
  destruct (waitingPosZ q) as [|[fp p] ps] eqn:Ep; [cbn [map]; rewrite ?Ep; reflexivity|].
  destruct (waitingNegZ q) as [|[fn n] ns] eqn:En;
    [cbn [map]; rewrite ?Ep, ?En; reflexivity|].
  assert (Z.abs p < 2 ^ 53 /\ Z.abs n < 2 ^ 53) as [Hp53 Hn53].
  { split.
    - pose proof (sumZ_abs_bound (fun w : WEntry => snd w) (entriesZ q) (fp, p)) as H.
      cbn [snd] in H. apply Z.le_lt_trans with (2 := Hmag), H.
      unfold entriesZ. rewrite Ep. rewrite !in_app_iff. right. left. left. reflexivity.
    - pose proof (sumZ_abs_bound (fun w : WEntry => snd w) (entriesZ q) (fn, n)) as H.
      cbn [snd] in H. apply Z.le_lt_trans with (2 := Hmag), H.
      unfold entriesZ. rewrite En. rewrite !in_app_iff. right. right. right. left. reflexivity. }
  inversion Hpos as [|? ? Hp0 _]; subst. inversion Hneg as [|? ? Hn0 _]; subst.
  cbn [snd fst] in *.
  cbn [map wentry fst snd en_amount en_user en_type withAmount].
  unfold JS.abs. rewrite units_abs by assumption.
  rewrite units_min by (rewrite ?Z.abs_idemp; assumption).
  set (a := Z.min p (Z.abs n)).
  assert (0 < a <= p /\ a <= - n) as Ha by (unfold a; lia).
  rewrite units_sub, units_add by lia.
  fold (JS.abs (units (p - a))). fold (JS.abs (units (n + a))).
  rewrite !units_below_eps by lia.
  rewrite units_toFixed2 by lia.
  cbn [passedPosZ waitingPosZ passedNegZ waitingNegZ suggestedZ].
  destruct (p - a =? 0), (n + a =? 0); rewrite ?map_app; reflexivity.
Qed.

Lemma sumZ_map_app {A : Type} (f : A -> Z) l1 l2 :
  sumZ (map f (l1 ++ l2)) = sumZ (map f l1) + sumZ (map f l2).
Proof. induction l1 as [|x l1 IH]; simpl; lia. Qed.

(** What a step does to a sum over the entries: the two heads are
    replaced by what is left of them. *)
Lemma queueStepZ_sum (g : WEntry -> Z) q fp p ps fn n ns :
  waitingPosZ q = (fp, p) :: ps -> waitingNegZ q = (fn, n) :: ns ->
  let a := Z.min p (Z.abs n) in
  sumZ (map g (entriesZ (queueStepZ q)))
  = sumZ (map g (entriesZ q)) - g (fp, p) - g (fn, n) + g (fp, p - a) + g (fn, n + a).
Proof.
  intros Ep En a. unfold queueStepZ, entriesZ. rewrite Ep, En.
  cbn [fst snd passedPosZ waitingPosZ passedNegZ waitingNegZ]. fold a.
  destruct (p - a =? 0), (n + a =? 0); rewrite !sumZ_map_app; cbn [map sumZ fold_right];
    rewrite ?sumZ_map_app; cbn [map sumZ fold_right]; unfold sumZ; lia.
Qed.

Lemma queueStepZ_settling q :
  settlingZ q -> waitingPosZ q <> [] -> waitingNegZ q <> [] ->
  settlingZ (queueStepZ q)
  /\ (List.length (waitingPosZ (queueStepZ q)) + List.length (waitingNegZ (queueStepZ q))
      < List.length (waitingPosZ q) + List.length (waitingNegZ q))%nat
  /\ exists from to a,
       suggestedZ (queueStepZ q) = (suggestedZ q ++ [(from, to, a)])%list /\ 0 < a
       /\ (forall u, creditOf u (entriesZ (queueStepZ q))
                     + (if String.eqb (u_id to) u then a else 0)
                     = creditOf u (entriesZ q))
       /\ (forall u, debtOf u (entriesZ (queueStepZ q))
                     + (if String.eqb (u_id from) u then a else 0)
                     = debtOf u (entriesZ q)).
Proof.
  intros (Hpassed & Hpos & Hneg & Hsum & Hmag) Hp Hn.
  destruct (waitingPosZ q) as [|[fp p] ps] eqn:Ep; [congruence|].
  destruct (waitingNegZ q) as [|[fn n] ns] eqn:En; [congruence|].
  inversion Hpos as [|? ? Hp0 Hps]; subst. inversion Hneg as [|? ? Hn0 Hns]; subst.
  cbn [snd] in Hp0, Hn0.
  pose proof (queueStepZ_sum snd q fp p ps fn n ns Ep En) as Hs1.
  pose proof (queueStepZ_sum (fun w => Z.abs (snd w)) q fp p ps fn n ns Ep En) as Hs2.
  pose proof (fun u => queueStepZ_sum
                (fun w => if String.eqb (u_id (fst (fst w))) u then Z.max (snd w) 0 else 0)
                q fp p ps fn n ns Ep En) as Hs3.
  pose proof (fun u => queueStepZ_sum
                (fun w => if String.eqb (u_id (fst (fst w))) u then Z.max (- snd w) 0 else 0)
                q fp p ps fn n ns Ep En) as Hs4.
  cbv zeta in Hs1, Hs2, Hs3, Hs4. cbn [fst snd] in Hs1, Hs2, Hs3, Hs4.
  unfold WEntry in *.
  set (a := Z.min p (Z.abs n)) in *.
  assert (0 < a <= p /\ a <= - n) as Ha by (unfold a; lia).
  split; [|split].
  - unfold settlingZ. rewrite Hs1, Hs2.
    unfold queueStepZ. rewrite Ep, En.
    cbn [fst snd passedPosZ waitingPosZ passedNegZ waitingNegZ]. fold a.
    apply Forall_app in Hpassed as [Hpp Hpn].
    split; [|split; [|split; [|split]]]; try lia.
    + destruct (Z.eqb_spec (p - a) 0) as [E1 | E1], (Z.eqb_spec (n + a) 0) as [E2 | E2];
        repeat (apply Forall_app; split); try assumption;
        constructor; try constructor; assumption.
    + destruct (p - a =? 0) eqn:E1; [assumption|].
      constructor; [|assumption]. cbn [snd]. apply Z.eqb_neq in E1. lia.
    + destruct (n + a =? 0) eqn:E2; [assumption|].
      constructor; [|assumption]. cbn [snd]. apply Z.eqb_neq in E2. lia.
  - unfold queueStepZ. rewrite Ep, En.
    cbn [fst snd passedPosZ waitingPosZ passedNegZ waitingNegZ]. fold a.
    destruct (Z.eqb_spec (p - a) 0), (Z.eqb_spec (n + a) 0); cbn [List.length]; lia.
  - exists (fst fn), (fst fp), a.
    split; [unfold queueStepZ; rewrite Ep, En; reflexivity|].
    split; [lia|]. split; intros u.
    + unfold creditOf. rewrite Hs3.
      destruct (String.eqb (u_id (fst fp)) u), (String.eqb (u_id (fst fn)) u); lia.
    + unfold debtOf. rewrite Hs4.
      destruct (String.eqb (u_id (fst fp)) u), (String.eqb (u_id (fst fn)) u); lia.
Qed.

Lemma sum_of_zeros (g : User * string * Z -> Z) (l : list (User * string * Z)) :
  Forall (fun w => g w = 0) l -> sumZ (map g l) = 0.
Proof. induction 1 as [|w l Hw Hl IH]; simpl; lia. Qed.

Lemma sum_of_credits (l : list (User * string * Z)) :
  Forall (fun w => 0 < snd w) l -> 0 <= sumZ (map snd l) /\ (l <> [] -> 0 < sumZ (map snd l)).
Proof.
  induction 1 as [|w l Hw Hl [IH1 IH2]]; simpl; [split; [lia | intros H; exfalso; apply H; reflexivity]|].
  split; [lia | intros _; lia].
Qed.

Lemma sum_of_debts (l : list (User * string * Z)) :
  Forall (fun w => snd w < 0) l -> sumZ (map snd l) <= 0 /\ (l <> [] -> sumZ (map snd l) < 0).
Proof.
  induction 1 as [|w l Hw Hl [IH1 IH2]]; simpl; [split; [lia | intros H; exfalso; apply H; reflexivity]|].
  split; [lia | intros _; lia].
Qed.

(** When one side has no waiting entry, neither has the other, and
    nothing is owed any more. *)
Lemma settlingZ_done q :
  settlingZ q -> waitingPosZ q = [] \/ waitingNegZ q = [] ->
  waitingPosZ q = [] /\ waitingNegZ q = []
  /\ (forall u, creditOf u (entriesZ q) = 0) /\ (forall u, debtOf u (entriesZ q) = 0)
  /\ Forall (fun w => snd w = 0) (entriesZ q).
Proof.
  intros (Hpassed & Hpos & Hneg & Hsum & Hmag) Hempty.
  apply Forall_app in Hpassed as [Hpp Hpn].
  unfold entriesZ, WEntry in *. rewrite !sumZ_map_app in Hsum.
  rewrite (sum_of_zeros snd _ Hpp), (sum_of_zeros snd _ Hpn) in Hsum.
  destruct (sum_of_credits _ Hpos) as [Hc1 Hc2]. destruct (sum_of_debts _ Hneg) as [Hd1 Hd2].
  assert (waitingPosZ q = [] /\ waitingNegZ q = []) as [Ep En].
  { destruct Hempty as [E | E]; rewrite E in *; simpl in *.
    - split; [reflexivity|]. destruct (waitingNegZ q); [reflexivity|].
      specialize (Hd2 ltac:(congruence)). lia.
    - split; [|reflexivity]. destruct (waitingPosZ q); [reflexivity|].
      specialize (Hc2 ltac:(congruence)). lia. }
  rewrite Ep, En. cbn [app]. rewrite app_nil_r.
  assert (Forall (fun w : User * string * Z => snd w = 0) (passedPosZ q ++ passedNegZ q)) as Hall
    by (apply Forall_app; split; assumption).
  repeat split; try assumption.
  - intros u. unfold creditOf. apply sum_of_zeros.
    eapply Forall_impl; [|exact Hall]. intros w Hw. cbv beta. rewrite Hw.
    destruct (String.eqb _ u); reflexivity.
  - intros u. unfold debtOf. apply sum_of_zeros.
    eapply Forall_impl; [|exact Hall]. intros w Hw. cbv beta. rewrite Hw.
    destruct (String.eqb _ u); reflexivity.
Qed.

Lemma queueContinues_image q :
  queueContinues (image q) = true <-> waitingPosZ q <> [] /\ waitingNegZ q <> [].
Proof.
  unfold queueContinues, image. cbn [waitingPos waitingNeg].
  destruct (waitingPosZ q), (waitingNegZ q); simpl; split;
    try discriminate; try tauto; try (intros [H1 H2]; congruence).
  intros _. split; congruence.
Qed.

(** The loop on a settling state: it returns, with every entry at 0, and
    the new suggestions bring every user what the entries owed them. *)
Lemma queueLoop_settling fuel : forall q,
  settlingZ q ->
  (List.length (waitingPosZ q) + List.length (waitingNegZ q) <= S fuel)%nat ->
  exists q' new,
    queueLoop fuel (image q) = Some (image q')
    /\ suggestedZ q' = (suggestedZ q ++ new)%list
    /\ Forall (fun w => snd w = 0) (entriesZ q')
    /\ Forall (fun s => 0 < snd s) new
    /\ (List.length new <= fuel)%nat
    /\ (forall u, receivedByZ u new = creditOf u (entriesZ q))
    /\ (forall u, sentByZ u new = debtOf u (entriesZ q)).
Proof.
  induction fuel as [|fuel IH]; intros q Hs Hlen; cbn [queueLoop];
    destruct (queueContinues (image q)) eqn:Ec.
  - apply queueContinues_image in Ec as [Hp Hn].
    destruct (waitingPosZ q), (waitingNegZ q); try congruence. simpl in Hlen. lia.
  - assert (waitingPosZ q = [] \/ waitingNegZ q = []) as He.
    { destruct (waitingPosZ q) eqn:Ep; [left; reflexivity|].
      destruct (waitingNegZ q) eqn:En; [right; reflexivity|].
      assert (queueContinues (image q) = true); [|congruence].
      apply queueContinues_image. rewrite Ep, En. split; congruence. }
    destruct (settlingZ_done q Hs He) as (_ & _ & Hc & Hd & Hz).
    exists q, []. rewrite app_nil_r.
    split; [reflexivity|]. split; [reflexivity|]. split; [assumption|].
    split; [constructor|]. split; [simpl; lia|].
    split; intros u; symmetry; [apply Hc | apply Hd].
  - apply queueContinues_image in Ec as [Hp Hn].
    destruct (queueStepZ_settling q Hs Hp Hn)
      as (Hs' & Hlt & from & to & a & Hsg & Ha & Hcr & Hdb).
    rewrite (queueStep_image q Hs).
    destruct (IH (queueStepZ q) Hs' ltac:(lia))
      as (q' & new & Hq' & Hnew & Hz & Hpos & Hl & Hrc & Hsn).
    exists q', ((from, to, a) :: new).
    split; [assumption|]. split; [rewrite Hnew, Hsg, <- app_assoc; reflexivity|].
    split; [assumption|]. split; [constructor; assumption|].
    split; [simpl; lia|]. split; intros u.
    + unfold receivedByZ in *. cbn [map sumZ fold_right fst snd].
      fold (sumZ (map (fun s : User * User * Z =>
                         if String.eqb (u_id (snd (fst s))) u then snd s else 0) new)).
      rewrite Hrc, <- Hcr. lia.
    + unfold sentByZ in *. cbn [map sumZ fold_right fst snd].
      fold (sumZ (map (fun s : User * User * Z =>
                         if String.eqb (u_id (fst (fst s))) u then snd s else 0) new)).
      rewrite Hsn, <- Hdb. lia.
  - assert (waitingPosZ q = [] \/ waitingNegZ q = []) as He.
    { destruct (waitingPosZ q) eqn:Ep; [left; reflexivity|].
      destruct (waitingNegZ q) eqn:En; [right; reflexivity|].
      assert (queueContinues (image q) = true); [|congruence].
      apply queueContinues_image. rewrite Ep, En. split; congruence. }
    destruct (settlingZ_done q Hs He) as (_ & _ & Hc & Hd & Hz).
    exists q, []. rewrite app_nil_r.
    split; [reflexivity|]. split; [reflexivity|]. split; [assumption|].
    split; [constructor|]. split; [simpl; lia|].
    split; intros u; symmetry; [apply Hc | apply Hd].
Qed.

End WholePairing.

Section WholeRows.
Import BalanceService BalanceReports SettlementController Queues Units WholeQueues.
Local Open Scope string_scope.
Local Open Scope Z_scope.

Local Abbreviation nonzero := (fun e : string * Z => negb (snd e =? 0)).

Lemma wholeRow_toExpense es :
  map toExpense (map wholeRow es) = map expense (map idExpense es).
Proof.
  rewrite !map_map. apply map_ext. intros [[payer amount] splits].
  unfold toExpense, wholeRow, expense, idExpense. cbn [fst snd er_paidById er_amount er_splits].
  rewrite !map_map. reflexivity.
Qed.

Lemma wholeRow_consistent es : Forall consistentRow (map wholeRow es).
Proof.
  apply Forall_forall. intros row Hrow. apply in_map_iff in Hrow as (e & <- & _).
  split; [reflexivity|]. unfold wholeRow. cbn [er_splits].
  apply Forall_forall. intros s Hs. apply in_map_iff in Hs as (x & <- & _). reflexivity.
Qed.

(** The accounts of whole-number rows whose splits add up to the
    amounts. *)
Lemma accounts_whole es :
  Forall (fun e => sumZ (map snd (snd e)) = snd (fst e)) (map idExpense es) ->
  sumZ (map expenseMagnitude (map idExpense es)) < 2 ^ 53 ->
  let zs := calculateBalancesZ (map idExpense es) in
  amountsOf (accounts (map wholeRow es)) = balances zs
  /\ magnitude zs < 2 ^ 53 /\ sumZ (map snd zs) = 0 /\ NoDup (map fst zs).
Proof.
  intros Hsplit Hmag zs.
  destruct (calculateBalances_whole_from (map idExpense es) [] Hsplit) as (Hbal & Hm & Hsum).
  { change (magnitude []) with 0. lia. }
  change (fold_left addExpenseZ (map idExpense es) []) with zs in *.
  assert (amountsOf (accounts (map wholeRow es)) = balances zs) as Ha.
  { unfold accounts. rewrite accounts_amounts_from, wholeRow_toExpense. exact Hbal. }
  split; [exact Ha|]. split; [exact Hm|]. split; [exact Hsum|].
  replace (map fst zs) with (map fst (balances zs))
    by (unfold balances; rewrite map_map; reflexivity).
  rewrite <- Ha. unfold accounts. rewrite accounts_amounts_from.
  apply (calculateBalances_keys_from _ [] (NoDup_nil _)).
Qed.

Lemma balanceList_whole m : forall zs,
  amountsOf m = balances zs -> bounded zs ->
  balanceListOf m = map wentry (wholeEntries m zs).
Proof.
  unfold balanceListOf, wholeEntries.
  induction m as [|[k a] m IH]; intros [|[k' z] zs] E Hb; try discriminate; [reflexivity|].
  cbn [amountsOf balances map fst snd] in E. injection E as Ek Ea Em.
  inversion Hb as [|? ? Hz Hb']; subst. cbn [snd] in Hz.
  cbn [map combine filter fst snd]. rewrite Ea.
  rewrite units_at_least_eps by assumption.
  destruct (z =? 0); cbn [negb map wentry fst snd].
  - apply IH; assumption.
  - cbn [a_amount a_user]. rewrite ?Ea.
    rewrite units_toFixed2, units_positive by assumption.
    f_equal. apply IH; assumption.
Qed.

Lemma wholeEntries_ids m : forall zs,
  amountsOf m = balances zs -> Forall named m ->
  map (fun w : User * string * Z => (u_id (fst (fst w)), snd w)) (wholeEntries m zs)
  = filter nonzero zs.
Proof.
  unfold wholeEntries.
  induction m as [|[k a] m IH]; intros [|[k' z] zs] E Hn; try discriminate; [reflexivity|].
  cbn [amountsOf balances map fst snd] in E. injection E as Ek Ea Em.
  inversion Hn as [|? ? Hka Hn']; subst. unfold named in Hka. cbn [fst snd] in Hka.
  cbn [map combine filter fst snd].
  destruct (z =? 0); cbn [negb map fst snd]; [apply IH; assumption|].
  rewrite Hka. f_equal. apply IH; assumption.
Qed.

Lemma wholeEntries_amounts m zs :
  bounded zs ->
  Forall (fun w : User * string * Z => snd w <> 0 /\ Z.abs (snd w) < 2 ^ 53) (wholeEntries m zs).
Proof.
  unfold wholeEntries. intros Hb. apply Forall_forall. intros w Hw.
  apply in_map_iff in Hw as ([ka kz] & <- & Hin). apply filter_In in Hin as [Hin Hnz].
  cbn [fst snd] in *. apply in_combine_r in Hin.
  unfold bounded in Hb. rewrite Forall_forall in Hb. specialize (Hb _ Hin).
  split; [|assumption]. apply Z.eqb_neq. destruct (snd kz =? 0); [discriminate | reflexivity].
Qed.

End WholeRows.

Section WholeInitial.
Import BalanceService BalanceReports SettlementController Queues Units WholeQueues.
Local Open Scope string_scope.
Local Open Scope Z_scope.

Lemma entryAt_wentry (wl : list (User * string * Z)) r :
  (r < List.length wl)%nat -> entryAt (map wentry wl) r = wentry (nth r wl nobodyW).
Proof.
  intros H. unfold entryAt.
  rewrite (nth_indep _ _ (wentry nobodyW)) by (rewrite length_map; assumption).
  apply map_nth.
Qed.

Lemma initialQueues_image (wl : list (User * string * Z)) :
  initialQueues (map wentry wl) = image (initialQueuesZ wl).
Proof.
  unfold initialQueues, image, initialQueuesZ.
  cbn [passedPosZ waitingPosZ passedNegZ waitingNegZ suggestedZ map].
  rewrite !map_map. f_equal; apply map_ext_in; intros r Hr; apply entryAt_wentry.
  - apply positiveRefs_spec in Hr as [Hl _]. rewrite length_map in Hl. assumption.
  - apply negativeRefs_spec in Hr as [Hl _]. rewrite length_map in Hl. assumption.
Qed.

Lemma map_nth_all {A : Type} (d : A) (l : list A) :
  map (fun r => nth r l d) (seq 0 (List.length l)) = l.
Proof.
  induction l as [|x l IH]; [reflexivity|].
  cbn [List.length seq map nth]. f_equal.
  rewrite <- seq_shift, map_map. exact IH.
Qed.

Lemma units_negative z : Z.abs z < 2 ^ 53 -> JS.lt (units z) 0%float = (z <? 0).
Proof.
  intros Hz. unfold JS.lt. change 0%float with (units 0).
  apply units_ltb; simpl; lia.
Qed.

(** On non-zero whole amounts the two reference arrays name every
    object of the list. *)
Lemma refs_cover (wl : list (User * string * Z)) :
  Forall (fun w => snd w <> 0 /\ Z.abs (snd w) < 2 ^ 53) wl ->
  Permutation (positiveRefs (map wentry wl) ++ negativeRefs (map wentry wl))
              (seq 0 (List.length wl)).
Proof.
  intros Hwl. destruct (refs_wellReferenced (map wentry wl)) as [Hnd Hin].
  apply NoDup_Permutation; [assumption | apply seq_NoDup|].
  intros r. rewrite in_seq. split.
  - intros Hr. rewrite Forall_forall in Hin. specialize (Hin r Hr).
    cbv beta in Hin. rewrite length_map in Hin. split; [apply Nat.le_0_l | exact Hin].
  - intros [_ Hr]. cbn [Nat.add] in Hr.
    rewrite Forall_forall in Hwl.
    destruct (Hwl (nth r wl nobodyW) (nth_In _ _ Hr)) as [Hnz Hb].
    apply in_or_app.
    destruct (Z.ltb_spec 0 (snd (nth r wl nobodyW))) as [Hp | Hp].
    + left. apply positiveRefs_spec. rewrite length_map. split; [assumption|].
      rewrite entryAt_wentry by assumption. cbn [wentry en_amount].
      rewrite units_positive by assumption. apply Z.ltb_lt. assumption.
    + right. apply negativeRefs_spec. rewrite length_map. split; [assumption|].
      rewrite entryAt_wentry by assumption. cbn [wentry en_amount].
      rewrite units_negative by assumption. apply Z.ltb_lt. lia.
Qed.

Lemma initial_entries_perm (wl : list (User * string * Z)) :
  Forall (fun w => snd w <> 0 /\ Z.abs (snd w) < 2 ^ 53) wl ->
  Permutation (entriesZ (initialQueuesZ wl)) wl.
Proof.
  intros Hwl. unfold entriesZ, initialQueuesZ.
  cbn [passedPosZ waitingPosZ passedNegZ waitingNegZ app].
  rewrite <- map_app. rewrite <- (map_nth_all nobodyW wl) at 3.
  apply Permutation_map, refs_cover. assumption.
Qed.

Lemma sumZ_perm (l l' : list Z) : Permutation l l' -> sumZ l = sumZ l'.
Proof. induction 1; simpl; lia. Qed.

Lemma sum_map_perm {A : Type} (g : A -> Z) (l l' : list A) :
  Permutation l l' -> sumZ (map g l) = sumZ (map g l').
Proof. intros H. apply sumZ_perm, Permutation_map, H. Qed.

Lemma initialQueuesZ_settling (wl : list (User * string * Z)) :
  Forall (fun w => snd w <> 0 /\ Z.abs (snd w) < 2 ^ 53) wl ->
  sumZ (map snd wl) = 0 ->
  sumZ (map (fun w => Z.abs (snd w)) wl) < 2 ^ 53 ->
  settlingZ (initialQueuesZ wl).
Proof.
  intros Hwl Hsum Hmag. pose proof (initial_entries_perm wl Hwl) as Hperm.
  unfold settlingZ.
  rewrite (sum_map_perm snd _ _ Hperm), (sum_map_perm (fun w => Z.abs (snd w)) _ _ Hperm).
  split; [constructor|]. split; [|split; [|split; assumption]].
  - unfold initialQueuesZ. cbn [waitingPosZ]. apply Forall_forall. intros w Hw.
    apply in_map_iff in Hw as (r & <- & Hr). apply positiveRefs_spec in Hr as [Hl Hg].
    rewrite length_map in Hl. rewrite entryAt_wentry in Hg by assumption.
    cbn [wentry en_amount] in Hg.
    rewrite Forall_forall in Hwl. destruct (Hwl _ (nth_In _ nobodyW Hl)) as [_ Hb].
    rewrite units_positive in Hg by assumption. apply Z.ltb_lt. assumption.
  - unfold initialQueuesZ. cbn [waitingNegZ]. apply Forall_forall. intros w Hw.
    apply in_map_iff in Hw as (r & <- & Hr). apply negativeRefs_spec in Hr as [Hl Hg].
    rewrite length_map in Hl. rewrite entryAt_wentry in Hg by assumption.
    cbn [wentry en_amount] in Hg.
    rewrite Forall_forall in Hwl. destruct (Hwl _ (nth_In _ nobodyW Hl)) as [_ Hb].
    rewrite units_negative in Hg by assumption. apply Z.ltb_lt. assumption.
Qed.

End WholeInitial.

Section WholeSuggestions.
Import BalanceService BalanceReports SettlementController Queues Units WholeQueues.
Local Open Scope string_scope.
Local Open Scope Z_scope.

Local Abbreviation nonzero := (fun e : string * Z => negb (snd e =? 0)).

Lemma sum_filter_if {A : Type} (f : A -> Z) (p : A -> bool) l :
  sumZ (map f (filter p l)) = sumZ (map (fun x => if p x then f x else 0) l).
Proof. induction l as [|x l IH]; simpl; [reflexivity|]. destruct (p x); simpl; lia. Qed.

Lemma suggested_amounts (pf : Suggestion -> bool) (pz : User * User * Z -> bool) new :
  (forall s, pf (wsuggestion s) = pz s) ->
  map sg_amount (filter pf (map wsuggestion new)) = map units (map snd (filter pz new)).
Proof.
  intros H. induction new as [|s new IH]; simpl; [reflexivity|].
  rewrite H. destruct (pz s); simpl; rewrite IH; reflexivity.
Qed.

Lemma sum_positive_amounts (l : list Z) :
  Forall (fun z => 0 < z) l -> sumZ l < 2 ^ 53 -> BalanceService.sum (map units l) = units (sumZ l).
Proof.
  intros Hpos Hb. apply sum_units.
  assert (map Z.abs l = l) as ->; [|assumption].
  clear Hb. induction Hpos as [|z l Hz Hl IH]; simpl; [reflexivity|].
  rewrite IH. f_equal. lia.
Qed.

Lemma filtered_positive (pz : User * User * Z -> bool) new :
  Forall (fun s : User * User * Z => 0 < snd s) new ->
  Forall (fun z => 0 < z) (map snd (filter pz new)).
Proof.
  intros H. apply Forall_forall. intros z Hz. apply in_map_iff in Hz as (s & <- & Hs).
  apply filter_In in Hs as [Hs _]. rewrite Forall_forall in H. apply H. assumption.
Qed.

Lemma receivedBy_whole u new :
  Forall (fun s : User * User * Z => 0 < snd s) new -> receivedByZ u new < 2 ^ 53 ->
  receivedBy u (map wsuggestion new) = units (receivedByZ u new).
Proof.
  intros Hpos Hb. unfold receivedBy, receivedByZ in *.
  rewrite (suggested_amounts _ (fun s => String.eqb (u_id (snd (fst s))) u))
    by (intros s; reflexivity).
  rewrite <- (sum_filter_if snd) in *.
  apply sum_positive_amounts; [apply filtered_positive|]; assumption.
Qed.

Lemma sentBy_whole u new :
  Forall (fun s : User * User * Z => 0 < snd s) new -> sentByZ u new < 2 ^ 53 ->
  sentBy u (map wsuggestion new) = units (sentByZ u new).
Proof.
  intros Hpos Hb. unfold sentBy, sentByZ in *.
  rewrite (suggested_amounts _ (fun s => String.eqb (u_id (fst (fst s))) u))
    by (intros s; reflexivity).
  rewrite <- (sum_filter_if snd) in *.
  apply sum_positive_amounts; [apply filtered_positive|]; assumption.
Qed.

Lemma Forall_by_position {A : Type} (P : A -> Prop) (d : A) (l : list A) :
  (forall r, (r < List.length l)%nat -> P (nth r l d)) -> Forall P l.
Proof.
  intros H. apply Forall_forall. intros x Hx.
  destruct (In_nth l x d Hx) as (r & Hr & <-). apply H. assumption.
Qed.

Lemma credit_of_entries u (wl : list (User * string * Z)) zs :
  map (fun w : User * string * Z => (u_id (fst (fst w)), snd w)) wl = filter nonzero zs ->
  creditOf u wl = owed u zs /\ debtOf u wl = owes u zs
  /\ sumZ (map snd wl) = sumZ (map snd zs)
  /\ sumZ (map (fun w => Z.abs (snd w)) wl) = magnitude zs.
Proof.
  intros E. unfold creditOf, debtOf, magnitude.
  rewrite <- owed_filter, <- owes_filter. unfold owed, owes.
  rewrite <- (sum_map_filter_nonzero snd zs) by reflexivity.
  rewrite <- (sum_map_filter_nonzero (fun e => Z.abs (snd e)) zs) by reflexivity.
  rewrite <- E, !map_map. repeat split; reflexivity.
Qed.

End WholeSuggestions.

Section WholeSuggestionsCore.
Import BalanceService BalanceReports SettlementController Queues Units WholeQueues.
Local Open Scope string_scope.
Local Open Scope Z_scope.

Local Abbreviation nonzero := (fun e : string * Z => negb (snd e =? 0)).

Lemma wholeEntries_length m zs : (List.length (wholeEntries m zs) <= List.length zs)%nat.
Proof.
  unfold wholeEntries. rewrite length_map.
  eapply Nat.le_trans; [apply filter_length_le|].
  rewrite length_combine. apply Nat.le_min_r.
Qed.

(** The suggestions on a whole-number ledger whose splits add up to the
    amounts. *)
Lemma suggest_whole es fuel :
  Forall (fun e => sumZ (map snd (snd e)) = snd (fst e)) (map idExpense es) ->
  sumZ (map expenseMagnitude (map idExpense es)) < 2 ^ 53 ->
  (List.length (calculateBalancesZ (map idExpense es)) <= S fuel)%nat ->
  let zs := calculateBalancesZ (map idExpense es) in
  let wl := wholeEntries (accounts (map wholeRow es)) zs in
  exists report new,
    suggest fuel (map wholeRow es) = Some report
    /\ sr_suggestions report = map wsuggestion new
    /\ Forall (fun s : User * User * Z => 0 < snd s) new
    /\ (forall u, receivedByZ u new = owed u zs)
    /\ (forall u, sentByZ u new = owes u zs)
    /\ Forall (fun e => en_amount e = 0%float) (sr_balances report)
    /\ map en_user (sr_balances report) = map en_user (map wentry wl)
    /\ map en_type (sr_balances report) = map en_type (map wentry wl)
    /\ map (fun w : User * string * Z => (u_id (fst (fst w)), snd w)) wl = filter nonzero zs
    /\ magnitude zs < 2 ^ 53 /\ NoDup (map fst zs).
Proof.
  intros Hsplit Hmag Hfuel zs wl.
  destruct (accounts_whole es Hsplit Hmag) as (Ha & Hm & Hsum & Hnd). fold zs in Ha, Hm, Hsum, Hnd.
  pose proof (magnitude_bounded zs Hm) as Hb.
  pose proof (balanceList_whole _ _ Ha Hb) as Hbl. fold wl in Hbl.
  pose proof (wholeEntries_amounts (accounts (map wholeRow es)) zs Hb) as Hwl. fold wl in Hwl.
  pose proof (wholeEntries_ids _ _ Ha (accounts_named _ (wholeRow_consistent es))) as Hids.
  fold wl in Hids.
  destruct (credit_of_entries "" wl zs Hids) as (_ & _ & Hs & Hmg).
  assert (settlingZ (initialQueuesZ wl)) as Hset.
  { apply initialQueuesZ_settling; [assumption | lia | lia]. }
  destruct (queueLoop_settling fuel (initialQueuesZ wl) Hset)
    as (q' & new & Hq' & Hnew & Hz & Hpos & Hlen & Hrc & Hsn).
  { unfold initialQueuesZ. cbn [waitingPosZ waitingNegZ]. rewrite !length_map.
    pose proof (refs_length (map wentry wl)) as H. rewrite length_map in H.
    pose proof (wholeEntries_length (accounts (map wholeRow es)) zs) as H0. fold wl in H0.
    fold zs in Hfuel. lia. }
  pose proof (suggest_queues fuel (map wholeRow es)) as Hsq. cbv zeta in Hsq.
  rewrite Hbl, initialQueues_image, Hq' in Hsq.
  destruct (suggest fuel (map wholeRow es)) as [report|]; [|discriminate].
  destruct Hsq as (q & Hq & Hsg & Hl & Hu & Ht & Hpp & Hpn). injection Hq as <-.
  pose proof (initial_entries_perm wl Hwl) as Hperm.
  exists report, new.
  split; [reflexivity|].
  split; [rewrite Hsg; cbn [image suggested]; rewrite Hnew; reflexivity|].
  split; [assumption|].
  split.
  { intros u. rewrite Hrc. unfold creditOf. rewrite (sum_map_perm _ _ _ Hperm).
    apply (credit_of_entries u wl zs Hids). }
  split.
  { intros u. rewrite Hsn. unfold debtOf. rewrite (sum_map_perm _ _ _ Hperm).
    apply (credit_of_entries u wl zs Hids). }
  split; [|repeat split; assumption].
  (* every object of the list was passed by one of the two indices *)
  apply (Forall_by_position _ (mkEntry (mkUser "" "") nan "")). intros r Hr.
  rewrite Hl, length_map in Hr.
  assert (In r (positiveRefs (map wentry wl) ++ negativeRefs (map wentry wl))) as Hin.
  { apply (Permutation_in r (Permutation_sym (refs_cover wl Hwl))). apply in_seq.
    split; [apply Nat.le_0_l | exact Hr]. }
  assert (Forall (fun e => en_amount e = 0%float)
                 (map wentry (entriesZ q'))) as Hzero.
  { apply Forall_forall. intros e He. apply in_map_iff in He as (w & <- & Hw).
    rewrite Forall_forall in Hz. cbn [wentry en_amount]. rewrite (Hz w Hw). reflexivity. }
  unfold entriesZ in Hzero. rewrite !map_app in Hzero.
  cbn [image passedPos waitingPos passedNeg waitingNeg] in Hpp, Hpn.
  rewrite app_assoc, Hpp, Hpn, <- map_app in Hzero.
  rewrite Forall_forall in Hzero. apply Hzero.
  apply in_map_iff. exists r. split; [reflexivity | assumption].
Qed.

End WholeSuggestionsCore.

Section WholeSuggestionsResults.
Import BalanceService BalanceReports SettlementController Queues Units WholeQueues.
Local Open Scope string_scope.
Local Open Scope Z_scope.

Local Abbreviation nonzero := (fun e : string * Z => negb (snd e =? 0)).

(** X10.  On a ledger of whole-number expenses whose splits add up to the
    amounts, [getSettlementSuggestions] returns, and its suggestions
    settle every balance exactly: what they bring to a user is the user's
    positive balance, what they take from a user is the absolute value of
    the user's negative balance. *)
Theorem suggestions_settle_whole_balances es fuel :
  Forall (fun e => sumZ (map snd (snd e)) = snd (fst e)) (map idExpense es) ->
  sumZ (map expenseMagnitude (map idExpense es)) < 2 ^ 53 ->
  (List.length (calculateBalancesZ (map idExpense es)) <= S fuel)%nat ->
  exists report,
    suggest fuel (map wholeRow es) = Some report
    /\ forall u z, In (u, z) (calculateBalancesZ (map idExpense es)) ->
         receivedBy u (sr_suggestions report) = units (Z.max z 0)
         /\ sentBy u (sr_suggestions report) = units (Z.max (- z) 0).
Proof.
  intros Hsplit Hmag Hfuel.
  destruct (suggest_whole es fuel Hsplit Hmag Hfuel)
    as (report & new & Hs & Hsg & Hpos & Hrc & Hsn & _ & _ & _ & _ & Hm & Hnd).
  exists report. split; [assumption|]. intros u z Hin.
  destruct (owed_of_entry u z _ Hnd Hin) as [Ho1 Ho2].
  pose proof (owed_le_magnitude u (calculateBalancesZ (map idExpense es))) as [Hb1 Hb2].
  rewrite Hsg. split.
  - rewrite receivedBy_whole by (try assumption; rewrite Hrc; lia).
    rewrite Hrc, Ho1. reflexivity.
  - rewrite sentBy_whole by (try assumption; rewrite Hsn; lia).
    rewrite Hsn, Ho2. reflexivity.
Qed.

(** A dinner of 90 A pays for A, B and C. *)
Lemma suggestions_settle_whole_balances_witness :
  exists report,
    suggest 2 (map wholeRow [(mkUser "A" "Ann", 90,
                              [(mkUser "A" "Ann", 30); (mkUser "B" "Bob", 30);
                               (mkUser "C" "Cy", 30)])]) = Some report
    /\ forall u z,
         In (u, z) (calculateBalancesZ
                      (map idExpense [(mkUser "A" "Ann", 90,
                                       [(mkUser "A" "Ann", 30); (mkUser "B" "Bob", 30);
                                        (mkUser "C" "Cy", 30)])])) ->
         receivedBy u (sr_suggestions report) = units (Z.max z 0)
         /\ sentBy u (sr_suggestions report) = units (Z.max (- z) 0).
Proof.
  apply (suggestions_settle_whole_balances
           [(mkUser "A" "Ann", 90,
             [(mkUser "A" "Ann", 30); (mkUser "B" "Bob", 30); (mkUser "C" "Cy", 30)])] 2%nat).
  - repeat constructor.
  - reflexivity.
  - simpl. lia.
Defined.

Lemma wholeEntries_lines m : forall zs,
  amountsOf m = balances zs -> Forall named m ->
  map (fun w : User * string * Z => (u_id (fst (fst w)), snd (fst w))) (wholeEntries m zs)
  = map (fun e => (fst e, if 0 <? snd e then "owed" else "owes")) (filter nonzero zs).
Proof.
  unfold wholeEntries.
  induction m as [|[k a] m IH]; intros [|[k' z] zs] E Hn; try discriminate; [reflexivity|].
  cbn [amountsOf balances map fst snd] in E. injection E as Ek Ea Em.
  inversion Hn as [|? ? Hka Hn']; subst. unfold named in Hka. cbn [fst snd] in Hka.
  cbn [map combine filter fst snd].
  destruct (z =? 0); cbn [negb map fst snd]; [apply IH; assumption|].
  rewrite Hka. f_equal. apply IH; assumption.
Qed.

Lemma lines_of_users_and_types (l l' : list Entry) :
  map en_user l = map en_user l' -> map en_type l = map en_type l' ->
  map (fun e => (u_id (en_user e), en_type e)) l
  = map (fun e => (u_id (en_user e), en_type e)) l'.
Proof.
  revert l'. induction l as [|e l IH]; intros [|e' l'] Hu Ht; try discriminate; [reflexivity|].
  simpl in *. injection Hu as Hu1 Hu2. injection Ht as Ht1 Ht2.
  rewrite Hu1, Ht1. f_equal. apply IH; assumption.
Qed.

(** X11.  The [balances] of the response are the objects the pairing
    loop has updated.  On a ledger of whole-number expenses whose splits
    add up to the amounts the response lists every user with a non-zero
    balance, with its type, and with the amount 0 the loop has left. *)
Theorem suggestions_report_the_balances_the_loop_left es fuel :
  Forall (fun e => sumZ (map snd (snd e)) = snd (fst e)) (map idExpense es) ->
  sumZ (map expenseMagnitude (map idExpense es)) < 2 ^ 53 ->
  (List.length (calculateBalancesZ (map idExpense es)) <= S fuel)%nat ->
  exists report,
    suggest fuel (map wholeRow es) = Some report
    /\ Forall (fun e => en_amount e = 0%float) (sr_balances report)
    /\ map (fun e => (u_id (en_user e), en_type e)) (sr_balances report)
       = map (fun e => (fst e, if 0 <? snd e then "owed" else "owes"))
           (filter nonzero (calculateBalancesZ (map idExpense es))).
Proof.
  intros Hsplit Hmag Hfuel.
  destruct (suggest_whole es fuel Hsplit Hmag Hfuel)
    as (report & new & Hs & _ & _ & _ & _ & Hz & Hu & Ht & _ & _ & _).
  destruct (accounts_whole es Hsplit Hmag) as (Ha & _).
  exists report. split; [assumption|]. split; [assumption|].
  rewrite (lines_of_users_and_types _ _ Hu Ht), map_map. cbn [wentry en_user en_type].
  apply wholeEntries_lines; [assumption|].
  apply accounts_named, wholeRow_consistent.
Qed.

Lemma suggestions_report_the_balances_the_loop_left_witness :
  exists report,
    suggest 2 (map wholeRow [(mkUser "A" "Ann", 90,
                              [(mkUser "A" "Ann", 30); (mkUser "B" "Bob", 30);
                               (mkUser "C" "Cy", 30)])]) = Some report
    /\ Forall (fun e => en_amount e = 0%float) (sr_balances report)
    /\ map (fun e => (u_id (en_user e), en_type e)) (sr_balances report)
       = map (fun e => (fst e, if 0 <? snd e then "owed" else "owes"))
           (filter nonzero
              (calculateBalancesZ
                 (map idExpense [(mkUser "A" "Ann", 90,
                                  [(mkUser "A" "Ann", 30); (mkUser "B" "Bob", 30);
                                   (mkUser "C" "Cy", 30)])]))).
Proof.
  apply (suggestions_report_the_balances_the_loop_left
           [(mkUser "A" "Ann", 90,
             [(mkUser "A" "Ann", 30); (mkUser "B" "Bob", 30); (mkUser "C" "Cy", 30)])] 2%nat).
  - repeat constructor.
  - reflexivity.
  - simpl. lia.
Defined.

End WholeSuggestionsResults.

(** * Recording a settlement *)

Section CreateSettlement.
Import SettlementService.
Local Open Scope string_scope.

Lemma above_zero a : is_nan a = false -> JS.le a 0 = false -> JS.gt a 0 = true.
Proof.
  unfold is_nan, JS.le, JS.gt. rewrite eqb_spec, leb_spec, ltb_spec.
  change (Prim2SF 0) with (S754_zero false).
  destruct (Prim2SF a) as [s|s| |s m e]; try destruct s; vm_compute; congruence.
Qed.

Lemma parseFloat_positive x : JS.gt x 0 = true -> JS.parseFloat x = x.
Proof.
  intros H. destruct (positive_number x H) as (_ & Hz & _).
  unfold JS.parseFloat. rewrite Hz. reflexivity.
Qed.

(** X12.  [createSettlement] through the controller, the [amount] of the
    body being any JSON value.  What the service records comes from the
    requesting user, goes to a different user, both members of the group,
    has a method, and its amount is [parseFloat(amount)] of a value whose
    numeric reading is above zero.  For a JSON number that is the number
    itself, above zero, and the amount check of the service never fires.
    For other values the two readings differ: [true] reads as 1 and parses
    as NaN, and NaN is what the service records, its check [amount <= 0]
    being false on NaN; a text such as "0x10", which reads as 16 and parses
    as 0, passes the controller and meets the service's error 'Amount must
    be greater than 0'. *)
Theorem createSettlement_through_the_controller
        readers payerIsMember receiverIsMember userId body :
  (forall settlement,
      SettlementController.createSettlement readers payerIsMember receiverIsMember userId body
      = Returns settlement ->
      st_amount settlement = JSON.parseFloat readers (SettlementController.amount body)
      /\ JS.gt (JSON.toNumber readers (SettlementController.amount body)) 0 = true
      /\ JS.le (st_amount settlement) 0 = false
      /\ st_paidById settlement = userId
      /\ st_paidToId settlement = SettlementController.paidToId body
      /\ userId <> SettlementController.paidToId body
      /\ payerIsMember = true /\ receiverIsMember = true
      /\ st_method settlement <> "")
  /\ (forall x,
        SettlementController.amount body = JSON.JNumber x ->
        SettlementController.createSettlement readers payerIsMember receiverIsMember
          userId body
        <> Throws (mkFailure "Amount must be greater than 0" 400)
        /\ forall settlement,
             SettlementController.createSettlement readers payerIsMember receiverIsMember
               userId body = Returns settlement ->
             st_amount settlement = x /\ JS.gt x 0 = true)
  /\ (SettlementController.amount body = JSON.JBoolean true ->
      SettlementController.groupId body <> "" ->
      SettlementController.paidToId body <> "" ->
      userId <> SettlementController.paidToId body ->
      payerIsMember = true -> receiverIsMember = true ->
      exists settlement,
        SettlementController.createSettlement readers payerIsMember receiverIsMember
          userId body = Returns settlement
        /\ is_nan (st_amount settlement) = true)
  /\ (forall s,
        SettlementController.amount body = JSON.JString s -> s <> "" ->
        SettlementController.groupId body <> "" ->
        SettlementController.paidToId body <> "" ->
        userId <> SettlementController.paidToId body ->
        JS.gt (JSON.stringToNumber readers s) 0 = true ->
        JS.le (JSON.parseFloatText readers s) 0 = true ->
        SettlementController.createSettlement readers payerIsMember receiverIsMember
          userId body
        = Throws (mkFailure "Amount must be greater than 0" 400)).
Proof.
  split; [|split; [|split]].
  - unfold SettlementController.createSettlement, createSettlement, JS.isNaN.
    destruct (String.eqb (SettlementController.groupId body) ""); cbn [orb]; [discriminate|].
    destruct (String.eqb (SettlementController.paidToId body) ""); cbn [orb]; [discriminate|].
    destruct (JSON.truthy (SettlementController.amount body)); cbn [negb]; [|discriminate].
    destruct (is_nan (JSON.toNumber readers (SettlementController.amount body))) eqn:En;
      cbn [orb]; [discriminate|].
    destruct (JS.le (JSON.toNumber readers (SettlementController.amount body)) 0) eqn:El;
      [discriminate|].
    destruct (String.eqb userId (SettlementController.paidToId body)) eqn:Eu; [discriminate|].
    destruct (JS.le (JSON.parseFloat readers (SettlementController.amount body)) 0) eqn:Ep;
      [discriminate|].
    destruct payerIsMember, receiverIsMember; cbn [negb orb]; try discriminate.
    intros settlement [= <-]. cbn [st_amount st_paidById st_paidToId st_method].
    split; [reflexivity|]. split; [apply above_zero; assumption|]. split; [assumption|].
    repeat split.
    + apply String.eqb_neq. assumption.
    + destruct (String.eqb (SettlementController.method body) "") eqn:Em.
      * discriminate.
      * rewrite Em. apply String.eqb_neq. assumption.
  - intros x Ex.
    unfold SettlementController.createSettlement, createSettlement, JS.isNaN.
    rewrite Ex. cbn [JSON.truthy JSON.toNumber JSON.parseFloat].
    destruct (String.eqb (SettlementController.groupId body) ""); cbn [orb];
      [split; [discriminate | discriminate]|].
    destruct (String.eqb (SettlementController.paidToId body) ""); cbn [orb];
      [split; [discriminate | discriminate]|].
    destruct (is_zero x || is_nan x) eqn:Ef; cbn [negb];
      [split; [discriminate | discriminate]|].
    apply orb_false_iff in Ef as [Ez En]. rewrite En. cbn [orb].
    destruct (JS.le x 0) eqn:El; [split; [discriminate | discriminate]|].
    destruct (String.eqb userId (SettlementController.paidToId body));
      [split; [discriminate | discriminate]|].
    pose proof (above_zero x En El) as Hpos.
    rewrite (parseFloat_positive x Hpos), El.
    destruct payerIsMember, receiverIsMember; cbn [negb orb];
      try (split; [discriminate | discriminate]).
    split; [discriminate|]. intros settlement [= <-]. cbn [st_amount]. split; [reflexivity | assumption].
  - intros Ea Hg Hp Hu -> ->.
    unfold SettlementController.createSettlement, createSettlement, JS.isNaN.
    rewrite Ea. cbn [JSON.truthy JSON.toNumber JSON.parseFloat negb].
    replace (String.eqb (SettlementController.groupId body) "") with false
      by (symmetry; apply String.eqb_neq; assumption).
    replace (String.eqb (SettlementController.paidToId body) "") with false
      by (symmetry; apply String.eqb_neq; assumption).
    replace (String.eqb userId (SettlementController.paidToId body)) with false
      by (symmetry; apply String.eqb_neq; assumption).
    cbn [orb]. change (is_nan 1) with false. change (JS.le 1 0) with false.
    change (JS.le nan 0) with false. cbn [orb negb].
    eexists. split; [reflexivity|]. reflexivity.
  - intros s Ea Hs Hg Hp Hu Hn Hl.
    unfold SettlementController.createSettlement, createSettlement, JS.isNaN.
    rewrite Ea. cbn [JSON.truthy JSON.toNumber JSON.parseFloat].
    destruct (positive_number _ Hn) as (Hnan & _ & Hle).
    replace (String.eqb (SettlementController.groupId body) "") with false
      by (symmetry; apply String.eqb_neq; assumption).
    replace (String.eqb (SettlementController.paidToId body) "") with false
      by (symmetry; apply String.eqb_neq; assumption).
    replace (String.eqb userId (SettlementController.paidToId body)) with false
      by (symmetry; apply String.eqb_neq; assumption).
    replace (String.eqb s "") with false by (symmetry; apply String.eqb_neq; assumption).
    rewrite Hnan, Hle, Hl. reflexivity.
Qed.

(** A body whose amount is the text "0x10", with readers that read it as
    the language does (16 as a whole literal, 0 as a decimal prefix), and a
    body whose amount is [true]. *)
Lemma createSettlement_through_the_controller_witness :
  let readers :=
    JSON.mkReaders (fun s => if String.eqb s "0x10" then 16 else nan)
                   (fun s => if String.eqb s "0x10" then 0 else nan) in
  SettlementController.createSettlement readers true true "A"
    (SettlementController.mkBody "g1" "B" (JSON.JString "0x10") "" "")
  = Throws (mkFailure "Amount must be greater than 0" 400)
  /\ exists settlement,
       SettlementController.createSettlement readers true true "A"
         (SettlementController.mkBody "g1" "B" (JSON.JBoolean true) "" "")
       = Returns settlement
       /\ is_nan (st_amount settlement) = true.
Proof.
  cbv zeta. split.
  - apply (proj2 (proj2 (proj2
             (createSettlement_through_the_controller
                (JSON.mkReaders (fun s => if String.eqb s "0x10" then 16 else nan)
                                (fun s => if String.eqb s "0x10" then 0 else nan))
                true true "A"
                (SettlementController.mkBody "g1" "B" (JSON.JString "0x10") "" ""))))
           "0x10"); try reflexivity; discriminate.
  - apply (proj1 (proj2 (proj2
             (createSettlement_through_the_controller
                (JSON.mkReaders (fun s => if String.eqb s "0x10" then 16 else nan)
                                (fun s => if String.eqb s "0x10" then 0 else nan))
                true true "A"
                (SettlementController.mkBody "g1" "B" (JSON.JBoolean true) "" "")))));
      try reflexivity; discriminate.
Defined.

End CreateSettlement.

(** * Products and quotients of whole numbers *)

Section WholeProducts.
Import Units.
Local Open Scope Z_scope.

Lemma digits_mul_lower a b : 0 < a -> 0 < b -> digits a + digits b - 1 <= digits (a * b).
Proof.
  intros Ha Hb.
  pose proof (digits_bounds a Ha) as [Hla _]. pose proof (digits_bounds b Hb) as [Hlb _].
  pose proof (digits_pos a Ha). pose proof (digits_pos b Hb).
  assert (2 ^ (digits a + digits b - 2) <= a * b) as H1.
  { replace (digits a + digits b - 2) with ((digits a - 1) + (digits b - 1)) by lia.
    rewrite Z.pow_add_r by lia.
    apply Z.mul_le_mono_nonneg; try assumption; apply Z.pow_nonneg; lia. }
  pose proof (digits_ge_pow (a * b) (digits a + digits b - 2) ltac:(lia) H1). lia.
Qed.

Lemma digits_mul_upper a b : 0 < a -> 0 < b -> digits (a * b) <= digits a + digits b.
Proof.
  intros Ha Hb.
  pose proof (digits_bounds a Ha) as [_ Hua]. pose proof (digits_bounds b Hb) as [_ Hub].
  pose proof (digits_pos a Ha). pose proof (digits_pos b Hb).
  assert (a * b < 2 ^ (digits a + digits b)) as H1.
  { rewrite Z.pow_add_r by lia. apply Z.mul_lt_mono_nonneg; lia. }
  destruct (Z.le_gt_cases (digits (a * b)) (digits a + digits b)) as [|Hgt]; [assumption|].
  pose proof (digits_bounds (a * b) ltac:(lia)) as [Hl _].
  assert (2 ^ (digits a + digits b) <= 2 ^ (digits (a * b) - 1))
    by (apply Z.pow_le_mono_r; lia).
  lia.
Qed.

Lemma SFmul_units a b :
  0 < a -> 0 < b -> a * b < 2 ^ 53 ->
  SFmul prec emax (SFunits a) (SFunits b) = SFunits (a * b).
Proof.
  intros Ha Hb Hab.
  assert (a < 2 ^ 53 /\ b < 2 ^ 53) as [Ha53 Hb53] by nia.
  unfold SFunits.
  replace (a =? 0) with false by (symmetry; apply Z.eqb_neq; lia).
  replace (b =? 0) with false by (symmetry; apply Z.eqb_neq; lia).
  replace (a * b =? 0) with false by (symmetry; apply Z.eqb_neq; nia).
  replace (a <? 0) with false by (symmetry; apply Z.ltb_ge; lia).
  replace (b <? 0) with false by (symmetry; apply Z.ltb_ge; lia).
  replace (a * b <? 0) with false by (symmetry; apply Z.ltb_ge; nia).
  rewrite !Z.abs_eq by nia.
  pose proof (digits_le_53 a ltac:(lia)) as Hda. pose proof (digits_le_53 b ltac:(lia)) as Hdb.
  pose proof (digits_pos a Ha) as Hda1. pose proof (digits_pos b Hb) as Hdb1.
  pose proof (digits_mul_lower a b Ha Hb) as Hlow.
  unfold canon at 1 2. unfold SFmul. cbn [xorb].
  apply binary_round_aux_exact; [nia | lia |].
  rewrite Pos2Z.inj_mul, !canon_mantissa_pos by lia.
  replace (- (digits a - 53 + (digits b - 53))) with ((53 - digits a) + (53 - digits b)) by lia.
  rewrite Z.pow_add_r by lia. ring.
Qed.

Lemma SFdiv_units d q :
  0 < d -> 0 < q -> d * q < 2 ^ 53 ->
  SFdiv prec emax (SFunits (d * q)) (SFunits d) = SFunits q.
Proof.
  intros Hd Hq Hdq.
  assert (d < 2 ^ 53 /\ q < 2 ^ 53) as [Hd53 Hq53] by nia.
  assert (0 < d * q) as Hpos by nia.
  unfold SFunits.
  replace (d * q =? 0) with false by (symmetry; apply Z.eqb_neq; lia).
  replace (d =? 0) with false by (symmetry; apply Z.eqb_neq; lia).
  replace (q =? 0) with false by (symmetry; apply Z.eqb_neq; lia).
  replace (d * q <? 0) with false by (symmetry; apply Z.ltb_ge; lia).
  replace (d <? 0) with false by (symmetry; apply Z.ltb_ge; lia).
  replace (q <? 0) with false by (symmetry; apply Z.ltb_ge; lia).
  rewrite !Z.abs_eq by lia.
  set (d1 := digits (d * q)). set (d2 := digits d).
  assert (1 <= d1 <= 53) as Hd1
    by (unfold d1; split; [apply digits_pos | apply digits_le_53]; lia).
  assert (1 <= d2 <= 53) as Hd2
    by (unfold d2; split; [apply digits_pos | apply digits_le_53]; lia).
  pose proof (digits_mul_upper d q Hd Hq) as Hup. fold d1 d2 in Hup.
  pose proof (digits_mul_lower d q Hd Hq) as Hlow. fold d1 d2 in Hlow.
  pose proof (digits_le_53 q ltac:(lia)) as Hdq53. pose proof (digits_pos q Hq) as Hdq1.
  unfold canon at 1 2. fold d1 d2. unfold SFdiv, SFdiv_core_binary.
  pose proof (digits_canon_mantissa (d * q) ltac:(lia)) as Hm1. fold d1 in Hm1. rewrite Hm1.
  pose proof (digits_canon_mantissa d ltac:(lia)) as Hm2. fold d2 in Hm2. rewrite Hm2.
  rewrite fexp_normal by lia.
  replace (Z.min (53 + (d1 - 53) - (53 + (d2 - 53)) - 53) (d1 - 53 - (d2 - 53)))
    with (d1 - d2 - 53) by lia.
  replace (d1 - 53 - (d2 - 53) - (d1 - d2 - 53)) with 53 by lia.
  rewrite Z.shiftl_mul_pow2 by lia.
  pose proof (canon_mantissa_pos (d * q) ltac:(lia)) as Hc1. fold d1 in Hc1. rewrite Hc1.
  pose proof (canon_mantissa_pos d ltac:(lia)) as Hc2. fold d2 in Hc2. rewrite Hc2.
  replace (d * q * 2 ^ (53 - d1) * 2 ^ 53)
    with ((q * 2 ^ (53 + d2 - d1)) * (d * 2 ^ (53 - d2))).
  2:{ replace (53 + d2 - d1) with ((53 - d1) + d2) by lia.
      replace 53 with (d2 + (53 - d2)) at 4 by lia.
      rewrite !Z.pow_add_r by lia. ring. }
  rewrite div_eucl_exact
    by (apply Z.mul_pos_pos; [lia | apply Z.pow_pos_nonneg; lia]).
  assert (new_location (d * 2 ^ (53 - d2)) 0 = loc_Exact) as ->.
  { unfold new_location, new_location_even, new_location_odd.
    destruct (Z.even (d * 2 ^ (53 - d2))); reflexivity. }
  cbn [xorb].
  apply binary_round_aux_exact; [lia | lia |].
  f_equal. f_equal. lia.
Qed.

End WholeProducts.

Section WholeProductsPrim.
Import Units.
Local Open Scope float_scope.

Lemma units_mul a b :
  (0 <= a < 2 ^ 53)%Z -> (0 <= b < 2 ^ 53)%Z -> (a * b < 2 ^ 53)%Z ->
  units a * units b = units (a * b).
Proof.
  intros [Ha Ha53] [Hb Hb53] Hab. apply Prim2SF_inj. rewrite mul_spec.
  destruct (Z.eq_dec a 0) as [-> | Ha0].
  - rewrite Z.mul_0_l. rewrite (Prim2SF_units 0) by (simpl; lia).
    change (SFunits 0) with (S754_zero false).
    destruct (Z.eq_dec b 0) as [-> | Hb0]; [reflexivity|].
    rewrite Prim2SF_units by (rewrite Z.abs_eq by lia; lia).
    unfold SFunits. replace (b =? 0)%Z with false by (symmetry; apply Z.eqb_neq; lia).
    replace (b <? 0)%Z with false by (symmetry; apply Z.ltb_ge; lia). reflexivity.
  - destruct (Z.eq_dec b 0) as [-> | Hb0].
    + rewrite Z.mul_0_r. rewrite (Prim2SF_units 0) by (simpl; lia).
      change (SFunits 0) with (S754_zero false).
      rewrite Prim2SF_units by (rewrite Z.abs_eq by lia; lia).
      unfold SFunits. replace (a =? 0)%Z with false by (symmetry; apply Z.eqb_neq; lia).
      replace (a <? 0)%Z with false by (symmetry; apply Z.ltb_ge; lia). reflexivity.
    + rewrite !Prim2SF_units by (rewrite Z.abs_eq by nia; nia).
      apply SFmul_units; lia.
Qed.

Lemma units_div d q :
  (0 < d)%Z -> (0 < q)%Z -> (d * q < 2 ^ 53)%Z -> units (d * q) / units d = units q.
Proof.
  intros Hd Hq Hdq. apply Prim2SF_inj.
  rewrite div_spec, !Prim2SF_units by (rewrite Z.abs_eq by nia; nia).
  apply SFdiv_units; assumption.
Qed.

Lemma of_nat_units n : JS.of_nat n = units (Z.of_nat n).
Proof.
  unfold JS.of_nat, units.
  replace (Z.of_nat n <? 0)%Z with false by (symmetry; apply Z.ltb_ge; lia). reflexivity.
Qed.

End WholeProductsPrim.

(** * Splits of whole amounts *)

Section WholeSplits.
Import ExpenseService BalanceService Units.
Local Open Scope string_scope.
Local Open Scope Z_scope.

Lemma sumZ_nonneg_bound l : Forall (fun z => 0 <= z) l -> 0 <= sumZ l.
Proof. induction 1; simpl; lia. Qed.

Lemma sumZ_abs_nonneg l : Forall (fun z => 0 <= z) l -> map Z.abs l = l.
Proof.
  induction 1 as [|z l Hz _ IH]; simpl; [reflexivity|].
  rewrite IH, Z.abs_eq by assumption. reflexivity.
Qed.

Lemma sumZ_repeat q n : sumZ (repeat q n) = Z.of_nat n * q.
Proof. induction n as [|n IH]; [reflexivity|]. cbn [repeat sumZ fold_right]. fold (sumZ (repeat q n)). lia. Qed.

(** The common share and the last share of the EQUAL policy when the
    amount is a whole multiple of the number of participants. *)
Lemma equal_shares_whole n q :
  0 < q -> (0 < n)%nat -> Z.of_nat n * q < 2 ^ 53 ->
  JS.toFixed2 (units (Z.of_nat n * q) / JS.of_nat n)%float = units q
  /\ JS.toFixed2 (units (Z.of_nat n * q) - units q * (JS.of_nat n - 1))%float = units q.
Proof.
  intros Hq Hn Hb.
  assert (q < 2 ^ 53 /\ Z.of_nat n < 2 ^ 53) as [Hq53 Hn53] by nia.
  rewrite of_nat_units.
  rewrite units_div by lia.
  rewrite units_toFixed2 by lia. split; [reflexivity|].
  change 1%float with (units 1).
  rewrite units_sub by lia.
  rewrite units_mul by nia.
  rewrite units_sub by nia.
  replace (Z.of_nat n * q - q * (Z.of_nat n - 1)) with q by lia.
  apply units_toFixed2. lia.
Qed.

Lemma equalSplits_whole q splitBetween :
  splitBetween <> [] -> 0 < q ->
  Z.of_nat (List.length splitBetween) * q < 2 ^ 53 ->
  equalSplits (units (Z.of_nat (List.length splitBetween) * q)) splitBetween
  = map (fun p => mkSplit (p_userId p) (units q) None) splitBetween.
Proof.
  intros Hne Hq Hb.
  destruct (exists_last Hne) as (front & lastP & ->).
  destruct (equal_shares_whole (List.length (front ++ [lastP])) q Hq) as [H1 H2];
    [rewrite length_app; simpl; lia | assumption |].
  rewrite equalSplits_closed. cbv zeta. rewrite H1, H2, map_app. reflexivity.
Qed.

Lemma percentage_share_whole a p w :
  0 < a < 2 ^ 46 -> 0 <= p <= 100 -> a * p = 100 * w ->
  JS.toFixed2 ((units a * units p) / 100)%float = units w.
Proof.
  intros Ha Hp E.
  assert (0 <= w <= a) as Hw by nia.
  assert (2 ^ 46 * 100 < 2 ^ 53) as Hpow by (vm_compute; reflexivity).
  rewrite units_mul by nia.
  rewrite E.
  destruct (Z.eq_dec w 0) as [-> | Hw0].
  - vm_compute. reflexivity.
  - rewrite units_div_100 by lia. apply units_toFixed2. lia.
Qed.

Lemma percentage_shares_whole a splitBetween : forall pcts shares,
  0 < a < 2 ^ 46 ->
  map p_percentage splitBetween = map units pcts ->
  Forall2 (fun p w => 0 <= p <= 100 /\ a * p = 100 * w) pcts shares ->
  map (fun p => mkSplit (p_userId p)
                  (JS.toFixed2 ((units a * p_percentage p) / 100)%float)
                  (Some (p_percentage p))) splitBetween
  = map (fun pw => mkSplit (p_userId (fst pw)) (units (snd pw)) (Some (p_percentage (fst pw))))
      (combine splitBetween shares).
Proof.
  induction splitBetween as [|p l IH]; intros pcts shares Ha Hm HF.
  - reflexivity.
  - destruct pcts as [|pc pcts]; [discriminate Hm|].
    inversion Hm as [[E1 E2]].
    inversion HF as [|? w ? shares' [Hp Hw] HF']; subst.
    cbn [map combine fst snd]. rewrite E1 at 1.
    rewrite (percentage_share_whole a pc w Ha Hp Hw).
    f_equal. apply (IH pcts shares' Ha E2 HF').
Qed.

Lemma percentage_shares_total a : forall pcts shares,
  Forall2 (fun p w => 0 <= p <= 100 /\ a * p = 100 * w) pcts shares ->
  a * sumZ pcts = 100 * sumZ shares.
Proof.
  induction 1 as [|p w pcts shares [_ E] _ IH]; [simpl; lia|].
  cbn [sumZ fold_right]. fold (sumZ pcts) (sumZ shares). lia.
Qed.

End WholeSplits.

Section WholeSplitResults.
Import ExpenseService BalanceService Units.
Local Open Scope string_scope.
Local Open Scope Z_scope.

Lemma map_units_repeat {A : Type} (l : list A) q :
  map (fun _ : A => units q) l = map units (repeat q (List.length l)).
Proof. induction l as [|x l IH]; simpl; [reflexivity | rewrite IH; reflexivity]. Qed.

Lemma map_abs_repeat q n : 0 <= q -> map Z.abs (repeat q n) = repeat q n.
Proof.
  intros Hq. induction n as [|n IH]; simpl; [reflexivity|].
  rewrite IH, Z.abs_eq by assumption. reflexivity.
Qed.

Lemma percentages_at_most pcts : forall t,
  Forall (fun p => 0 <= p) pcts -> sumZ pcts = t -> Forall (fun p => 0 <= p <= t) pcts.
Proof.
  induction pcts as [|p l IH]; intros t HF Hs; [constructor|].
  inversion HF as [|? ? Hp Hl]; subst. cbn [sumZ fold_right]. fold (sumZ l).
  pose proof (sumZ_nonneg_bound l Hl).
  constructor; [lia|].
  eapply Forall_impl; [|apply (IH (sumZ l) Hl); reflexivity].
  simpl. intros z Hz. lia.
Qed.

Lemma map_fst_combine_same {A B : Type} (l : list A) : forall l' : list B,
  List.length l = List.length l' -> map fst (combine l l') = l.
Proof.
  induction l as [|x l IH]; intros [|y l'] H; simpl in *; try reflexivity; try discriminate.
  rewrite IH by congruence. reflexivity.
Qed.

Lemma map_snd_combine_same {A B : Type} (l : list A) : forall l' : list B,
  List.length l = List.length l' -> map snd (combine l l') = l'.
Proof.
  induction l as [|x l IH]; intros [|y l'] H; simpl in *; try reflexivity; try discriminate.
  rewrite IH by congruence. reflexivity.
Qed.

(** X13.  With the EQUAL policy, a positive whole amount that is a
    multiple [N * q] of the number [N] of participants (and is below 2^53)
    is split into [N] shares of exactly [q], one per participant in the
    given order, and the shares add up to the amount. *)
Theorem equal_split_of_a_divisible_amount q splitBetween :
  splitBetween <> [] -> 0 < q ->
  Z.of_nat (List.length splitBetween) * q < 2 ^ 53 ->
  let amount := units (Z.of_nat (List.length splitBetween) * q) in
  calculateSplits amount "EQUAL" splitBetween
  = Ok (map (fun p => mkSplit (p_userId p) (units q) None) splitBetween)
  /\ sum (map s_amount (map (fun p => mkSplit (p_userId p) (units q) None) splitBetween))
     = amount.
Proof.
  intros Hne Hq Hb amount. split.
  - unfold calculateSplits. simpl String.eqb. cbv iota.
    f_equal. apply equalSplits_whole; assumption.
  - rewrite map_map. cbn [s_amount]. rewrite map_units_repeat.
    rewrite sum_units by (rewrite map_abs_repeat, sumZ_repeat by lia; assumption).
    rewrite sumZ_repeat. reflexivity.
Qed.

Lemma equal_split_of_a_divisible_amount_witness :
  calculateSplits (units 90) "EQUAL" [participant "A"; participant "B"; participant "C"]
  = Ok [mkSplit "A" (units 30) None; mkSplit "B" (units 30) None; mkSplit "C" (units 30) None]
  /\ sum (map s_amount
            [mkSplit "A" (units 30) None; mkSplit "B" (units 30) None;
             mkSplit "C" (units 30) None])
     = units 90.
Proof.
  apply (equal_split_of_a_divisible_amount 30
           [participant "A"; participant "B"; participant "C"]).
  - discriminate.
  - lia.
  - simpl. lia.
Defined.

(** X14.  With the EXACT policy and whole-number amounts (absolute values
    adding up to less than 2^53) the check of [calculateSplits] is the
    exact one: the amounts are returned as given when they sum to the
    expense amount, and the call throws the mismatch error, carrying the
    exact sum, when they do not. *)
Theorem exact_split_of_whole_amounts a splitBetween amounts :
  map p_amount splitBetween = map units amounts ->
  Z.abs a < 2 ^ 53 ->
  sumZ (map Z.abs amounts) < 2 ^ 53 ->
  calculateSplits (units a) "EXACT" splitBetween
  = if sumZ amounts =? a
    then Ok (map (fun p => mkSplit (p_userId p) (p_amount p) None) splitBetween)
    else Throw (SplitSumMismatch (units (sumZ amounts)) (units a)).
Proof.
  intros Hm Ha Hs.
  unfold calculateSplits. simpl String.eqb. cbv iota.
  rewrite exactLoop_closed, Hm, sum_units by assumption.
  unfold JS.strict_neq.
  assert (Z.abs (sumZ amounts) < 2 ^ 53) as Hsum.
  { clear - Hs. revert Hs. generalize (2 ^ 53).
    induction amounts as [|z l IH]; intros t Hs; simpl in *; [lia|].
    fold (sumZ l). fold (sumZ (map Z.abs l)) in Hs.
    specialize (IH (t - Z.abs z) ltac:(lia)). lia. }
  rewrite units_eqb by assumption.
  destruct (sumZ amounts =? a); reflexivity.
Qed.

Lemma exact_split_of_whole_amounts_witness :
  calculateSplits (units 90) "EXACT"
    [mkParticipant "A" (units 50) nan; mkParticipant "B" (units 30) nan]
  = Throw (SplitSumMismatch (units 80) (units 90)).
Proof.
  apply (exact_split_of_whole_amounts 90
           [mkParticipant "A" (units 50) nan; mkParticipant "B" (units 30) nan] [50; 30]).
  - reflexivity.
  - simpl. lia.
  - simpl. lia.
Defined.

(** X15.  With the PERCENTAGE policy, whole percentages that sum to 100
    and a positive whole amount below 2^46 of which every percentage is a
    whole number [w]: the call is accepted, the share of each participant
    is exactly [w], in the given order, and the shares add up to the
    amount. *)
Theorem percentage_split_of_whole_shares a splitBetween pcts shares :
  0 < a < 2 ^ 46 ->
  map p_percentage splitBetween = map units pcts ->
  Forall2 (fun p w => 0 <= p /\ a * p = 100 * w) pcts shares ->
  sumZ pcts = 100 ->
  exists splits,
    calculateSplits (units a) "PERCENTAGE" splitBetween = Ok splits
    /\ map s_userId splits = map p_userId splitBetween
    /\ map s_amount splits = map units shares
    /\ sum (map s_amount splits) = units a.
Proof.
  intros Ha Hm HF Hs.
  assert (Forall (fun p => 0 <= p) pcts) as Hnn.
  { clear - HF. induction HF as [|p w l l' [H _] _ IH]; constructor; assumption. }
  pose proof (percentages_at_most pcts 100 Hnn Hs) as Hle.
  assert (Forall2 (fun p w => 0 <= p <= 100 /\ a * p = 100 * w) pcts shares) as HF'.
  { clear - HF Hle. induction HF as [|p w l l' [H E] _ IH]; [constructor|].
    inversion Hle; subst. constructor; [split; assumption | apply IH; assumption]. }
  pose proof (percentage_shares_total a pcts shares HF') as Htot.
  assert (sumZ shares = a) as Hsh by lia.
  assert (List.length splitBetween = List.length shares) as Hlen.
  { rewrite <- (length_map p_percentage), Hm, length_map.
    clear - HF. induction HF; simpl; congruence. }
  assert (Forall (fun w => 0 <= w) shares) as Hwn.
  { clear - HF Ha. induction HF as [|p w l l' [H E] _ IH]; constructor; [nia | assumption]. }
  eexists. split; [|split; [|split]].
  - unfold calculateSplits. simpl String.eqb. cbv iota.
    rewrite percentageLoop_closed, Hm.
    rewrite sum_units by (rewrite (sumZ_abs_nonneg pcts Hnn), Hs; reflexivity).
    rewrite Hs. change (JS.strict_neq (units 100) 100%float) with false. cbv iota.
    rewrite (percentage_shares_whole a splitBetween pcts shares Ha Hm HF'). reflexivity.
  - rewrite map_map. cbn [s_userId]. rewrite <- (map_map fst p_userId).
    rewrite map_fst_combine_same by assumption. reflexivity.
  - rewrite map_map. cbn [s_amount]. rewrite <- (map_map snd units).
    rewrite map_snd_combine_same by assumption. reflexivity.
  - rewrite map_map. cbn [s_amount]. rewrite <- (map_map snd units).
    rewrite map_snd_combine_same by assumption.
    rewrite sum_units by (rewrite (sumZ_abs_nonneg shares Hwn), Hsh; lia).
    rewrite Hsh. reflexivity.
Qed.

Lemma percentage_split_of_whole_shares_witness :
  exists splits,
    calculateSplits (units 200) "PERCENTAGE"
      [mkParticipant "A" nan (units 50); mkParticipant "B" nan (units 30);
       mkParticipant "C" nan (units 20)] = Ok splits
    /\ map s_userId splits = ["A"; "B"; "C"]
    /\ map s_amount splits = map units [100; 60; 40]
    /\ sum (map s_amount splits) = units 200.
Proof.
  apply (percentage_split_of_whole_shares 200
           [mkParticipant "A" nan (units 50); mkParticipant "B" nan (units 30);
            mkParticipant "C" nan (units 20)] [50; 30; 20] [100; 60; 40]).
  - lia.
  - reflexivity.
  - repeat (apply Forall2_cons; [lia|]). apply Forall2_nil.
  - reflexivity.
Defined.

End WholeSplitResults.

(** * From an expense to its settlement *)

Section LedgerEntries.
Import BalanceService Units WholeLedger.
Local Open Scope string_scope.
Local Open Scope Z_scope.

Lemma balanceOf_addZ u k d zs :
  balanceOf u (addZ k d zs) = balanceOf u zs + (if String.eqb k u then d else 0).
Proof.
  unfold balanceOf. induction zs as [|[k' v] zs IH]; cbn [addZ find fst snd].
  - destruct (String.eqb k u); simpl; lia.
  - destruct (String.eqb_spec k' k) as [-> | Hne]; cbn [find fst snd].
    + destruct (String.eqb k u); simpl; lia.
    + destruct (String.eqb_spec k' u) as [-> | Hne'].
      * replace (String.eqb k u) with false
          by (symmetry; apply String.eqb_neq; congruence). simpl; lia.
      * exact IH.
Qed.

Lemma addZ_keys k d zs u :
  In u (map fst (addZ k d zs)) <-> u = k \/ In u (map fst zs).
Proof.
  induction zs as [|[k' v] zs IH]; cbn [addZ map fst In].
  - intuition.
  - destruct (String.eqb_spec k' k) as [-> | Hne]; cbn [map fst In].
    + intuition.
    + rewrite IH. intuition.
Qed.

Lemma addZ_NoDup k d zs : NoDup (map fst zs) -> NoDup (map fst (addZ k d zs)).
Proof.
  induction zs as [|[k' v] zs IH]; cbn [addZ map fst]; intros Hnd.
  - constructor; [intros [] | constructor].
  - inversion Hnd as [|? ? Hnin Hnd']; subst.
    destruct (String.eqb_spec k' k) as [-> | Hne]; cbn [map fst].
    + constructor; assumption.
    + constructor; [|apply IH; assumption].
      rewrite addZ_keys. intros [E | Hin]; [congruence | contradiction].
Qed.

Lemma addZ_length k d zs : (List.length (addZ k d zs) <= S (List.length zs))%nat.
Proof.
  induction zs as [|[k' v] zs IH]; cbn [addZ List.length]; [lia|].
  destruct (String.eqb k' k); cbn [List.length]; lia.
Qed.

Lemma debits_entries splits : forall zs,
  NoDup (map fst zs) ->
  NoDup (map fst (fold_left debitZ splits zs))
  /\ (forall u, In u (map fst (fold_left debitZ splits zs))
                <-> In u (map fst splits) \/ In u (map fst zs))
  /\ (forall u, balanceOf u (fold_left debitZ splits zs)
                = balanceOf u zs
                  - sumZ (map (fun s => if String.eqb (fst s) u then snd s else 0) splits))
  /\ (List.length (fold_left debitZ splits zs) <= List.length splits + List.length zs)%nat.
Proof.
  induction splits as [|s splits IH]; intros zs Hnd; cbn [fold_left map List.length].
  - split; [assumption|]. split; [intros u; simpl; intuition|].
    split; [intros u; simpl; lia | apply Nat.le_refl].
  - destruct (IH (debitZ zs s) (addZ_NoDup _ _ _ Hnd)) as (H1 & H2 & H3 & H4).
    split; [assumption|]. split; [|split].
    + intros u. rewrite H2. unfold debitZ. rewrite addZ_keys. simpl. intuition.
    + intros u. rewrite H3. unfold debitZ at 1. rewrite balanceOf_addZ.
      cbn [sumZ fold_right].
      fold (sumZ (map (fun s0 => if String.eqb (fst s0) u then snd s0 else 0) splits)).
      destruct (String.eqb (fst s) u); lia.
    + pose proof (addZ_length (fst s) (- snd s) zs) as Hl.
      change (addZ (fst s) (- snd s) zs) with (debitZ zs s) in Hl. lia.
Qed.

Lemma balanceOf_entry u zs :
  In u (map fst zs) -> In (u, balanceOf u zs) zs.
Proof.
  unfold balanceOf. induction zs as [|[k v] zs IH]; cbn [map fst In find snd]; [intros []|].
  intros [E | Hin].
  - subst k. rewrite String.eqb_refl. left. reflexivity.
  - destruct (String.eqb_spec k u) as [-> | Hne]; [left; reflexivity|].
    right. apply IH. assumption.
Qed.

Lemma owed_balanceOf u zs :
  NoDup (map fst zs) -> In u (map fst zs) ->
  owed u zs = Z.max (balanceOf u zs) 0 /\ owes u zs = Z.max (- balanceOf u zs) 0.
Proof.
  intros Hnd Hin. apply owed_of_entry; [assumption|]. apply balanceOf_entry. assumption.
Qed.

End LedgerEntries.

Section EqualExpense.
Import ExpenseService BalanceService Units WholeLedger.
Local Open Scope string_scope.
Local Open Scope Z_scope.

(** The integer splits of an EQUAL expense with share [q]. *)
Lemma shares_of_one_user q u splitBetween :
  NoDup (map p_userId splitBetween) ->
  sumZ (map (fun s : string * Z => if String.eqb (fst s) u then snd s else 0)
          (map (fun p => (p_userId p, q)) splitBetween))
  = if existsb (String.eqb u) (map p_userId splitBetween) then q else 0.
Proof.
  induction splitBetween as [|p l IH]; cbn [map existsb sumZ fold_right fst snd]; intros Hnd.
  - reflexivity.
  - inversion Hnd as [|? ? Hnin Hnd']; subst.
    fold (sumZ (map (fun s : string * Z => if String.eqb (fst s) u then snd s else 0)
                  (map (fun p => (p_userId p, q)) l))).
    rewrite (IH Hnd'). rewrite (String.eqb_sym u).
    destruct (String.eqb_spec (p_userId p) u) as [E | Hne]; cbn [orb]; [|lia].
    replace (existsb (String.eqb u) (map p_userId l)) with false; [lia|].
    symmetry. apply not_true_is_false. intros Hex. apply existsb_exists in Hex.
    destruct Hex as (x & Hx & Ex). apply String.eqb_eq in Ex. subst x. congruence.
Qed.

Lemma equal_shares_total q (splitBetween : list Participant) :
  sumZ (map snd (map (fun p => (p_userId p, q)) splitBetween))
  = Z.of_nat (List.length splitBetween) * q.
Proof.
  induction splitBetween as [|p l IH]; [reflexivity|].
  cbn [map sumZ fold_right snd List.length].
  fold (sumZ (map snd (map (fun p => (p_userId p, q)) l))). rewrite IH. lia.
Qed.

Lemma equal_shares_magnitude q (splitBetween : list Participant) :
  0 <= q ->
  magnitude (map (fun p => (p_userId p, q)) splitBetween)
  = Z.of_nat (List.length splitBetween) * q.
Proof.
  intros Hq. unfold magnitude.
  induction splitBetween as [|p l IH]; [reflexivity|].
  cbn [map sumZ fold_right snd List.length].
  fold (sumZ (map (fun e : string * Z => Z.abs (snd e)) (map (fun p => (p_userId p, q)) l))).
  rewrite IH. lia.
Qed.

(** The ledger of one EQUAL expense of [N * q] paid by [payer], on integers. *)
Lemma equal_expense_ledger payer q splitBetween :
  NoDup (map p_userId splitBetween) -> 0 < q ->
  let n := Z.of_nat (List.length splitBetween) in
  let zs := calculateBalancesZ [(payer, n * q, map (fun p => (p_userId p, q)) splitBetween)] in
  NoDup (map fst zs)
  /\ In payer (map fst zs)
  /\ (forall u, In u (map p_userId splitBetween) -> In u (map fst zs))
  /\ (List.length zs <= S (List.length splitBetween))%nat
  /\ balanceOf payer zs
     = (if existsb (String.eqb payer) (map p_userId splitBetween) then (n - 1) * q else n * q)
  /\ (forall u, In u (map p_userId splitBetween) -> u <> payer -> balanceOf u zs = - q).
Proof.
  intros Hnd Hq n zs.
  unfold calculateBalancesZ, addExpenseZ in zs. cbn [fold_left fst snd addZ] in zs.
  destruct (debits_entries (map (fun p => (p_userId p, q)) splitBetween) [(payer, n * q)])
    as (H1 & H2 & H3 & H4).
  { constructor; [intros [] | constructor]. }
  fold zs in H1, H2, H3, H4.
  assert (map fst (map (fun p => (p_userId p, q)) splitBetween) = map p_userId splitBetween)
    as Hids by (rewrite map_map; reflexivity).
  rewrite Hids in H2. rewrite length_map in H4. cbn [List.length] in H4.
  split; [assumption|]. split; [apply H2; right; left; reflexivity|].
  split; [intros u Hu; apply H2; left; assumption|].
  split; [lia|]. split.
  - rewrite H3, shares_of_one_user by assumption.
    unfold balanceOf. cbn [find fst snd]. rewrite String.eqb_refl. cbn [snd].
    destruct (existsb (String.eqb payer) (map p_userId splitBetween)); lia.
  - intros u Hu Hne. rewrite H3, shares_of_one_user by assumption.
    unfold balanceOf. cbn [find fst snd].
    replace (String.eqb payer u) with false
      by (symmetry; apply String.eqb_neq; congruence).
    cbn [find].
    replace (existsb (String.eqb u) (map p_userId splitBetween)) with true; [lia|].
    symmetry. apply existsb_exists. exists u. split; [assumption | apply String.eqb_refl].
Qed.

End EqualExpense.

Section EqualExpenseResults.
Import ExpenseService BalanceService Units WholeLedger.
Local Open Scope string_scope.
Local Open Scope Z_scope.

Lemma createExpense_equal_whole g d q splitBetween :
  g <> "" -> d <> "" -> splitBetween <> [] -> 0 < q ->
  Z.of_nat (List.length splitBetween) * q < 2 ^ 53 ->
  ExpenseController.createExpense true true
    (ExpenseController.mkBody g d (units (Z.of_nat (List.length splitBetween) * q))
       "EQUAL" (Some splitBetween))
  = Ok (map (fun p => mkSplit (p_userId p) (units q) None) splitBetween).
Proof.
  intros Hg Hd Hne Hq Hb.
  assert (0 < Z.of_nat (List.length splitBetween)) as Hn
    by (destruct splitBetween; [congruence | simpl; lia]).
  assert (0 < Z.of_nat (List.length splitBetween) * q) as Hpos by nia.
  unfold ExpenseController.createExpense.
  cbn [ExpenseController.splitBetween ExpenseController.groupId ExpenseController.description
       ExpenseController.amount ExpenseController.splitType].
  unfold ExpenseController.falsy_string, ExpenseController.falsy_number.
  replace (String.eqb g "") with false by (symmetry; apply String.eqb_neq; assumption).
  replace (String.eqb d "") with false by (symmetry; apply String.eqb_neq; assumption).
  destruct (positive_number (units (Z.of_nat (List.length splitBetween) * q)))
    as (Hnan & Hzero & Hle).
  { unfold JS.gt. change 0%float with (units 0).
    rewrite units_ltb by (simpl; lia). apply Z.ltb_lt. assumption. }
  unfold JS.isNaN. rewrite Hnan, Hzero, Hle.
  change (String.eqb "EQUAL" "") with false. cbn [orb].
  replace (List.length splitBetween =? 0)%nat with false
    by (symmetry; apply Nat.eqb_neq; destruct splitBetween; [congruence | discriminate]).
  unfold ExpenseService.createExpense. simpl String.eqb. cbn [orb negb].
  rewrite units_parseFloat by lia.
  unfold calculateSplits. simpl String.eqb. cbv iota.
  f_equal. apply equalSplits_whole; assumption.
Qed.

(** X16.  An expense from the request to its settlement.  A request that
    names a group and a description and splits a whole amount [N * q]
    (below 2^52) EQUAL between [N] distinct participants is accepted with
    [N] shares of [q].  Once the expense is stored for its payer, the
    balances [calculateBalances] gives for it sum to zero, and
    [minimizeCashFlow] returns on them (within [N] passes): in its
    transfers every participant other than the payer sends [q] in all and
    receives nothing, and the payer sends nothing and receives the rest of
    the amount: [(N - 1) * q] when the payer takes part in the split, the
    whole amount otherwise. *)
Theorem equal_split_expense_is_settled payer g d q splitBetween fuel :
  g <> "" -> d <> "" ->
  splitBetween <> [] -> NoDup (map p_userId splitBetween) ->
  0 < q -> Z.of_nat (List.length splitBetween) * q < 2 ^ 52 ->
  (List.length splitBetween <= fuel)%nat ->
  let n := Z.of_nat (List.length splitBetween) in
  let amount := units (n * q) in
  exists splits txs,
    ExpenseController.createExpense true true
      (ExpenseController.mkBody g d amount "EQUAL" (Some splitBetween)) = Ok splits
    /\ total (calculateBalances [storedExpense payer amount splits]) = 0%float
    /\ minimizeCashFlow fuel (calculateBalances [storedExpense payer amount splits])
       = Some txs
    /\ (forall u, In u (map p_userId splitBetween) -> u <> payer ->
          sent u txs = units q /\ received u txs = 0%float)
    /\ sent payer txs = 0%float
    /\ received payer txs
       = units (if existsb (String.eqb payer) (map p_userId splitBetween)
                then (n - 1) * q else n * q).
Proof.
  intros Hg Hd Hne Hnd Hq Hb Hfuel n amount.
  assert (2 ^ 52 < 2 ^ 53) as Hpow by (vm_compute; reflexivity).
  assert (0 < n) as Hn by (unfold n; destruct splitBetween; [congruence | simpl; lia]).
  set (e := (payer, n * q, map (fun p => (p_userId p, q)) splitBetween)).
  set (zs := calculateBalancesZ [e]).
  assert (storedExpense payer amount
            (map (fun p => mkSplit (p_userId p) (units q) None) splitBetween)
          = expense e) as Hstored.
  { unfold storedExpense, expense, e, amount. cbn [fst snd]. rewrite !map_map. reflexivity. }
  destruct (calculateBalances_whole_from [e] []) as (H1 & H2 & H3).
  { constructor; [|constructor]. unfold e. cbn [fst snd]. apply equal_shares_total. }
  { unfold e. cbn [map sumZ fold_right]. unfold expenseMagnitude. cbn [fst snd].
    rewrite equal_shares_magnitude by lia. fold n.
    change (magnitude []) with 0. rewrite Z.abs_eq by nia. fold n in Hb. lia. }
  change (fold_left addExpenseZ [e] []) with zs in H1, H2, H3.
  change (balances []) with (@nil (string * JS.number)) in H1.
  change (fold_left addExpense (map expense [e]) []) with (calculateBalances [expense e]) in H1.
  change (sumZ (map snd [])) with 0 in H3.
  destruct (equal_expense_ledger payer q splitBetween Hnd Hq)
    as (Hk & Hpayer & Hids & Hlen & Hbp & Hbu).
  change (calculateBalancesZ
            [(payer, Z.of_nat (List.length splitBetween) * q,
              map (fun p => (p_userId p, q)) splitBetween)])
    with zs in Hk, Hpayer, Hids, Hlen, Hbp, Hbu.
  change (Z.of_nat (List.length splitBetween)) with n in Hbp.
  destruct (minimizeCashFlow_whole zs fuel H3 H2) as (ts & Hrun & Hrec & Hsent & _).
  { apply (Nat.le_trans _ _ _ Hlen). apply le_n_S. exact Hfuel. }
  exists (map (fun p => mkSplit (p_userId p) (units q) None) splitBetween), (map transfer ts).
  split; [apply createExpense_equal_whole; try assumption; fold n; lia|].
  rewrite Hstored, H1.
  split; [rewrite total_whole by assumption; rewrite H3; reflexivity|].
  split; [assumption|].
  split; [|split].
  - intros u Hu Hup.
    destruct (owed_balanceOf u zs Hk (Hids u Hu)) as [Ho Hs].
    rewrite Hsent, Hrec, Ho, Hs, (Hbu u Hu Hup).
    replace (Z.max (- - q) 0) with q by lia. replace (Z.max (- q) 0) with 0 by lia.
    split; reflexivity.
  - destruct (owed_balanceOf payer zs Hk Hpayer) as [_ Hs].
    rewrite Hsent, Hs, Hbp.
    replace (Z.max _ 0) with 0; [reflexivity|].
    destruct (existsb (String.eqb payer) (map p_userId splitBetween)); nia.
  - destruct (owed_balanceOf payer zs Hk Hpayer) as [Ho _].
    rewrite Hrec, Ho, Hbp. f_equal.
    destruct (existsb (String.eqb payer) (map p_userId splitBetween)); nia.
Qed.

(** Scenario 1 with any amounts of the kind: A pays 90 for A, B and C. *)
Lemma equal_split_expense_is_settled_witness :
  exists splits txs,
    ExpenseController.createExpense true true
      (ExpenseController.mkBody "g1" "dinner" (units 90) "EQUAL"
         (Some [participant "A"; participant "B"; participant "C"])) = Ok splits
    /\ total (calculateBalances [storedExpense "A" (units 90) splits]) = 0%float
    /\ minimizeCashFlow 3 (calculateBalances [storedExpense "A" (units 90) splits])
       = Some txs
    /\ (forall u, In u ["A"; "B"; "C"] -> u <> "A" ->
          sent u txs = units 30 /\ received u txs = 0%float)
    /\ sent "A" txs = 0%float
    /\ received "A" txs = units 60.
Proof.
  apply (equal_split_expense_is_settled "A" "g1" "dinner" 30
           [participant "A"; participant "B"; participant "C"] 3).
  - discriminate.
  - discriminate.
  - discriminate.
  - repeat constructor; simpl; intuition discriminate.
  - lia.
  - simpl. lia.
  - simpl. apply Nat.le_refl.
Defined.

End EqualExpenseResults.

(** * The settlement loop without a debtor, or without a creditor *)

Section OneSidedPass.
Import BalanceService Units WholeLedger.
Local Open Scope Z_scope.

(** A [reduce] whose test never holds returns its initial index. *)
Lemma best_index_unchanged (test : JS.number -> JS.number -> bool) arr v :
  test v v = false -> b_amount (at_index arr 0) = v ->
  forall suf k,
    Forall (fun b => b_amount b = v) suf ->
    fold_left
      (fun idx (ix : nat * Balance) =>
         if test (b_amount (snd ix)) (b_amount (at_index arr idx)) then fst ix else idx)
      (combine (seq k (List.length suf)) suf) 0%nat
    = 0%nat.
Proof.
  intros Ht H0. induction suf as [|b suf IH]; intros k HF; [reflexivity|].
  apply Forall_cons_iff in HF as [Hb HF'].
  cbn [List.length seq combine fold_left snd fst].
  rewrite Hb, H0, Ht. apply IH. assumption.
Qed.

Lemma working_all_equal zs v :
  Forall (fun e => snd e = v) zs -> Forall (fun b => b_amount b = units v) (working zs).
Proof.
  induction 1 as [|e zs He _ IH]; constructor; [simpl; rewrite He; reflexivity | exact IH].
Qed.

Lemma extremes_all_equal zs v :
  zs <> [] -> Z.abs v < 2 ^ 53 -> Forall (fun e => snd e = v) zs ->
  maxCreditIndex (working zs) = 0%nat /\ maxDebitIndex (working zs) = 0%nat.
Proof.
  intros Hne Hv HF.
  assert (b_amount (at_index (working zs) 0) = units v) as H0.
  { destruct zs as [|e zs]; [contradiction|]. inversion HF; subst. reflexivity. }
  pose proof (working_all_equal zs v HF) as HW.
  split.
  - unfold maxCreditIndex, indexed.
    apply (best_index_unchanged JS.gt (working zs) (units v)); try assumption.
    unfold JS.gt. rewrite units_ltb by assumption. apply Z.ltb_irrefl.
  - unfold maxDebitIndex, indexed.
    apply (best_index_unchanged JS.lt (working zs) (units v)); try assumption.
    unfold JS.lt. rewrite units_ltb by assumption. apply Z.ltb_irrefl.
Qed.

(** One pass that selects the same entry as creditor and as debtor: the
    entry is left as it was and a transfer from its user to the same user
    is recorded. *)
Lemma pass_same_entry (W1 W3 : list Balance) u c txs :
  let arr := (W1 ++ mkBalance u (units c) :: W3)%list in
  c <> 0 -> Z.abs c + Z.abs c < 2 ^ 53 ->
  maxCreditIndex arr = List.length W1 ->
  maxDebitIndex arr = List.length W1 ->
  iteration (arr, txs) = (arr, (txs ++ [mkTransaction u u (units (Z.abs c))])%list).
Proof.
  intros arr Hc Hb Hci Hdi.
  unfold iteration, recordedTransaction, removeSettled, updateBalances, minAmountOf.
  rewrite Hci, Hdi. unfold arr.
  rewrite !at_index_app_here. cbn [b_amount b_userId].
  unfold JS.abs at 1 2 3 4. rewrite !units_abs by lia.
  rewrite !units_min by (rewrite Z.abs_idemp; lia). rewrite Z.min_id.
  rewrite units_toFixed2 by (rewrite Z.abs_idemp; lia).
  rewrite units_sub by lia.
  rewrite set_amount_app_here. cbn [b_userId].
  rewrite at_index_app_here. cbn [b_amount].
  rewrite units_add by lia.
  rewrite set_amount_app_here. cbn [b_userId].
  rewrite at_index_app_here. cbn [b_amount].
  replace (c - Z.abs c + Z.abs c) with c by lia.
  rewrite !units_below_eps by lia.
  replace (c =? 0) with false by (symmetry; apply Z.eqb_neq; assumption).
  reflexivity.
Qed.

Lemma oneSided_nonzero zs : oneSided zs -> Forall (fun e => snd e <> 0) zs.
Proof.
  intros [H | H]; (eapply Forall_impl; [|exact H]); simpl; intros e He; lia.
Qed.

Lemma magnitude_split l1 ux x l2 uy y l3 :
  magnitude (l1 ++ (ux, x) :: l2 ++ (uy, y) :: l3)
  = magnitude l1 + Z.abs x + magnitude l2 + Z.abs y + magnitude l3.
Proof.
  unfold magnitude. rewrite !map_app. cbn [map]. rewrite !map_app. cbn [map snd].
  rewrite sumZ_app. cbn [sumZ fold_right]. rewrite sumZ_app. cbn [sumZ fold_right].
  fold (sumZ (map (fun e : string * Z => Z.abs (snd e)) l3)). lia.
Qed.

Lemma oneSided_split l1 ux x x' l2 uy y y' l3 :
  oneSided (l1 ++ (ux, x) :: l2 ++ (uy, y) :: l3) ->
  (0 < x -> 0 < y -> 0 < x' /\ 0 < y') ->
  (x < 0 -> y < 0 -> x' < 0 /\ y' < 0) ->
  oneSided (l1 ++ (ux, x') :: l2 ++ (uy, y') :: l3).
Proof.
  intros [H | H] Hp Hn; [left | right];
    apply Forall_app in H as [H1 Hx]; inversion Hx as [|? ? Hx0 Hx']; subst;
    apply Forall_app in Hx' as [H2 Hy]; inversion Hy as [|? ? Hy0 H3]; subst;
    cbn [snd] in Hx0, Hy0;
    (apply Forall_app; split; [assumption|]); (constructor; [cbn [snd]; tauto|]);
    (apply Forall_app; split; [assumption|]); (constructor; [cbn [snd]; tauto | assumption]).
Qed.

(** One pass on balances of one sign: no entry is settled. *)
Lemma pass_oneSided zs txs :
  oneSided zs -> (1 < List.length zs)%nat -> magnitude zs < 2 ^ 53 ->
  exists zs' tx,
    iteration (working zs, txs) = (working zs', (txs ++ [tx])%list)
    /\ oneSided zs' /\ List.length zs' = List.length zs /\ magnitude zs' = magnitude zs.
Proof.
  intros Hs Hlen Hmag.
  assert (Hne : zs <> []) by (intros ->; simpl in Hlen; lia).
  assert (Hb : bounded zs) by (apply magnitude_bounded, Hmag).
  pose proof (oneSided_nonzero zs Hs) as Hnz.
  destruct (maxCreditIndex_whole zs Hne Hb) as [Hci Hmax].
  destruct (maxDebitIndex_whole zs Hne Hb) as [Hdi Hmin].
  destruct (Z.eq_dec (snd (nth (maxCreditIndex (working zs)) zs nobody))
                     (snd (nth (maxDebitIndex (working zs)) zs nobody))) as [Heq | Hneq].
  - (* all the amounts are equal: the first entry is both creditor and debtor *)
    assert (Forall (fun e => snd e = snd (nth (maxCreditIndex (working zs)) zs nobody)) zs)
      as Hall.
    { apply Forall_forall. intros e He. destruct (In_nth _ _ nobody He) as (j & Hj & <-).
      specialize (Hmax j Hj). specialize (Hmin j Hj). lia. }
    assert (Z.abs (snd (nth (maxCreditIndex (working zs)) zs nobody)) < 2 ^ 53) as Hv
      by (apply bounded_nth; assumption).
    remember (snd (nth (maxCreditIndex (working zs)) zs nobody)) as v eqn:Ev. clear Ev.
    destruct (extremes_all_equal zs v Hne Hv Hall) as [Ec Ed].
    clear Heq Hci Hmax Hdi Hmin.
    destruct zs as [|[u c] [|[u' c'] zs]]; [contradiction | simpl in Hlen; lia |].
    apply Forall_cons_iff in Hall as [Hc Hall'].
    apply Forall_cons_iff in Hall' as [Hc' _].
    cbn [snd] in Hc, Hc'.
    exists ((u, c) :: (u', c') :: zs), (mkTransaction u u (units (Z.abs c))).
    split; [|split; [assumption | split; reflexivity]].
    apply (pass_same_entry [] (working ((u', c') :: zs)) u c txs).
    + apply Forall_cons_iff in Hnz as [Hnz _]. exact Hnz.
    + change (magnitude ((u, c) :: (u', c') :: zs))
        with (Z.abs c + (Z.abs c' + magnitude zs)) in Hmag.
      pose proof (magnitude_nonneg zs) as Hp.
      assert (c' = c) as E by congruence. rewrite E in Hmag. lia.
    + exact Ec.
    + exact Ed.
  - set (ci := maxCreditIndex (working zs)) in *.
    set (di := maxDebitIndex (working zs)) in *.
    pose proof (Hmax di Hdi) as Hcd.
    destruct (nth ci zs nobody) as [uc c] eqn:Ec.
    destruct (nth di zs nobody) as [ud d] eqn:Ed.
    cbn [snd] in Hneq, Hcd.
    assert (Hcin : In (uc, c) zs) by (rewrite <- Ec; apply nth_In; assumption).
    assert (Hdin : In (ud, d) zs) by (rewrite <- Ed; apply nth_In; assumption).
    set (m := Z.min (Z.abs c) (Z.abs d)).
    assert (Hsigns : (0 < d /\ d < c) \/ (d < c /\ c < 0)).
    { destruct Hs as [H | H]; rewrite Forall_forall in H;
        pose proof (H _ Hcin) as H1; pose proof (H _ Hdin) as H2; cbn [snd] in H1, H2; lia. }
    destruct (Nat.lt_total ci di) as [Hlt | [Hsame | Hgt]].
    + destruct (split_at_two nobody zs ci di Hlt Hdi) as (l1 & l2 & l3 & Ez & Hl1 & Hl2).
      rewrite Ec, Ed in Ez.
      assert (magnitude zs = magnitude l1 + Z.abs c + magnitude l2 + Z.abs d + magnitude l3)
        as Hmz by (rewrite Ez at 1; apply magnitude_split).
      pose proof (magnitude_nonneg l1). pose proof (magnitude_nonneg l2).
      pose proof (magnitude_nonneg l3).
      exists (l1 ++ (uc, c - m) :: l2 ++ (ud, d + m) :: l3)%list, (mkTransaction ud uc (units m)).
      split; [|split; [|split]].
      * rewrite Ez at 1. rewrite !working_split.
        rewrite (pass_credit_first (working l1) (working l2) (working l3) uc ud c d txs);
          try (fold m; unfold m; lia).
        -- fold m.
           replace (c - m =? 0) with false by (symmetry; apply Z.eqb_neq; unfold m; lia).
           replace (d + m =? 0) with false by (symmetry; apply Z.eqb_neq; unfold m; lia).
           reflexivity.
        -- rewrite <- working_split, <- Ez. fold ci. rewrite working_length. lia.
        -- rewrite <- working_split, <- Ez. fold di. rewrite !working_length. lia.
      * apply (oneSided_split l1 uc c (c - m) l2 ud d (d + m) l3);
          [rewrite <- Ez; assumption | unfold m; lia | unfold m; lia].
      * rewrite Ez. rewrite !length_app. cbn [List.length]. rewrite !length_app.
        reflexivity.
      * rewrite Hmz, magnitude_split. unfold m. lia.
    + exfalso. rewrite Hsame, Ed in Ec. injection Ec as _ E. lia.
    + destruct (split_at_two nobody zs di ci Hgt Hci) as (l1 & l2 & l3 & Ez & Hl1 & Hl2).
      rewrite Ec, Ed in Ez.
      assert (magnitude zs = magnitude l1 + Z.abs d + magnitude l2 + Z.abs c + magnitude l3)
        as Hmz by (rewrite Ez at 1; apply magnitude_split).
      pose proof (magnitude_nonneg l1). pose proof (magnitude_nonneg l2).
      pose proof (magnitude_nonneg l3).
      exists (l1 ++ (ud, d + m) :: l2 ++ (uc, c - m) :: l3)%list, (mkTransaction ud uc (units m)).
      split; [|split; [|split]].
      * rewrite Ez at 1. rewrite !working_split.
        rewrite (pass_debit_first (working l1) (working l2) (working l3) uc ud c d txs);
          try (fold m; unfold m; lia).
        -- fold m.
           replace (c - m =? 0) with false by (symmetry; apply Z.eqb_neq; unfold m; lia).
           replace (d + m =? 0) with false by (symmetry; apply Z.eqb_neq; unfold m; lia).
           reflexivity.
        -- rewrite <- working_split, <- Ez. fold ci. rewrite !working_length. lia.
        -- rewrite <- working_split, <- Ez. fold di. rewrite working_length. lia.
      * apply (oneSided_split l1 ud d (d + m) l2 uc c (c - m) l3);
          [rewrite <- Ez; assumption | unfold m; lia | unfold m; lia].
      * rewrite Ez. rewrite !length_app. cbn [List.length]. rewrite !length_app.
        reflexivity.
      * rewrite Hmz, magnitude_split. unfold m. lia.
Qed.

Lemma loop_oneSided fuel : forall zs txs,
  oneSided zs -> (1 < List.length zs)%nat -> magnitude zs < 2 ^ 53 ->
  while_loop fuel (working zs, txs) = None.
Proof.
  induction fuel as [|fuel IH]; intros zs txs Hs Hlen Hmag.
  - apply while_loop_out_of_fuel. cbn [fst]. rewrite working_length. assumption.
  - rewrite while_loop_step by (cbn [fst]; rewrite working_length; assumption).
    destruct (pass_oneSided zs txs Hs Hlen Hmag) as (zs' & tx & Hit & Hs' & Hl' & Hm').
    rewrite Hit. apply IH; [assumption | rewrite Hl'; assumption | rewrite Hm'; assumption].
Qed.

Lemma filter_all {A : Type} (f : A -> bool) l :
  Forall (fun x => f x = true) l -> filter f l = l.
Proof.
  induction 1 as [|x l Hx _ IH]; simpl; [reflexivity|]. rewrite Hx, IH. reflexivity.
Qed.

(** X17.  [minimizeCashFlow] never returns on a map of at least two
    whole-number balances (absolute values adding up to less than 2^53)
    that are all above zero, or all below zero: no pass of its loop
    settles an entry, so the working array keeps its length. *)
Theorem minimizeCashFlow_never_returns_on_one_sided_balances zs :
  oneSided zs -> (1 < List.length zs)%nat -> magnitude zs < 2 ^ 53 ->
  diverges (balances zs).
Proof.
  intros Hs Hlen Hmag fuel. unfold minimizeCashFlow.
  rewrite initialState_whole by (apply magnitude_bounded; assumption).
  rewrite filter_all.
  - apply loop_oneSided; assumption.
  - eapply Forall_impl; [|exact (oneSided_nonzero zs Hs)].
    simpl. intros e He. apply negb_true_iff, Z.eqb_neq. assumption.
Qed.

Lemma minimizeCashFlow_never_returns_on_one_sided_balances_witness :
  diverges (balances [("A"%string, 10); ("B"%string, 5); ("C"%string, 5)]).
Proof.
  apply (minimizeCashFlow_never_returns_on_one_sided_balances
           [("A"%string, 10); ("B"%string, 5); ("C"%string, 5)]).
  - left. repeat constructor.
  - simpl. apply Nat.lt_succ_diag_r || (apply le_n_S, le_n_S, Nat.le_0_l).
  - reflexivity.
Defined.

End OneSidedPass.

(** * Updating the amount of an expense *)

Section LedgerTotals.
Import ExpenseService BalanceService Units WholeLedger.
Local Open Scope string_scope.
Local Open Scope Z_scope.

Lemma sumZ_map_cons {A : Type} (f : A -> Z) x l :
  sumZ (map f (x :: l)) = f x + sumZ (map f l).
Proof. reflexivity. Qed.

Lemma expenseMagnitudes_nonneg es : 0 <= sumZ (map expenseMagnitude es).
Proof.
  induction es as [|e es IH]; simpl; [lia|].
  unfold expenseMagnitude at 1. pose proof (magnitude_nonneg (snd e)). lia.
Qed.

(** The balances of a whole-number ledger sum to what the amounts exceed
    the splits by. *)
Lemma calculateBalances_whole_total es : forall zs,
  magnitude zs + sumZ (map expenseMagnitude es) < 2 ^ 53 ->
  fold_left addExpense (map expense es) (balances zs)
  = balances (fold_left addExpenseZ es zs)
  /\ magnitude (fold_left addExpenseZ es zs) <= magnitude zs + sumZ (map expenseMagnitude es)
  /\ sumZ (map snd (fold_left addExpenseZ es zs))
     = sumZ (map snd zs)
       + sumZ (map (fun e => snd (fst e) - sumZ (map snd (snd e))) es).
Proof.
  induction es as [|e es IH]; intros zs Hm.
  - simpl. split; [reflexivity|]. split; lia.
  - change (sumZ (map expenseMagnitude (e :: es)))
      with (expenseMagnitude e + sumZ (map expenseMagnitude es)) in *.
    pose proof (expenseMagnitudes_nonneg es) as Hn.
    destruct (addExpense_whole zs e) as (H1 & H2 & H3); [lia|].
    cbn [map fold_left]. rewrite H1.
    destruct (IH (addExpenseZ zs e)) as (H4 & H5 & H6); [lia|].
    split; [exact H4|]. split; [lia|].
    rewrite H6, H3. cbn [sumZ fold_right].
    fold (sumZ (map (fun e0 : string * Z * list (string * Z) =>
                       snd (fst e0) - sumZ (map snd (snd e0))) es)). lia.
Qed.

Lemma balanced_total es :
  Forall (fun e => sumZ (map snd (snd e)) = snd (fst e)) es ->
  sumZ (map (fun e : string * Z * list (string * Z) =>
               snd (fst e) - sumZ (map snd (snd e))) es) = 0.
Proof.
  induction 1 as [|e es He _ IH]; [reflexivity|].
  cbn [map sumZ fold_right].
  fold (sumZ (map (fun e0 : string * Z * list (string * Z) =>
                     snd (fst e0) - sumZ (map snd (snd e0))) es)). lia.
Qed.

End LedgerTotals.

Section AmountUpdate.
Import ExpenseService BalanceService Units WholeLedger ExpenseUpdateService.
Local Open Scope string_scope.
Local Open Scope Z_scope.

Lemma truthy_positive z :
  0 < z < 2 ^ 53 ->
  truthy_number (Some (units z)) = true
  /\ JS.isNaN (units z) = false /\ JS.le (units z) 0%float = false.
Proof.
  intros Hz.
  destruct (positive_number (units z)) as (Hnan & Hzero & Hle).
  { unfold JS.gt. change 0%float with (units 0).
    rewrite units_ltb by (simpl; lia). apply Z.ltb_lt. lia. }
  unfold truthy_number, JS.isNaN. rewrite Hnan, Hzero, Hle. repeat split.
Qed.

(** X18.  An update that carries only a new amount.  The controller and the
    service accept it for a member of the group, store the new amount and
    leave the splits of the expense as they are.  In a whole-number ledger
    whose other expenses are split into shares that sum to their amounts,
    and where the shares of the updated expense sum to its old amount [a],
    the balances [calculateBalances] then returns sum to the difference
    [a' - a] between the new and the old amount: they no longer sum to
    zero once the amount has changed. *)
Theorem amount_only_update_unbalances_the_ledger
        before after payer d c t a a' (splits : list (string * Z)) :
  let row :=
    mkStoredExpense payer d (units a) c t
      (map (fun s => mkSplit (fst s) (units (snd s)) None) splits) in
  Forall (fun e => sumZ (map snd (snd e)) = snd (fst e)) before ->
  Forall (fun e => sumZ (map snd (snd e)) = snd (fst e)) after ->
  sumZ (map snd splits) = a ->
  0 < a' ->
  sumZ (map expenseMagnitude before) + (a' + magnitude splits)
  + sumZ (map expenseMagnitude after) < 2 ^ 53 ->
  exists row',
    ExpenseUpdateController.updateExpense (Some row) true
      (mkUpdateData "" (Some (units a')) "" "" None) = Updated row'
    /\ e_amount row' = units a'
    /\ e_splits row' = e_splits row
    /\ total (calculateBalances
                (map expense before ++ ledgerEntry row' :: map expense after))
       = units (a' - a)
    /\ (a' <> a ->
        JS.strict_neq
          (total (calculateBalances
                    (map expense before ++ ledgerEntry row' :: map expense after)))
          0%float = true).
Proof.
  intros row Hb Ha Hs Hpos Hmag.
  pose proof (expenseMagnitudes_nonneg before) as Hn1.
  pose proof (expenseMagnitudes_nonneg after) as Hn2.
  pose proof (magnitude_nonneg splits) as Hn3.
  destruct (truthy_positive a') as (Ht & Hnan & Hle); [lia|].
  exists (mkStoredExpense payer d (units a') c t
            (map (fun s => mkSplit (fst s) (units (snd s)) None) splits)).
  assert (total (calculateBalances
                   (map expense before
                    ++ ledgerEntry
                         (mkStoredExpense payer d (units a') c t
                            (map (fun s => mkSplit (fst s) (units (snd s)) None) splits))
                    :: map expense after))
          = units (a' - a)) as Htotal.
  { assert (ledgerEntry
              (mkStoredExpense payer d (units a') c t
                 (map (fun s => mkSplit (fst s) (units (snd s)) None) splits))
            = expense (payer, a', splits)) as ->.
    { unfold ledgerEntry, storedExpense, expense. cbn [e_paidById e_amount e_splits fst snd].
      rewrite map_map. reflexivity. }
    change (expense (payer, a', splits) :: map expense after)
      with (map expense ((payer, a', splits) :: after)).
    rewrite <- map_app.
    destruct (calculateBalances_whole_total (before ++ (payer, a', splits) :: after) [])
      as (H1 & H2 & H3).
    { change (magnitude []) with 0. rewrite map_app, sumZ_app, sumZ_map_cons.
      unfold expenseMagnitude at 2. cbn [fst snd]. rewrite Z.abs_eq by lia. lia. }
    unfold calculateBalances. change (@nil (string * JS.number)) with (balances []).
    rewrite H1, total_whole.
    - rewrite H3. f_equal. change (sumZ (map snd [])) with 0.
      rewrite map_app, sumZ_app, sumZ_map_cons. cbn [fst snd].
      rewrite (balanced_total before Hb), (balanced_total after Ha). lia.
    - change (magnitude []) with 0 in H2.
      rewrite map_app, sumZ_app, sumZ_map_cons in H2.
      unfold expenseMagnitude at 2 in H2. cbn [fst snd] in H2.
      rewrite Z.abs_eq in H2 by lia. lia. }
  split; [|split; [reflexivity | split; [reflexivity | split; [exact Htotal|]]]].
  - unfold ExpenseUpdateController.updateExpense.
    cbn [description amount category splitType splitBetween].
    rewrite Ht, Hnan, Hle. cbn [orb andb negb truthy_string String.eqb].
    unfold ExpenseUpdateService.updateExpense, recomputedSplits.
    cbn [description amount category splitType splitBetween negb truthy_string String.eqb
         e_paidById e_description e_amount e_category e_splitType e_splits row].
    rewrite !units_parseFloat by lia. rewrite Ht. reflexivity.
  - intros Hne. rewrite Htotal. unfold JS.strict_neq. change 0%float with (units 0).
    assert (Z.abs (a' - a) < 2 ^ 53) as Hd.
    { assert (Z.abs a <= magnitude splits); [|lia].
      rewrite <- Hs. clear. unfold magnitude.
      induction splits as [|s l IH]; simpl; [lia|].
      fold (sumZ (map snd l)). fold (sumZ (map (fun e : string * Z => Z.abs (snd e)) l)). lia. }
    rewrite units_eqb by (simpl; lia).
    apply negb_true_iff, Z.eqb_neq. lia.
Qed.

(** A pays 90 for A, B and C; B pays 40 for A and B; then the amount of
    the first expense is changed to 120. *)
Lemma amount_only_update_unbalances_the_ledger_witness :
  exists row',
    ExpenseUpdateController.updateExpense
      (Some (mkStoredExpense "A" "dinner" (units 90) "Food" "EQUAL"
               (map (fun s => mkSplit (fst s) (units (snd s)) None)
                  [("A", 30); ("B", 30); ("C", 30)])))
      true (mkUpdateData "" (Some (units 120)) "" "" None) = Updated row'
    /\ e_amount row' = units 120
    /\ e_splits row'
       = e_splits (mkStoredExpense "A" "dinner" (units 90) "Food" "EQUAL"
                     (map (fun s => mkSplit (fst s) (units (snd s)) None)
                        [("A", 30); ("B", 30); ("C", 30)]))
    /\ total (calculateBalances
                (map expense [] ++ ledgerEntry row'
                 :: map expense [("B", 40, [("A", 20); ("B", 20)])]))
       = units (120 - 90)
    /\ (120 <> 90 ->
        JS.strict_neq
          (total (calculateBalances
                    (map expense [] ++ ledgerEntry row'
                     :: map expense [("B", 40, [("A", 20); ("B", 20)])])))
          0%float = true).
Proof.
  apply (amount_only_update_unbalances_the_ledger
           [] [("B", 40, [("A", 20); ("B", 20)])] "A" "dinner" "Food" "EQUAL" 90 120
           [("A", 30); ("B", 30); ("C", 30)]).
  - constructor.
  - repeat constructor.
  - reflexivity.
  - lia.
  - reflexivity.
Defined.

End AmountUpdate.

(** * The group report on a one-sided ledger *)

Section OneSidedReport.
Import BalanceService BalanceReports Units WholeLedger.
Local Open Scope string_scope.
Local Open Scope Z_scope.

(** X19.  [getGroupBalances] does not answer a member of a group whose
    whole-number ledger leaves at least two users with a balance and every
    balance above zero, or every balance below zero: its call to
    [minimizeCashFlow] never returns, whatever the two user queries
    give. *)
Theorem getGroupBalances_never_answers_on_a_one_sided_ledger es users transactionUsers :
  sumZ (map expenseMagnitude es) < 2 ^ 53 ->
  oneSided (calculateBalancesZ es) ->
  (1 < List.length (calculateBalancesZ es))%nat ->
  forall fuel, getGroupBalances fuel true (map expense es) users transactionUsers = None.
Proof.
  intros Hmag Hs Hlen fuel.
  destruct (calculateBalances_whole_total es []) as (H1 & H2 & _).
  { change (magnitude []) with 0. lia. }
  change (magnitude []) with 0 in H2.
  change (fold_left addExpenseZ es []) with (calculateBalancesZ es) in H1, H2.
  change (fold_left addExpense (map expense es) (balances []))
    with (calculateBalances (map expense es)) in H1.
  unfold getGroupBalances. cbn [negb]. rewrite H1.
  unfold minimizeCashFlow.
  rewrite initialState_whole by (apply magnitude_bounded; lia).
  rewrite filter_all.
  - rewrite loop_oneSided; [reflexivity | assumption | assumption | lia].
  - eapply Forall_impl; [|exact (oneSided_nonzero _ Hs)].
    simpl. intros e He. apply negb_true_iff, Z.eqb_neq. assumption.
Qed.

(** A paid 100 and B paid 50, each for a share of their own that is 10
    short of the amount. *)
Lemma getGroupBalances_never_answers_on_a_one_sided_ledger_witness :
  getGroupBalances 1000 true
    (map expense [("A", 100, [("A", 90)]); ("B", 50, [("B", 40)])]) [] [] = None.
Proof.
  apply (getGroupBalances_never_answers_on_a_one_sided_ledger
           [("A", 100, [("A", 90)]); ("B", 50, [("B", 40)])] [] []).
  - reflexivity.
  - left. repeat constructor.
  - simpl. apply Nat.lt_succ_diag_r.
Defined.

End OneSidedReport.

(** * The order of the expenses *)

Section ExpenseOrder.
Import BalanceService Units WholeLedger.
Local Open Scope string_scope.
Local Open Scope Z_scope.

Lemma sumZ_Permutation l l' : Permutation l l' -> sumZ l = sumZ l'.
Proof.
  induction 1 as [| x l l' _ IH | x y l | l l' l'' _ IH1 _ IH2]; simpl in *; lia.
Qed.

Lemma balanceOf_debits u splits : forall zs,
  balanceOf u (fold_left debitZ splits zs)
  = balanceOf u zs
    - sumZ (map (fun s : string * Z => if String.eqb (fst s) u then snd s else 0) splits).
Proof.
  induction splits as [|s splits IH]; intros zs; cbn [fold_left].
  - simpl. lia.
  - rewrite IH. unfold debitZ at 1. rewrite balanceOf_addZ, sumZ_map_cons.
    destruct (String.eqb (fst s) u); lia.
Qed.

Lemma debits_keys_Z u splits : forall zs,
  In u (map fst (fold_left debitZ splits zs))
  <-> In u (map fst splits) \/ In u (map fst zs).
Proof.
  induction splits as [|s splits IH]; intros zs; cbn [fold_left map In].
  - intuition.
  - rewrite IH. unfold debitZ. rewrite addZ_keys. intuition.
Qed.

(** What one expense adds to the balance of one user, and whether it
    names the user. *)
Lemma balanceOf_addExpenseZ u zs e :
  balanceOf u (addExpenseZ zs e)
  = balanceOf u zs
    + ((if String.eqb (fst (fst e)) u then snd (fst e) else 0)
       - sumZ (map (fun s : string * Z => if String.eqb (fst s) u then snd s else 0) (snd e))).
Proof.
  unfold addExpenseZ. rewrite balanceOf_debits, balanceOf_addZ. lia.
Qed.

Lemma keys_addExpenseZ u zs e :
  In u (map fst (addExpenseZ zs e))
  <-> (u = fst (fst e) \/ In u (map fst (snd e))) \/ In u (map fst zs).
Proof.
  unfold addExpenseZ. rewrite debits_keys_Z, addZ_keys. intuition.
Qed.

Lemma balanceOf_ledger u es : forall zs,
  balanceOf u (fold_left addExpenseZ es zs)
  = balanceOf u zs
    + sumZ (map (fun e : string * Z * list (string * Z) =>
                   (if String.eqb (fst (fst e)) u then snd (fst e) else 0)
                   - sumZ (map (fun s : string * Z =>
                                  if String.eqb (fst s) u then snd s else 0) (snd e))) es).
Proof.
  induction es as [|e es IH]; intros zs; cbn [fold_left].
  - simpl. lia.
  - rewrite IH, balanceOf_addExpenseZ, sumZ_map_cons. lia.
Qed.

Lemma keys_ledger u es : forall zs,
  In u (map fst (fold_left addExpenseZ es zs))
  <-> Exists (fun e => u = fst (fst e) \/ In u (map fst (snd e))) es \/ In u (map fst zs).
Proof.
  induction es as [|e es IH]; intros zs; cbn [fold_left].
  - rewrite Exists_nil. intuition.
  - rewrite IH, keys_addExpenseZ, Exists_cons. intuition.
Qed.

Lemma find_balanceOf u zs :
  find (fun e : string * Z => String.eqb (fst e) u) zs
  = if existsb (String.eqb u) (map fst zs) then Some (u, balanceOf u zs) else None.
Proof.
  induction zs as [|[k v] zs IH]; [reflexivity|].
  cbn [find map existsb fst]. rewrite (String.eqb_sym u k).
  destruct (String.eqb_spec k u) as [-> | Hne]; cbn [orb].
  - unfold balanceOf. cbn [find fst]. rewrite String.eqb_refl. reflexivity.
  - rewrite IH.
    assert (balanceOf u ((k, v) :: zs) = balanceOf u zs) as ->; [|reflexivity].
    unfold balanceOf. cbn [find fst].
    replace (String.eqb k u) with false by (symmetry; apply String.eqb_neq; assumption).
    reflexivity.
Qed.

Lemma existsb_keys u (l l' : list string) :
  (In u l <-> In u l') -> existsb (String.eqb u) l = existsb (String.eqb u) l'.
Proof.
  intros H.
  assert (forall l0, existsb (String.eqb u) l0 = true <-> In u l0) as Hx.
  { intros l0. rewrite existsb_exists. split.
    - intros (x & Hx & E). apply String.eqb_eq in E. subst. assumption.
    - intros Hin. exists u. split; [assumption | apply String.eqb_refl]. }
  destruct (existsb (String.eqb u) l) eqn:E1; destruct (existsb (String.eqb u) l') eqn:E2;
    try reflexivity.
  - apply Hx, H, Hx in E1. congruence.
  - apply Hx, H, Hx in E2. congruence.
Qed.

(** X20.  The query of the expenses of a group fixes no order.  On
    whole-number ledgers (absolute values adding up to less than 2^53)
    the order does not matter: two lists with the same expenses give every
    user the same entry in the map [calculateBalances] returns, or no entry
    in both. *)
Theorem calculateBalances_ignores_the_order_of_whole_expenses es es' u :
  Permutation es es' ->
  sumZ (map expenseMagnitude es) < 2 ^ 53 ->
  map_get u (calculateBalances (map expense es))
  = map_get u (calculateBalances (map expense es')).
Proof.
  intros Hp Hmag.
  assert (sumZ (map expenseMagnitude es') = sumZ (map expenseMagnitude es)) as Hmag'
    by (symmetry; apply sumZ_Permutation, Permutation_map; assumption).
  destruct (calculateBalances_whole_total es []) as (H1 & _ & _);
    [change (magnitude []) with 0; lia|].
  destruct (calculateBalances_whole_total es' []) as (H1' & _ & _);
    [change (magnitude []) with 0; lia|].
  unfold calculateBalances. change (@nil (string * JS.number)) with (balances []).
  rewrite H1, H1', !map_get_whole, !find_balanceOf, !balanceOf_ledger.
  rewrite (existsb_keys u (map fst (fold_left addExpenseZ es []))
             (map fst (fold_left addExpenseZ es' []))).
  - rewrite (sumZ_Permutation _ _ (Permutation_map _ Hp)). reflexivity.
  - rewrite !keys_ledger. rewrite !Exists_exists.
    split; (intros [(e & He & Hu) | Hin]; [left | right; assumption]);
      exists e; (split; [|assumption]).
    + apply (Permutation_in _ Hp). assumption.
    + apply (Permutation_in _ (Permutation_sym Hp)). assumption.
Qed.

Lemma calculateBalances_ignores_the_order_of_whole_expenses_witness :
  map_get "A" (calculateBalances
                 (map expense [("A", 90, [("A", 30); ("B", 30); ("C", 30)]);
                               ("B", 40, [("A", 20); ("B", 20)])]))
  = map_get "A" (calculateBalances
                   (map expense [("B", 40, [("A", 20); ("B", 20)]);
                                 ("A", 90, [("A", 30); ("B", 30); ("C", 30)])])).
Proof.
  apply (calculateBalances_ignores_the_order_of_whole_expenses
           [("A", 90, [("A", 30); ("B", 30); ("C", 30)]); ("B", 40, [("A", 20); ("B", 20)])]
           [("B", 40, [("A", 20); ("B", 20)]); ("A", 90, [("A", 30); ("B", 30); ("C", 30)])]
           "A").
  - apply perm_swap.
  - reflexivity.
Defined.

End ExpenseOrder.

Section FractionOrder.
Import BalanceService.
Local Open Scope string_scope.
Local Open Scope float_scope.

(** With fractional amounts the order does matter: A pays 0.1, 0.2 and
    0.3 for B. *)
Lemma calculateBalances_depends_on_the_order_of_fractions :
  map_get "A"
    (calculateBalances
       [mkExpense "A" 0.1 [mkExpenseSplit "B" 0.1]; mkExpense "A" 0.2 [mkExpenseSplit "B" 0.2];
        mkExpense "A" 0.3 [mkExpenseSplit "B" 0.3]])
  = Some 0.6000000000000001
  /\ map_get "A"
       (calculateBalances
          [mkExpense "A" 0.3 [mkExpenseSplit "B" 0.3]; mkExpense "A" 0.2 [mkExpenseSplit "B" 0.2];
           mkExpense "A" 0.1 [mkExpenseSplit "B" 0.1]])
     = Some 0.6.
Proof. split; reflexivity. Qed.

End FractionOrder.
